(* ===== verification/_CoqProject ===== *)
-Q . S2P
Prelude.v
Binary.v
Sha256.v
EC.v
EncoderCache.v
XorCodec.v
EcExamples.v
Header.v
ShardStore.v
MemStore.v
ObjectStore.v
ObjectWrite.v
ObjectRead.v
ObjectSpec.v
Contract.v
ObjectSim.v
FileNames.v
FileStore.v
FileRefine.v
FileContract.v
FileFaults.v
ObjectMap.v
DiskMap.v
Utf8.v
Xml.v
Json.v
Http.v
S3Types.v
Api.v
ApiLogic.v
ApiServe.v
ApiContract.v
ApiExamples.v
ApiRefine.v
Config.v
Threads.v
Pool.v
Interleave.v
FileSteps.v
FileRaces.v
HeaderRot.v
TypeSafe.v
ApiList.v
ApiText.v
MapApi.v
DiskMapApi.v
ApiThreads.v
ThreadSafe.v
FaultServer.v
DiskApi.v
Main.v
