(* ===== verification/Prelude.v ===== *)
(** * Shardstore: a verification development

    Shardstore is an object store with an S3 interface. An object is cut into
    stripes; each stripe is erasure-coded into k data and m parity shards; the
    shards are stored under checksummed headers, in memory or in files; reads
    rebuild a stripe from any k valid shards. This library models the Go
    program under src/ as executable functions and proves what it promises,
    and where it does not keep a promise, what happens instead.

    ** Parts, and the files that model them

    - Prelude, Binary: slices, machine integers with their wrap-around, errors
      ([error], [errors_Is] for errors.Is), results with panics ([result]),
      the state-passing monad [M], little-endian integers, io.ReadFull.
    - Sha256: SHA-256 in full, and hex.EncodeToString. Theorems about payloads
      are stated up to collisions where a checksum is all the code has.
    - EC (internal/ec/ec.go): parameters, Encode, Reconstruct, Verify, Join and
      the encoder cache as sequential code. The Reed-Solomon package is the
      class [ReedSolomon]; its documented behaviour is the class [RSLaws].
      XorCodec instantiates both with single-parity XOR (so the laws are
      satisfiable), and EcExamples runs the theorems on it.
    - EncoderCache (EncoderFor in ec.go): the cache under concurrency, as a
      step relation on goroutines, a shared map and a heap of encoders.
    - Header (internal/storage/header.go): shard headers and object markers,
      encoders and decoders.
    - ShardStore (internal/storage/store.go): the interface as a type class,
      and the order of listings. MemStore implements it over two maps.
    - FileNames, FileStore (store.go, FileStore): names of files and
      directories; a disk of files, with an environment that decides which
      system call fails and after how many bytes; all methods. FileRefine
      proves that it simulates MemStore ([FileStore_sim]); FileContract and
      FileFaults are about objects on disk, without and with failing calls.
    - ObjectStore (internal/storage/object.go): PutObject, GetObject, the
      streaming reader, ObjectShards, DeleteObject, generic in the store.
      ObjectWrite and ObjectRead hold the lemmas about the two paths,
      ObjectSpec the abstract state they share ([object_shards], [holds],
      [degraded], [good_count]), ObjectSim that simulating stores give
      simulating object stores (class [StoreSim]). ObjectMap is its abstract
      specification, a map from ids to stripes and markers ([object_map],
      [spec_call]); DiskMap is about the same calls on disk.
    - Utf8, Xml, Json: runes and their encoding, elements as encoding/xml
      writes them (with its escapes), strings as encoding/json writes them, and
      a reader of each. S3Types (internal/api/s3_types.go): every document,
      with the elements its struct tags give it (class [XMLStruct], laws in
      [XMLLaws]).
    - Http (strings, strconv and net/http as far as used), Api
      (internal/api/api.go): every handler, the multiplexer of New, and the
      middleware of Handler, written once over what they call ([HandlerOps]:
      the object store, the response writer). Api reads them as computations on
      a connection ([Conn]: process state, response writer, recorded status),
      ApiThreads as trees of store calls; ApiLogic proves properties of the
      handlers from properties of the calls, for both. ApiServe has
      the laws of every response, ApiContract what clients of buckets,
      objects and uploads observe over a MemStore, ApiList what a listing
      shows, ApiText the bodies as bytes, ApiExamples the witnesses, ApiRefine that related stores give
      servers with the same replies, TypeSafe that no request panics. MapApi
      reads the handlers a third time, over the map of ObjectMap ([ServeMap]);
      DiskMapApi compares the server on disk with it.
    - Threads (object.go under concurrent requests): the operations of
      ObjectStore again, as trees of store calls. Pool: pools of programs that
      make their calls in any order on one MemStore, what a program keeps to
      ([discipline], [footprint]), and isolation. Interleave: requests to
      ObjectStore in a pool. ApiThreads, ThreadSafe: HTTP requests in a pool,
      each in a goroutine of its own as net/http serves them.
    - FaultServer, DiskApi (the server of api.go over FileStore): requests
      whose store calls meet failing system calls, kills and restarts of the
      process, and decay of the disk between calls.
    - FileSteps (FileStore in store.go, which has no lock): its calls that
      change the disk, system call by system call, in any interleaving, on
      different files. FileRaces: the calls on one shard file, each with its own
      handle and offset, its reads and writes one system call each.
    - HeaderRot (loadStripe and header.go): damage to a shard's header.
    - Config (internal/config/config.go): defaults, environment, flags,
      validation, and the object store runServer makes of a configuration.
    - Main (cmd/shardstore/main.go, internal/logging, internal/version): the
      subcommands, start-up, and the life of the server process as a step
      relation over its two goroutines, signals, the listener and Shutdown.

    A definition keeps the name of the Go function it models; a Go method is
    a function of its receiver. Functions that change state have type [M St A]
    and keep the changes made before an error return, as Go does. A mutated
    buffer or map is returned; the places where the code shares one (the
    caller's buffer in Read, the output buffer of Join, the shard array of
    Reconstruct) return its final contents.

    ** What is proved

    - ObjectMap, DiskMap: through any calls, and any damage that leaves each
      stripe k valid shards, ObjectStore over MemStore and over FileStore
      answers as the map does ([object_store_is_map], [disk_store_is_map]).
      MapApi, DiskMapApi: so does the HTTP server, to any requests within
      bounds ([http_server_is_map], [http_disk_is_map]).
    - Contract: an object that was put over no longer version of itself is read
      back exactly, after at most m shards per stripe were lost or got payloads
      that fail their checksums, with any buffer sizes ([put_get_degraded]);
      more damage of this kind is reported and never returned as
      data while a shard of the last stripe is listed ([damaged_read]);
      PutObject terminates, and touches no other object; DeleteObject removes
      exactly its object. The same file states the behaviour outside these
      bounds: [lost_tail_is_silent], [overwrite_shorter_keeps_tail],
      [short_input_leaves_object], [DeleteObject_empty_id].
    - FileContract: FileStore refines MemStore for every sequence of calls with
      ids of 1 to 65535 bytes without directory collisions and headers within
      their bounds, and inherits the contract
      ([FileStore_refines_MemStore], [file_put_get]); what any failing system
      call leaves behind ([PutShard_any_environment]), and two torn writes the
      store does not survive ([torn_header_blocks_store],
      [torn_payload_not_tolerated]).
    - FileFaults: on a disk of which any system call may fail, an object that
      PutObject acknowledged is read back exactly or the read reports an error
      ([acknowledged_put_survives]).
    - EC, EcExamples, EncoderCache: any k of k+m shards restore a stripe, fewer
      are an error, and none at all are not ([any_k_shards_restore]);
      Verify detects up to m damaged shards, sizes, validation with its
      overflow, the cache is transparent and, under concurrency, gives all
      callers one encoder and never blocks.
    - Header, FileNames: round trips and canonicity of the encodings, bounds.
    - MemStore: integrity of GetShard over every history of operations and bit
      rot; listings are sorted and independent of map order.
    - ApiServe, ApiContract: every request is answered once and logged
      truthfully; exactly what auth checks; read after write and the bucket
      life cycle over HTTP; lost headers, colliding keys, parts that cannot be
      uploaded, buckets made by a complete call, listings that fail.
    - ApiRefine: for every sequence of requests, the server over FileStore
      sends the replies of the server over MemStore ([http_file_store]).
    - ApiList: a listing shows each readable object that has a shard, once,
      with its size, up to max-keys; on a store without any shard it fails
      ([list_objects_spec]).
    - S3Types, ApiText: what the encoder writes for any document is one
      well-formed element that a client reads as that document, unless a
      character XML cannot carry was replaced ([unmarshal_marshal]); the bytes
      of a listing are read as the objects of the bucket
      ([listing_on_the_wire]), except for keys with control characters
      ([control_keys_collide]).
    - TypeSafe: over any history of requests and payload damage the store stays
      well-formed and every request is answered ([server_type_safe]).
    - Threads, Pool, Interleave: run alone, the trees of calls are the
      operations (lemmas [run_PutObject], [run_GetObject], [run_DeleteObject]);
      requests that do not conflict are isolated in every interleaving
      ([tasks_isolated], [concurrent_requests_isolated]); what conflicting
      requests can do to an object ([overlapping_requests_mix]).
    - ApiThreads, ThreadSafe: concurrent HTTP requests that do not conflict
      get the replies, and leave the store, of serving them one after the other
      ([concurrent_http_serializes]); races between those that do
      ([http_requests_race]); whatever requests arrive and however they
      interleave, none panics ([concurrent_server_type_safe]; this and the
      next need that Reconstruct of the package does not panic).
      The same on a disk that fails: no failing system call, restart or decay
      of files makes a request panic ([faulty_server_type_safe]), and an object
      whose PUT was answered 200 is delivered whole, cut where reading failed,
      or refused with an error status ([acknowledged_http_put_survives]).
    - FileSteps: FileStore calls on different files cannot tell that they are
      not alone ([interleaved_calls_agree]); but listing decodes the header of
      every file, so a put that has not written its header yet makes every
      GetObject and DeleteObject fail ([put_in_progress_blocks_store]): the
      isolation of Interleave holds for MemStore and not for FileStore.
    - FileRaces: however calls on one file interleave, a payload GetShard
      returns was put under the key ([racing_get_integrity]); two puts can both
      return nil and leave neither ([racing_puts_corrupt]).
    - HeaderRot: one changed length field is not detected and truncates an
      object, or panics ([header_rot_is_silent]); this is the damage TypeSafe
      has to exclude.
    - Config, Main: a parsed configuration is usable; flags over environment
      over defaults; the server started is the configured one, and a start-up
      that fails leaves what the steps before it made
      ([server_as_configured]); runServer returns nil exactly after a graceful shutdown, and always returns once a
      signal came or the listener failed.

    Every theorem with hypotheses has a [_witness] that applies it to a
    concrete input.

    ** Bounds

    [put_loop] runs on [put_fuel] = size / stripeSize + 1 steps, one per
    stripe; [PutObject_total] shows that this is always enough. [ReadAll] (the
    loops of io.ReadAll and io.Copy) takes its fuel as an argument; the read
    theorems hold for any fuel above the length of the object, because every
    Read with a non-empty buffer delivers a byte or ends the stream. Flags are
    parsed in at most as many steps as there are arguments. Numbers are
    printed with 10 decimal digits (32 bits) in file names and 20 digits
    elsewhere. A request is within the bounds of [ServeMap] ([in_bounds]) if
    what it puts has fewer than 2^32 stripes and its reading loops have more
    fuel than the largest object has bytes; [ServeMap_returns] shows that it is
    then answered. Object theorems assume lengths below 2^63 and fewer than 2^32
    stripes, the widths of the code's counters.

    ** What is not modelled, and why

    The Reed-Solomon package and the decoding of XML bodies (code outside the
    repository: parameters; the text the server sends is modelled, the reader
    of it in Xml is a reference for what clients see, not xml.Unmarshal). The
    text of log lines, the arguments of error messages, and times, which are
    kept as their text (formatting only). Memory: a buffer is always allocated,
    also where make would panic or the process would run out of memory, as for
    the stripe buffer of PutObject under a stripe size of terabytes (negative
    lengths do panic in the model). Context cancellation is a
    failure of a FileStore call. In an interleaving a call of MemStore is one
    step, as its lock makes it, and a read of a request body is none; in FileSteps
    and FileRaces a step is a system call. Headers net/http adds by
    itself, redirects of paths that are not clean, connections, the ten seconds
    of Shutdown as time are left out.

    ** Open

    HTTP requests that overlap on a FileStore: FaultServer serves one request at
    a time, FileSteps and FileRaces are about calls of the store. *)
From Stdlib Require Export Strings.Byte Strings.Ascii Strings.String.
From stdpp Require Export prelude strings gmap list sorting.
From Stdlib Require Export ZArith Lia.

#[global] Open Scope Z_scope.

(** * Go values *)

(** A Go [[]byte] with contents; a Go string is a byte string as well. *)
Abbreviation bytes := (list byte).

(** A [[]byte] element of a [[][]byte]: [None] is the nil slice. *)
Abbreviation slice := (option (list byte)).

(** Go's [len], on a slice. *)
Definition slice_len (s : slice) : Z :=
  match s with None => 0 | Some l => Z.of_nat (length l) end.

Definition len {A} (l : list A) : Z := Z.of_nat (length l).

#[global] Instance byte_eq_dec : EqDecision byte := Byte.byte_eq_dec.
#[global] Instance byte_inhabited : Inhabited byte := populate x00.

(** The bytes of a Go string, and back. *)
Definition bytes_of_string (s : string) : bytes := list_byte_of_string s.
Definition string_of_bytes (b : bytes) : string := string_of_list_byte b.

Lemma string_bytes_string s : string_of_bytes (bytes_of_string s) = s.
Proof. apply string_of_list_byte_of_string. Qed.

(** ** Machine integers: values of width [w], kept as [Z]. *)

(** Truncation to an unsigned type, as in the conversion [uint32(x)]. *)
Definition wrapU (w : Z) (z : Z) : Z := z mod 2 ^ w.

(** Truncation to a signed type (two's complement), as in [int64(x)]. *)
Definition wrapS (w : Z) (z : Z) : Z := (z + 2 ^ (w - 1)) mod 2 ^ w - 2 ^ (w - 1).

Abbreviation u16 := (wrapU 16).
Abbreviation u32 := (wrapU 32).
Abbreviation u64 := (wrapU 64).
Abbreviation i64 := (wrapS 64).

Definition inU (w : Z) (z : Z) : Prop := 0 <= z < 2 ^ w.
Definition inS (w : Z) (z : Z) : Prop := - 2 ^ (w - 1) <= z < 2 ^ (w - 1).

Lemma wrapU_id w z : inU w z -> wrapU w z = z.
Proof. intros H. apply Z.mod_small. exact H. Qed.

Lemma wrapU_range w z : 0 <= w -> inU w (wrapU w z).
Proof. intros H. apply Z.mod_pos_bound. lia. Qed.

Lemma wrapS64_id z : inS 64 z -> i64 z = z.
Proof. unfold inS, wrapS. intros H. rewrite Z.mod_small; lia. Qed.

Lemma wrapS64_range z : inS 64 (i64 z).
Proof. unfold inS, wrapS. pose proof (Z.mod_pos_bound (z + 2 ^ (64 - 1)) (2 ^ 64)). lia. Qed.

Lemma wrapS64_wrapU64 z : i64 (u64 z) = i64 z.
Proof. unfold wrapS, wrapU. by rewrite Zplus_mod_idemp_l. Qed.

(** * Errors *)

(** The error values of the program. The messages are the format strings of
    the code, without the formatted arguments. The sentinels of the storage
    layer are constructors, so that [errors_Is] tests identity. *)
Inductive error :=
  | ErrShardNotFound
  | ErrCorruptShard
  | ErrObjectNotFound
  | ErrUnrecoverable
  | EOF
  | ErrUnexpectedEOF
  | IOError (msg : string)          (* an error of the operating system or the network *)
  | LibError (msg : string)         (* an error of the Reed-Solomon library *)
  | Errorf (msg : string)           (* fmt.Errorf without %w, errors.New *)
  | Wrapf (msg : string) (e : error) (* fmt.Errorf with %w *)
  | OutOfFuel.                      (* the model's bound on a loop was hit *)

#[global] Instance error_eq_dec : EqDecision error.
Proof. solve_decision. Defined.

(** errors.Is: the target is the error itself or an error it wraps. *)
Fixpoint errors_Is (e target : error) : bool :=
  bool_decide (e = target) ||
  match e with Wrapf _ e' => errors_Is e' target | _ => false end.

(** * Results: a value, an error return, or a panic *)

Inductive result (A : Type) :=
  | OK (a : A)
  | Err (e : error)
  | Panicked (msg : string).
Arguments OK {A} _.
Arguments Err {A} _.
Arguments Panicked {A} _.

#[global] Instance result_ret : MRet result := fun A a => OK a.
#[global] Instance result_bind : MBind result := fun A B f r =>
  match r with OK a => f a | Err e => Err e | Panicked p => Panicked p end.

Lemma OK_inj {A} (a b : A) : OK a = OK b -> a = b.
Proof. congruence. Qed.

(** [fmt.Errorf(msg, err)] around the error of a call. *)
Definition wrap_err {A} (msg : string) (r : result A) : result A :=
  match r with Err e => Err (Wrapf msg e) | r => r end.

(** A state-passing computation: an early return keeps the state changes
    made before it, as a Go function does. *)
Definition M (St A : Type) : Type := St -> result A * St.

#[global] Instance M_ret St : MRet (M St) := fun A a s => (OK a, s).
#[global] Instance M_bind St : MBind (M St) := fun A B f m s =>
  match m s with
  | (OK a, s') => f a s'
  | (Err e, s') => (Err e, s')
  | (Panicked p, s') => (Panicked p, s')
  end.

Definition throw {St A} (e : error) : M St A := fun s => (Err e, s).
Definition panic {St A} (msg : string) : M St A := fun s => (Panicked msg, s).
Definition lift {St A} (r : result A) : M St A := fun s => (r, s).
Definition wrapM {St A} (msg : string) (m : M St A) : M St A := fun s =>
  let '(r, s') := m s in (wrap_err msg r, s').

Lemma M_bind_ok {St A B} (m : M St A) (f : A -> M St B) s a s' :
  m s = (OK a, s') -> (m ≫= f) s = f a s'.
Proof. unfold mbind, M_bind. by intros ->. Qed.

Lemma M_bind_err {St A B} (m : M St A) (f : A -> M St B) s e s' :
  m s = (Err e, s') -> (m ≫= f) s = (Err e, s').
Proof. unfold mbind, M_bind. by intros ->. Qed.

Lemma wrapM_ok {St A} msg (m : M St A) s a s' :
  m s = (OK a, s') -> wrapM msg m s = (OK a, s').
Proof. unfold wrapM. by intros ->. Qed.

Lemma wrapM_err {St A} msg (m : M St A) s e s' :
  m s = (Err e, s') -> wrapM msg m s = (Err (Wrapf msg e), s').
Proof. unfold wrapM. by intros ->. Qed.

(** Two computations that start the same way. *)
Lemma bind_ext {St A B} (m1 m2 : M St A) (f1 f2 : A -> M St B) s :
  m1 s = m2 s -> (forall a s', f1 a s' = f2 a s') -> (m1 ≫= f1) s = (m2 ≫= f2) s.
Proof. intros H Hf. unfold mbind, M_bind. rewrite H. destruct (m2 s) as [[a| |] s']; auto. Qed.

Lemma M_bind_assoc {St A B C} (m : M St A) (f : A -> M St B) (g : B -> M St C) s :
  ((m ≫= f) ≫= g) s = (m ≫= fun a => (f a ≫= g)) s.
Proof. unfold mbind, M_bind. by destruct (m s) as [[a|e|q] s']. Qed.

Lemma bind_mret {St} (m : M St unit) s : (m ≫= fun _ => mret tt) s = m s.
Proof. unfold mbind, M_bind. by destruct (m s) as [[[]|e|q] s']. Qed.

Lemma wrapM_bind {St A B} msg (m : M St A) (f : A -> M St B) s :
  wrapM msg (m ≫= f) s = (wrapM msg m ≫= fun a => wrapM msg (f a)) s.
Proof. unfold wrapM, mbind, M_bind. by destruct (m s) as [[a|e|q] s']. Qed.

(** ** Computations that never panic *)

Create HintDb shard discriminated.

Definition no_panic {St A} (m : M St A) : Prop :=
  forall s msg s', m s <> (Panicked msg, s').

Lemma no_panic_ret {St A} (a : A) : no_panic (mret a : M St A).
Proof. by intros s msg s'. Qed.

Lemma no_panic_throw {St A} e : no_panic (throw e : M St A).
Proof. by intros s msg s'. Qed.

Lemma no_panic_bind {St A B} (m : M St A) (f : A -> M St B) :
  no_panic m -> (forall a, no_panic (f a)) -> no_panic (a ← m; f a).
Proof.
  intros Hm Hf s msg s'. unfold mbind, M_bind. pose proof (Hm s) as Hs.
  destruct (m s) as [[a|e|q] s1]; [apply Hf|done|]. by destruct (Hs q s1).
Qed.

Lemma no_panic_wrapM {St A} msg0 (m : M St A) : no_panic m -> no_panic (wrapM msg0 m).
Proof.
  intros Hm s msg s'. unfold wrapM. pose proof (Hm s) as Hs.
  destruct (m s) as [[a|e|q] s1]; [done|done|]. by destruct (Hs q s1).
Qed.

Lemma no_panic_if {St A} (b : bool) (m1 m2 : M St A) :
  no_panic m1 -> no_panic m2 -> no_panic (if b then m1 else m2).
Proof. by destruct b. Qed.

#[export] Hint Resolve no_panic_ret no_panic_throw no_panic_bind no_panic_wrapM no_panic_if : shard.

(** * Lists *)

(** [chunks size count l]: [count] consecutive pieces of [l], each of [size]
    elements as long as [l] lasts. *)
Fixpoint chunks {A} (size count : nat) (l : list A) : list (list A) :=
  match count with
  | O => []
  | S c => take size l :: chunks size c (drop size l)
  end.

Section chunks.
Context {A : Type}.
Implicit Types l : list A.

Lemma length_chunks size count l : length (chunks size count l) = count.
Proof. revert l. induction count; simpl; auto. Qed.

Lemma concat_chunks size count l :
  (length l <= size * count)%nat -> concat (chunks size count l) = l.
Proof.
  revert l. induction count as [|c IH]; intros l H; simpl.
  - destruct l; simpl in *; [done|lia].
  - rewrite IH by (rewrite length_drop; lia). apply take_drop.
Qed.

Lemma Forall_length_chunks size count l :
  length l = (size * count)%nat -> Forall (fun c => length c = size) (chunks size count l).
Proof.
  revert l. induction count as [|c IH]; intros l H; simpl; constructor.
  - rewrite length_take. lia.
  - apply IH. rewrite length_drop. lia.
Qed.

Lemma lookup_chunks size count l i :
  (i < count)%nat -> chunks size count l !! i = Some (take size (drop (i * size) l)).
Proof.
  revert l i. induction count as [|c IH]; intros l [|i] H; simpl; try lia.
  - by rewrite drop_0.
  - rewrite IH by lia. by rewrite drop_drop.
Qed.

Lemma chunks_app size c1 c2 l :
  chunks size (c1 + c2) l = chunks size c1 l ++ chunks size c2 (drop (c1 * size) l).
Proof.
  revert l. induction c1 as [|c IH]; intros l; simpl; [by rewrite drop_0|].
  rewrite IH, drop_drop. done.
Qed.

Lemma concat_take_chunks size n count l :
  (length l <= size * count)%nat -> concat (take n (chunks size count l)) = take (n * size) l.
Proof.
  revert n l. induction count as [|c IH]; intros n l H.
  - destruct l; [by rewrite take_nil; destruct n|simpl in *; lia].
  - destruct n as [|n]; [done|]. cbn [chunks take concat].
    rewrite IH by (rewrite length_drop; lia). cbn [Nat.mul].
    rewrite <- (take_take_drop l size (n * size)). done.
Qed.

Lemma concat_drop_chunks size n count l :
  (length l <= size * count)%nat -> concat (drop n (chunks size count l)) = drop (n * size) l.
Proof.
  revert n l. induction count as [|c IH]; intros n l H.
  - destruct l; [by destruct n; rewrite drop_nil|simpl in *; lia].
  - destruct n as [|n]; [rewrite !drop_0; by apply concat_chunks|]. cbn [chunks drop].
    rewrite IH by (rewrite length_drop; lia). rewrite drop_drop. done.
Qed.

(** A list of equal-length pieces is as long as their total. *)
Lemma length_concat_same (n : nat) (ls : list (list A)) :
  Forall (fun c => length c = n) ls -> length (concat ls) = (n * length ls)%nat.
Proof.
  induction 1 as [|c ls Hc _ IH]; simpl; [lia|]. rewrite length_app, IH, Hc. lia.
Qed.
End chunks.

(** A filter keeps a list sorted. *)
Lemma Sorted_filter {A} (R : A -> A -> Prop) `{!Transitive R} (P : A -> Prop) `{!forall x, Decision (P x)} l :
  Sorted R l -> Sorted R (filter P l).
Proof.
  intros Hs%Sorted_StronglySorted; [|apply _]. apply StronglySorted_Sorted.
  induction Hs as [|x l _ IH Hx]; [constructor|]. rewrite filter_cons.
  case_decide; [|done]. constructor; [done|]. rewrite Forall_forall in *.
  intros y [_ Hy]%list_elem_of_filter. by apply Hx.
Qed.

Lemma Some_union {A} (x : A) (y : option A) : Some x ∪ y = Some x.
Proof. by destruct y. Qed.
Lemma None_union {A} (y : option A) : None ∪ y = y.
Proof. by destruct y. Qed.

(** * Automation *)

Create Rewrite HintDb shard_len.
#[export] Hint Rewrite @length_app @length_take @length_drop @length_replicate
  @length_map @length_chunks @length_fmap : shard_len.

(** [len_lia] settles a goal about list lengths. *)
Ltac len_lia := unfold len in *; autorewrite with shard_len in *; cbn [length] in *; lia.

(** [go_bools] turns the boolean tests of the code into facts [lia] knows. *)
Ltac go_bools :=
  repeat match goal with
  | H : context [?a <? ?b] |- _ => destruct (Z.ltb_spec a b)
  | |- context [?a <? ?b] => destruct (Z.ltb_spec a b)
  | H : context [?a >? ?b] |- _ => rewrite Z.gtb_ltb in H
  | |- context [?a >? ?b] => rewrite Z.gtb_ltb
  | H : context [?a =? ?b] |- _ => destruct (Z.eqb_spec a b)
  | |- context [?a =? ?b] => destruct (Z.eqb_spec a b)
  | H : context [?a <=? ?b] |- _ => destruct (Z.leb_spec a b)
  | |- context [?a <=? ?b] => destruct (Z.leb_spec a b)
  end.

(** [break_result] splits the next call of a monadic computation in a hypothesis. *)
Ltac break_result H :=
  match type of H with
  | context [match ?r with OK _ => _ | Err _ => _ | Panicked _ => _ end] =>
      let E := fresh "E" in destruct r eqn:E
  end.
