(* ===== verification/Binary.v ===== *)
(** Byte-level input and output of the Go standard library, as far as the
    program uses it: little-endian fixed-width integers
    ([encoding/binary]), an [io.Reader] as the bytes it will deliver and the
    error that ends them, and [io.ReadFull]. *)
From S2P Require Import Prelude.

(** * Little-endian integers *)

Definition byte_val (b : byte) : Z := Z.of_N (Byte.to_N b).

Definition byte_of_Z (z : Z) : byte :=
  match Byte.of_N (Z.to_N (z mod 256)) with Some b => b | None => x00 end.

(** The [n] low bytes of [z], least significant first: what
    [binary.Write(w, binary.LittleEndian, z)] emits for an [n]-byte type. *)
Fixpoint le_bytes (n : nat) (z : Z) : bytes :=
  match n with
  | O => []
  | S n' => byte_of_Z z :: le_bytes n' (z / 256)
  end.

Fixpoint le_val (l : bytes) : Z :=
  match l with
  | [] => 0
  | b :: l' => byte_val b + 256 * le_val l'
  end.

Lemma byte_val_range b : 0 <= byte_val b < 256.
Proof. unfold byte_val. pose proof (Byte.to_N_bounded b). lia. Qed.

Lemma byte_val_of_Z z : byte_val (byte_of_Z z) = z mod 256.
Proof.
  unfold byte_val, byte_of_Z. pose proof (Z.mod_pos_bound z 256).
  destruct (Byte.of_N (Z.to_N (z mod 256))) eqn:E.
  - apply Byte.to_of_N in E. lia.
  - apply Byte.of_N_None_iff in E. lia.
Qed.

Lemma byte_of_Z_val b : byte_of_Z (byte_val b) = b.
Proof.
  unfold byte_of_Z, byte_val. rewrite Z.mod_small by apply byte_val_range.
  by rewrite N2Z.id, Byte.of_to_N.
Qed.

Lemma length_le_bytes n z : length (le_bytes n z) = n.
Proof. revert z. induction n; simpl; auto. Qed.

Lemma pow256_succ n : 256 ^ Z.of_nat (S n) = 256 * 256 ^ Z.of_nat n.
Proof. by rewrite Nat2Z.inj_succ, Z.pow_succ_r by lia. Qed.

Lemma le_val_le_bytes n z : le_val (le_bytes n z) = z mod 256 ^ Z.of_nat n.
Proof.
  revert z. induction n as [|n IH]; intros z.
  - by rewrite Z.mod_1_r.
  - cbn [le_bytes le_val]. rewrite IH, byte_val_of_Z, pow256_succ.
    rewrite Z.rem_mul_r by lia. lia.
Qed.

Lemma le_val_range l : 0 <= le_val l < 256 ^ len l.
Proof.
  unfold len. induction l as [|b l IH]; [simpl; lia|].
  cbn [le_val length]. rewrite pow256_succ. pose proof (byte_val_range b). lia.
Qed.

Lemma le_bytes_le_val l : le_bytes (length l) (le_val l) = l.
Proof.
  induction l as [|b l IH]; [done|]. cbn [length le_bytes le_val].
  pose proof (byte_val_range b). f_equal.
  - unfold byte_of_Z. rewrite <- (byte_of_Z_val b) at 2. unfold byte_of_Z.
    do 3 f_equal. rewrite (Z.mul_comm 256), Z_mod_plus_full. done.
  - etransitivity; [|exact IH]. f_equal.
    rewrite (Z.mul_comm 256), Z.div_add by lia. rewrite Z.div_small; lia.
Qed.

(** Values of the field's width come back as they were written. *)
Lemma le_val_u16 z : inU 16 z -> le_val (le_bytes 2 z) = z.
Proof. unfold inU. intros. rewrite le_val_le_bytes. apply Z.mod_small. lia. Qed.
Lemma le_val_u32 z : inU 32 z -> le_val (le_bytes 4 z) = z.
Proof. unfold inU. intros. rewrite le_val_le_bytes. apply Z.mod_small. lia. Qed.
Lemma le_val_u64 z : le_val (le_bytes 8 z) = u64 z.
Proof. by rewrite le_val_le_bytes. Qed.

(** * io.Reader *)

(** A reader delivers [pending] and then keeps returning [final]: [EOF] for a
    stream that ends, any other error for one that breaks. *)
Record Reader := mkReader { pending : bytes; final : error }.

(** [bytes.NewReader(b)], [strings.NewReader(s)]. *)
Definition NewReader (b : bytes) : Reader := mkReader b EOF.

(** [io.ReadFull(r, buf)] with [len(buf) = n]: the [n] bytes, or the error of
    the stream, where the end of the stream after at least one byte is
    [io.ErrUnexpectedEOF]. *)
Definition ReadFull (n : nat) : M Reader bytes := fun r =>
  if (n <=? length (pending r))%nat
  then (OK (take n (pending r)), mkReader (drop n (pending r)) (final r))
  else (Err (if bool_decide (pending r = []) then final r
             else if bool_decide (final r = EOF) then ErrUnexpectedEOF else final r),
        mkReader [] (final r)).

(** [binary.Read(r, binary.LittleEndian, &v)] for an [n]-byte unsigned [v]. *)
Definition ReadUint (n : nat) : M Reader Z :=
  b ← ReadFull n; mret (le_val b).

Lemma ReadFull_app n pre rest fin :
  length pre = n -> ReadFull n (mkReader (pre ++ rest) fin) = (OK pre, mkReader rest fin).
Proof.
  intros <-. unfold ReadFull. cbn [pending final]. rewrite length_app.
  rewrite leb_correct by lia. by rewrite take_app_length, drop_app_length.
Qed.

Lemma ReadFull_ok n r b r' :
  ReadFull n r = (OK b, r') ->
  pending r = b ++ pending r' /\ length b = n /\ final r' = final r.
Proof.
  unfold ReadFull. destruct (Nat.leb_spec n (length (pending r))); [|done].
  intros [= <- <-]. cbn. rewrite take_drop, length_take. split_and!; [done|lia|done].
Qed.

Lemma ReadFull_short n r :
  (length (pending r) < n)%nat -> exists e, ReadFull n r = (Err e, mkReader [] (final r)).
Proof. intros. unfold ReadFull. rewrite leb_correct_conv by lia. eauto. Qed.

Lemma ReadUint_app n pre rest fin :
  length pre = n ->
  ReadUint n (mkReader (pre ++ rest) fin) = (OK (le_val pre), mkReader rest fin).
Proof. intros. unfold ReadUint. by erewrite M_bind_ok by (by apply ReadFull_app). Qed.

Lemma ReadUint_ok n r z r' :
  ReadUint n r = (OK z, r') ->
  exists b, pending r = b ++ pending r' /\ length b = n /\ le_val b = z /\ final r' = final r.
Proof.
  unfold ReadUint, mbind, M_bind.
  destruct (ReadFull n r) as [[b|e|p] r1] eqn:E; [|done..].
  intros [= <- <-]. apply ReadFull_ok in E as (? & ? & ?). eauto.
Qed.

Lemma no_panic_ReadFull n : no_panic (ReadFull n).
Proof. intros r msg r'. unfold ReadFull. by case_match. Qed.

Lemma no_panic_ReadUint n : no_panic (ReadUint n).
Proof. apply no_panic_bind; [apply no_panic_ReadFull|]. intros. apply no_panic_ret. Qed.

#[export] Hint Resolve no_panic_ReadFull no_panic_ReadUint : shard.
