(* ===== verification/Sha256.v ===== *)
(** SHA-256 (FIPS 180-4): the function [crypto/sha256.Sum256] of the Go
    standard library, which the storage layer uses for shard checksums and
    for the names of object directories. Words are [Z] in [0, 2^32). The
    definition is executable and is checked on the standard's test vectors. *)
From S2P Require Import Prelude Binary.

Definition add32 (a b : Z) : Z := (a + b) mod 2 ^ 32.
Definition rotr (n x : Z) : Z :=
  Z.lor (Z.shiftr x n) (Z.land (Z.shiftl x (32 - n)) (2 ^ 32 - 1)).
Definition not32 (x : Z) : Z := 2 ^ 32 - 1 - x.

Definition Ch (x y z : Z) : Z := Z.lxor (Z.land x y) (Z.land (not32 x) z).
Definition Maj (x y z : Z) : Z := Z.lxor (Z.lxor (Z.land x y) (Z.land x z)) (Z.land y z).
Definition bsig0 (x : Z) : Z := Z.lxor (Z.lxor (rotr 2 x) (rotr 13 x)) (rotr 22 x).
Definition bsig1 (x : Z) : Z := Z.lxor (Z.lxor (rotr 6 x) (rotr 11 x)) (rotr 25 x).
Definition ssig0 (x : Z) : Z := Z.lxor (Z.lxor (rotr 7 x) (rotr 18 x)) (Z.shiftr x 3).
Definition ssig1 (x : Z) : Z := Z.lxor (Z.lxor (rotr 17 x) (rotr 19 x)) (Z.shiftr x 10).

(** The constants are defined by their meaning: the first 32 bits of the
    fractional parts of the cube roots of the first 64 primes, and of the
    square roots of the first eight. *)
Fixpoint cube_root_bits (n : nat) (r z : Z) : Z :=
  match n with
  | O => r
  | S n' =>
      let r' := r + 2 ^ Z.of_nat n' in
      cube_root_bits n' (if r' * r' * r' <=? z then r' else r) z
  end.

Definition is_prime (n : nat) : bool :=
  (2 <=? n)%nat && forallb (fun d => negb (n mod d =? 0)%nat) (seq 2 (n - 2)).

Definition primes : list Z := map Z.of_nat (List.filter is_prime (seq 0 312)).

Definition K256 : list Z :=
  Eval vm_compute in map (fun p => cube_root_bits 36 0 (p * 2 ^ 96) mod 2 ^ 32) primes.

Record hash_state := HS { st_a : Z; st_b : Z; st_c : Z; st_d : Z; st_e : Z; st_f : Z; st_g : Z; st_h : Z }.

Definition H256 : hash_state :=
  Eval vm_compute in
  match map (fun p => Z.sqrt (p * 2 ^ 64) mod 2 ^ 32) (take 8 primes) with
  | [a; b; c; d; e; f; g; h] => HS a b c d e f g h
  | _ => HS 0 0 0 0 0 0 0 0
  end.

(** The message schedule is extended on the fly: [w] holds the next 16 words. *)
Definition next_w (w : list Z) : Z :=
  add32 (add32 (ssig1 (nth 14 w 0)) (nth 9 w 0)) (add32 (ssig0 (nth 1 w 0)) (nth 0 w 0)).

Definition round (s : hash_state) (k w : Z) : hash_state :=
  let t1 := add32 (add32 (add32 (st_h s) (bsig1 (st_e s))) (Ch (st_e s) (st_f s) (st_g s))) (add32 k w) in
  let t2 := add32 (bsig0 (st_a s)) (Maj (st_a s) (st_b s) (st_c s)) in
  HS (add32 t1 t2) (st_a s) (st_b s) (st_c s) (add32 (st_d s) t1) (st_e s) (st_f s) (st_g s).

Fixpoint rounds (ks : list Z) (s : hash_state) (w : list Z) : hash_state :=
  match ks with
  | [] => s
  | k :: ks' => rounds ks' (round s k (nth 0 w 0)) (tl w ++ [next_w w])
  end.

Definition compress (s : hash_state) (w : list Z) : hash_state :=
  let r := rounds K256 s w in
  HS (add32 (st_a s) (st_a r)) (add32 (st_b s) (st_b r)) (add32 (st_c s) (st_c r)) (add32 (st_d s) (st_d r))
     (add32 (st_e s) (st_e r)) (add32 (st_f s) (st_f r)) (add32 (st_g s) (st_g r)) (add32 (st_h s) (st_h r)).

(** Big-endian words of a byte string. *)
Fixpoint be_words (fuel : nat) (l : bytes) : list Z :=
  match fuel, l with
  | S n, a :: b :: c :: d :: l' => le_val [d; c; b; a] :: be_words n l'
  | _, _ => []
  end.

Definition be_bytes (n : nat) (z : Z) : bytes := rev (le_bytes n z).

(** The message, a one bit, zeros, and the bit length: a multiple of 64 bytes. *)
Definition pad (msg : bytes) : bytes :=
  let n := len msg in
  msg ++ [x80] ++ replicate (Z.to_nat ((55 - n) mod 64)) x00 ++ be_bytes 8 (8 * n).

Fixpoint blocks (fuel : nat) (s : hash_state) (w : list Z) : hash_state :=
  match fuel with
  | O => s
  | S n => match w with [] => s | _ => blocks n (compress s (take 16 w)) (drop 16 w) end
  end.

Definition Sum256 (msg : bytes) : bytes :=
  let p := pad msg in
  let w := be_words (length p) p in
  let s := blocks (length w) H256 w in
  be_bytes 4 (st_a s) ++ be_bytes 4 (st_b s) ++ be_bytes 4 (st_c s) ++ be_bytes 4 (st_d s) ++
  be_bytes 4 (st_e s) ++ be_bytes 4 (st_f s) ++ be_bytes 4 (st_g s) ++ be_bytes 4 (st_h s).

Lemma length_be_bytes n z : length (be_bytes n z) = n.
Proof. unfold be_bytes. by rewrite length_rev, length_le_bytes. Qed.

(** A digest has 32 bytes: [[32]byte] in Go. *)
Lemma length_Sum256 msg : length (Sum256 msg) = 32%nat.
Proof. unfold Sum256. by rewrite !length_app, !length_be_bytes. Qed.

(** encoding/hex.EncodeToString: two lower-case digits per byte. *)
Definition hex_digit (n : Z) : ascii :=
  ascii_of_N (Z.to_N (if n <? 10 then 48 + n else 87 + n)).

Fixpoint EncodeToString (b : bytes) : string :=
  match b with
  | [] => EmptyString
  | c :: b' => String (hex_digit (byte_val c / 16))
                 (String (hex_digit (byte_val c mod 16)) (EncodeToString b'))
  end.

Definition sha256_hex (s : string) : string := EncodeToString (Sum256 (bytes_of_string s)).

(** Test vectors of FIPS 180-4: the empty message, one block, two blocks. *)
Example sha256_empty :
  sha256_hex "" = "e3b0c44298fc1c149afbf4c8996fb92427ae41e4649b934ca495991b7852b855"%string.
Proof. vm_compute. reflexivity. Qed.

Example sha256_abc :
  sha256_hex "abc" = "ba7816bf8f01cfea414140de5dae2223b00361a396177a9cb410ff61f20015ad"%string.
Proof. vm_compute. reflexivity. Qed.

Example sha256_two_blocks :
  sha256_hex "abcdbcdecdefdefgefghfghighijhijkijkljklmklmnlmnomnopnopq"
  = "248d6a61d20638b8e5c026930c3e6039a33ce45964ff2167f6ecedd419db06c1"%string.
Proof. vm_compute. reflexivity. Qed.

(** Two bytes determine the four digits: the encoding is injective. *)
Lemma hex_digit_inj a b : 0 <= a < 16 -> 0 <= b < 16 -> hex_digit a = hex_digit b -> a = b.
Proof.
  unfold hex_digit. intros Ha Hb H%(f_equal N_of_ascii).
  rewrite !N_ascii_embedding in H by (repeat case_match; lia).
  repeat case_match; lia.
Qed.

Lemma EncodeToString_inj a b : EncodeToString a = EncodeToString b -> a = b.
Proof.
  revert b. induction a as [|x a IH]; intros [|y b]; try done.
  cbn [EncodeToString]. intros [= H1 H2 H3]. apply IH in H3 as ->. f_equal.
  pose proof (byte_val_range x). pose proof (byte_val_range y).
  apply hex_digit_inj in H1; [|split; [apply Z.div_pos|apply Z.div_lt_upper_bound]; lia..].
  apply hex_digit_inj in H2; [|apply Z.mod_pos_bound; lia..].
  rewrite <- (byte_of_Z_val x), <- (byte_of_Z_val y). f_equal.
  rewrite (Z.div_mod (byte_val x) 16), (Z.div_mod (byte_val y) 16); lia.
Qed.

(** Proofs never compute a digest by unfolding; only [vm_compute] does. *)
#[global] Opaque Sum256.
