(* ===== verification/EC.v ===== *)
(** internal/ec: the erasure-coding wrapper. The Reed-Solomon engine
    (github.com/klauspost/reedsolomon) is a third-party package, so it is the
    class [ReedSolomon] of its operations; what the program relies on is the
    class [RSLaws], which restates the documentation of the package. *)
From S2P Require Import Prelude Binary.

(** * Params *)

(** Go's [int] is 64 bits wide. *)
Record Params := mkParams { DataShards : Z; ParityShards : Z }.

#[global] Instance Params_eq_dec : EqDecision Params.
Proof. solve_decision. Defined.
#[global] Instance Params_countable : Countable Params.
Proof.
  refine (inj_countable' (fun p => (DataShards p, ParityShards p))
            (fun '(k, m) => mkParams k m) _). by intros [].
Defined.

Definition DefaultParams : Params := mkParams 4 2.

Definition ShardCount (p : Params) : Z := i64 (DataShards p + ParityShards p).

Definition MaxLoss (p : Params) : Z := ParityShards p.

(** [None] is the nil error. *)
Definition Validate (p : Params) : option error :=
  if DataShards p <? 1 then Some (Errorf "ec: data shards must be >= 1, got %d")
  else if ParityShards p <? 1 then Some (Errorf "ec: parity shards must be >= 1, got %d")
  else if ShardCount p >? 256 then
    Some (Errorf "ec: total shards %d exceeds the 256-shard limit of Reed-Solomon")
  else None.

(** * The Reed-Solomon package *)

Class ReedSolomon := {
  rs_enc : Type;                                       (* reedsolomon.Encoder *)
  rs_New : Z -> Z -> result rs_enc;                    (* New(dataShards, parityShards) *)
  rs_Split : rs_enc -> bytes -> result (list slice);
  (** Encode and Reconstruct work in place: the result is the new contents. *)
  rs_Encode : rs_enc -> list slice -> result (list slice);
  rs_Reconstruct : rs_enc -> list slice -> result (list slice);
  rs_Verify : rs_enc -> list slice -> result bool;
  (** Join(dst, shards, outSize): the successive writes to dst, and the error. *)
  rs_Join : rs_enc -> list slice -> Z -> list bytes * option error;
}.

Record Encoder {RS : ReedSolomon} := mkEncoder { enc : rs_enc; parm : Params }.
Arguments Encoder {RS}.
Arguments mkEncoder {RS} _ _.
Arguments enc {RS} _.
Arguments parm {RS} _.

(** var encCache sync.Map: Params to Encoder. *)
Abbreviation encCache := (gmap Params Encoder).

Section EC.
Context {RS : ReedSolomon}.

(** sync.Map.LoadOrStore: the value now in the map. *)
Definition LoadOrStore (p : Params) (e : Encoder) : M encCache Encoder := fun c =>
  match c !! p with
  | Some actual => (OK actual, c)
  | None => (OK e, <[p := e]> c)
  end.

Definition EncoderFor (p : Params) : M encCache Encoder := fun c =>
  match Validate p with
  | Some err => (Err err, c)
  | None =>
    match c !! p with
    | Some v => (OK v, c)
    | None =>
      match rs_New (DataShards p) (ParityShards p) with
      | Err err => (Err (Wrapf "ec: create encoder" err), c)
      | Panicked msg => (Panicked msg, c)
      | OK enc => LoadOrStore p (mkEncoder enc p) c
      end
    end
  end.

(** Go's [/] truncates. *)
Definition SplitSize (e : Encoder) (n : Z) : Z :=
  if n =? 0 then 0
  else Z.quot (i64 (i64 (n + DataShards (parm e)) - 1)) (DataShards (parm e)).

(** make([]T, n), every element [x]. *)
Definition make_slice {A} (n : Z) (x : A) : result (list A) :=
  if n <? 0 then Panicked "makeslice: len out of range" else OK (replicate (Z.to_nat n) x).

Definition Encode (e : Encoder) (stripe : bytes) : result (list slice) :=
  if len stripe =? 0 then
    shards ← make_slice (ShardCount (parm e)) (@None bytes);
    OK (map (fun _ => Some []) shards)
  else
    shards ← wrap_err "ec: split" (rs_Split (enc e) stripe);
    wrap_err "ec: encode" (rs_Encode (enc e) shards).

Definition allEmpty (shards : list slice) : bool :=
  forallb (fun s => slice_len s =? 0) shards.

Definition Reconstruct (e : Encoder) (shards : list slice) : result (list slice) :=
  if allEmpty shards then OK shards
  else wrap_err "ec: reconstruct" (rs_Reconstruct (enc e) shards).

(** The loop of ReconstructSome: [present[i]] is bounds-checked. *)
Fixpoint drop_absent (shards : list slice) (present : list bool) : result (list slice) :=
  match shards, present with
  | [], _ => OK []
  | _ :: _, [] => Panicked "index out of range"
  | s :: shards', b :: present' =>
      rest ← drop_absent shards' present';
      OK ((if b : bool then s else None) :: rest)
  end.

Definition ReconstructSome (e : Encoder) (shards : list slice) (present : list bool)
    : result (list slice) :=
  shards' ← drop_absent shards present;
  Reconstruct e shards'.

Definition Verify (e : Encoder) (shards : list slice) : result bool :=
  wrap_err "ec: verify" (rs_Verify (enc e) shards).

(** A bytes.Buffer made by [bytes.NewBuffer(dst[:0])]: while the contents fit
    the capacity of [dst] they live in the memory of [dst]; the first write
    that does not fit moves them elsewhere, and [dst] is not touched again. *)
Record Buffer := mkBuffer { mem : bytes; filled : nat; moved : bool }.

Definition buf_write (b : Buffer) (p : bytes) : Buffer :=
  if moved b then b
  else if (length p <=? length (mem b) - filled b)%nat
  then mkBuffer (take (filled b) (mem b) ++ p ++ drop (filled b + length p) (mem b))
                (filled b + length p) false
  else mkBuffer (mem b) (filled b) true.

(** [dst] is given by its memory (length and capacity agree at every call);
    the result is that memory afterwards, and the error. *)
Definition Join (e : Encoder) (dst : bytes) (shards : list slice) (size : Z)
    : bytes * option error :=
  let '(writes, err) := rs_Join (enc e) shards size in
  (mem (fold_left buf_write writes (mkBuffer dst 0 false)),
   Wrapf "ec: join" <$> err).

Definition ShardPayloadLen (n : Z) (p : Params) : M encCache Z := fun c =>
  match EncoderFor p c with
  | (OK e, c') => (OK (SplitSize e n), c')
  | (Err _, c') => (OK 0, c')
  | (Panicked msg, c') => (Panicked msg, c')
  end.

End EC.

(** * What the package documents *)

(** The shards Split makes of the data: [k] equal pieces, zero-padded. *)
Definition per_shard (k n : nat) : nat := ((n + k - 1) / k)%nat.

Definition split_data (k : nat) (stripe : bytes) : list bytes :=
  let per := per_shard k (length stripe) in
  chunks per k (stripe ++ replicate (per * k - length stripe) x00).

(** A shard counts as missing when it is nil or empty. *)
Definition present (s : slice) : bool := negb (slice_len s =? 0).
Definition present_count (shards : list slice) : nat := length (List.filter present shards).

(** A shard array in which some shards of the codeword [c] are missing. *)
Definition survives_of (shards : list slice) (c : list bytes) : Prop :=
  Forall2 (fun s b => s = Some b \/ present s = false) shards c.

(** [k] data shards of [L] bytes, and an array of [n] shards of [L] bytes. *)
Definition shaped (n L : nat) (shards : list bytes) : Prop :=
  length shards = n /\ Forall (fun b => length b = L) shards.

(** The documentation of klauspost/reedsolomon, for one encoder [e] made for
    [p]; [parity] names the parity shards the code assigns to data shards. *)
Class RSLaws (RS : ReedSolomon) (p : Params) (e : rs_enc) (parity : list bytes -> list bytes)
    : Prop := {
  law_new : rs_New (DataShards p) (ParityShards p) = OK e;
  law_parity D L : shaped (Z.to_nat (DataShards p)) L D ->
    shaped (Z.to_nat (ParityShards p)) L (parity D);
  law_split stripe : stripe <> [] ->
    exists P, shaped (Z.to_nat (ParityShards p)) (per_shard (Z.to_nat (DataShards p)) (length stripe)) P
      /\ rs_Split e stripe = OK (map Some (split_data (Z.to_nat (DataShards p)) stripe ++ P));
  law_encode D P L : (0 < L)%nat ->
    shaped (Z.to_nat (DataShards p)) L D -> shaped (Z.to_nat (ParityShards p)) L P ->
    rs_Encode e (map Some (D ++ P)) = OK (map Some (D ++ parity D));
  law_reconstruct D L shards : (0 < L)%nat ->
    shaped (Z.to_nat (DataShards p)) L D -> survives_of shards (D ++ parity D) ->
    (Z.to_nat (DataShards p) <= present_count shards)%nat ->
    rs_Reconstruct e shards = OK (map Some (D ++ parity D));
  law_too_few shards :
    length shards = (Z.to_nat (DataShards p) + Z.to_nat (ParityShards p))%nat ->
    (present_count shards < Z.to_nat (DataShards p))%nat ->
    exists err, rs_Reconstruct e shards = Err err;
  law_verify D P L : (0 < L)%nat ->
    shaped (Z.to_nat (DataShards p)) L D -> shaped (Z.to_nat (ParityShards p)) L P ->
    rs_Verify e (map Some (D ++ P)) = OK (bool_decide (P = parity D));
  law_join D P L size :
    shaped (Z.to_nat (DataShards p)) L D ->
    0 <= size <= len (concat D) ->
    exists writes, rs_Join e (map Some (D ++ P)) size = (writes, None)
      /\ concat writes = take (Z.to_nat size) (concat D);
}.

(** * Properties *)

(** A scheme within the documented limits. *)
Definition params_ok (p : Params) : Prop :=
  1 <= DataShards p /\ 1 <= ParityShards p /\ DataShards p + ParityShards p <= 256.

Lemma ShardCount_exact p : params_ok p -> ShardCount p = DataShards p + ParityShards p.
Proof. intros (? & ? & ?). apply wrapS64_id. unfold inS. lia. Qed.

Lemma Validate_ok p : params_ok p -> Validate p = None.
Proof.
  intros H. pose proof (ShardCount_exact p H). destruct H as (? & ? & ?).
  unfold Validate. go_bools; (lia || done).
Qed.

(** Validate accepts exactly the schemes with at least one data shard, at
    least one parity shard and at most 256 shards in all, provided the sum of
    the two counts does not overflow a Go [int]. *)
Theorem Validate_spec p :
  inS 64 (DataShards p + ParityShards p) -> (Validate p = None <-> params_ok p).
Proof.
  intros Hov. split; [|apply Validate_ok].
  unfold Validate, ShardCount, params_ok. rewrite wrapS64_id by done.
  intros H. go_bools; done || lia.
Qed.

Lemma per_shard_bounds k n : (0 < k)%nat ->
  (n <= per_shard k n * k)%nat /\ (per_shard k n * k < n + k)%nat.
Proof.
  intros Hk. unfold per_shard.
  pose proof (Nat.div_mod_eq (n + k - 1) k). pose proof (Nat.mod_upper_bound (n + k - 1) k). nia.
Qed.

Lemma per_shard_pos k n : (0 < k)%nat -> (0 < n)%nat -> (0 < per_shard k n)%nat.
Proof. intros Hk Hn. pose proof (per_shard_bounds k n Hk). destruct (per_shard k n); lia. Qed.

Lemma split_data_shaped k stripe : (0 < k)%nat ->
  shaped k (per_shard k (length stripe)) (split_data k stripe).
Proof.
  intros Hk. pose proof (per_shard_bounds k (length stripe) Hk). unfold split_data. split.
  - apply length_chunks.
  - apply Forall_length_chunks. len_lia.
Qed.

Lemma concat_split_data k stripe : (0 < k)%nat ->
  concat (split_data k stripe)
  = stripe ++ replicate (per_shard k (length stripe) * k - length stripe) x00.
Proof.
  intros Hk. pose proof (per_shard_bounds k (length stripe) Hk).
  apply concat_chunks. len_lia.
Qed.

Lemma shaped_app n1 n2 L a b : shaped n1 L a -> shaped n2 L b -> shaped (n1 + n2) L (a ++ b).
Proof. intros [? ?] [? ?]. split; [len_lia|]. by apply Forall_app_2. Qed.

Lemma shaped_concat n L a : shaped n L a -> length (concat a) = (L * n)%nat.
Proof. intros [<- ?]. by apply length_concat_same. Qed.

(** ** Writing into [dst] *)

Lemma buf_write_fits m0 out p :
  (length out + length p <= length m0)%nat ->
  buf_write (mkBuffer (out ++ drop (length out) m0) (length out) false) p
  = mkBuffer ((out ++ p) ++ drop (length (out ++ p)) m0) (length (out ++ p)) false.
Proof.
  intros H. unfold buf_write. cbn [moved mem filled].
  rewrite leb_correct by len_lia. rewrite take_app_length.
  rewrite drop_app_ge by lia. rewrite drop_drop, length_app, <- app_assoc.
  do 4 f_equal. lia.
Qed.

Lemma buf_writes_fit m0 ws : forall out,
  (length out + length (concat ws) <= length m0)%nat ->
  mem (fold_left buf_write ws (mkBuffer (out ++ drop (length out) m0) (length out) false))
  = (out ++ concat ws) ++ drop (length (out ++ concat ws)) m0.
Proof.
  induction ws as [|p ws IH]; intros out H; simpl in *.
  - by rewrite app_nil_r.
  - rewrite length_app in H. rewrite buf_write_fits by lia.
    rewrite IH by len_lia. by rewrite <- !app_assoc.
Qed.

Lemma present_Some b : b <> [] -> present (Some b) = true.
Proof. intros. unfold present, slice_len. destruct b; [done|]. apply negb_true_iff, Z.eqb_neq. simpl. lia. Qed.

Lemma present_allEmpty shards : allEmpty shards = true -> present_count shards = 0%nat.
Proof.
  unfold present_count, present. induction shards as [|s ss IH]; [done|].
  cbn [allEmpty forallb List.filter]. rewrite andb_true_iff. intros [H1 H2].
  rewrite H1. cbn [negb]. apply IH. exact H2.
Qed.

Lemma none_allEmpty shards : present_count shards = 0%nat -> allEmpty shards = true.
Proof.
  unfold present_count, present. induction shards as [|s ss IH]; [done|].
  cbn [allEmpty forallb List.filter]. destruct (slice_len s =? 0); [|done]. exact IH.
Qed.

Lemma present_count_le (ss : list slice) : (present_count ss <= length ss)%nat.
Proof. unfold present_count. apply List.filter_length_le. Qed.

(** Nothing is missing. *)
Lemma survives_all shards C : survives_of shards C ->
  present_count shards = length C -> shards = map Some C.
Proof.
  induction 1 as [|s c shards C Hs Hrest IH]; intros Hn; [done|].
  pose proof (present_count_le shards) as Hle. rewrite (Forall2_length _ _ _ Hrest) in Hle.
  unfold present_count in *. simpl in *. destruct (present s) eqn:Hp; [|lia].
  destruct Hs as [->|]; [|done]. simpl in *. f_equal. apply IH. lia.
Qed.

Section with_laws.
Context {RS : ReedSolomon} {p : Params} {e : rs_enc} {parity : list bytes -> list bytes}.
Context {LAWS : RSLaws RS p e parity} (Hp : params_ok p).

Let k : nat := Z.to_nat (DataShards p).
Let m : nat := Z.to_nat (ParityShards p).
Let E : Encoder := mkEncoder e p.

Lemma params_nat : (0 < k)%nat /\ (0 < m)%nat /\ ShardCount p = Z.of_nat (k + m).
Proof. unfold k, m. rewrite ShardCount_exact by done. destruct Hp as (? & ? & ?). lia. Qed.

(** The shards a stripe is stored as. *)
Definition codeword (stripe : bytes) : list bytes :=
  let D := split_data (Z.to_nat (DataShards p)) stripe in D ++ parity D.

Lemma codeword_shaped stripe :
  shaped (k + m) (per_shard k (length stripe)) (codeword stripe).
Proof.
  pose proof params_nat as (Hk & _ & _).
  apply shaped_app; [|apply law_parity]; by apply split_data_shaped.
Qed.

Lemma length_codeword stripe : length (codeword stripe) = (k + m)%nat.
Proof. by destruct (codeword_shaped stripe). Qed.

Lemma SplitSize_spec n : 0 <= n < 2 ^ 62 ->
  SplitSize E n = Z.of_nat (per_shard k (Z.to_nat n)).
Proof.
  intros Hn. destruct Hp as (H1 & H2 & H3). unfold SplitSize, per_shard. cbn [parm E].
  rewrite (wrapS64_id (n + DataShards p)) by (unfold inS; lia).
  rewrite wrapS64_id by (unfold inS; lia).
  destruct (Z.eqb_spec n 0) as [->|].
  - symmetry. rewrite Nat.div_small by lia. done.
  - rewrite Z.quot_div_nonneg by lia. rewrite Nat2Z.inj_div. unfold k. f_equal; lia.
Qed.

Lemma Encode_empty : Encode E [] = OK (replicate (k + m) (Some [])).
Proof.
  pose proof params_nat as (_ & _ & Hs). unfold Encode. cbn [parm E].
  change (len [] =? 0) with true. cbv iota. rewrite Hs. unfold make_slice.
  destruct (Z.ltb_spec (Z.of_nat (k + m)) 0); [lia|].
  cbn [mbind result_bind]. rewrite Nat2Z.id. f_equal.
  generalize (k + m)%nat as n. induction n as [|n IH]; [done|]. simpl. by rewrite IH.
Qed.

Lemma Encode_codeword stripe :
  stripe <> [] -> Encode E stripe = OK (map Some (codeword stripe)).
Proof.
  intros Hne. pose proof params_nat as (Hk & _ & _).
  assert (0 < length stripe)%nat by (destruct stripe; [done|simpl; lia]).
  destruct (law_split stripe Hne) as (P & HP & Hs).
  unfold Encode. cbn [enc E]. destruct (Z.eqb_spec (len stripe) 0) as [H0|_];
    [unfold len in H0; lia|].
  rewrite Hs. cbn [wrap_err mbind result_bind].
  erewrite law_encode; [done|..|exact HP]; [|by apply split_data_shaped].
  by apply per_shard_pos.
Qed.

(** Any [k] surviving shards give the whole codeword back. *)
Lemma Reconstruct_codeword stripe shards :
  stripe <> [] -> survives_of shards (codeword stripe) -> (k <= present_count shards)%nat ->
  Reconstruct E shards = OK (map Some (codeword stripe)).
Proof.
  intros Hne Hs Hc. pose proof params_nat as (Hk & _ & _).
  assert (0 < length stripe)%nat by (destruct stripe; [done|simpl; lia]).
  unfold Reconstruct. destruct (allEmpty shards) eqn:Ha.
  { apply present_allEmpty in Ha. lia. }
  cbn [enc E]. erewrite law_reconstruct; [done|..|exact Hs|exact Hc].
  - by apply (per_shard_pos k (length stripe)).
  - by apply split_data_shaped.
Qed.

Lemma Reconstruct_too_few shards :
  length shards = (k + m)%nat -> (present_count shards < k)%nat ->
  allEmpty shards = false -> exists err, Reconstruct E shards = Err (Wrapf "ec: reconstruct" err).
Proof.
  intros Hl Hc Ha. destruct (law_too_few shards Hl Hc) as [err Herr].
  exists err. unfold Reconstruct. rewrite Ha. cbn [enc E]. by rewrite Herr.
Qed.

(** Join fills a pre-sized [dst] with as much of the stripe, in place. *)
Lemma Join_prefix stripe dst n :
  length dst = n -> (n <= length stripe)%nat ->
  Join E dst (map Some (codeword stripe)) (Z.of_nat n) = (take n stripe, None).
Proof.
  intros Hl Hn. pose proof params_nat as (Hk & _ & _).
  pose proof (per_shard_bounds k (length stripe) Hk).
  pose proof (concat_split_data k stripe Hk) as Hcat.
  unfold codeword. fold k.
  destruct (law_join (split_data k stripe) (parity (split_data k stripe))
    (per_shard k (length stripe)) (Z.of_nat n)) as (ws & Hj & Hw).
  { by apply split_data_shaped. }
  { rewrite Hcat. len_lia. }
  unfold Join. cbn [enc E]. rewrite Hj. f_equal.
  rewrite Hcat, Nat2Z.id, take_app_le in Hw by done.
  assert (length (concat ws) = n) as Hlw by (rewrite Hw; len_lia).
  change (mkBuffer dst 0 false) with (mkBuffer ([] ++ drop (length (@nil byte)) dst) (length (@nil byte)) false).
  rewrite buf_writes_fit by (simpl; lia).
  rewrite <- Hw. simpl. rewrite drop_ge by lia. apply app_nil_r.
Qed.

Lemma Join_codeword stripe dst :
  length dst = length stripe ->
  Join E dst (map Some (codeword stripe)) (len stripe) = (stripe, None).
Proof.
  intros Hl. unfold len. rewrite (Join_prefix stripe dst (length stripe)) by done. by rewrite firstn_all.
Qed.
End with_laws.

(** ** The code's distance, and what it detects *)

(** In how many positions two shard arrays differ. *)
Fixpoint differing (a b : list bytes) : nat :=
  match a, b with
  | x :: a', y :: b' => (if decide (x = y) then 0 else 1) + differing a' b'
  | _, _ => 0
  end%nat.

(** The shards on which two arrays agree, the others marked missing. *)
Fixpoint common (a b : list bytes) : list slice :=
  match a, b with
  | x :: a', y :: b' => (if decide (x = y) then Some x else None) :: common a' b'
  | _, _ => []
  end.

Lemma common_survives a b : length a = length b ->
  survives_of (common a b) a /\ survives_of (common a b) b.
Proof.
  revert b. induction a as [|x a IH]; intros [|y b] H; simplify_eq/=.
  - by split; constructor.
  - destruct (IH b ltac:(lia)) as [IH1 IH2].
    destruct (decide (x = y)) as [->|]; split; constructor; auto.
Qed.

Lemma differing_refl a : differing a a = 0%nat.
Proof. induction a; simpl; [done|]. by rewrite decide_True. Qed.

Lemma present_common n L a b : (0 < L)%nat -> shaped n L a -> shaped n L b ->
  (present_count (common a b) + differing a b = n)%nat.
Proof.
  intros HL [Ha Fa] [Hb Fb]. revert b n Ha Hb Fb.
  induction Fa as [|x a Hx Fa IH]; intros [|y b] n Ha Hb Fb; simplify_eq/=; [done|].
  apply Forall_cons in Fb as [Hy Fb]. specialize (IH b (length a) eq_refl ltac:(lia) Fb).
  unfold present_count in *. destruct (decide (x = y)).
  - cbn [List.filter]. rewrite present_Some by (intros ->; simpl in *; lia). simpl. lia.
  - cbn [List.filter present slice_len]. simpl. lia.
Qed.

Section distance.
Context {RS : ReedSolomon} {p : Params} {e : rs_enc} {parity : list bytes -> list bytes}.
Context {LAWS : RSLaws RS p e parity} (Hp : params_ok p).

(** Two codewords that agree on [k] shards are equal. *)
Lemma codewords_determined L D D' : (0 < L)%nat ->
  shaped (Z.to_nat (DataShards p)) L D -> shaped (Z.to_nat (DataShards p)) L D' ->
  (differing (D ++ parity D) (D' ++ parity D') <= Z.to_nat (ParityShards p))%nat ->
  D ++ parity D = D' ++ parity D'.
Proof.
  intros HL HD HD' Hd.
  pose proof (shaped_app _ _ _ _ _ HD (law_parity D L HD)) as S1.
  pose proof (shaped_app _ _ _ _ _ HD' (law_parity D' L HD')) as S2.
  pose proof (present_common _ _ _ _ HL S1 S2).
  destruct (common_survives (D ++ parity D) (D' ++ parity D')) as [C1 C2].
  { destruct S1, S2. congruence. }
  assert (OK (map Some (D ++ parity D)) = OK (map Some (D' ++ parity D'))) as Heq.
  { rewrite <- (law_reconstruct D L _ HL HD C1) by lia.
    by rewrite <- (law_reconstruct D' L _ HL HD' C2) by lia. }
  injection Heq as Heq. by apply (inj (fmap Some)) in Heq.
Qed.

(** Verify accepts freshly encoded shards, and rejects every shard array
    that differs from the codeword in at least one and at most [m] shards,
    whichever shards they are. *)
Theorem Verify_detects stripe W :
  stripe <> [] ->
  shaped (Z.to_nat (DataShards p) + Z.to_nat (ParityShards p))
    (per_shard (Z.to_nat (DataShards p)) (length stripe)) W ->
  (differing (codeword (p:=p) (parity:=parity) stripe) W <= Z.to_nat (ParityShards p))%nat ->
  Verify (mkEncoder e p) (map Some W)
  = OK (bool_decide (W = codeword (p:=p) (parity:=parity) stripe)).
Proof.
  intros Hne [HW FW] Hd. pose proof (params_nat Hp) as (Hk & _ & _).
  set (k := Z.to_nat (DataShards p)) in *. set (m := Z.to_nat (ParityShards p)) in *.
  set (L := per_shard k (length stripe)) in *.
  assert (0 < L)%nat as HL by (apply per_shard_pos; [done|destruct stripe; [done|simpl; lia]]).
  pose proof (split_data_shaped k stripe Hk) as HD.
  rewrite <- (take_drop k W) in FW. apply Forall_app in FW as [F1 F2].
  assert (shaped k L (take k W)) as S1 by (split; [len_lia|done]).
  assert (shaped m L (drop k W)) as S2 by (split; [len_lia|done]).
  unfold Verify. cbn [enc]. rewrite <- (take_drop k W) at 1.
  rewrite (law_verify _ _ L HL S1 S2). cbn [wrap_err]. f_equal.
  apply bool_decide_ext. unfold codeword. fold k. split.
  - intros HP. rewrite <- (take_drop k W), HP. symmetry.
    apply (codewords_determined L); [done..|].
    rewrite <- HP, take_drop. exact Hd.
  - intros ->. destruct HD as [HD _]. by rewrite take_app_length', drop_app_length' by done.
Qed.
End distance.

(** C16. Any [k] of the [k+m] shards of a stripe restore it: Encode never
    fails, and whenever at least [k] of its shards are left (the others nil or
    empty) Reconstruct returns all of them and Join copies exactly the stripe
    into a pre-sized buffer. With fewer, but some, left Reconstruct fails. With
    none left it does not: it returns success and restores nothing. *)
Theorem any_k_shards_restore {RS : ReedSolomon} {p e parity} {LAWS : RSLaws RS p e parity} stripe :
  params_ok p -> stripe <> [] -> len stripe < 2 ^ 62 ->
  exists shards,
    Encode (mkEncoder e p) stripe = OK shards /\
    len shards = ShardCount p /\
    Forall (fun s => slice_len s = SplitSize (mkEncoder e p) (len stripe)) shards /\
    forall work, Forall2 (fun w s => w = s \/ present w = false) work shards ->
      (DataShards p <= Z.of_nat (present_count work) ->
        Reconstruct (mkEncoder e p) work = OK shards /\
        forall dst, len dst = len stripe ->
          Join (mkEncoder e p) dst shards (len stripe) = (stripe, None)) /\
      (0 < Z.of_nat (present_count work) < DataShards p ->
        exists err, Reconstruct (mkEncoder e p) work = Err err) /\
      (present_count work = 0%nat -> Reconstruct (mkEncoder e p) work = OK work).
Proof.
  intros Hp Hne Hlen. pose proof (params_nat Hp) as (Hk & Hm & Hs).
  exists (map Some (codeword (p:=p) (parity:=parity) stripe)).
  destruct (codeword_shaped Hp stripe) as [Hl Hf].
  split_and!.
  - by apply Encode_codeword.
  - rewrite Hs. len_lia.
  - apply Forall_forall. intros s (b & -> & Hb)%list_elem_of_fmap.
    rewrite Forall_forall in Hf. rewrite (SplitSize_spec Hp) by len_lia. simpl. rewrite (Hf b Hb). unfold len. by rewrite Nat2Z.id.
  - intros work Hw. assert (survives_of work (codeword (p:=p) (parity:=parity) stripe)) as Hsv.
    { apply Forall2_fmap_r in Hw. exact Hw. }
    split_and!.
    + intros Hc. split; [apply Reconstruct_codeword; [done..|lia]|].
      intros dst Hd. apply Join_codeword; [done|]. len_lia.
    + intros Hc. edestruct (Reconstruct_too_few (LAWS:=LAWS) (p:=p) work) as [err Herr]; [|lia| |eauto].
      * apply Forall2_length in Hsv. lia.
      * destruct (allEmpty work) eqn:Ha; [|done]. apply present_allEmpty in Ha. lia.
    + intros H0%none_allEmpty. unfold Reconstruct. by rewrite H0.
Qed.

(** ** The encoder cache *)

Section cache.
Context {RS : ReedSolomon}.

(** Every cached encoder was made by the library for its own key. *)
Definition cache_ok (c : encCache) : Prop :=
  forall q v, c !! q = Some v -> parm v = q /\ rs_New (DataShards q) (ParityShards q) = OK (enc v).

Lemma cache_ok_empty : cache_ok ∅.
Proof. intros q v. by rewrite lookup_empty. Qed.

(** What EncoderFor returns for [p], whatever the cache holds. *)
Definition NewEncoder (p : Params) : result Encoder :=
  match Validate p with
  | Some err => Err err
  | None => enc ← wrap_err "ec: create encoder" (rs_New (DataShards p) (ParityShards p));
            OK (mkEncoder enc p)
  end.

Lemma EncoderFor_cases p c :
  cache_ok c ->
  let '(r, c') := EncoderFor p c in
  r = NewEncoder p /\ cache_ok c' /\
  (forall q v, c !! q = Some v -> c' !! q = Some v) /\
  EncoderFor p c' = (r, c').
Proof.
  intros Hc. unfold EncoderFor, NewEncoder.
  destruct (Validate p) eqn:Hv; [by rewrite ?Hv|].
  destruct (c !! p) as [v|] eqn:Hp.
  - destruct (Hc p v Hp) as [Hq Hn]. rewrite Hp, Hn. destruct v. simpl in *. by subst.
  - destruct (rs_New _ _) as [enc0|err|msg] eqn:Hn; simpl; [|by rewrite Hp..].
    unfold LoadOrStore. rewrite Hp. split_and!; [done|..].
    + intros q v [[<- <-]|[? Hq]]%lookup_insert_Some; [done|by apply Hc].
    + intros q v Hq. apply lookup_insert_Some. destruct (decide (p = q)); [congruence|by right].
    + by rewrite lookup_insert_eq.
Qed.

(** The cache is transparent: from a consistent cache, EncoderFor returns
    what a cache-free constructor would, keeps the cache consistent, never
    changes an entry, and a second call returns the same encoder without
    touching the cache. *)
Theorem EncoderFor_transparent p c :
  cache_ok c ->
  let '(r, c') := EncoderFor p c in
  r = NewEncoder p /\ cache_ok c' /\
  (forall q v, c !! q = Some v -> c' !! q = Some v) /\
  EncoderFor p c' = (r, c').
Proof. apply EncoderFor_cases. Qed.

Lemma EncoderFor_ok p c e :
  cache_ok c -> params_ok p -> rs_New (DataShards p) (ParityShards p) = OK e ->
  exists c', EncoderFor p c = (OK (mkEncoder e p), c') /\ cache_ok c'.
Proof.
  intros Hc Hp He. pose proof (EncoderFor_cases p c Hc) as H.
  destruct (EncoderFor p c) as [r c']. destruct H as (-> & Hc' & _).
  unfold NewEncoder. rewrite Validate_ok, He by done. simpl. eauto.
Qed.
End cache.

(** The sum of the shard counts is a Go [int]: it wraps around, so Validate accepts a
    scheme of 2^63 shards. *)
Theorem Validate_overflow : Validate (mkParams (2 ^ 63 - 1) 1) = None.
Proof. reflexivity. Qed.

(** SplitSize is the ceiling of [n / k], for every stripe length that
    does not overflow: the shards hold the stripe with less than [k] bytes
    of padding. *)
Theorem SplitSize_ceil {RS : ReedSolomon} p (e : rs_enc) n :
  params_ok p -> 0 <= n < 2 ^ 62 ->
  n <= SplitSize (mkEncoder e p) n * DataShards p < n + DataShards p.
Proof.
  intros Hp Hn. rewrite (SplitSize_spec Hp) by done.
  pose proof (per_shard_bounds (Z.to_nat (DataShards p)) (Z.to_nat n)).
  destruct Hp as (? & _). lia.
Qed.

(** Reconstruct reports success on an array whose shards are all lost,
    and leaves every one of them lost. *)
Theorem Reconstruct_all_lost {RS : ReedSolomon} (e : Encoder) shards :
  Forall (fun s => slice_len s = 0) shards -> Reconstruct e shards = OK shards.
Proof.
  intros H. unfold Reconstruct, allEmpty.
  assert (forallb (fun s => slice_len s =? 0) shards = true) as ->; [|done].
  apply forallb_forall. intros s Hs. rewrite <- list_elem_of_In in Hs.
  rewrite Forall_forall in H. by apply Z.eqb_eq, H.
Qed.
