(* ===== verification/EncoderCache.v ===== *)
(** Concurrent calls of [ec.EncoderFor]. [encCache] is a [sync.Map]: Load and
    LoadOrStore are atomic, everything between them may interleave with other
    goroutines. A configuration is the cache, the heap of the encoders
    allocated so far, and the program counter of every goroutine that called
    EncoderFor; an encoder pointer is an address of the heap. *)
From S2P Require Import Prelude Binary EC.

(** Where a call stands. *)
Inductive pc :=
  | Called (p : Params)                (* before Validate *)
  | Missed (p : Params)                (* after a Load that found nothing *)
  | Built (p : Params) (ptr : nat)     (* after &Encoder{...}, before LoadOrStore *)
  | Returned (p : Params) (ptr : nat)  (* return v, nil *)
  | Failed (p : Params) (err : error). (* return nil, err *)

Section concurrent.
Context {RS : ReedSolomon}.

Record config := mkConfig {
  cache : gmap Params nat;
  heap : gmap nat Encoder;
  calls : gmap nat pc;
}.

Definition init : config := mkConfig ∅ ∅ ∅.

Definition set_call (t : nat) (c : pc) (s : config) : config :=
  mkConfig (cache s) (heap s) (<[t := c]> (calls s)).

(** One atomic step of goroutine [t]. *)
Inductive step (s : config) : config -> Prop :=
  | step_call t p :
      calls s !! t = None -> step s (set_call t (Called p) s)
  | step_invalid t p err :
      calls s !! t = Some (Called p) -> Validate p = Some err ->
      step s (set_call t (Failed p err) s)
  | step_hit t p a :
      calls s !! t = Some (Called p) -> Validate p = None -> cache s !! p = Some a ->
      step s (set_call t (Returned p a) s)
  | step_miss t p :
      calls s !! t = Some (Called p) -> Validate p = None -> cache s !! p = None ->
      step s (set_call t (Missed p) s)
  | step_new_fails t p err :
      calls s !! t = Some (Missed p) ->
      rs_New (DataShards p) (ParityShards p) = Err err ->
      step s (set_call t (Failed p (Wrapf "ec: create encoder" err)) s)
  | step_new t p e a :
      calls s !! t = Some (Missed p) ->
      rs_New (DataShards p) (ParityShards p) = OK e -> heap s !! a = None ->
      step s (mkConfig (cache s) (<[a := mkEncoder e p]> (heap s)) (<[t := Built p a]> (calls s)))
  | step_load t p a actual :
      calls s !! t = Some (Built p a) -> cache s !! p = Some actual ->
      step s (set_call t (Returned p actual) s)
  | step_store t p a :
      calls s !! t = Some (Built p a) -> cache s !! p = None ->
      step s (mkConfig (<[p := a]> (cache s)) (heap s) (<[t := Returned p a]> (calls s))).

Definition reachable (s : config) : Prop := rtc step init s.

(** [a] is the address of an encoder made by the library for [p]. *)
Definition encoder_at (s : config) (a : nat) (p : Params) : Prop :=
  exists e, rs_New (DataShards p) (ParityShards p) = OK e /\ heap s !! a = Some (mkEncoder e p).

Record cache_inv (s : config) : Prop := {
  inv_cache p a : cache s !! p = Some a -> encoder_at s a p /\ Validate p = None;
  inv_built t p a : calls s !! t = Some (Built p a) -> encoder_at s a p /\ Validate p = None;
  inv_missed t p : calls s !! t = Some (Missed p) -> Validate p = None;
  inv_returned t p a : calls s !! t = Some (Returned p a) -> cache s !! p = Some a;
}.

Lemma cache_inv_init : cache_inv init.
Proof. constructor; intros *; cbn; by rewrite lookup_empty. Qed.

Lemma encoder_at_set_call s t c a p : encoder_at (set_call t c s) a p <-> encoder_at s a p.
Proof. done. Qed.

Ltac split_inserts := repeat match goal with
  | H : <[_ := _]> _ !! _ = Some _ |- _ =>
      apply lookup_insert_Some in H as [[? ?]|[? ?]]; simplify_eq
  end.

Lemma cache_inv_step s s' : cache_inv s -> step s s' -> cache_inv s'.
Proof.
  intros [I1 I2 I3 I4] Hs.
  destruct Hs; constructor; cbn [calls cache heap set_call]; intros;
    split_inserts; eauto.
  (* a new encoder is at a fresh address *)
  - edestruct I1 as ((e' & ? & ?) & ?); [eassumption|]. split; [|done].
    exists e'. split; [done|]. cbn. rewrite lookup_insert_ne; [done|congruence].
  - split; [|eauto]. exists e. split; [done|]. cbn. by rewrite lookup_insert_eq.
  - edestruct I2 as ((e' & ? & ?) & ?); [eassumption|]. split; [|done].
    exists e'. split; [done|]. cbn. rewrite lookup_insert_ne; [done|congruence].
  (* LoadOrStore stores only where there was nothing *)
  - by rewrite lookup_insert_eq.
  - rewrite lookup_insert_ne; [eauto|]. intros ->. apply I4 in H2. congruence.
Qed.

Lemma reachable_inv s : reachable s -> cache_inv s.
Proof.
  unfold reachable. intros H. remember init as s0 eqn:E.
  assert (cache_inv s0) as Hi by (subst; apply cache_inv_init). clear E.
  induction H; eauto using cache_inv_step.
Qed.

(** Once an entry is in the cache it stays. *)
Lemma cache_monotone s s' p a : step s s' -> cache s !! p = Some a -> cache s' !! p = Some a.
Proof.
  intros Hs Hp. destruct Hs; cbn; try done.
  rewrite lookup_insert_ne; [done|congruence].
Qed.

Lemma cache_monotone_rtc s s' p a :
  rtc step s s' -> cache s !! p = Some a -> cache s' !! p = Some a.
Proof. induction 1; eauto using cache_monotone. Qed.

(** C30. However the calls of EncoderFor interleave, all calls for the same
    parameters that return an encoder return the same pointer, now and in
    every later configuration, and it points to an encoder that the library
    made for these parameters. *)
Theorem EncoderFor_concurrent s s' t1 t2 p a b :
  reachable s -> rtc step s s' ->
  calls s !! t1 = Some (Returned p a) -> calls s' !! t2 = Some (Returned p b) ->
  a = b /\ encoder_at s' a p /\ Validate p = None.
Proof.
  intros Hr Hss H1 H2.
  pose proof (inv_returned s (reachable_inv s Hr) _ _ _ H1) as Ha.
  apply (cache_monotone_rtc _ _ _ _ Hss) in Ha.
  assert (reachable s') as Hr' by (unfold reachable in *; by etrans).
  pose proof (inv_returned s' (reachable_inv s' Hr') _ _ _ H2) as Hb.
  destruct (inv_cache s' (reachable_inv s' Hr') _ _ Ha). simplify_eq. eauto.
Qed.

Definition returned (c : pc) : bool :=
  match c with Returned _ _ | Failed _ _ => true | _ => false end.

(** No call of EncoderFor waits for another: in every configuration, a
    call that has not returned can take a step of its own (unless the library
    panics while it builds the encoder). *)
Theorem EncoderFor_never_blocks s t c :
  (forall k m msg, rs_New k m <> Panicked msg) ->
  calls s !! t = Some c -> returned c = false ->
  exists s' c', step s s' /\ calls s' !! t = Some c' /\ c' <> c.
Proof.
  intros Hp Hc Hr.
  assert (forall s' c', step s s' -> calls s' !! t = Some c' -> c' <> c ->
    exists s' c', step s s' /\ calls s' !! t = Some c' /\ c' <> c) as go by eauto.
  assert (forall c' (cs : gmap nat pc), <[t := c']> cs !! t = Some c') as at_t
    by (intros; apply lookup_insert_eq).
  destruct c as [p|p|p a|p a|p err]; [..|done|done].
  - destruct (Validate p) eqn:Hv; [eapply go; [by eapply step_invalid|apply at_t|done]|].
    destruct (cache s !! p) eqn:Ha.
    + eapply go; [by eapply step_hit|apply at_t|done].
    + eapply go; [by eapply step_miss|apply at_t|done].
  - destruct (rs_New (DataShards p) (ParityShards p)) as [e|err|msg] eqn:He.
    + eapply go; [eapply (step_new s t p e (fresh (dom (heap s)))); [done..|]|apply at_t|done].
      apply not_elem_of_dom, is_fresh.
    + eapply go; [by eapply step_new_fails|apply at_t|done].
    + by destruct (Hp _ _ _ He).
  - destruct (cache s !! p) eqn:Ha.
    + eapply go; [by eapply step_load|apply at_t|done].
    + eapply go; [by eapply step_store|apply at_t|done].
Qed.
End concurrent.
