(* ===== verification/XorCodec.v ===== *)
(** A concrete Reed-Solomon engine: [k] data shards and one XOR parity shard,
    for every [k]. It is not part of the program; it shows that the laws the
    program relies on ([EC.RSLaws]) can hold, and lets the models run. *)
From S2P Require Import Prelude Binary EC.

(** * XOR of bytes and of byte strings *)

Definition bxor (a b : byte) : byte :=
  let '(a0, (a1, (a2, (a3, (a4, (a5, (a6, a7))))))) := Byte.to_bits a in
  let '(b0, (b1, (b2, (b3, (b4, (b5, (b6, b7))))))) := Byte.to_bits b in
  Byte.of_bits (xorb a0 b0, (xorb a1 b1, (xorb a2 b2, (xorb a3 b3,
    (xorb a4 b4, (xorb a5 b5, (xorb a6 b6, xorb a7 b7))))))).

Lemma byte_bits_inj a b : Byte.to_bits a = Byte.to_bits b -> a = b.
Proof. intros H. by rewrite <- (Byte.of_bits_to_bits a), H, Byte.of_bits_to_bits. Qed.

Ltac byte_bits :=
  unfold bxor; repeat match goal with
  | |- context [Byte.to_bits ?a] => is_var a;
      destruct (Byte.to_bits a) as (?&?&?&?&?&?&?&?) eqn:?
  end.

Lemma bxor_assoc a b c : bxor (bxor a b) c = bxor a (bxor b c).
Proof. byte_bits. by rewrite !Byte.to_bits_of_bits, !xorb_assoc. Qed.

Lemma bxor_comm a b : bxor a b = bxor b a.
Proof. byte_bits. f_equal. repeat (f_equal; [apply xorb_comm|]). apply xorb_comm. Qed.

Lemma bxor_nilpotent a : bxor a a = x00.
Proof. byte_bits. by rewrite !xorb_nilpotent. Qed.

Lemma bxor_0_r a : bxor a x00 = a.
Proof.
  apply byte_bits_inj. byte_bits. change (Byte.to_bits x00) with
    (false, (false, (false, (false, (false, (false, (false, false))))))).
  cbv beta iota. by rewrite Byte.to_bits_of_bits, !xorb_false_r.
Qed.

Definition xor (a b : bytes) : bytes := zip_with bxor a b.

(** XOR of all the shards of a list, each of [L] bytes. *)
Definition xor_sum (L : nat) (ls : list bytes) : bytes := fold_right xor (replicate L x00) ls.

Lemma length_xor a b : length a = length b -> length (xor a b) = length a.
Proof. intros. unfold xor. rewrite length_zip_with. lia. Qed.

Lemma xor_assoc a b c : xor (xor a b) c = xor a (xor b c).
Proof.
  unfold xor. revert b c. induction a as [|x a IH]; intros [|y b] [|z c]; try done.
  simpl. by rewrite bxor_assoc, IH.
Qed.

Lemma xor_comm a b : xor a b = xor b a.
Proof.
  unfold xor. revert b. induction a as [|x a IH]; intros [|y b]; try done.
  simpl. by rewrite bxor_comm, IH.
Qed.

Lemma xor_self a : xor a a = replicate (length a) x00.
Proof. unfold xor. induction a as [|x a IH]; [done|]. simpl. by rewrite bxor_nilpotent, IH. Qed.

Lemma xor_zeros a : xor a (replicate (length a) x00) = a.
Proof. unfold xor. induction a as [|x a IH]; [done|]. simpl. by rewrite bxor_0_r, IH. Qed.

Lemma xor_cancel a b c : length a = length b -> length b = length c ->
  xor a b = xor a c -> b = c.
Proof.
  intros H1 H2 H%(f_equal (xor a)). rewrite <- !xor_assoc, !xor_self, H1 in H.
  rewrite !(xor_comm (replicate _ _)), H2 in H. rewrite xor_zeros in H.
  by rewrite <- H2, xor_zeros in H.
Qed.

Lemma length_xor_sum L ls : Forall (fun b => length b = L) ls -> length (xor_sum L ls) = L.
Proof.
  induction 1 as [|x ls Hx _ IH]; simpl; [apply length_replicate|].
  rewrite length_xor; [done|]. by rewrite Hx, IH.
Qed.

Lemma xor_sum_snoc L ls x : length x = L -> Forall (fun b => length b = L) ls ->
  xor_sum L (ls ++ [x]) = xor (xor_sum L ls) x.
Proof.
  intros Hx. induction 1 as [|y ls Hy _ IH]; simpl.
  - rewrite xor_comm. done.
  - by rewrite IH, xor_assoc.
Qed.

(** * The engine *)

Definition shard_size (shards : list bytes) : nat := list_max (map length shards).

Definition xor_parity (D : list bytes) : list bytes := [xor_sum (shard_size D) D].

(** All the shards, when none is nil. *)
Fixpoint all_some (shards : list slice) : option (list bytes) :=
  match shards with
  | [] => Some []
  | Some b :: shards' => bs ← all_some shards'; Some (b :: bs)
  | None :: _ => None
  end.

Definition contents (shards : list slice) : list bytes :=
  map (default []) (List.filter present shards).

Definition fill (v : bytes) (shards : list slice) : list slice :=
  map (fun s => if present s then s else Some v) shards.

#[global, refine] Instance XorRS : ReedSolomon := {
  rs_enc := nat;
  rs_New k m := if (m =? 1) && (0 <? k) then OK (Z.to_nat k) else Err (LibError "invalid shard number");
  rs_Split k data :=
    match data with
    | [] => Err (LibError "not enough data")
    | _ => OK (map Some (split_data k data ++ [replicate (per_shard k (length data)) x00]))
    end;
  rs_Encode k shards :=
    match all_some shards with
    | Some bs => OK (map Some (take k bs ++ xor_parity (take k bs)))
    | None => Err (LibError "shard sizes do not match")
    end;
  rs_Reconstruct k shards :=
    if (present_count shards <? k)%nat then Err (LibError "too few shards given")
    else OK (fill (xor_sum (shard_size (contents shards)) (contents shards)) shards);
  rs_Verify k shards :=
    match all_some shards with
    | Some bs => OK (bool_decide (drop k bs = xor_parity (take k bs)))
    | None => Err (LibError "shard sizes do not match")
    end;
  rs_Join k shards size :=
    match all_some (take k shards) with
    | Some bs =>
        if size <=? len (concat bs) then ([take (Z.to_nat size) (concat bs)], None)
        else ([], Some (LibError "not enough data"))
    | None => ([], Some (LibError "reconstruction required"))
    end;
}.
Proof. Defined.

(** * The laws *)

Lemma all_some_map (bs : list bytes) : all_some (map Some bs) = Some bs.
Proof. induction bs as [|b bs IH]; [done|]. simpl. by rewrite IH. Qed.

Lemma shard_size_shaped n L D : (0 < n)%nat -> shaped n L D -> shard_size D = L.
Proof.
  intros Hn [Hl HD]. unfold shard_size. destruct HD as [|b D Hb HD]; simpl in *; [lia|].
  assert (list_max (map length D) <= L)%nat; [|lia].
  apply list_max_le. clear Hl. induction HD; simpl; constructor; [lia|done].
Qed.

Lemma contents_shaped shards C L : (0 < L)%nat -> survives_of shards C ->
  Forall (fun b => length b = L) C ->
  shaped (present_count shards) L (contents shards).
Proof.
  intros HL. induction 1 as [|s c shards C Hs _ IH]; intros HC; [by split|].
  apply Forall_cons in HC as [Hc HC]. destruct (IH HC) as [IH1 IH2].
  unfold contents, present_count in *. cbn [List.filter].
  destruct (present s) eqn:Hp; [|done]. destruct Hs as [->|]; [|done].
  split; simpl; [lia|]. by constructor.
Qed.

Lemma fill_complete v shards C : survives_of shards C ->
  (present_count shards = length C)%nat ->
  fill v shards = map Some C /\ contents shards = C.
Proof.
  induction 1 as [|s c shards C Hs Hrest IH]; intros Hn; [done|].
  pose proof (present_count_le shards) as Hle. rewrite (Forall2_length _ _ _ Hrest) in Hle.
  unfold present_count, contents, fill in *. simpl in *. destruct (present s) eqn:Hp; [|lia].
  destruct Hs as [->|]; [|done]. simpl in *. destruct IH as [-> ->]; [lia|done].
Qed.

(** One missing shard is the one that completes the XOR. *)
Lemma fill_missing v shards C L : (0 < L)%nat -> survives_of shards C ->
  Forall (fun b => length b = L) C -> length v = L ->
  S (present_count shards) = length C ->
  xor v (xor_sum L (contents shards)) = xor_sum L C ->
  fill v shards = map Some C.
Proof.
  intros HL. induction 1 as [|s c shards C Hs Hrest IH]; intros HC Hv Hn Hx; [done|].
  apply Forall_cons in HC as [Hc HC].
  pose proof (contents_shaped _ _ _ HL Hrest HC) as [_ Hcs].
  pose proof (length_xor_sum L _ Hcs). pose proof (length_xor_sum L _ HC).
  destruct (present s) eqn:Hp; destruct Hs as [->|]; try done.
  - unfold fill, contents, present_count in *. cbn [List.filter map] in *. rewrite Hp in *.
    simpl in *. f_equal. apply IH; [done..|lia|].
    rewrite <- xor_assoc, (xor_comm v), xor_assoc in Hx.
    apply (xor_cancel c); [|..|exact Hx]; rewrite ?length_xor; congruence.
  - simpl in Hp. destruct c; simpl in *; [lia|done].
  - assert (present_count shards = length C) as Hn'.
    { unfold present_count in *. cbn [List.filter] in Hn. rewrite Hp in Hn. simpl in Hn. lia. }
    destruct (fill_complete v shards C Hrest Hn') as [Hf Hcont].
    unfold fill, contents in *. cbn [List.filter map] in *. rewrite Hp in *.
    rewrite Hcont in *. simpl in *. rewrite Hf. do 2 f_equal.
    rewrite (xor_comm v), (xor_comm c) in Hx.
    apply (xor_cancel (xor_sum L C)); congruence.
Qed.

Section laws.
Context (p : Params) (Hk : 1 <= DataShards p) (Hm : ParityShards p = 1).
Let k : nat := Z.to_nat (DataShards p).

Lemma k_pos : (0 < k)%nat.
Proof. unfold k. lia. Qed.

Lemma xor_parity_shaped L D : shaped k L D -> shaped 1 L (xor_parity D).
Proof.
  intros HD. unfold xor_parity. rewrite (shard_size_shaped k L D) by (done || apply k_pos).
  split; [done|]. constructor; [|done]. apply length_xor_sum, HD.
Qed.

Lemma xor_sum_codeword L D : shaped k L D -> xor_sum L (D ++ xor_parity D) = replicate L x00.
Proof.
  intros HD. unfold xor_parity. rewrite (shard_size_shaped k L D) by (done || apply k_pos).
  destruct HD as [_ HD]. rewrite xor_sum_snoc, xor_self by (done || by apply length_xor_sum).
  by rewrite length_xor_sum.
Qed.

Lemma xor_reconstruct L D shards : (0 < L)%nat -> shaped k L D ->
  survives_of shards (D ++ xor_parity D) -> (k <= present_count shards)%nat ->
  rs_Reconstruct k shards = OK (map Some (D ++ xor_parity D)).
Proof.
  intros HL HD Hs Hc. pose proof k_pos. simpl.
  destruct (Nat.ltb_spec (present_count shards) k); [lia|]. f_equal.
  pose proof (shaped_app _ _ _ _ _ HD (xor_parity_shaped L D HD)) as [Hl HF].
  pose proof (contents_shaped _ _ _ HL Hs HF) as Hcs.
  rewrite (shard_size_shaped (present_count shards) L) by (done || lia).
  pose proof (present_count_le shards) as Hle. rewrite (Forall2_length _ _ _ Hs), Hl in Hle.
  destruct (decide (present_count shards = k)) as [Hck|].
  - apply (fill_missing _ _ _ L); [done..| |lia|].
    + apply length_xor_sum, Hcs.
    + rewrite xor_self, xor_sum_codeword by done. f_equal. apply length_xor_sum, Hcs.
  - apply fill_complete; [done|lia].
Qed.

#[export] Instance XorLaws : RSLaws XorRS p k xor_parity.
Proof.
  pose proof k_pos.
  constructor; rewrite ?Hm; fold k.
  - simpl. destruct (Z.ltb_spec 0 (DataShards p)); [done|lia].
  - intros. by apply xor_parity_shaped.
  - intros stripe Hne. eexists [_]. split; [|by destruct stripe].
    split; [done|]. constructor; [|done]. apply length_replicate.
  - intros D P L HL [HD _] [HP _]. simpl. by rewrite all_some_map, take_app_length' by done.
  - intros. by apply (xor_reconstruct L).
  - intros shards _ Hc. simpl. destruct (Nat.ltb_spec (present_count shards) k); [eauto|lia].
  - intros D P L HL [HD _] [HP _]. simpl.
    by rewrite all_some_map, take_app_length', drop_app_length' by done.
  - intros D P L size [HD _] Hsz. simpl. rewrite map_app, take_app_length' by len_lia.
    rewrite all_some_map. destruct (Z.leb_spec size (len (concat D))); [|lia].
    eexists. split; [done|]. apply app_nil_r.
Qed.
End laws.

(** The engine at work: three data shards, one lost. *)
Example xor_restores :
  let e := mkEncoder (3%nat : @rs_enc XorRS) (mkParams 3 1) in
  match Encode e (bytes_of_string "hello world") with
  | OK [a; _; c; d] =>
      match Reconstruct e [a; None; c; d] with
      | OK shards => Join e (replicate 11 x00) shards 11
      | _ => ([], None)
      end
  | _ => ([], None)
  end = (bytes_of_string "hello world", None).
Proof. vm_compute. reflexivity. Qed.
