(* ===== verification/EcExamples.v ===== *)
(** The properties of internal/ec at work, on the XOR engine. *)
From S2P Require Import Prelude Binary EC EncoderCache XorCodec.

Lemma ex_ok : params_ok (mkParams 2 1).
Proof. unfold params_ok. cbn. lia. Qed.

Lemma ex_xor_laws : RSLaws XorRS (mkParams 2 1) 2%nat xor_parity.
Proof. apply (XorLaws (mkParams 2 1)); cbn; lia. Qed.

Lemma Validate_spec_witness : Validate (mkParams 4 2) = None <-> params_ok (mkParams 4 2).
Proof. apply Validate_spec. unfold inS. cbn. lia. Defined.

Lemma SplitSize_ceil_witness :
  7 <= SplitSize (mkEncoder (RS := XorRS) 2%nat (mkParams 2 1)) 7 * 2 < 7 + 2.
Proof. apply (SplitSize_ceil (RS := XorRS) (mkParams 2 1) 2%nat 7 ex_ok). lia. Defined.

Lemma Reconstruct_all_lost_witness :
  Reconstruct (mkEncoder (RS := XorRS) 2%nat (mkParams 2 1)) [None; Some []; None] = OK [None; Some []; None].
Proof. apply Reconstruct_all_lost. repeat constructor. Defined.

Lemma EncoderFor_transparent_witness :
  exists c', EncoderFor (RS := XorRS) (mkParams 2 1) ∅ = (OK (mkEncoder 2%nat (mkParams 2 1)), c') /\
    EncoderFor (mkParams 2 1) c' = (OK (mkEncoder 2%nat (mkParams 2 1)), c').
Proof.
  pose proof (EncoderFor_transparent (RS := XorRS) (mkParams 2 1) ∅ cache_ok_empty) as H.
  destruct (EncoderFor (mkParams 2 1) ∅) as [r c'].
  destruct H as (Hr & _ & _ & H). change (NewEncoder _) with (OK (mkEncoder (RS := XorRS) 2%nat (mkParams 2 1))) in Hr.
  subst r. exists c'. split; [reflexivity|exact H].
Defined.

(** A flipped byte in one shard of "hi!?" is noticed. *)
Lemma Verify_detects_witness :
  let stripe := bytes_of_string "hi!?" in
  Verify (mkEncoder (RS := XorRS) 2%nat (mkParams 2 1))
    (map Some (bytes_of_string "hx" :: drop 1 (codeword (p := mkParams 2 1) (parity := xor_parity) stripe)))
  = OK false.
Proof.
  intros stripe.
  rewrite (Verify_detects (LAWS := ex_xor_laws) ex_ok stripe); [vm_compute; reflexivity|done| |].
  - split; [reflexivity|]. repeat constructor.
  - vm_compute. lia.
Defined.

Lemma any_k_shards_restore_witness :
  let e := mkEncoder (RS := XorRS) 2%nat (mkParams 2 1) in
  let stripe := bytes_of_string "hi!?" in
  exists a b c, Encode e stripe = OK [a; b; c] /\
    Reconstruct e [a; None; c] = OK [a; b; c] /\ Join e (replicate 4 x00) [a; b; c] 4 = (stripe, None).
Proof.
  intros e stripe.
  destruct (any_k_shards_restore (LAWS := ex_xor_laws) stripe ex_ok) as (shards & H1 & _ & _ & H2);
    [done|done|].
  assert (Encode e stripe = OK [Some (bytes_of_string "hi"); Some (bytes_of_string "!?"); Some [x49; x56]]) as He
    by (vm_compute; reflexivity).
  change (Encode e stripe = OK shards) in H1. rewrite He in H1. apply OK_inj in H1. subst shards.
  eexists _, _, _. split; [exact He|].
  destruct (H2 [Some (bytes_of_string "hi"); None; Some [x49; x56]]) as [H3 _].
  { repeat constructor; by left || by right. }
  destruct H3 as [H3 H4]; [vm_compute; discriminate|]. split; [exact H3|]. by apply H4.
Defined.

(** ** Two concurrent calls *)

(** Goroutines 1 and 2 both miss and both build an encoder; the second
    LoadOrStore finds the encoder of the first. *)
Definition race : config (RS := XorRS) :=
  let p := mkParams 2 1 in
  mkConfig (<[p := 1%nat]> ∅) (<[2%nat := mkEncoder (RS := XorRS) 2%nat p]> (<[1%nat := mkEncoder (RS := XorRS) 2%nat p]> ∅))
    (<[2%nat := Returned p 1%nat]> (<[1%nat := Returned p 1%nat]>
      (<[2%nat := Built p 2%nat]> (<[1%nat := Built p 1%nat]>
        (<[2%nat := Missed p]> (<[1%nat := Missed p]> (<[2%nat := Called p]> (<[1%nat := Called p]> ∅)))))))).

Lemma race_reachable : reachable race.
Proof.
  unfold reachable, race, init.
  eapply rtc_l; [apply (step_call (RS := XorRS) _ 1%nat (mkParams 2 1)); reflexivity|].
  eapply rtc_l; [apply (step_call (RS := XorRS) _ 2%nat (mkParams 2 1)); reflexivity|].
  eapply rtc_l; [apply (step_miss (RS := XorRS) _ 1%nat (mkParams 2 1)); reflexivity|].
  eapply rtc_l; [apply (step_miss (RS := XorRS) _ 2%nat (mkParams 2 1)); reflexivity|].
  eapply rtc_l; [apply (step_new (RS := XorRS) _ 1%nat (mkParams 2 1) 2%nat 1%nat); reflexivity|].
  eapply rtc_l; [apply (step_new (RS := XorRS) _ 2%nat (mkParams 2 1) 2%nat 2%nat); reflexivity|].
  eapply rtc_l; [apply (step_store (RS := XorRS) _ 1%nat (mkParams 2 1) 1%nat); reflexivity|].
  eapply rtc_l; [apply (step_load (RS := XorRS) _ 2%nat (mkParams 2 1) 2%nat 1%nat); reflexivity|].
  apply rtc_refl.
Qed.

Lemma EncoderFor_concurrent_witness :
  calls race !! 2%nat = Some (Returned (mkParams 2 1) 1%nat) /\ encoder_at race 1%nat (mkParams 2 1).
Proof.
  split; [reflexivity|].
  destruct (EncoderFor_concurrent race race 1%nat 2%nat (mkParams 2 1) 1%nat 1%nat race_reachable (rtc_refl _ _)
    eq_refl eq_refl) as (_ & H & _). exact H.
Defined.

Lemma EncoderFor_never_blocks_witness :
  let s := set_call (RS := XorRS) 7%nat (Called (mkParams 2 1)) init in
  exists s' c', step s s' /\ calls s' !! 7%nat = Some c' /\ c' <> Called (mkParams 2 1).
Proof.
  intros s. apply (EncoderFor_never_blocks s 7%nat (Called (mkParams 2 1))); [|reflexivity|reflexivity].
  intros k m msg. cbn. by destruct (_ && _).
Defined.
