(* ===== verification/Header.v ===== *)
(** internal/storage/header.go: the binary formats of shard files and object
    markers, and the data types of the storage layer they carry. *)
From S2P Require Import Prelude Binary EC.

Definition shardMagic : bytes := bytes_of_string "SHARSH01".
Definition objectMagic : bytes := bytes_of_string "SHAROBJ1".
Definition shardVer : Z := 1.
Definition objectVer : Z := 1.

Record ShardKey := mkKey { k_ObjectID : string; k_StripeIdx : Z; k_ShardIdx : Z }.

#[global] Instance ShardKey_eq_dec : EqDecision ShardKey.
Proof. solve_decision. Defined.
#[global] Instance ShardKey_countable : Countable ShardKey.
Proof.
  refine (inj_countable' (fun k => (k_ObjectID k, k_StripeIdx k, k_ShardIdx k))
            (fun '(a, b, c) => mkKey a b c) _). by intros [].
Defined.

Record ShardHeader := mkHeader {
  h_ObjectID : string;
  h_StripeIdx : Z;     (* uint32 *)
  h_ShardIdx : Z;      (* uint32 *)
  h_DataShards : Z;    (* uint16 *)
  h_ParityShards : Z;  (* uint16 *)
  h_StripeLen : Z;     (* int64 *)
  h_DataLen : Z;       (* int64 *)
  h_Checksum : bytes;  (* [32]byte *)
}.

(** The zero value ShardHeader{}. *)
Definition emptyHeader : ShardHeader := mkHeader "" 0 0 0 0 0 0 (replicate 32 x00).

(** The ranges of the field types: every Go value satisfies this. *)
Definition header_wf (h : ShardHeader) : Prop :=
  inU 32 (h_StripeIdx h) /\ inU 32 (h_ShardIdx h) /\
  inU 16 (h_DataShards h) /\ inU 16 (h_ParityShards h) /\
  inS 64 (h_StripeLen h) /\ inS 64 (h_DataLen h) /\ length (h_Checksum h) = 32%nat.

Definition header_Params (h : ShardHeader) : Params :=
  mkParams (h_DataShards h) (h_ParityShards h).

(** magic[8] version u16 objLen u16 objectID stripeIdx u32 shardIdx u32
    k u16 m u16 stripeLen u64 dataLen u64 checksum[32] *)
Definition header_bytes (h : ShardHeader) : bytes :=
  shardMagic ++ le_bytes 2 shardVer ++
  le_bytes 2 (u16 (len (bytes_of_string (h_ObjectID h)))) ++ bytes_of_string (h_ObjectID h) ++
  le_bytes 4 (h_StripeIdx h) ++ le_bytes 4 (h_ShardIdx h) ++
  le_bytes 2 (h_DataShards h) ++ le_bytes 2 (h_ParityShards h) ++
  le_bytes 8 (u64 (h_StripeLen h)) ++ le_bytes 8 (u64 (h_DataLen h)) ++
  h_Checksum h.

Definition encodeShardHeader (h : ShardHeader) : result bytes :=
  if bool_decide (h_ObjectID h = ""%string) then
    Err (Errorf "storage: shard header: empty object id")
  else if (h_DataShards h <? 1) || (h_ParityShards h <? 1) then
    Err (Errorf "storage: shard header: invalid EC params %d+%d")
  else if 65535 <? len (bytes_of_string (h_ObjectID h)) then
    Err (Errorf "storage: shard header: object id too long (%d bytes)")
  else OK (header_bytes h).

(** The header returned with an error is dropped by every caller, so only the
    error is kept. *)
Definition decodeShardHeader : M Reader ShardHeader :=
  magic ← wrapM "storage: read magic" (ReadFull 8);
  if bool_decide (magic <> shardMagic) then throw (Errorf "storage: bad shard magic %q") else
  ver ← wrapM "storage: read version" (ReadUint 2);
  if bool_decide (ver <> shardVer) then throw (Errorf "storage: unsupported shard version %d") else
  objLen ← wrapM "storage: read object id length" (ReadUint 2);
  objID ← wrapM "storage: read object id" (ReadFull (Z.to_nat objLen));
  stripeIdx ← wrapM "storage: read header field" (ReadUint 4);
  shardIdx ← wrapM "storage: read header field" (ReadUint 4);
  k ← wrapM "storage: read header field" (ReadUint 2);
  m ← wrapM "storage: read header field" (ReadUint 2);
  stripeLen ← wrapM "storage: read length field" (ReadUint 8);
  dataLen ← wrapM "storage: read length field" (ReadUint 8);
  checksum ← wrapM "storage: read checksum" (ReadFull 32);
  mret (mkHeader (string_of_bytes objID) stripeIdx shardIdx k m
          (i64 stripeLen) (i64 dataLen) checksum).

Record ObjectMeta := mkMeta { m_Size : Z; m_Stripes : Z; m_Params : Params }.

Definition meta_wf (m : ObjectMeta) : Prop :=
  inS 64 (m_Size m) /\ inU 32 (m_Stripes m) /\
  inU 16 (DataShards (m_Params m)) /\ inU 16 (ParityShards (m_Params m)).

Definition encodeObjectMeta (m : ObjectMeta) : result bytes :=
  OK (objectMagic ++ le_bytes 2 objectVer ++ le_bytes 8 (u64 (m_Size m)) ++
      le_bytes 4 (m_Stripes m) ++
      le_bytes 2 (u16 (DataShards (m_Params m))) ++ le_bytes 2 (u16 (ParityShards (m_Params m)))).

Definition readObjectMeta : M Reader ObjectMeta :=
  magic ← wrapM "storage: read object meta magic" (ReadFull 8);
  if bool_decide (magic <> objectMagic) then throw (Errorf "storage: bad object meta magic %q") else
  ver ← wrapM "storage: read object meta version" (ReadUint 2);
  if bool_decide (ver <> objectVer) then throw (Errorf "storage: unsupported object meta version %d") else
  size ← wrapM "storage: read object size" (ReadUint 8);
  stripes ← wrapM "storage: read stripe count" (ReadUint 4);
  k ← wrapM "storage: read data shards" (ReadUint 2);
  parity ← wrapM "storage: read parity shards" (ReadUint 2);
  mret (mkMeta (i64 size) stripes (mkParams k parity)).

Definition decodeObjectMeta (b : bytes) : result ObjectMeta := fst (readObjectMeta (NewReader b)).

(** * Properties *)

(** Splitting a field off the front of the stream. *)
Lemma read_bytes {B} msg n pre rest fin (f : bytes -> M Reader B) :
  length pre = n ->
  (x ← wrapM msg (ReadFull n); f x) (mkReader (pre ++ rest) fin) = f pre (mkReader rest fin).
Proof. intros. by erewrite M_bind_ok by (by apply wrapM_ok, ReadFull_app). Qed.

Lemma read_uint {B} msg n z rest fin (f : Z -> M Reader B) :
  (x ← wrapM msg (ReadUint n); f x) (mkReader (le_bytes n z ++ rest) fin)
  = f (z mod 256 ^ Z.of_nat n) (mkReader rest fin).
Proof.
  erewrite M_bind_ok; [|by apply wrapM_ok, ReadUint_app, length_le_bytes].
  by rewrite le_val_le_bytes.
Qed.

(** The converse: a successful computation that starts with a read consumed
    the bytes it read, and would do the same in front of any other bytes. *)
Lemma read_bytes_inv {A} msg n (f : bytes -> M Reader A) r a r' :
  (x ← wrapM msg (ReadFull n); f x) r = (OK a, r') ->
  exists b, length b = n /\ pending r = b ++ drop n (pending r) /\
    f b (mkReader (drop n (pending r)) (final r)) = (OK a, r').
Proof.
  unfold mbind, M_bind, wrapM. destruct (ReadFull n r) as [[b|e|q] r1] eqn:E; [|done..].
  pose proof (ReadFull_ok _ _ _ _ E) as (H1 & H2 & H3). cbn [wrap_err]. intros H.
  exists b. rewrite H1, drop_app_length', <- H3 by done. split_and!; [done..|]. by destruct r1.
Qed.

Lemma read_uint_inv {A} msg n (f : Z -> M Reader A) r a r' :
  (x ← wrapM msg (ReadUint n); f x) r = (OK a, r') ->
  exists z, 0 <= z < 256 ^ Z.of_nat n /\ pending r = le_bytes n z ++ drop n (pending r) /\
    f z (mkReader (drop n (pending r)) (final r)) = (OK a, r').
Proof.
  unfold mbind, M_bind, wrapM. destruct (ReadUint n r) as [[z|e|q] r1] eqn:E; [|done..].
  pose proof (ReadUint_ok _ _ _ _ E) as (b & H1 & H2 & H3 & H4). cbn [wrap_err]. intros H.
  exists z. rewrite H1, drop_app_length', <- H4 by done. subst.
  rewrite le_bytes_le_val.
  split; [apply le_val_range|]. split; [done|]. by destruct r1.
Qed.

Lemma decode_header_bytes h rest fin :
  header_wf h -> len (bytes_of_string (h_ObjectID h)) < 2 ^ 16 ->
  decodeShardHeader (mkReader (header_bytes h ++ rest) fin) = (OK h, mkReader rest fin).
Proof.
  intros (W1 & W2 & W3 & W4 & W5 & W6 & W7) Hlen.
  unfold decodeShardHeader, header_bytes. rewrite <- !app_assoc.
  rewrite read_bytes by done. rewrite bool_decide_eq_false_2 by naive_solver.
  rewrite read_uint. rewrite bool_decide_eq_false_2 by (intros H'; by apply H').
  rewrite read_uint. rewrite (Z.mod_small (u16 _)) by (apply wrapU_range; lia).
  rewrite wrapU_id by (unfold inU, len in *; lia).
  rewrite read_bytes by (unfold len; lia).
  rewrite !read_uint. rewrite read_bytes by done.
  unfold mret, M_ret. do 2 f_equal.
  unfold inU in *. rewrite !Z.mod_small by (try apply wrapU_range; lia).
  rewrite !wrapS64_wrapU64, !wrapS64_id, string_bytes_string by done. by destruct h.
Qed.

Lemma no_panic_decodeShardHeader : no_panic decodeShardHeader.
Proof. unfold decodeShardHeader. auto 40 with shard. Qed.

Lemma no_panic_readObjectMeta : no_panic readObjectMeta.
Proof. unfold readObjectMeta. auto 40 with shard. Qed.

Lemma u64_i64 z : 0 <= z < 2 ^ 64 -> u64 (i64 z) = z.
Proof.
  intros. unfold wrapU, wrapS. rewrite Zminus_mod_idemp_l.
  replace (z + 2 ^ (64 - 1) - 2 ^ (64 - 1)) with z by lia. apply Z.mod_small. lia.
Qed.

(** A marker that decodes has all its 26 bytes. *)
Lemma readObjectMeta_length r m r' : readObjectMeta r = (OK m, r') -> (26 <= length (pending r))%nat.
Proof.
  unfold readObjectMeta. intros H.
  apply read_bytes_inv in H as (magic & L0 & P1 & H). case_bool_decide; [done|].
  apply read_uint_inv in H as (ver & _ & P2 & H). case_bool_decide; [done|].
  apply read_uint_inv in H as (size & _ & P3 & H).
  apply read_uint_inv in H as (st & _ & P4 & H).
  apply read_uint_inv in H as (k & _ & P5 & H).
  apply read_uint_inv in H as (q & _ & P6 & H). cbn [pending] in *.
  apply (f_equal length) in P1, P2, P3, P4, P5, P6.
  rewrite !length_app, ?length_le_bytes in *. lia.
Qed.

(** What a successful decode says about its input: the consumed bytes are
    the encoding of the fields it returns. *)
Lemma decodeShardHeader_inv r h r' :
  decodeShardHeader r = (OK h, r') ->
  header_wf h /\ len (bytes_of_string (h_ObjectID h)) < 2 ^ 16 /\ final r' = final r /\
  pending r = header_bytes h ++ pending r'.
Proof.
  unfold decodeShardHeader, header_bytes. intros H.
  apply read_bytes_inv in H as (magic & _ & P1 & H).
  case_bool_decide as Hm; [done|]. subst magic.
  apply read_uint_inv in H as (ver & _ & P2 & H).
  case_bool_decide as Hv; [done|]. subst ver.
  apply read_uint_inv in H as (n & Rn & P3 & H).
  apply read_bytes_inv in H as (id & Lid & P4 & H).
  apply read_uint_inv in H as (st & Rst & P5 & H).
  apply read_uint_inv in H as (sh & Rsh & P6 & H).
  apply read_uint_inv in H as (k & Rk & P7 & H).
  apply read_uint_inv in H as (m & Rm & P8 & H).
  apply read_uint_inv in H as (sl & Rsl & P9 & H).
  apply read_uint_inv in H as (dl & Rdl & P10 & H).
  apply read_bytes_inv in H as (ck & Lck & P11 & H).
  injection H as <- <-. cbn [pending final h_ObjectID h_StripeIdx h_ShardIdx h_DataShards
    h_ParityShards h_StripeLen h_DataLen h_Checksum] in *.
  unfold bytes_of_string, string_of_bytes. rewrite list_byte_of_string_of_list_byte.
  assert (len id = n) as Hn by (unfold len; lia).
  split_and!.
  - unfold header_wf, inU in *. simpl. split_and!; try done; lia || apply wrapS64_range.
  - lia.
  - done.
  - rewrite !u64_i64 by lia. rewrite Hn, wrapU_id by (unfold inU; lia).
    rewrite <- !app_assoc. congruence.
Qed.

Lemma encode_header_inv h b : encodeShardHeader h = OK b ->
  b = header_bytes h /\ len (bytes_of_string (h_ObjectID h)) < 2 ^ 16 /\
  h_ObjectID h <> ""%string /\ 1 <= h_DataShards h /\ 1 <= h_ParityShards h.
Proof.
  unfold encodeShardHeader. case_bool_decide; [done|].
  destruct (Z.ltb_spec (h_DataShards h) 1); [done|]. destruct (Z.ltb_spec (h_ParityShards h) 1); [done|].
  cbn [orb]. destruct (Z.ltb_spec 65535 (len (bytes_of_string (h_ObjectID h)))); [done|].
  intros <-%OK_inj. split_and!; (done || lia).
Qed.

Lemma decode_encoded h payload fin b :
  header_wf h -> encodeShardHeader h = OK b ->
  decodeShardHeader (mkReader (b ++ payload) fin) = (OK h, mkReader payload fin).
Proof. intros W (-> & Hl & _)%encode_header_inv. by apply decode_header_bytes. Qed.

Lemma decode_truncated h b n fin :
  header_wf h -> encodeShardHeader h = OK b -> (n < length b)%nat ->
  exists e, fst (decodeShardHeader (mkReader (take n b) fin)) = Err e.
Proof.
  intros W He Hn. destruct (decodeShardHeader (mkReader (take n b) fin)) as [[h'|e|q] r'] eqn:E.
  - pose proof (decodeShardHeader_inv _ _ _ E) as (W' & Hl & _ & Hp). cbn [pending] in Hp.
    pose proof (decode_encoded h [] fin b W He) as H1. rewrite app_nil_r in H1.
    rewrite <- (take_drop n b), Hp, <- app_assoc in H1.
    rewrite decode_header_bytes in H1 by done. injection H1 as _ H2.
    apply app_eq_nil in H2 as [_ H2]. apply (f_equal length) in H2.
    rewrite length_drop in H2. simpl in H2. lia.
  - by exists e.
  - by destruct (no_panic_decodeShardHeader _ _ _ E).
Qed.

(** C37. EncodeShardHeader accepts exactly the headers with an object ID of 1
    to 65535 bytes and positive shard counts, and its output is 72 bytes
    longer than the object ID. *)
Theorem encodeShardHeader_spec h :
  length (h_Checksum h) = 32%nat ->
  match encodeShardHeader h with
  | OK b => 1 <= len (bytes_of_string (h_ObjectID h)) <= 65535 /\
      1 <= h_DataShards h /\ 1 <= h_ParityShards h /\
      len b = 72 + len (bytes_of_string (h_ObjectID h))
  | Err _ => len (bytes_of_string (h_ObjectID h)) = 0 \/
      65535 < len (bytes_of_string (h_ObjectID h)) \/
      h_DataShards h < 1 \/ h_ParityShards h < 1
  | Panicked _ => False
  end.
Proof.
  intros Hck. unfold encodeShardHeader. case_bool_decide as Hid.
  { left. by rewrite Hid. }
  assert (1 <= len (bytes_of_string (h_ObjectID h))).
  { unfold len. destruct (h_ObjectID h); [done|]. simpl. lia. }
  destruct (Z.ltb_spec (h_DataShards h) 1); [simpl; lia|].
  destruct (Z.ltb_spec (h_ParityShards h) 1); [simpl; lia|].
  cbn [orb]. destruct (Z.ltb_spec 65535 (len (bytes_of_string (h_ObjectID h)))); [lia|].
  split_and!; try lia. unfold header_bytes, len. rewrite !length_app, !length_le_bytes, Hck.
  change (length shardMagic) with 8%nat. lia.
Qed.

(** C29. A header written to a shard file is read back unchanged, whatever
    payload follows it, and the reader stops at the first payload byte; a
    shard file cut anywhere inside its header does not decode. *)
Theorem shard_header_roundtrip h b fin :
  header_wf h -> encodeShardHeader h = OK b ->
  (forall payload, decodeShardHeader (mkReader (b ++ payload) fin) = (OK h, mkReader payload fin)) /\
  (forall n, (n < length b)%nat -> exists e, fst (decodeShardHeader (mkReader (take n b) fin)) = Err e).
Proof.
  intros W He. split; [intros; by apply decode_encoded|]. intros n Hn. by eapply decode_truncated.
Qed.

(** The format is unambiguous: whenever decoding succeeds, the fields are
    in range and the consumed bytes are exactly the encoding of the result
    (when EncodeShardHeader accepts it). No two byte strings decode to the
    same header. *)
Theorem shard_header_canonical r h r' :
  decodeShardHeader r = (OK h, r') ->
  header_wf h /\ exists b, pending r = b ++ pending r' /\
    (h_ObjectID h <> ""%string -> 1 <= h_DataShards h -> 1 <= h_ParityShards h ->
     encodeShardHeader h = OK b).
Proof.
  intros (W & Hl & _ & Hp)%decodeShardHeader_inv. split; [done|].
  exists (header_bytes h). split; [done|]. intros Hid Hk Hm.
  unfold encodeShardHeader. rewrite bool_decide_eq_false_2 by done.
  go_bools; (lia || done).
Qed.

Lemma decode_encode_meta m rest b :
  meta_wf m -> encodeObjectMeta m = OK b -> decodeObjectMeta (b ++ rest) = OK m.
Proof.
  intros (W1 & W2 & W3 & W4) <-%OK_inj. unfold decodeObjectMeta, NewReader, readObjectMeta.
  rewrite <- !app_assoc.
  rewrite read_bytes by done. rewrite bool_decide_eq_false_2 by naive_solver.
  rewrite read_uint. rewrite bool_decide_eq_false_2 by (intros H'; by apply H').
  rewrite !read_uint. unfold mret, M_ret. cbn [fst].
  rewrite !(wrapU_id 16) by done. unfold inU in *.
  rewrite !Z.mod_small by (try apply wrapU_range; lia).
  rewrite wrapS64_wrapU64, wrapS64_id by done. by destruct m as [? ? []].
Qed.

(** An object marker is read back as it was written, also when other
    bytes follow it; no proper prefix of a marker is accepted. *)
Theorem object_meta_roundtrip m b :
  meta_wf m -> encodeObjectMeta m = OK b ->
  (forall rest, decodeObjectMeta (b ++ rest) = OK m) /\
  (forall n, (n < length b)%nat -> exists e, decodeObjectMeta (take n b) = Err e).
Proof.
  intros W He. split; [intros; by apply decode_encode_meta|]. intros n Hn.
  assert (length b = 26%nat) as Hb.
  { apply OK_inj in He as <-. by rewrite !length_app, !length_le_bytes. }
  destruct (decodeObjectMeta (take n b)) as [m'|e|q] eqn:E; [|eauto|].
  - exfalso. unfold decodeObjectMeta in E.
    destruct (readObjectMeta (NewReader (take n b))) as [r rd] eqn:E'. cbn in E. subst r.
    apply readObjectMeta_length in E'. cbn in E'. rewrite length_take in E'. lia.
  - exfalso. unfold decodeObjectMeta in E.
    destruct (readObjectMeta (NewReader (take n b))) as [r rd] eqn:E'. cbn in E. subst r.
    by apply no_panic_readObjectMeta in E'.
Qed.

(** * At work *)

Definition sample_header : ShardHeader := mkHeader "a" 0 1 4 2 9 3 (replicate 32 x07).

Lemma sample_header_wf : header_wf sample_header.
Proof. unfold header_wf, inU, inS. cbn. split_and!; done || lia. Qed.

Lemma encodeShardHeader_spec_witness :
  match encodeShardHeader sample_header with OK b => len b = 73 | _ => False end.
Proof.
  pose proof (encodeShardHeader_spec sample_header eq_refl) as H.
  assert (encodeShardHeader sample_header = OK (header_bytes sample_header)) as E by reflexivity.
  rewrite E in H |- *. by destruct H as (_ & _ & _ & ->).
Defined.

Lemma shard_header_roundtrip_witness :
  exists b, encodeShardHeader sample_header = OK b /\
    decodeShardHeader (mkReader (b ++ [x01; x02]) EOF) = (OK sample_header, mkReader [x01; x02] EOF) /\
    exists e, (decodeShardHeader (mkReader (take 20 b) EOF)).1 = Err e.
Proof.
  eexists. split; [reflexivity|].
  destruct (shard_header_roundtrip sample_header _ EOF sample_header_wf eq_refl) as [H1 H2].
  split; [apply H1|apply H2]. cbn. lia.
Defined.

Lemma shard_header_canonical_witness :
  header_wf sample_header /\ exists b, encodeShardHeader sample_header = OK b.
Proof.
  destruct (shard_header_canonical (mkReader (header_bytes sample_header) EOF) sample_header (mkReader [] EOF))
    as (H1 & b & _ & H2); [reflexivity|].
  split; [exact H1|]. exists b. by apply H2.
Defined.

Lemma object_meta_roundtrip_witness :
  exists b, encodeObjectMeta (mkMeta 9 1 (mkParams 4 2)) = OK b /\
    decodeObjectMeta (b ++ [x00]) = OK (mkMeta 9 1 (mkParams 4 2)).
Proof.
  eexists. split; [reflexivity|].
  apply (object_meta_roundtrip (mkMeta 9 1 (mkParams 4 2)) _); [|reflexivity].
  unfold meta_wf, inU, inS. cbn. split_and!; done || lia.
Defined.
