(* ===== verification/ShardStore.v ===== *)
(** The [ShardStore] interface of internal/storage/store.go, and what its two
    implementations share: the order ListShards sorts by and the filter of
    ListObjectShards. *)
From Stdlib Require Import Structures.OrderedTypeEx.
From S2P Require Import Prelude Binary Sha256 EC Header.

(** ECParams mirrors ec.Params. *)
Record ECParams := mkECParams { ec_DataShards : Z; ec_ParityShards : Z }.

Definition ec_ShardCount (p : ECParams) : Z := i64 (ec_DataShards p + ec_ParityShards p).
Definition ec_MaxLoss (p : ECParams) : Z := ec_ParityShards p.
Definition toECParams (p : ECParams) : Params := mkParams (ec_DataShards p) (ec_ParityShards p).

(** The interface. Contexts are left out here: MemStore ignores them, and in
    FileStore a cancelled context is one of the failures of the environment. A
    Go triple (data, header, error) or pair (header, error) is kept as such,
    because the callers look at the error only. *)
Class ShardStore (S : Type) := {
  ss_PutShard : ShardKey -> ShardHeader -> bytes -> M S unit;
  ss_GetShard : S -> ShardKey -> slice * ShardHeader * option error;
  ss_VerifyShard : S -> ShardKey -> ShardHeader * option error;
  ss_DeleteShard : ShardKey -> M S unit;
  ss_ListShards : S -> result (list ShardKey);
  ss_ListObjectShards : S -> string -> result (list ShardKey);
  ss_WriteMarker : string -> ObjectMeta -> M S unit;
  ss_ReadMarker : S -> string -> result ObjectMeta;
  ss_RemoveMarker : string -> M S unit;
}.

(** h.Checksum = c, on a copy of the header. *)
Definition with_checksum (h : ShardHeader) (c : bytes) : ShardHeader :=
  mkHeader (h_ObjectID h) (h_StripeIdx h) (h_ShardIdx h) (h_DataShards h) (h_ParityShards h)
    (h_StripeLen h) (h_DataLen h) c.

(** The [less] function both stores pass to sort.Slice. *)
Definition key_less (a b : ShardKey) : bool :=
  if bool_decide (k_ObjectID a <> k_ObjectID b) then String.ltb (k_ObjectID a) (k_ObjectID b)
  else if bool_decide (k_StripeIdx a <> k_StripeIdx b) then k_StripeIdx a <? k_StripeIdx b
  else k_ShardIdx a <? k_ShardIdx b.

(** sort.Slice leaves no element before one that is less. *)
Definition key_le (a b : ShardKey) : Prop := key_less b a = false.
#[global] Instance key_le_dec : RelDecision key_le.
Proof. intros a b. unfold key_le. apply _. Defined.

Definition sort_keys (keys : list ShardKey) : list ShardKey := merge_sort key_le keys.

(** The loop of ListObjectShards. *)
Definition object_keys (objectID : string) (all : list ShardKey) : list ShardKey :=
  filter (fun k => objectID = ""%string \/ k_ObjectID k = objectID) all.

(** * The order *)

Lemma ltb_lt a b : String.ltb a b = true <-> String_as_OT.lt a b.
Proof.
  unfold String.ltb. rewrite <- String_as_OT.cmp_lt. unfold String_as_OT.cmp.
  destruct (String.compare a b); naive_solver.
Qed.

Lemma ltb_trans a b c : String.ltb a b = true -> String.ltb b c = true -> String.ltb a c = true.
Proof. rewrite !ltb_lt. apply String_as_OT.lt_trans. Qed.

Lemma ltb_irrefl a : String.ltb a a = false.
Proof.
  destruct (String.ltb a a) eqn:E; [|done]. apply ltb_lt, String_as_OT.lt_not_eq in E. by destruct E.
Qed.

Lemma ltb_total a b : a <> b -> String.ltb a b = true \/ String.ltb b a = true.
Proof.
  intros Hne. unfold String.ltb. rewrite (String.compare_antisym b a).
  destruct (String.compare a b) eqn:E; [|by left|by right].
  by apply String.compare_eq_iff in E.
Qed.

Ltac key_cases :=
  unfold key_less in *; repeat case_bool_decide; simplify_eq/=; try congruence;
  rewrite ?Z.ltb_lt, ?Z.ltb_ge in *.

Lemma key_less_irrefl a : key_less a a = false.
Proof. key_cases. lia. Qed.

Lemma key_less_trans a b c : key_less a b = true -> key_less b c = true -> key_less a c = true.
Proof.
  destruct a as [i1 s1 d1], b as [i2 s2 d2], c as [i3 s3 d3]. intros H1 H2.
  unfold key_less in *. cbn in *.
  assert (forall x, String.ltb x x = true -> False) as irr by (intros x; by rewrite ltb_irrefl).
  repeat case_bool_decide; simplify_eq; rewrite ?Z.ltb_lt in *; try lia;
    try (eapply ltb_trans; eassumption); 
    try (destruct (irr _ (ltb_trans _ _ _ H1 H2))); congruence.
Qed.

Lemma key_less_total a b : a = b \/ key_less a b = true \/ key_less b a = true.
Proof.
  destruct a as [i1 s1 d1], b as [i2 s2 d2]. unfold key_less. cbn.
  repeat case_bool_decide; simplify_eq; rewrite ?Z.ltb_lt; auto using ltb_total; try (right; lia).
  destruct (decide (d1 = d2)) as [->|]; [by left|right; lia].
Qed.

Lemma key_le_iff a b : key_le a b <-> a = b \/ key_less a b = true.
Proof.
  unfold key_le. split.
  - intros H. destruct (key_less_total a b) as [|[|]]; [by left|by right|congruence].
  - intros [->|H]; [apply key_less_irrefl|]. destruct (key_less b a) eqn:E; [|done].
    pose proof (key_less_trans _ _ _ H E) as Ht. by rewrite key_less_irrefl in Ht.
Qed.

#[global] Instance key_le_total : Total key_le.
Proof. intros a b. rewrite (key_le_iff a b), (key_le_iff b a). destruct (key_less_total a b) as [|[|]]; auto. Qed.

#[global] Instance key_le_trans : Transitive key_le.
Proof.
  intros a b c [->|H1]%key_le_iff [->|H2]%key_le_iff; apply key_le_iff; eauto using key_less_trans.
Qed.

#[global] Instance key_le_antisym : AntiSymm (=) key_le.
Proof.
  intros a b [?|H1]%key_le_iff [?|H2]%key_le_iff; try congruence.
  pose proof (key_less_trans _ _ _ H1 H2) as Ht. by rewrite key_less_irrefl in Ht.
Qed.

(** The sorted list does not depend on the order the keys came in: iterating
    over a Go map and then sorting is deterministic. *)
Lemma sort_keys_unique l1 l2 : l1 ≡ₚ l2 -> sort_keys l1 = sort_keys l2.
Proof.
  intros H. unfold sort_keys. apply (Sorted_unique key_le).
  - apply Sorted_merge_sort, _.
  - apply Sorted_merge_sort, _.
  - by rewrite (merge_sort_Permutation key_le l1), (merge_sort_Permutation key_le l2).
Qed.

Lemma elem_of_sort_keys k l : k ∈ sort_keys l <-> k ∈ l.
Proof. unfold sort_keys. by rewrite merge_sort_Permutation. Qed.

Lemma elem_of_object_keys k id all :
  k ∈ object_keys id all <-> (id = ""%string \/ k_ObjectID k = id) /\ k ∈ all.
Proof. unfold object_keys. by rewrite list_elem_of_filter. Qed.
