(* ===== verification/MemStore.v ===== *)
(** internal/storage/store.go, MemStore: the in-memory shard store. Each
    method holds the store's lock while it touches the maps, so a method is
    one atomic step on the pair of maps. The payload is copied on the way in
    and on the way out, so values model it. *)
From S2P Require Import Prelude Binary Sha256 EC Header ShardStore.

Record memShard := mkMemShard { ms_h : ShardHeader; ms_data : bytes }.

Record MemStore := mkMemStore {
  shards : gmap ShardKey memShard;
  markers : gmap string ObjectMeta;
}.

Definition NewMemStore : MemStore := mkMemStore ∅ ∅.

Definition PutShard (key : ShardKey) (h : ShardHeader) (data : bytes) : M MemStore unit := fun m =>
  if bool_decide (k_ObjectID key <> h_ObjectID h) then
    (Err (Errorf "storage: key/header object id mismatch"), m)
  else if negb (len data =? h_DataLen h) then
    (Err (Errorf "storage: payload len %d != header DataLen %d"), m)
  else
    (OK tt, mkMemStore (<[key := mkMemShard (with_checksum h (Sum256 data)) data]> (shards m))
              (markers m)).

Definition GetShard (m : MemStore) (key : ShardKey) : slice * ShardHeader * option error :=
  match shards m !! key with
  | None => (None, emptyHeader, Some ErrShardNotFound)
  | Some s =>
      if bool_decide (Sum256 (ms_data s) <> h_Checksum (ms_h s))
      then (None, ms_h s, Some ErrCorruptShard)
      else (Some (ms_data s), ms_h s, None)
  end.

Definition VerifyShard (m : MemStore) (key : ShardKey) : ShardHeader * option error :=
  match shards m !! key with
  | None => (emptyHeader, Some ErrShardNotFound)
  | Some s =>
      if bool_decide (Sum256 (ms_data s) <> h_Checksum (ms_h s))
      then (ms_h s, Some ErrCorruptShard)
      else (ms_h s, None)
  end.

Definition DeleteShard (key : ShardKey) : M MemStore unit := fun m =>
  match shards m !! key with
  | None => (Err ErrShardNotFound, m)
  | Some _ => (OK tt, mkMemStore (delete key (shards m)) (markers m))
  end.

(** Go iterates over the map in some order; sorting makes it irrelevant
    ([sort_keys_unique]). *)
Definition ListShards (m : MemStore) : result (list ShardKey) :=
  OK (sort_keys (map fst (map_to_list (shards m)))).

Definition ListObjectShards (m : MemStore) (objectID : string) : result (list ShardKey) :=
  all ← ListShards m; OK (object_keys objectID all).

Definition WriteMarker (objectID : string) (meta : ObjectMeta) : M MemStore unit := fun m =>
  (OK tt, mkMemStore (shards m) (<[objectID := meta]> (markers m))).

Definition ReadMarker (m : MemStore) (objectID : string) : result ObjectMeta :=
  match markers m !! objectID with None => Err ErrObjectNotFound | Some meta => OK meta end.

Definition RemoveMarker (objectID : string) : M MemStore unit := fun m =>
  (OK tt, mkMemStore (shards m) (delete objectID (markers m))).

#[export] Instance MemStore_ShardStore : ShardStore MemStore := {
  ss_PutShard := PutShard;
  ss_GetShard := GetShard;
  ss_VerifyShard := VerifyShard;
  ss_DeleteShard := DeleteShard;
  ss_ListShards := ListShards;
  ss_ListObjectShards := ListObjectShards;
  ss_WriteMarker := WriteMarker;
  ss_ReadMarker := ReadMarker;
  ss_RemoveMarker := RemoveMarker;
}.

(** * Behaviour over time *)

(** What may happen to a store: calls of its methods, and bit rot, which
    replaces the payload of a shard under its header. The ghost map records
    the payload last put under each key. *)
Inductive mem_step : gmap ShardKey bytes * MemStore -> gmap ShardKey bytes * MemStore -> Prop :=
  | step_put g m key h data m' :
      PutShard key h data m = (OK tt, m') -> mem_step (g, m) (<[key := data]> g, m')
  | step_put_fails g m key h data e m' :
      PutShard key h data m = (Err e, m') -> mem_step (g, m) (g, m')
  | step_delete g m key r m' : DeleteShard key m = (r, m') -> mem_step (g, m) (g, m')
  | step_write_marker g m id meta r m' :
      WriteMarker id meta m = (r, m') -> mem_step (g, m) (g, m')
  | step_remove_marker g m id r m' : RemoveMarker id m = (r, m') -> mem_step (g, m) (g, m')
  | step_bit_rot g m key s raw :
      shards m !! key = Some s ->
      mem_step (g, m) (g, mkMemStore (<[key := mkMemShard (ms_h s) raw]> (shards m)) (markers m)).

Definition mem_reachable (x : gmap ShardKey bytes * MemStore) : Prop :=
  rtc mem_step (∅, NewMemStore) x.

(** Every header belongs to its key, and carries the checksum of the payload
    that was put with it. *)
Definition mem_inv (x : gmap ShardKey bytes * MemStore) : Prop :=
  forall key s, shards x.2 !! key = Some s ->
    h_ObjectID (ms_h s) = k_ObjectID key /\
    exists d, x.1 !! key = Some d /\ h_DataLen (ms_h s) = len d /\ h_Checksum (ms_h s) = Sum256 d.

(** * Properties *)

Lemma PutShard_ok key h data m :
  h_ObjectID h = k_ObjectID key -> h_DataLen h = len data ->
  PutShard key h data m =
    (OK tt, mkMemStore (<[key := mkMemShard (with_checksum h (Sum256 data)) data]> (shards m)) (markers m)).
Proof.
  intros H1 H2. unfold PutShard. rewrite bool_decide_eq_false_2 by naive_solver.
  by rewrite (proj2 (Z.eqb_eq _ _)) by congruence.
Qed.

Lemma PutShard_inv key h data m r m' :
  PutShard key h data m = (r, m') ->
  (r = OK tt /\ h_ObjectID h = k_ObjectID key /\ h_DataLen h = len data /\
   m' = mkMemStore (<[key := mkMemShard (with_checksum h (Sum256 data)) data]> (shards m)) (markers m))
  \/ (exists e, r = Err e) /\ m' = m.
Proof.
  unfold PutShard. case_bool_decide; [|destruct (Z.eqb_spec (len data) (h_DataLen h))];
    intros [= <- <-]; eauto 10.
Qed.

Lemma mem_inv_step x y : mem_inv x -> mem_step x y -> mem_inv y.
Proof.
  intros I Hs. destruct Hs as [g m key h data m' H|g m key h data e m' H|g m key r m' H
    |g m id meta r m' H|g m id r m' H|g m key s raw H]; intros key' s' Hl; cbn in *.
  - apply PutShard_inv in H as [(_ & H1 & H2 & ->)|[[e ?] _]]; [|done]. cbn in Hl.
    apply lookup_insert_Some in Hl as [[<- <-]|[Hne Hl]].
    + split; [done|]. exists data. by rewrite lookup_insert_eq.
    + rewrite lookup_insert_ne by done. by apply I.
  - apply PutShard_inv in H as [(? & _)|[_ ->]]; [done|by apply I].
  - unfold DeleteShard in H. case_match; simplify_eq; [|by apply I].
    cbn in Hl. apply lookup_delete_Some in Hl as [_ Hl]. by apply I.
  - unfold WriteMarker in H. simplify_eq. by apply I.
  - unfold RemoveMarker in H. simplify_eq. by apply I.
  - apply lookup_insert_Some in Hl as [[<- <-]|[Hne Hl]]; [by apply (I key s)|by apply I].
Qed.

Lemma mem_reachable_inv x : mem_reachable x -> mem_inv x.
Proof.
  unfold mem_reachable. intros H.
  assert (mem_inv (∅, NewMemStore)) as Hi by (intros key s; cbn; by rewrite lookup_empty).
  revert H Hi. generalize (∅ : gmap ShardKey bytes, NewMemStore) as y.
  induction 1; eauto using mem_inv_step.
Qed.

(** C17. Whatever sequence of operations and bit rot a store goes through, a
    shard that GetShard returns without error is the payload last put under
    its key, unless the two payloads are a SHA-256 collision. Corrupt data is
    never returned as data. *)
Theorem GetShard_integrity g m key d h :
  mem_reachable (g, m) -> GetShard m key = (Some d, h, None) ->
  h_ObjectID h = k_ObjectID key /\
  exists d0, g !! key = Some d0 /\ h_DataLen h = len d0 /\
    (d = d0 \/ d <> d0 /\ Sum256 d = Sum256 d0).
Proof.
  intros Hr Hg. unfold GetShard in Hg.
  destruct (shards m !! key) as [s|] eqn:Hs; [|done].
  case_bool_decide as Hc; simplify_eq/=.
  destruct (mem_reachable_inv _ Hr key s Hs) as (Hid & d0 & Hd0 & Hl & Hck).
  split; [done|]. exists d0. split_and!; [done..|].
  destruct (decide (ms_data s = d0)); [by left|]. right. split; [done|]. congruence.
Qed.

(** GetShard and VerifyShard agree on what is valid. *)
Lemma VerifyShard_GetShard m key :
  VerifyShard m key = ((GetShard m key).1.2, (GetShard m key).2).
Proof. unfold VerifyShard, GetShard. repeat case_match; done. Qed.

Lemma elem_of_ListShards m k : k ∈ sort_keys (map fst (map_to_list (shards m))) <-> is_Some (shards m !! k).
Proof.
  rewrite elem_of_sort_keys. split.
  - intros ([k' s] & -> & H%elem_of_map_to_list)%list_elem_of_fmap. eauto.
  - intros [s Hs]. apply list_elem_of_fmap. exists (k, s). split; [done|].
    by apply elem_of_map_to_list.
Qed.

Lemma NoDup_ListShards m : NoDup (sort_keys (map fst (map_to_list (shards m)))).
Proof. unfold sort_keys. rewrite merge_sort_Permutation. apply NoDup_fst_map_to_list. Qed.

(** ListShards returns exactly the keys of the stored shards, each once,
    in strictly increasing order; and every list of the same keys sorted with
    the code's comparison is the same list, so the order in which Go iterates
    over the map does not matter. *)
Theorem ListShards_spec m :
  exists keys, ListShards m = OK keys /\
    (forall k, k ∈ keys <-> is_Some (shards m !! k)) /\
    NoDup keys /\ Sorted key_le keys /\
    (forall keys', Permutation keys' (map fst (map_to_list (shards m))) ->
      sort_keys keys' = keys).
Proof.
  eexists. split; [reflexivity|]. split_and!.
  - apply elem_of_ListShards.
  - apply NoDup_ListShards.
  - apply Sorted_merge_sort, _.
  - intros. by apply sort_keys_unique.
Qed.

Lemma elem_of_ListObjectShards m id : id <> ""%string ->
  exists keys, ListObjectShards m id = OK keys /\
    forall k, k ∈ keys <-> k_ObjectID k = id /\ is_Some (shards m !! k).
Proof.
  intros Hid. eexists. split; [reflexivity|].
  intros k. rewrite elem_of_object_keys, elem_of_ListShards. tauto.
Qed.

Lemma NoDup_ListObjectShards m id keys : ListObjectShards m id = OK keys -> NoDup keys.
Proof. intros [= <-]. apply NoDup_filter, NoDup_ListShards. Qed.

(** The empty id lists everything. *)
Lemma ListObjectShards_all m : exists keys, ListObjectShards m "" = OK keys /\
  (forall k, k ∈ keys <-> is_Some (shards m !! k)) /\ NoDup keys.
Proof.
  eexists. split; [reflexivity|]. split; [|by eapply NoDup_ListObjectShards].
  intros k. rewrite elem_of_object_keys, elem_of_ListShards. tauto.
Qed.

(** * At work *)

Lemma GetShard_integrity_witness :
  let h := mkHeader "a" 0 0 2 1 4 2 (replicate 32 x00) in
  let hi := bytes_of_string "hi" in
  exists m, PutShard (mkKey "a" 0 0) h hi NewMemStore = (OK tt, m) /\
    GetShard m (mkKey "a" 0 0) = (Some hi, with_checksum h (Sum256 hi), None) /\
    exists d0, (<[mkKey "a" 0 0 := hi]> (∅ : gmap ShardKey bytes)) !! mkKey "a" 0 0 = Some d0 /\
      (hi = d0 \/ hi <> d0 /\ Sum256 hi = Sum256 d0).
Proof.
  intros h hi. eexists. split; [by apply PutShard_ok|].
  match goal with |- GetShard ?m _ = _ /\ _ => assert (mem_reachable (<[mkKey "a" 0 0 := hi]> ∅, m)) as Hr end.
  { eapply rtc_l; [eapply step_put|apply rtc_refl]. by apply PutShard_ok. }
  assert (forall x : memShard, ms_data x = hi -> ms_h x = with_checksum h (Sum256 hi) ->
    GetShard (mkMemStore (<[mkKey "a" 0 0 := x]> (shards NewMemStore)) (markers NewMemStore)) (mkKey "a" 0 0)
    = (Some hi, with_checksum h (Sum256 hi), None)) as Hg.
  { intros [hx dx] Hd Hh. cbn in Hd, Hh. unfold GetShard. cbn [shards]. rewrite lookup_insert_eq. cbn.
    rewrite Hd, Hh. by rewrite bool_decide_eq_false_2 by auto. }
  split; [by apply Hg|].
  destruct (GetShard_integrity _ _ _ _ _ Hr
    (Hg (mkMemShard (with_checksum h (Sum256 hi)) hi) eq_refl eq_refl)) as (_ & d0 & H1 & _ & H2).
  exists d0. split; [exact H1|exact H2].
Defined.
