(* ===== verification/ObjectStore.v ===== *)
(** internal/storage/object.go: objects over a shard store. An object is cut
    into stripes, each stripe is erasure-coded, and reads rebuild the stripes
    from the shards that are valid. The definitions are generic in the shard
    store and in the Reed-Solomon engine, as the code is. *)
From S2P Require Import Prelude Binary Sha256 EC Header ShardStore.

Definition DefaultStripeSize : Z := Z.shiftl 8 20.

(** The store field is part of the [World]. *)
Record ObjectStore := mkObjectStore { params : ECParams; stripeSize : Z }.

Definition NewObjectStore (params : ECParams) (stripeSize : Z) : ObjectStore :=
  mkObjectStore params (if stripeSize <=? 0 then DefaultStripeSize else stripeSize).

(** The process state: ec.encCache and the shard store. *)
Record World {RS : ReedSolomon} (S : Type) := mkWorld { w_cache : encCache; w_store : S }.
Arguments mkWorld {RS S} _ _.
Arguments w_cache {RS S} _.
Arguments w_store {RS S} _.

Section ObjectStore.
Context {RS : ReedSolomon} {S : Type} {SS : ShardStore S}.

Definition on_store {A} (m : M S A) : M (World S) A := fun w =>
  let '(r, s') := m (w_store w) in (r, mkWorld (w_cache w) s').

Definition on_cache {A} (m : M encCache A) : M (World S) A := fun w =>
  let '(r, c') := m (w_cache w) in (r, mkWorld c' (w_store w)).

(** ** Writing *)

Definition shard_header (o : ObjectStore) (objectID : string) (stripeIdx i stripeLen dataLen : Z)
    : ShardHeader :=
  mkHeader objectID stripeIdx (u32 i)
    (u16 (ec_DataShards (params o))) (u16 (ec_ParityShards (params o)))
    stripeLen dataLen (replicate 32 x00).

(** The range loop of putStripe, from index [i] on. *)
Fixpoint put_shards (o : ObjectStore) (objectID : string) (stripeIdx stripeLen i : Z)
    (shards : list slice) : M (World S) unit :=
  match shards with
  | [] => mret tt
  | s :: shards' =>
      wrapM "storage: put shard %d of stripe %d"
        (on_store (ss_PutShard (mkKey objectID stripeIdx (u32 i))
          (shard_header o objectID stripeIdx i stripeLen (slice_len s)) (default [] s)));;
      put_shards o objectID stripeIdx stripeLen (i + 1) shards'
  end.

Definition putStripe (o : ObjectStore) (enc : Encoder) (objectID : string) (stripeIdx : Z)
    (stripe : bytes) : M (World S) unit :=
  shards ← lift (Encode enc stripe);
  put_shards o objectID stripeIdx (len stripe) 0 shards.

(** [for remaining > 0]: returns the final stripeIdx. Every iteration takes
    [min(remaining, stripeSize)] bytes; [put_fuel] iterations are enough. *)
Fixpoint put_loop (fuel : nat) (o : ObjectStore) (enc : Encoder) (objectID : string)
    (r : Reader) (stripeIdx remaining : Z) : M (World S) Z :=
  if remaining <=? 0 then mret stripeIdx else
  match fuel with
  | O => throw OutOfFuel
  | Datatypes.S fuel' =>
      let n := if remaining <? stripeSize o then remaining else stripeSize o in
      match ReadFull (Z.to_nat n) r with
      | (Err e, _) => throw (Wrapf "storage: read input" e)
      | (Panicked msg, _) => panic msg
      | (OK chunk, r') =>
          putStripe o enc objectID stripeIdx chunk;;
          put_loop fuel' o enc objectID r' (u32 (stripeIdx + 1)) (remaining - len chunk)
      end
  end.

Definition put_fuel (o : ObjectStore) (size : Z) : nat := Z.to_nat (size / stripeSize o + 1).

Definition PutObject (o : ObjectStore) (objectID : string) (r : Reader) (size : Z)
    : M (World S) unit :=
  if bool_decide (objectID = ""%string) then throw (Errorf "storage: empty object id") else
  if size <? 0 then throw (Errorf "storage: negative size %d") else
  enc ← on_cache (EncoderFor (toECParams (params o)));
  stripes ← put_loop (put_fuel o size) o enc objectID r 0 size;
  on_store (ss_WriteMarker objectID (mkMeta size stripes (toECParams (params o)))).

(** ** Reading *)

Record objectReader := mkObjectReader {
  r_enc : Encoder;
  r_objectID : string;
  r_params : ECParams;
  r_stripeSize : Z;
  r_totalStripes : Z;  (* uint32 *)
  r_stripeIdx : Z;     (* uint32 *)
  r_buf : bytes;
  r_off : nat;
}.

(** What GetObject hands out: the stripe reader, or emptyReader{}. *)
Inductive reader := emptyReader | stripeReader (r : objectReader).

Definition encoder (o : ObjectStore) : M (World S) Encoder := fun w =>
  match on_cache (EncoderFor (toECParams (params o))) w with
  | (Err _, w') => (Panicked "encoder", w')
  | x => x
  end.

(** The loop of lastStripeLen over the shard indexes still to try. *)
Fixpoint first_valid_len (s : S) (objectID : string) (stripeIdx : Z) (idxs : list Z) : result Z :=
  match idxs with
  | [] => Err (Wrapf "storage: no valid shards for last stripe %d" ErrUnrecoverable)
  | i :: idxs' =>
      match ss_VerifyShard s (mkKey objectID stripeIdx (u32 i)) with
      | (_, Some err) =>
          if errors_Is err ErrCorruptShard || errors_Is err ErrShardNotFound
          then first_valid_len s objectID stripeIdx idxs'
          else Err err
      | (h, None) => OK (h_StripeLen h)
      end
  end.

Definition lastStripeLen (o : ObjectStore) (s : S) (objectID : string) (stripeIdx : Z) : result Z :=
  first_valid_len s objectID stripeIdx (seqZ 0 (ec_ShardCount (params o))).

Definition max_stripe (keys : list ShardKey) : Z :=
  fold_left (fun maxStripe k => if k_StripeIdx k >? maxStripe then k_StripeIdx k else maxStripe)
    keys 0.

Definition GetObject (o : ObjectStore) (objectID : string) : M (World S) (reader * Z) := fun w =>
  match ss_ListObjectShards (w_store w) objectID with
  | Err err => (Err err, w)
  | Panicked msg => (Panicked msg, w)
  | OK [] =>
      match ss_ReadMarker (w_store w) objectID with
      | Err err => (Err (if errors_Is err ErrObjectNotFound then ErrObjectNotFound else err), w)
      | Panicked msg => (Panicked msg, w)
      | OK meta => (OK (emptyReader, m_Size meta), w)
      end
  | OK keys =>
      let maxStripe := max_stripe keys in
      let stripes := u32 (maxStripe + 1) in
      let size := i64 (u32 (stripes - 1) * stripeSize o) in
      match lastStripeLen o (w_store w) objectID maxStripe with
      | Err err => (Err err, w)
      | Panicked msg => (Panicked msg, w)
      | OK lastLen =>
          (enc ← encoder o;
           mret (stripeReader (mkObjectReader enc objectID (params o) (stripeSize o) stripes 0 [] 0),
                 i64 (size + lastLen))) w
      end
  end.

(** The state of the loop of loadStripe. *)
Record loading := mkLoading { l_shards : list slice; l_stripeLen : Z; l_valid : Z; l_lost : Z }.

Fixpoint load_shards (s : S) (objectID : string) (stripeIdx : Z) (idxs : list Z) (l : loading)
    : result loading :=
  match idxs with
  | [] => OK l
  | i :: idxs' =>
      match ss_GetShard s (mkKey objectID stripeIdx (u32 i)) with
      | (data, h, None) =>
          load_shards s objectID stripeIdx idxs'
            (mkLoading (<[Z.to_nat i := data]> (l_shards l)) (h_StripeLen h) (l_valid l + 1) (l_lost l))
      | (_, _, Some err) =>
          if errors_Is err ErrCorruptShard || errors_Is err ErrShardNotFound
          then load_shards s objectID stripeIdx idxs'
                 (mkLoading (l_shards l) (l_stripeLen l) (l_valid l) (l_lost l + 1))
          else Err err
      end
  end.

Definition loadStripe (r : objectReader) (s : S) : result objectReader :=
  let total := ec_ShardCount (r_params r) in
  shards0 ← make_slice total (@None bytes);
  l ← load_shards s (r_objectID r) (r_stripeIdx r) (seqZ 0 total) (mkLoading shards0 0 0 0);
  if l_valid l <? ec_DataShards (r_params r) then
    Err (Wrapf "storage: stripe %d: %w: %d of %d shards valid" ErrUnrecoverable)
  else
    shards ← (if l_lost l >? 0 then wrap_err "storage: stripe %d" (Reconstruct (r_enc r) (l_shards l))
              else OK (l_shards l));
    out ← make_slice (l_stripeLen l) x00;
    match Join (r_enc r) out shards (l_stripeLen l) with
    | (_, Some err) => Err (Wrapf "storage: stripe %d" err)
    | (out', None) =>
        OK (mkObjectReader (r_enc r) (r_objectID r) (r_params r) (r_stripeSize r)
              (r_totalStripes r) (r_stripeIdx r) out' 0)
    end.

Definition next_stripe (r : objectReader) (buf : bytes) (off : nat) : objectReader :=
  mkObjectReader (r_enc r) (r_objectID r) (r_params r) (r_stripeSize r) (r_totalStripes r)
    (u32 (r_stripeIdx r + 1)) buf off.

(** The second half of Read: copy from the buffer, and go to the next stripe
    when it is used up. *)
Definition copy_out (n : nat) (r : objectReader) : bytes * option error * objectReader :=
  let p := take n (drop (r_off r) (r_buf r)) in
  let off := (r_off r + length p)%nat in
  (p, None,
   if (off =? length (r_buf r))%nat then next_stripe r [] 0
   else mkObjectReader (r_enc r) (r_objectID r) (r_params r) (r_stripeSize r)
          (r_totalStripes r) (r_stripeIdx r) (r_buf r) off).

(** Read(p) with len(p) = [n], against the current contents of the store: the
    bytes copied into [p], the error, and the reader afterwards. *)
Definition Read (n : nat) (r : objectReader) (s : S) : result (bytes * option error * objectReader) :=
  if r_stripeIdx r >=? r_totalStripes r then OK ([], Some EOF, r)
  else if (r_off r =? length (r_buf r))%nat then
    match loadStripe r s with
    | Err err => OK ([], Some err, r)
    | Panicked msg => Panicked msg
    | OK r1 =>
        if len (r_buf r1) =? 0 then OK ([], Some EOF, next_stripe r1 (r_buf r1) (r_off r1))
        else OK (copy_out n r1)
    end
  else OK (copy_out n r).

Definition reader_Read (n : nat) (r : reader) (s : S) : result (bytes * option error * reader) :=
  match r with
  | emptyReader => OK ([], Some EOF, emptyReader)
  | stripeReader r0 => '(p, err, r1) ← Read n r0 s; OK (p, err, stripeReader r1)
  end.

(** io.ReadAll and io.Copy: Read until an error, where EOF is success. The
    [i]-th call passes a buffer of [sizes i] bytes. The bytes read so far are
    returned with the error as well. *)
Fixpoint ReadAll (fuel : nat) (sizes : nat -> nat) (i : nat) (r : reader) (s : S)
    : result (bytes * option error) :=
  match fuel with
  | O => OK ([], Some OutOfFuel)
  | Datatypes.S fuel' =>
      '(p, err, r') ← reader_Read (sizes i) r s;
      match err with
      | Some e => OK (p, if decide (e = EOF) then None else Some e)
      | None => '(rest, e) ← ReadAll fuel' sizes (Datatypes.S i) r' s; OK (p ++ rest, e)
      end
  end.

(** ** Listing and deleting *)

Definition ObjectShards (o : ObjectStore) (s : S) (objectID : string) : result (list ShardKey) :=
  keys ← ss_ListObjectShards s objectID;
  match keys with
  | [] => _ ← ss_ReadMarker s objectID; OK []
  | _ => OK keys
  end.

Fixpoint delete_shards (keys : list ShardKey) : M S unit :=
  match keys with
  | [] => mret tt
  | k :: keys' => ss_DeleteShard k;; delete_shards keys'
  end.

Definition DeleteObject (o : ObjectStore) (objectID : string) : M (World S) unit := fun w =>
  match ss_ListObjectShards (w_store w) objectID with
  | Err err => (Err err, w)
  | Panicked msg => (Panicked msg, w)
  | OK keys => on_store (delete_shards keys;; ss_RemoveMarker objectID) w
  end.

End ObjectStore.
