(* ===== verification/ObjectWrite.v ===== *)
(** What PutObject and DeleteObject do to an in-memory store: PutObject lays
    the shards of the object's stripes over the store and leaves everything
    else as it was, for every outcome. *)
From S2P Require Import Prelude Binary Sha256 EC Header ShardStore MemStore ObjectStore.

(** * Stripes *)

(** The number of stripes of an object of [n] bytes. *)
Definition nstripes (ss n : nat) : nat := per_shard ss n.

(** The stripes PutObject cuts an object into. *)
Definition stripes_of (ss : Z) (data : bytes) : list bytes :=
  chunks (Z.to_nat ss) (nstripes (Z.to_nat ss) (length data)) data.

(** Full stripes, then one of 1 to [ss] bytes. *)
Fixpoint stripes_ok (ss : Z) (stripes : list bytes) : Prop :=
  match stripes with
  | [] => True
  | c :: rest => 0 < len c <= ss /\ (rest <> [] -> len c = ss) /\ stripes_ok ss rest
  end.

Lemma nstripes_cons ss n : (0 < ss)%nat -> (0 < n)%nat ->
  nstripes ss n = S (nstripes ss (n - ss)).
Proof.
  intros Hs Hn. unfold nstripes, per_shard. destruct (decide (ss <= n)%nat).
  - replace (n + ss - 1)%nat with ((n - ss + ss - 1) + 1 * ss)%nat by lia.
    rewrite Nat.div_add by lia. lia.
  - replace (n - ss)%nat with 0%nat by lia. rewrite (Nat.div_small (0 + ss - 1)) by lia.
    symmetry. apply (Nat.div_unique _ _ _ (n - 1)); lia.
Qed.

Lemma nstripes_0 ss : (0 < ss)%nat -> nstripes ss 0 = 0%nat.
Proof. intros. unfold nstripes, per_shard. apply Nat.div_small. lia. Qed.

Lemma stripes_of_nil ss : 0 < ss -> stripes_of ss [] = [].
Proof. intros. unfold stripes_of. simpl. by rewrite nstripes_0 by lia. Qed.

Lemma stripes_of_cons ss data : 0 < ss -> data <> [] ->
  stripes_of ss data = take (Z.to_nat ss) data :: stripes_of ss (drop (Z.to_nat ss) data).
Proof.
  intros Hs Hd. unfold stripes_of. rewrite nstripes_cons, length_drop by (destruct data; simpl; done || lia).
  done.
Qed.

Lemma stripes_of_spec ss data : 0 < ss ->
  stripes_ok ss (stripes_of ss data) /\ concat (stripes_of ss data) = data.
Proof.
  intros Hs. remember (length data) as n eqn:Hn. revert data Hn.
  induction n as [n IH] using lt_wf_ind; intros data Hn.
  destruct (decide (data = [])) as [->|Hd]; [by rewrite stripes_of_nil|].
  assert (0 < length data)%nat by (destruct data; simpl; done || lia).
  rewrite stripes_of_cons by done.
  destruct (IH (length (drop (Z.to_nat ss) data)) ltac:(len_lia) _ eq_refl) as [IH1 IH2].
  split; [|simpl; rewrite IH2; apply take_drop].
  split; [len_lia|]. split; [|done]. intros Hne.
  assert (drop (Z.to_nat ss) data <> []) as Hd'.
  { intros E. rewrite E, stripes_of_nil in Hne by done. done. }
  assert (0 < length (drop (Z.to_nat ss) data))%nat by (destruct (drop _ data); simpl; done || lia).
  len_lia.
Qed.

Lemma stripes_ok_nonempty ss stripes i c :
  stripes_ok ss stripes -> stripes !! i = Some c -> c <> [].
Proof.
  revert i. induction stripes as [|c' rest IH]; intros i H Hi; [done|].
  destruct H as (H1 & _ & H3). destruct i as [|i]; simplify_eq/=.
  - intros ->. unfold len in H1. simpl in H1. lia.
  - by apply (IH i).
Qed.

Lemma len_concat_stripes ss stripes c :
  stripes_ok ss (stripes ++ [c]) -> len (concat (stripes ++ [c])) = ss * len stripes + len c.
Proof.
  induction stripes as [|c' rest IH]; simpl.
  - intros _. unfold len. rewrite app_nil_r. simpl. lia.
  - intros (_ & H2 & H3). specialize (IH H3). specialize (H2 ltac:(by destruct rest)).
    unfold len in *. rewrite length_app. simpl in *. lia.
Qed.

Lemma stripes_of_cover ss n : 0 < ss -> (n <= Z.to_nat ss * nstripes (Z.to_nat ss) n)%nat.
Proof. intros. unfold nstripes. pose proof (per_shard_bounds (Z.to_nat ss) n). lia. Qed.

Lemma concat_take_stripes ss n data : 0 < ss ->
  concat (take n (stripes_of ss data)) = take (n * Z.to_nat ss) data.
Proof. intros. apply concat_take_chunks, stripes_of_cover. done. Qed.

Lemma concat_drop_stripes ss n data : 0 < ss ->
  concat (drop n (stripes_of ss data)) = drop (n * Z.to_nat ss) data.
Proof. intros. apply concat_drop_chunks, stripes_of_cover. done. Qed.

(** The stripes of the first [n] full stripes. *)
Lemma stripes_of_take ss n : forall data, 0 < ss -> (n * Z.to_nat ss <= length data)%nat ->
  stripes_of ss (take (n * Z.to_nat ss) data) = take n (stripes_of ss data) /\
  Forall (fun st => len st = ss) (take n (stripes_of ss data)).
Proof.
  induction n as [|n IH]; intros data Hs Hn; [by rewrite stripes_of_nil|].
  assert (data <> []) as Hd by (intros ->; simpl in Hn; lia).
  destruct (IH (drop (Z.to_nat ss) data) Hs ltac:(len_lia)) as [IH1 IH2].
  assert (take (S n * Z.to_nat ss) data <> []) as Ht.
  { intros E. apply (f_equal length) in E. rewrite length_take in E. simpl in E. lia. }
  rewrite (stripes_of_cons ss data), (stripes_of_cons ss (take _ _)) by done.
  rewrite take_take, Nat.min_l by lia. rewrite skipn_firstn_comm.
  replace (S n * Z.to_nat ss - Z.to_nat ss)%nat with (n * Z.to_nat ss)%nat by lia.
  cbn [take]. rewrite IH1. split; [done|]. constructor; [len_lia|done].
Qed.

(** Every stripe but the last is full. *)
Lemma stripes_ok_full ss stripes i c :
  stripes_ok ss stripes -> stripes !! i = Some c -> (S i < length stripes)%nat -> len c = ss.
Proof.
  revert i. induction stripes as [|c' rest IH]; intros i H Hi Hlt; [done|].
  destruct H as (H1 & H2 & H3). destruct i as [|i]; simplify_eq/=.
  - apply H2. destruct rest; simpl in *; [lia|done].
  - apply (IH i); [done..|lia].
Qed.

(** * The shards of an object in an in-memory store *)

Section mem.
Context {RS : ReedSolomon} (o : ObjectStore) {e : rs_enc} {parity : list bytes -> list bytes}.
Context {LAWS : RSLaws RS (toECParams (params o)) e parity}.
Context (Hp : params_ok (toECParams (params o))).

Let C (stripe : bytes) : list bytes := codeword (p:=toECParams (params o)) (parity:=parity) stripe.

(** The shard [b] of index [i] of a stripe. *)
Definition entry (id : string) (st i stripeLen : Z) (b : bytes) : memShard :=
  mkMemShard (mkHeader id st i (ec_DataShards (params o)) (ec_ParityShards (params o))
    stripeLen (len b) (Sum256 b)) b.

(** What [bs], as the shards from index [i] of stripe [st], put under a key. *)
Definition shards_entry (id : string) (st i stripeLen : Z) (bs : list bytes) (key : ShardKey)
    : option memShard :=
  if decide (k_ObjectID key = id /\ k_StripeIdx key = st /\ i <= k_ShardIdx key)
  then entry id st (k_ShardIdx key) stripeLen <$> bs !! Z.to_nat (k_ShardIdx key - i)
  else None.

(** What the [stripes], numbered from [j], put under a key. *)
Definition object_entry (id : string) (j : Z) (stripes : list bytes) (key : ShardKey)
    : option memShard :=
  if decide (j <= k_StripeIdx key)
  then stripe ← stripes !! Z.to_nat (k_StripeIdx key - j);
       shards_entry id (k_StripeIdx key) 0 (len stripe) (C stripe) key
  else None.

Lemma shards_entry_cons id st i sl b bs key :
  shards_entry id st i sl (b :: bs) key
  = if decide (key = mkKey id st i) then Some (entry id st i sl b)
    else shards_entry id st (i + 1) sl bs key.
Proof.
  unfold shards_entry. destruct key as [id' st' i']. cbn.
  destruct (decide (mkKey id' st' i' = mkKey id st i)) as [[= -> -> ->]|Hne].
  - rewrite decide_True by (split_and!; done || lia). by rewrite Z.sub_diag.
  - destruct (decide (id' = id /\ st' = st /\ i <= i')) as [(-> & -> & Hi)|Hn].
    + assert (i <> i') by congruence.
      rewrite decide_True by (split_and!; done || lia).
      by replace (Z.to_nat (i' - i)) with (S (Z.to_nat (i' - (i + 1)))) by lia.
    + rewrite decide_False; [done|]. intros (? & ? & ?). apply Hn. split_and!; done || lia.
Qed.

Lemma object_entry_cons id j stripe stripes key :
  object_entry id j (stripe :: stripes) key
  = if decide (k_StripeIdx key = j) then shards_entry id j 0 (len stripe) (C stripe) key
    else object_entry id (j + 1) stripes key.
Proof.
  unfold object_entry. destruct (decide (k_StripeIdx key = j)) as [<-|].
  - rewrite decide_True by lia. by rewrite Z.sub_diag.
  - destruct (decide (j <= k_StripeIdx key)).
    + rewrite decide_True by lia.
      by replace (Z.to_nat (k_StripeIdx key - j)) with (S (Z.to_nat (k_StripeIdx key - (j + 1)))) by lia.
    + by rewrite decide_False by lia.
Qed.

Lemma shard_counts_u16 :
  u16 (ec_DataShards (params o)) = ec_DataShards (params o) /\
  u16 (ec_ParityShards (params o)) = ec_ParityShards (params o).
Proof.
  destruct Hp as (? & ? & ?). cbn in *. split; apply wrapU_id; unfold inU; lia.
Qed.

Lemma put_shards_ok id st sl bs : forall i c s,
  0 <= i -> i + len bs <= 2 ^ 32 ->
  exists s', put_shards o id st sl i (map Some bs) (mkWorld c s) = (OK tt, mkWorld c s') /\
    markers s' = markers s /\
    forall key, shards s' !! key = shards_entry id st i sl bs key ∪ shards s !! key.
Proof.
  destruct shard_counts_u16 as [Hk Hm].
  induction bs as [|b bs IH]; intros i c s Hi Hlen.
  { exists s. split_and!; [done..|]. intros key. unfold shards_entry.
    rewrite lookup_nil. case_decide; symmetry; apply None_union. }
  unfold len in *. cbn [length map put_shards] in *.
  assert (u32 i = i) as Hu by (apply wrapU_id; unfold inU; lia).
  set (s1 := mkMemStore (<[mkKey id st i := entry id st i sl b]> (shards s)) (markers s)).
  destruct (IH (i + 1) c s1) as (s' & H1 & H2 & H3); [lia..|].
  exists s'. split_and!; [|done|].
  - erewrite M_bind_ok; [exact H1|]. apply wrapM_ok. unfold on_store. cbn [ss_PutShard w_store w_cache].
    unfold MemStore_ShardStore. cbn [default].
    rewrite PutShard_ok by done. unfold s1, entry, with_checksum, shard_header. cbn.
    by rewrite Hu, Hk, Hm.
  - intros key. rewrite H3, shards_entry_cons. unfold s1. cbn [shards].
    destruct (decide (key = mkKey id st i)) as [->|Hne].
    + rewrite lookup_insert_eq. unfold shards_entry. cbn. rewrite decide_False by lia. by rewrite Some_union.
    + by rewrite lookup_insert_ne.
Qed.

Lemma putStripe_ok id st stripe c s :
  stripe <> [] ->
  exists s', putStripe o (mkEncoder e (toECParams (params o))) id st stripe (mkWorld c s)
      = (OK tt, mkWorld c s') /\
    markers s' = markers s /\
    forall key, shards s' !! key = shards_entry id st 0 (len stripe) (C stripe) key ∪ shards s !! key.
Proof.
  intros Hne. unfold putStripe, lift. rewrite (Encode_codeword Hp) by done.
  apply put_shards_ok; [lia|]. unfold len, C. rewrite (length_codeword Hp).
  destruct Hp as (? & ? & ?). lia.
Qed.

Lemma put_loop_ok id stripes : forall j fuel rest fin c s,
  0 < stripeSize o -> stripes_ok (stripeSize o) stripes -> (length stripes <= fuel)%nat ->
  0 <= j -> j + len stripes < 2 ^ 32 ->
  exists s', put_loop fuel o (mkEncoder e (toECParams (params o))) id
      (mkReader (concat stripes ++ rest) fin) j (len (concat stripes)) (mkWorld c s)
      = (OK (j + len stripes), mkWorld c s') /\
    markers s' = markers s /\
    forall key, shards s' !! key = object_entry id j stripes key ∪ shards s !! key.
Proof.
  induction stripes as [|stripe stripes IH]; intros j fuel rest fin c s Hss Hok Hf Hj Hlen.
  { exists s. split_and!; [|done|].
    - destruct fuel; simpl; unfold mret, M_ret; by rewrite Z.add_0_r.
    - intros key. unfold object_entry. rewrite lookup_nil. case_decide; symmetry; apply None_union. }
  destruct Hok as (Hs1 & Hs2 & Hok). destruct fuel as [|fuel]; [simpl in Hf; lia|].
  unfold len in Hlen. cbn [length concat] in *.
  assert (len (stripe ++ concat stripes) = len stripe + len (concat stripes)) as Hcat by len_lia.
  assert (0 <= len (concat stripes)) by (unfold len; lia).
  assert ((if len (stripe ++ concat stripes) <? stripeSize o then len (stripe ++ concat stripes)
           else stripeSize o) = len stripe) as Hn.
  { destruct stripes as [|s2 ss2].
    - rewrite Hcat in *. change (len (concat [])) with 0 in *. go_bools; lia.
    - rewrite (Hs2 ltac:(done)) in *. go_bools; lia. }
  destruct (putStripe_ok id j stripe c s) as (s1 & H1 & H2 & H3).
  { intros ->. change (len []) with 0 in *. lia. }
  destruct (IH (j + 1) fuel rest fin c s1) as (s' & H4 & H5 & H6); [done..|lia|lia|unfold len; lia|].
  exists s'. split_and!.
  - cbn [put_loop]. destruct (Z.leb_spec (len (stripe ++ concat stripes)) 0); [lia|].
    rewrite Hn, <- app_assoc, ReadFull_app by len_lia.
    erewrite M_bind_ok by exact H1. rewrite Hcat.
    replace (len stripe + len (concat stripes) - len stripe) with (len (concat stripes)) by lia.
    rewrite wrapU_id by (unfold inU; lia). rewrite H4. do 2 f_equal. unfold len. simpl. lia.
  - congruence.
  - intros key. rewrite H6, H3, object_entry_cons. case_decide as Hk.
    + unfold object_entry at 1. rewrite decide_False by lia. apply None_union.
    + unfold shards_entry. rewrite decide_False by tauto. f_equal. apply None_union.
Qed.

(** Full stripes at the start of a longer input. *)
Lemma put_loop_full id full : forall j fuel rest fin rem c s,
  0 < stripeSize o -> Forall (fun st => len st = stripeSize o) full -> 0 <= rem ->
  0 <= j -> j + len full < 2 ^ 32 ->
  exists s', put_loop (length full + fuel) o (mkEncoder e (toECParams (params o))) id
      (mkReader (concat full ++ rest) fin) j (stripeSize o * len full + rem) (mkWorld c s)
      = put_loop fuel o (mkEncoder e (toECParams (params o))) id
          (mkReader rest fin) (j + len full) rem (mkWorld c s') /\
    markers s' = markers s /\
    forall key, shards s' !! key = object_entry id j full key ∪ shards s !! key.
Proof.
  induction full as [|stripe full IH]; intros j fuel rest fin rem c s Hss Hok Hr Hj Hlen.
  { exists s. split_and!; [|done|].
    - change (len []) with 0. by rewrite Z.mul_0_r, Z.add_0_l, Z.add_0_r.
    - intros key. unfold object_entry. rewrite lookup_nil. case_decide; symmetry; apply None_union. }
  inversion_clear Hok as [|? ? Hs Hok']. unfold len in Hlen. cbn [length concat] in *.
  destruct (putStripe_ok id j stripe c s) as (s1 & H1 & H2 & H3).
  { intros ->. change (len []) with 0 in *. lia. }
  destruct (IH (j + 1) fuel rest fin rem c s1) as (s' & H4 & H5 & H6); [done..|lia|unfold len; lia|].
  exists s'. split_and!.
  - assert (stripeSize o * len (stripe :: full) + rem = stripeSize o + (stripeSize o * len full + rem))
      as -> by len_lia.
    assert (0 <= stripeSize o * len full) by (unfold len; nia).
    cbn [put_loop Nat.add]. destruct (Z.leb_spec (stripeSize o + (stripeSize o * len full + rem)) 0); [lia|].
    destruct (Z.ltb_spec (stripeSize o + (stripeSize o * len full + rem)) (stripeSize o)); [lia|].
    rewrite <- app_assoc, ReadFull_app by len_lia. erewrite M_bind_ok by exact H1.
    rewrite wrapU_id by (unfold inU; lia).
    replace (stripeSize o + (stripeSize o * len full + rem) - len stripe)
      with (stripeSize o * len full + rem) by lia.
    rewrite H4. f_equal. len_lia.
  - congruence.
  - intros key. rewrite H6, H3, object_entry_cons. case_decide as Hk.
    + unfold object_entry at 1. rewrite decide_False by lia. apply None_union.
    + unfold shards_entry. rewrite decide_False by tauto. f_equal. apply None_union.
Qed.

(** The error of io.ReadFull when [tail] is all that is left of a chunk. *)
Definition short_error (tail : bytes) (fin : error) : error :=
  if decide (len tail = 0) then fin else if decide (fin = EOF) then ErrUnexpectedEOF else fin.

(** The next chunk is not there. *)
Lemma put_loop_short_input enc id fuel tail fin j rem w :
  0 < stripeSize o -> len tail < stripeSize o -> len tail < rem ->
  put_loop (S fuel) o enc id (mkReader tail fin) j rem w
  = (Err (Wrapf "storage: read input" (short_error tail fin)), w).
Proof.
  intros Hss H1 H2. cbn [put_loop]. assert (0 <= len tail) by (unfold len; lia).
  destruct (Z.leb_spec rem 0); [lia|].
  unfold ReadFull. cbn [pending final]. rewrite leb_correct_conv.
  - unfold short_error. destruct tail as [|b t]; [done|]. rewrite bool_decide_eq_false_2 by done.
    rewrite decide_False by (unfold len; simpl; lia). by case_bool_decide; case_decide.
  - unfold len in *. destruct (Z.ltb_spec rem (stripeSize o)); lia.
Qed.

(** Whatever the reader does, the loop ends: after the last chunk, or at the
    first chunk the reader does not deliver. *)
Lemma put_loop_total id fuel : forall r j rem c s,
  0 < stripeSize o -> rem <= stripeSize o * Z.of_nat fuel ->
  exists res w', put_loop fuel o (mkEncoder e (toECParams (params o))) id r j rem (mkWorld c s) = (res, w') /\
    if decide (rem <= len (pending r)) then exists n, res = OK n
    else exists err, res = Err (Wrapf "storage: read input" err).
Proof.
  induction fuel as [|fuel IH]; intros r j rem c s Hss Hf.
  { eexists _, _. split; [cbn [put_loop]; destruct (Z.leb_spec rem 0); [reflexivity|lia]|].
    rewrite decide_True by (unfold len; lia). eauto. }
  cbn [put_loop]. destruct (Z.leb_spec rem 0).
  { eexists _, _. split; [reflexivity|]. rewrite decide_True by (unfold len; lia). eauto. }
  set (n := if rem <? stripeSize o then rem else stripeSize o).
  assert (0 < n <= rem /\ n <= stripeSize o /\ (n = rem \/ n = stripeSize o)) as (Hn1 & Hn2 & Hn3).
  { unfold n. destruct (Z.ltb_spec rem (stripeSize o)); lia. }
  destruct (ReadFull (Z.to_nat n) r) as [[chunk|err|msg] r'] eqn:ER.
  - apply ReadFull_ok in ER as (Hpend & Hlc & Hfin).
    destruct (putStripe_ok id j chunk c s) as (s1 & H1 & _ & _).
    { intros ->. simpl in Hlc. lia. }
    destruct (IH r' (u32 (j + 1)) (rem - len chunk) c s1) as (res & w' & H2 & H3);
      [done|unfold len; nia|].
    exists res, w'. split; [by erewrite M_bind_ok by exact H1|].
    rewrite Hpend. revert H3. unfold len. rewrite length_app.
    repeat case_decide; (done || lia).
  - eexists _, _. split; [reflexivity|]. rewrite decide_False; [eauto|].
    unfold ReadFull in ER. destruct (Nat.leb_spec (Z.to_nat n) (length (pending r))); [done|].
    unfold len. lia.
  - exfalso. by apply (no_panic_ReadFull _ _ _ _ ER).
Qed.

Lemma put_fuel_enough size :
  0 < stripeSize o -> 0 <= size ->
  (nstripes (Z.to_nat (stripeSize o)) (Z.to_nat size) <= put_fuel o size)%nat.
Proof.
  intros Hss Hs. unfold put_fuel, nstripes.
  pose proof (per_shard_bounds (Z.to_nat (stripeSize o)) (Z.to_nat size) ltac:(lia)).
  assert (size < stripeSize o * (size / stripeSize o + 1)).
  { pose proof (Z.mul_succ_div_gt size (stripeSize o) Hss). lia. }
  assert (0 <= size / stripeSize o) by (apply Z.div_pos; lia). nia.
Qed.

Lemma put_fuel_covers size : 0 < stripeSize o -> 0 <= size ->
  size <= stripeSize o * Z.of_nat (put_fuel o size).
Proof.
  intros Hss Hs. unfold put_fuel. pose proof (Z.mul_succ_div_gt size (stripeSize o) Hss).
  assert (0 <= size / stripeSize o) by (apply Z.div_pos; lia). lia.
Qed.

(** PutObject of [data]: the new contents of the store. *)
Definition object_shards (id : string) (data : bytes) (key : ShardKey) : option memShard :=
  object_entry id 0 (stripes_of (stripeSize o) data) key.

Lemma PutObject_ok id data rest fin c s :
  0 < stripeSize o -> cache_ok c -> id <> ""%string ->
  len (stripes_of (stripeSize o) data) < 2 ^ 32 ->
  exists c' s', PutObject o id (mkReader (data ++ rest) fin) (len data) (mkWorld c s)
      = (OK tt, mkWorld c' s') /\ cache_ok c' /\
    markers s' = <[id := mkMeta (len data) (len (stripes_of (stripeSize o) data))
                           (toECParams (params o))]> (markers s) /\
    forall key, shards s' !! key = object_shards id data key ∪ shards s !! key.
Proof.
  intros Hss Hc Hid Hlen. destruct (stripes_of_spec (stripeSize o) data Hss) as [Hok Hcat].
  destruct (EncoderFor_ok _ c e Hc Hp (law_new (p:=toECParams (params o)))) as (c' & He & Hc').
  destruct (put_loop_ok id (stripes_of (stripeSize o) data) 0 (put_fuel o (len data)) rest fin c' s)
    as (s1 & H1 & H2 & H3); [done..| |lia|lia|].
  { unfold stripes_of at 1. rewrite length_chunks.
    pose proof (put_fuel_enough (len data) Hss ltac:(unfold len; lia)) as Hf.
    unfold len in Hf at 1. by rewrite Nat2Z.id in Hf. }
  rewrite Hcat in H1. exists c', (mkMemStore (shards s1)
    (<[id := mkMeta (len data) (len (stripes_of (stripeSize o) data)) (toECParams (params o))]> (markers s1))).
  split_and!; [|done|by cbn; rewrite H2|exact H3].
  unfold PutObject. rewrite bool_decide_eq_false_2 by done.
  destruct (Z.ltb_spec (len data) 0); [unfold len in *; lia|].
  erewrite M_bind_ok; [|unfold on_cache; cbn [w_cache]; by rewrite He].
  cbn [w_store]. erewrite M_bind_ok by exact H1. done.
Qed.
End mem.

(** * Frame: what PutObject never touches *)

(** [m2] agrees with [m1] on every object but [id], and has its markers. *)
Definition same_others (id : string) (m1 m2 : MemStore) : Prop :=
  markers m2 = markers m1 /\
  forall key, k_ObjectID key <> id -> shards m2 !! key = shards m1 !! key.

#[global] Instance same_others_preorder id : PreOrder (same_others id).
Proof.
  split; [by split|]. intros m1 m2 m3 [H1 H2] [H3 H4]. split; [congruence|].
  intros key Hk. by rewrite H4, H2.
Qed.

Section frame.
Context {RS : ReedSolomon} (o : ObjectStore) (id : string).

Lemma PutShard_same_others key h data m :
  k_ObjectID key = id -> same_others id m (PutShard key h data m).2.
Proof.
  intros Hk. destruct (PutShard key h data m) as [r m'] eqn:E. cbn.
  apply PutShard_inv in E as [(_ & _ & _ & ->)|[_ ->]]; [|done]. split; [done|].
  intros key' Hne. cbn. rewrite lookup_insert_ne; [done|congruence].
Qed.

Lemma put_shards_same_others st sl bs : forall i w,
  same_others id (w_store w) (w_store (put_shards o id st sl i bs w).2).
Proof.
  induction bs as [|b bs IH]; intros i w; [done|]. cbn [put_shards]. unfold mbind, M_bind, wrapM, on_store.
  cbn [ss_PutShard MemStore_ShardStore].
  pose proof (PutShard_same_others (mkKey id st (u32 i))
    (shard_header o id st i sl (slice_len b)) (default [] b) (w_store w) eq_refl) as Hs.
  destruct (PutShard _ _ _ _) as [r m']. cbn [snd] in Hs.
  destruct r as [[]|err|msg]; cbn [wrap_err snd w_store]; [|done..].
  etransitivity; [exact Hs|]. apply (IH (i + 1) (mkWorld (w_cache w) m')).
Qed.

Lemma put_loop_same_others enc fuel : forall r st rem w,
  same_others id (w_store w) (w_store (put_loop fuel o enc id r st rem w).2).
Proof.
  induction fuel as [|fuel IH]; intros r st rem w; cbn [put_loop]; (destruct (rem <=? 0); [done|]); [done|].
  destruct (ReadFull _ r) as [[chunk|err|msg] r']; [|done..].
  unfold putStripe, lift, mbind, M_bind.
  destruct (Encode enc chunk) as [shards|err|msg]; [|done..]. cbn beta iota.
  pose proof (put_shards_same_others st (len chunk) shards 0 w) as Hs.
  destruct (put_shards _ _ _ _ _ _ _) as [[[]|err|msg] w'] eqn:E; cbn [snd] in *; [|done..].
  etransitivity; [exact Hs|]. apply IH.
Qed.
End frame.
