(* ===== verification/ObjectRead.v ===== *)
(** What GetObject and the reader it returns deliver: the stripes whose
    shards survive, in order, whatever buffer sizes the client reads with;
    and the error when a stripe has too few shards. *)
From S2P Require Import Prelude Binary Sha256 EC Header ShardStore MemStore ObjectStore ObjectWrite.

(** The errors that make a shard count as lost. *)
Definition lost_error (err : error) : bool :=
  errors_Is err ErrCorruptShard || errors_Is err ErrShardNotFound.

Lemma make_slice_ok {A} (n : nat) (x : A) : make_slice (Z.of_nat n) x = OK (replicate n x).
Proof. unfold make_slice. destruct (Z.ltb_spec (Z.of_nat n) 0); [lia|]. by rewrite Nat2Z.id. Qed.

Section shard_states.
Context {S : Type} {SS : ShardStore S}.

(** The shard under [key] is [b], of a stripe of [sl] bytes, or it is lost. *)
Definition shard_state (s : S) (key : ShardKey) (sl : Z) (b : bytes) : Prop :=
  (exists h, ss_GetShard s key = (Some b, h, None) /\ h_StripeLen h = sl) \/
  (exists d h err, ss_GetShard s key = (d, h, Some err) /\ lost_error err = true).

Definition shard_good (s : S) (key : ShardKey) : bool := bool_decide ((ss_GetShard s key).2 = None).

(** Shards number [i], [i+1], ... of a stripe are in this state. *)
Fixpoint shards_state (s : S) (id : string) (st i sl : Z) (bs : list bytes) : Prop :=
  match bs with
  | [] => True
  | b :: bs' => shard_state s (mkKey id st i) sl b /\ shards_state s id st (i + 1) sl bs'
  end.

Fixpoint good_count (s : S) (id : string) (st i : Z) (n : nat) : Z :=
  match n with
  | O => 0
  | Datatypes.S n' =>
      (if shard_good s (mkKey id st i) then 1 else 0) + good_count s id st (i + 1) n'
  end.

Lemma good_count_range s id st i n : 0 <= good_count s id st i n <= Z.of_nat n.
Proof. revert i. induction n as [|n IH]; intros i; simpl; [lia|]. specialize (IH (i + 1)). case_match; lia. Qed.

Lemma good_count_pos (s : S) id st n : forall i,
  0 < good_count s id st i n -> exists j, i <= j < i + Z.of_nat n /\ shard_good s (mkKey id st j) = true.
Proof.
  induction n as [|n IH]; intros i H; simpl in H; [lia|].
  destruct (shard_good s (mkKey id st i)) eqn:E.
  - exists i. split; [lia|done].
  - destruct (IH (i + 1)) as (j & ? & ?); [lia|]. exists j. split; [lia|done].
Qed.

End shard_states.

Section read.
Context {RS : ReedSolomon} {S : Type} {SS : ShardStore S}.
Context (o : ObjectStore) {e : rs_enc} {parity : list bytes -> list bytes}.
Context {LAWS : RSLaws RS (toECParams (params o)) e parity}.
Context (Hp : params_ok (toECParams (params o))).

Let C (stripe : bytes) : list bytes := codeword (p:=toECParams (params o)) (parity:=parity) stripe.
Let k : Z := ec_DataShards (params o).
Let E : Encoder := mkEncoder e (toECParams (params o)).

Definition total : nat := Z.to_nat (ec_ShardCount (params o)).

Definition stripe_state (s : S) (id : string) (st : Z) (stripe : bytes) : Prop :=
  shards_state s id st 0 (len stripe) (C stripe).

(** At least [k] shards of the stripe are valid. *)
Definition stripe_readable (s : S) (id : string) (st : Z) (stripe : bytes) : Prop :=
  stripe_state s id st stripe /\ k <= good_count s id st 0 total.

Lemma total_spec : 1 <= k /\ k <= Z.of_nat total <= 256 /\
  ec_ShardCount (params o) = Z.of_nat total /\
  total = (Z.to_nat k + Z.to_nat (ec_ParityShards (params o)))%nat.
Proof.
  unfold total, k. pose proof (ShardCount_exact _ Hp) as Hs.
  unfold ShardCount, ec_ShardCount in *. cbn in *. rewrite Hs.
  destruct Hp as (? & ? & ?). cbn in *. lia.
Qed.

Lemma length_C stripe : length (C stripe) = total.
Proof. unfold C. rewrite (length_codeword Hp). destruct total_spec as (_ & _ & _ & ->). done. Qed.

Lemma C_nonempty stripe b : stripe <> [] -> b ∈ C stripe -> b <> [].
Proof.
  intros Hne Hb. destruct (codeword_shaped Hp stripe) as [_ HF].
  rewrite Forall_forall in HF. specialize (HF b Hb).
  assert (0 < length stripe)%nat by (destruct stripe; simpl; done || lia).
  pose proof (per_shard_pos (Z.to_nat k) (length stripe)) as Hpos.
  destruct total_spec as (? & _). intros ->. unfold k in *. cbn in *. lia.
Qed.

Lemma load_shards_ok s id st sl bs : forall i done sl0 v l,
  0 <= i -> i + len bs <= 2 ^ 32 -> length done = Z.to_nat i ->
  (forall b, b ∈ bs -> b <> []) ->
  shards_state s id st i sl bs ->
  exists arr sl', let g := good_count s id st i (length bs) in
    load_shards s id st (seqZ i (len bs)) (mkLoading (done ++ replicate (length bs) None) sl0 v l)
      = OK (mkLoading (done ++ arr) sl' (v + g) (l + (len bs - g))) /\
    survives_of arr bs /\ Z.of_nat (present_count arr) = g /\ (0 < g -> sl' = sl) /\ (g = 0 -> sl' = sl0).
Proof.
  induction bs as [|b bs IH]; intros i dn sl0 v l Hi Hlen Hd Hne Hst.
  { exists [], sl0. simpl. rewrite !Z.add_0_r. split_and!; (done || by constructor || lia). }
  destruct Hst as [Hs Hst]. unfold len in *. cbn [length good_count] in *.
  rewrite seqZ_cons by lia. cbn [load_shards].
  rewrite wrapU_id by (unfold inU; lia).
  replace (Z.pred (Z.of_nat (Datatypes.S (length bs)))) with (Z.of_nat (length bs)) by lia.
  unfold shard_good. destruct Hs as [(h & Hg & Hsl)|(d & h & err & Hg & Hl)]; rewrite Hg; cbn [snd].
  - rewrite bool_decide_eq_true_2 by done. cbn [l_shards l_stripeLen l_valid l_lost].
    rewrite insert_app_r_alt, Hd, Nat.sub_diag by lia. cbn [replicate].
    change (<[0%nat:=Some b]> (None :: replicate (length bs) None))
      with ([Some b] ++ replicate (length bs) (@None bytes)).
    rewrite app_assoc.
    destruct (IH (i + 1) (dn ++ [Some b]) (h_StripeLen h) (v + 1) l) as (arr & sl' & H1 & H2 & H3 & H4 & H5);
      [lia|lia|len_lia|set_solver|done|].
    pose proof (good_count_range s id st (i + 1) (length bs)).
    assert (present (Some b) = true) as Hb by (apply present_Some, Hne, list_elem_of_here).
    exists (Some b :: arr), sl'. split_and!.
    + change (Z.succ i) with (i + 1) in *. rewrite H1, <- app_assoc. cbn [app]. do 2 f_equal; lia.
    + constructor; [by left|done].
    + unfold present_count in *. cbn [List.filter]. rewrite Hb. simpl. lia.
    + intros _. destruct (decide (good_count s id st (i + 1) (length bs) = 0)); [rewrite H5; done|].
      apply H4. lia.
    + lia.
  - rewrite bool_decide_eq_false_2 by done. unfold lost_error in Hl. rewrite Hl.
    cbn [l_shards l_stripeLen l_valid l_lost replicate].
    change (None :: replicate (length bs) None) with ([@None bytes] ++ replicate (length bs) None).
    rewrite app_assoc.
    destruct (IH (i + 1) (dn ++ [None]) sl0 v (l + 1)) as (arr & sl' & H1 & H2 & H3 & H4 & H5);
      [lia|lia|len_lia|set_solver|done|].
    exists (None :: arr), sl'. split_and!; try done.
    + change (Z.succ i) with (i + 1) in *. rewrite H1, <- app_assoc. cbn [app]. do 2 f_equal; lia.
    + constructor; [by right|done].
Qed.

(** The reader of [id], at stripe [idx]. *)
Definition reader_at (id : string) (T idx : Z) (buf : bytes) (off : nat) : objectReader :=
  mkObjectReader E id (params o) (stripeSize o) T idx buf off.

Lemma load_shards_stripe s id st stripe : stripe <> [] -> stripe_state s id st stripe ->
  exists arr sl, let g := good_count s id st 0 total in
    load_shards s id st (seqZ 0 (Z.of_nat total)) (mkLoading (replicate total None) 0 0 0)
      = OK (mkLoading arr sl g (Z.of_nat total - g)) /\
    survives_of arr (C stripe) /\ Z.of_nat (present_count arr) = g /\ (0 < g -> sl = len stripe).
Proof.
  intros Hne Hst. pose proof total_spec as (? & ? & _).
  destruct (load_shards_ok s id st (len stripe) (C stripe) 0 [] 0 0 0) as (arr & sl & H1 & H2 & H3 & H4 & _);
    [lia|unfold len; rewrite length_C; lia|done|intros b; by apply C_nonempty|done|].
  unfold len in H1. rewrite length_C in *. by exists arr, sl.
Qed.

Lemma loadStripe_ok s id T idx stripe buf off :
  stripe <> [] -> stripe_readable s id idx stripe ->
  loadStripe (reader_at id T idx buf off) s = OK (reader_at id T idx stripe 0).
Proof.
  intros Hne [Hst Hg]. pose proof total_spec as (Hk & Hkt & Ht & _).
  destruct (load_shards_stripe s id idx stripe Hne Hst) as (arr & sl & H1 & H2 & H3 & H4).
  pose proof (good_count_range s id idx 0 total). specialize (H4 ltac:(lia)). subst sl.
  unfold loadStripe. cbn [r_params r_objectID r_stripeIdx reader_at]. rewrite Ht, make_slice_ok.
  cbn [mbind result_bind]. rewrite H1. cbn [mbind result_bind l_valid l_lost l_shards l_stripeLen].
  fold k. destruct (Z.ltb_spec (good_count s id idx 0 total) k); [lia|].
  assert ((if Z.of_nat total - good_count s id idx 0 total >? 0
           then wrap_err "storage: stripe %d" (Reconstruct E arr) else OK arr)
          = OK (map Some (C stripe))) as Hrec.
  { rewrite Z.gtb_ltb. destruct (Z.ltb_spec 0 (Z.of_nat total - good_count s id idx 0 total)).
    - unfold E. rewrite (Reconstruct_codeword Hp stripe); [done|done|done|].
      unfold k in *. cbn. lia.
    - f_equal. apply survives_all; [done|]. rewrite length_C. lia. }
  cbn [r_enc reader_at]. rewrite Hrec. cbn [mbind result_bind].
  rewrite (make_slice_ok (length stripe)). cbn [mbind result_bind].
  unfold E, C. rewrite (Join_codeword Hp) by len_lia. done.
Qed.

(** Fewer than [k] valid shards: the stripe is reported lost. *)
Lemma loadStripe_lost s id T idx stripe buf off :
  stripe <> [] -> stripe_state s id idx stripe -> good_count s id idx 0 total < k ->
  loadStripe (reader_at id T idx buf off) s
  = Err (Wrapf "storage: stripe %d: %w: %d of %d shards valid" ErrUnrecoverable).
Proof.
  intros Hne Hst Hg. pose proof total_spec as (Hk & Hkt & Ht & _).
  destruct (load_shards_stripe s id idx stripe Hne Hst) as (arr & sl & H1 & _).
  unfold loadStripe. cbn [r_params r_objectID r_stripeIdx reader_at]. rewrite Ht, make_slice_ok.
  cbn [mbind result_bind]. rewrite H1. cbn [mbind result_bind l_valid l_lost l_shards l_stripeLen].
  fold k. destruct (Z.ltb_spec (good_count s id idx 0 total) k); [done|lia].
Qed.

(** ** The reader, call by call *)

(** [r] has [d] left to deliver of the first [stripes], which are followed by
    a reader at stripe [len stripes]. *)
Inductive reader_inv (id : string) (T : Z) (stripes : list bytes) : objectReader -> bytes -> Prop :=
  | inv_between idx :
      (idx <= length stripes)%nat ->
      reader_inv id T stripes (reader_at id T (Z.of_nat idx) [] 0) (concat (drop idx stripes))
  | inv_within idx stripe off :
      stripes !! idx = Some stripe -> (off < length stripe)%nat ->
      reader_inv id T stripes (reader_at id T (Z.of_nat idx) stripe off)
        (drop off stripe ++ concat (drop (Datatypes.S idx) stripes)).

Section stripes.
Context (s : S) (id : string) (T : Z) (stripes : list bytes).
Context (Hne : forall i stripe, stripes !! i = Some stripe -> stripe <> []).
Context (Hload : forall i stripe buf off, stripes !! i = Some stripe ->
  loadStripe (reader_at id T (Z.of_nat i) buf off) s = OK (reader_at id T (Z.of_nat i) stripe 0)).
Context (HT : len stripes <= T < 2 ^ 32).

Lemma copy_out_step idx stripe off n :
  stripes !! idx = Some stripe -> (off < length stripe)%nat -> (0 < n)%nat ->
  exists p d' r', p <> [] /\
    copy_out n (reader_at id T (Z.of_nat idx) stripe off) = (p, None, r') /\
    drop off stripe ++ concat (drop (Datatypes.S idx) stripes) = p ++ d' /\
    reader_inv id T stripes r' d'.
Proof.
  intros Hi Hoff Hn. pose proof (lookup_lt_Some _ _ _ Hi).
  exists (take n (drop off stripe)).
  assert (length (take n (drop off stripe)) = n `min` (length stripe - off))%nat as Hl by len_lia.
  assert (take n (drop off stripe) <> []) as Hp0.
  { intros H0. rewrite H0 in Hl. simpl in Hl. lia. }
  unfold copy_out. cbn [r_buf r_off reader_at]. cbv zeta. rewrite Hl.
  destruct (Nat.eqb_spec (off + n `min` (length stripe - off)) (length stripe)).
  - eexists _, _. split; [done|]. split; [reflexivity|]. split.
    + rewrite take_ge by len_lia. reflexivity.
    + unfold next_stripe, reader_at. cbn [r_enc r_objectID r_params r_stripeSize r_totalStripes r_stripeIdx].
      rewrite wrapU_id by (unfold inU, len in *; lia).
      replace (Z.of_nat idx + 1) with (Z.of_nat (Datatypes.S idx)) by lia.
      apply inv_between. lia.
  - eexists _, _. split; [done|]. split; [reflexivity|]. split.
    + rewrite <- (take_drop n (drop off stripe)) at 1. rewrite <- app_assoc. reflexivity.
    + rewrite drop_drop. replace (off + n)%nat with (off + n `min` (length stripe - off))%nat by lia.
      apply inv_within; [done|lia].
Qed.

(** With a non-empty buffer, Read delivers at least one byte of what is left. *)
Lemma Read_step r d n : reader_inv id T stripes r d -> d <> [] -> (0 < n)%nat ->
  exists p d' r', p <> [] /\ Read n r s = OK (p, None, r') /\ d = p ++ d' /\
    reader_inv id T stripes r' d'.
Proof.
  intros Hr Hd Hn. destruct Hr as [idx Hidx|idx stripe off Hi Hoff].
  - destruct (decide (idx = length stripes)) as [->|]; [by rewrite drop_all in Hd|].
    destruct (lookup_lt_is_Some_2 stripes idx) as [stripe Hi]; [lia|].
    assert (0 < length stripe)%nat by (pose proof (Hne _ _ Hi); destruct stripe; simpl; done || lia).
    destruct (copy_out_step idx stripe 0 n) as (p & d' & r' & H1 & H2 & H3 & H4); [done..|].
    exists p, d', r'. split_and!; [done| | |done].
    + unfold Read. cbn [r_stripeIdx r_totalStripes r_off r_buf reader_at length Nat.eqb].
      rewrite Z.geb_leb. unfold len in *. destruct (Z.leb_spec T (Z.of_nat idx)); [lia|].
      rewrite (Hload idx stripe) by done. cbn [r_buf reader_at].
      destruct (Z.eqb_spec (Z.of_nat (length stripe)) 0); [lia|]. by rewrite H2.
    + rewrite <- H3, drop_0. by rewrite (drop_S _ _ _ Hi).
  - pose proof (lookup_lt_Some _ _ _ Hi).
    destruct (copy_out_step idx stripe off n) as (p & d' & r' & H1 & H2 & H3 & H4); [done..|].
    exists p, d', r'. split_and!; [done| |done|done].
    unfold Read. cbn [r_stripeIdx r_totalStripes r_off r_buf reader_at].
    rewrite Z.geb_leb. unfold len in *. destruct (Z.leb_spec T (Z.of_nat idx)); [lia|].
    destruct (Nat.eqb_spec off (length stripe)); [lia|]. by rewrite H2.
Qed.

Lemma reader_inv_nil r : reader_inv id T stripes r [] ->
  r = reader_at id T (len stripes) [] 0.
Proof.
  intros H. inversion H as [idx Hidx H1 H2|idx stripe off Hi Hoff H1 H2]; subst.
  - destruct (decide (idx = length stripes)) as [->|]; [done|].
    destruct (lookup_lt_is_Some_2 stripes idx) as [stripe Hi]; [lia|].
    rewrite (drop_S _ _ _ Hi) in H2. simpl in H2. apply app_eq_nil in H2 as [H2 _].
    by destruct (Hne _ _ Hi).
  - apply app_eq_nil in H2 as [H2 _]. apply (f_equal length) in H2. rewrite length_drop in H2.
    simpl in H2. lia.
Qed.

(** Reading to the end of [stripes]: then the reader at stripe [len stripes]
    decides how the stream ends. *)
Lemma ReadAll_inv sizes err rend :
  (forall i, 0 < sizes i)%nat ->
  (forall n, Read n (reader_at id T (len stripes) [] 0) s = OK ([], Some err, rend)) ->
  forall fuel i r d, reader_inv id T stripes r d -> (length d < fuel)%nat ->
  ReadAll fuel sizes i (stripeReader r) s = OK (d, if decide (err = EOF) then None else Some err).
Proof.
  intros Hs Hend. induction fuel as [|fuel IH]; intros i r d Hr Hf; [lia|].
  cbn [ReadAll reader_Read]. destruct (decide (d = [])) as [->|Hd].
  - rewrite (reader_inv_nil r Hr), Hend. done.
  - destruct (Read_step r d (sizes i) Hr Hd (Hs i)) as (p & d' & r' & H1 & H2 & -> & H4).
    rewrite H2. cbn [mbind result_bind]. rewrite (IH (Datatypes.S i) r' d' H4); [done|].
    rewrite length_app in Hf. destruct p; simpl in *; done || lia.
Qed.

Lemma ReadAll_start sizes err rend fuel :
  (forall i, 0 < sizes i)%nat ->
  (forall n, Read n (reader_at id T (len stripes) [] 0) s = OK ([], Some err, rend)) ->
  (length (concat stripes) < fuel)%nat ->
  ReadAll fuel sizes 0 (stripeReader (reader_at id T 0 [] 0)) s
  = OK (concat stripes, if decide (err = EOF) then None else Some err).
Proof.
  intros Hs Hend Hf. eapply ReadAll_inv; [done|exact Hend| |done].
  pose proof (inv_between id T stripes 0 ltac:(lia)) as H. by rewrite drop_0 in H.
Qed.
End stripes.

Lemma Read_EOF s id T n : Read n (reader_at id T T [] 0) s = OK ([], Some EOF, reader_at id T T [] 0).
Proof. unfold Read. cbn. rewrite Z.geb_leb. destruct (Z.leb_spec T T); [done|lia]. Qed.
End read.
