(* ===== verification/ObjectSpec.v ===== *)
(** The contract of the object store, on the in-memory shard store: what is
    put is read back, through any loss of up to [m] shards per stripe; losing
    more is reported; deleting removes everything; and the cases in which the
    code does not keep the contract. *)
From S2P Require Import Prelude Binary Sha256 EC Header ShardStore MemStore ObjectStore ObjectWrite ObjectRead.

(** * GetObject on an in-memory store *)

Lemma max_stripe_spec keys M :
  0 <= M -> (forall k, k ∈ keys -> k_StripeIdx k <= M) ->
  (exists k, k ∈ keys /\ k_StripeIdx k = M) -> max_stripe keys = M.
Proof.
  unfold max_stripe. intros HM Hle Hex.
  assert (forall keys a, (forall k, k ∈ keys -> k_StripeIdx k <= M) -> a <= M ->
    (a = M \/ exists k, k ∈ keys /\ k_StripeIdx k = M) ->
    fold_left (fun mx k => if k_StripeIdx k >? mx then k_StripeIdx k else mx) keys a = M) as go;
    [|apply go; auto].
  clear. induction keys as [|x keys IH]; intros a Hle Ha Hex; simpl.
  - destruct Hex as [->|(k & Hk & _)]; [done|]. by apply not_elem_of_nil in Hk.
  - pose proof (Hle x ltac:(left)). apply IH.
    + intros k Hk. apply Hle. by right.
    + case_match; lia.
    + rewrite Z.gtb_ltb. destruct (Z.ltb_spec a (k_StripeIdx x)).
      * destruct (decide (k_StripeIdx x = M)); [by left|]. right.
        destruct Hex as [->|(k & [->|Hk]%elem_of_cons & Hm)]; [lia|done|eauto].
      * destruct Hex as [->|(k & [->|Hk]%elem_of_cons & Hm)]; [by left|left; lia|eauto].
Qed.

Section mem.
Context {RS : ReedSolomon} (o : ObjectStore) {e : rs_enc} {parity : list bytes -> list bytes}.
Context {LAWS : RSLaws RS (toECParams (params o)) e parity}.
Context (Hp : params_ok (toECParams (params o))).

Let p : Params := toECParams (params o).
Let C (stripe : bytes) : list bytes := codeword (p:=toECParams (params o)) (parity:=parity) stripe.
Let mstate := stripe_state (S:=MemStore) o (parity:=parity).
Let readable := stripe_readable (S:=MemStore) o (parity:=parity).
Let ngood (m : MemStore) (id : string) (st : Z) : Z := good_count m id st 0 (total o).

Lemma first_valid_len_ok m id st sl bs : forall i,
  0 <= i -> i + len bs <= 2 ^ 32 ->
  shards_state m id st i sl bs -> 0 < good_count m id st i (length bs) ->
  first_valid_len m id st (seqZ i (len bs)) = OK sl.
Proof.
  induction bs as [|b bs IH]; intros i Hi Hlen Hst Hg; [simpl in Hg; lia|].
  destruct Hst as [Hs Hst]. unfold len in *. cbn [length good_count] in *.
  rewrite seqZ_cons by lia. cbn [first_valid_len ss_VerifyShard MemStore_ShardStore].
  rewrite wrapU_id by (unfold inU; lia). rewrite VerifyShard_GetShard.
  replace (Z.pred (Z.of_nat (S (length bs)))) with (Z.of_nat (length bs)) by lia.
  change (Z.succ i) with (i + 1). unfold shard_good in Hg.
  change (ss_GetShard m) with (GetShard m) in *.
  destruct Hs as [(h & Hgs & Hsl)|(d & h & err & Hgs & Hl)];
    cbn [ss_GetShard MemStore_ShardStore] in Hgs; rewrite Hgs in *; cbn [fst snd] in *.
  - by rewrite Hsl.
  - unfold lost_error in Hl. rewrite Hl. rewrite bool_decide_eq_false_2 in Hg by done.
    apply IH; [lia|lia|done|lia].
Qed.

Lemma shard_good_stored m key : shard_good m key = true -> is_Some (shards m !! key).
Proof.
  unfold shard_good. cbn [ss_GetShard MemStore_ShardStore]. unfold GetShard.
  intros H%bool_decide_eq_true. destruct (shards m !! key); [eauto|done].
Qed.

(** GetObject finds the last stripe listed, asks for its length, and returns a
    reader at the first stripe. *)
Lemma GetObject_listed id c m M n :
  cache_ok c -> id <> ""%string -> 0 <= M < 2 ^ 32 - 1 ->
  (forall key, k_ObjectID key = id -> is_Some (shards m !! key) -> k_StripeIdx key <= M) ->
  (exists i, is_Some (shards m !! mkKey id M i)) -> lastStripeLen o m id M = OK n ->
  exists c', cache_ok c' /\
    GetObject o id (mkWorld c m)
    = (OK (stripeReader (reader_at (e:=e) o id (M + 1) 0 [] 0), i64 (i64 (M * stripeSize o) + n)),
       mkWorld c' m).
Proof.
  intros Hc Hid HM Hmax [i Hi] Hlast.
  destruct (EncoderFor_ok _ c e Hc Hp (law_new (p:=toECParams (params o)))) as (c' & He & Hc').
  exists c'. split; [done|].
  destruct (elem_of_ListObjectShards m id Hid) as (keys & Hl & Hkeys).
  assert (mkKey id M i ∈ keys) as Hin by (apply Hkeys; done).
  assert (max_stripe keys = M) as Hms.
  { apply max_stripe_spec; [lia| |by exists (mkKey id M i)].
    intros k [Hk1 Hk2]%Hkeys. by apply Hmax. }
  unfold GetObject. cbn [w_store ss_ListObjectShards MemStore_ShardStore]. rewrite Hl.
  destruct keys as [|k0 keys]; [by apply not_elem_of_nil in Hin|].
  rewrite Hms, Hlast. unfold mbind, M_bind, encoder, on_cache. cbn [w_cache w_store].
  rewrite He. unfold mret, M_ret, reader_at.
  rewrite (wrapU_id 32 (M + 1)) by (unfold inU; lia).
  rewrite Z.add_simpl_r. by rewrite wrapU_id by (unfold inU; lia).
Qed.

Lemma GetObject_ok id c m M last :
  cache_ok c -> id <> ""%string -> 0 <= M < 2 ^ 32 - 1 ->
  (forall key, k_ObjectID key = id -> is_Some (shards m !! key) -> k_StripeIdx key <= M) ->
  mstate m id M last -> 0 < ngood m id M ->
  exists c', cache_ok c' /\
    GetObject o id (mkWorld c m)
    = (OK (stripeReader (reader_at (e:=e) o id (M + 1) 0 [] 0), i64 (i64 (M * stripeSize o) + len last)),
       mkWorld c' m).
Proof.
  intros Hc Hid HM Hmax Hst Hg. pose proof (total_spec o Hp) as (Hk & Hkt & Ht & _).
  apply GetObject_listed; [done..| |].
  { destruct (good_count_pos _ _ _ _ _ Hg) as (j & Hj & Hgood%shard_good_stored). eauto. }
  unfold lastStripeLen. rewrite Ht.
  replace (Z.of_nat (total o)) with (len (C last)) by (unfold len, C; by rewrite (length_C o Hp)).
  apply first_valid_len_ok; [lia| |exact Hst|].
  - unfold len, C. rewrite (length_C o Hp). lia.
  - unfold C. rewrite (length_C o Hp). exact Hg.
Qed.

(** All shards of the last stripe are still listed, but none is valid. *)
Lemma GetObject_lost_last id c m M last :
  id <> ""%string -> 0 <= M < 2 ^ 32 ->
  (forall key, k_ObjectID key = id -> is_Some (shards m !! key) -> k_StripeIdx key <= M) ->
  (exists i, is_Some (shards m !! mkKey id M i)) ->
  mstate m id M last -> ngood m id M = 0 ->
  exists msg, GetObject o id (mkWorld c m) = (Err (Wrapf msg ErrUnrecoverable), mkWorld c m).
Proof.
  intros Hid HM Hmax [i Hi] Hst Hg. pose proof (total_spec o Hp) as (Hk & Hkt & Ht & _).
  destruct (elem_of_ListObjectShards m id Hid) as (keys & Hl & Hkeys).
  assert (mkKey id M i ∈ keys) as Hin by (apply Hkeys; done).
  assert (max_stripe keys = M) as Hms.
  { apply max_stripe_spec; [lia| |by exists (mkKey id M i)].
    intros k [Hk1 Hk2]%Hkeys. by apply Hmax. }
  assert (forall bs j, 0 <= j -> j + len bs <= 2 ^ 32 -> shards_state m id M j (len last) bs ->
    good_count m id M j (length bs) = 0 ->
    first_valid_len m id M (seqZ j (len bs))
    = Err (Wrapf "storage: no valid shards for last stripe %d" ErrUnrecoverable)) as go.
  { induction bs as [|b bs IH]; intros j Hj Hlen Hs Hgc; [done|].
    destruct Hs as [Hs Hs']. unfold len in *. cbn [length good_count] in *.
    pose proof (good_count_range m id M (j + 1) (length bs)).
    rewrite seqZ_cons by lia. cbn [first_valid_len ss_VerifyShard MemStore_ShardStore].
    rewrite wrapU_id by (unfold inU; lia). rewrite VerifyShard_GetShard.
    replace (Z.pred (Z.of_nat (S (length bs)))) with (Z.of_nat (length bs)) by lia.
    unfold shard_good in Hgc. change (ss_GetShard m) with (GetShard m) in *.
    destruct Hs as [(h & Hgs & Hsl)|(d & h & err & Hgs & Hl')];
      cbn [ss_GetShard MemStore_ShardStore] in Hgs; rewrite Hgs in *; cbn [fst snd] in *.
    - rewrite bool_decide_eq_true_2 in Hgc by done. lia.
    - unfold lost_error in Hl'. rewrite Hl'. rewrite bool_decide_eq_false_2 in Hgc by done.
      apply IH; [lia|lia|done|exact Hgc]. }
  exists "storage: no valid shards for last stripe %d"%string.
  unfold GetObject. cbn [w_store ss_ListObjectShards MemStore_ShardStore]. rewrite Hl.
  destruct keys as [|k0 keys]; [by apply not_elem_of_nil in Hin|].
  rewrite Hms. unfold lastStripeLen. rewrite Ht.
  replace (Z.of_nat (total o)) with (len (C last)) by (unfold len, C; by rewrite (length_C o Hp)).
  rewrite go; [done|lia| |exact Hst|].
  - unfold len, C. rewrite (length_C o Hp). lia.
  - unfold C. by rewrite (length_C o Hp).
Qed.
End mem.

(** * Damage *)

(** No shard of [id] beyond stripe [n]: nothing is left of a longer object. *)
Definition no_stale (m : MemStore) (id : string) (n : Z) : Prop :=
  forall key, k_ObjectID key = id -> is_Some (shards m !! key) -> 0 <= k_StripeIdx key < n.

(** The shard under [key] is gone, or its payload fails the checksum. *)
Definition shard_lost (m : MemStore) (key : ShardKey) : Prop :=
  exists d h err, GetShard m key = (d, h, Some err) /\ lost_error err = true.

(** [m2] is [m1] after shards of [id] were lost or corrupted. *)
Definition degraded (m1 m2 : MemStore) (id : string) : Prop :=
  markers m2 !! id = markers m1 !! id /\
  forall key, k_ObjectID key = id ->
    shards m2 !! key = shards m1 !! key \/ (is_Some (shards m1 !! key) /\ shard_lost m2 key).

(** At most [n] shards of every stripe of [id] differ. *)
Definition loses_at_most (m1 m2 : MemStore) (id : string) (n : Z) : Prop :=
  forall st, exists L : gset Z, Z.of_nat (size L) <= n /\
    forall i, i ∉ L -> shards m2 !! mkKey id st i = shards m1 !! mkKey id st i.

Lemma degraded_refl m id : degraded m m id.
Proof. split; auto. Qed.

Lemma loses_at_most_refl m id n : 0 <= n -> loses_at_most m m id n.
Proof. intros Hn st. exists ∅. rewrite size_empty. auto. Qed.

Lemma shards_state_intro {S} {SS : ShardStore S} (s : S) id st sl bs : forall i,
  (forall j b, bs !! j = Some b -> shard_state s (mkKey id st (i + Z.of_nat j)) sl b) ->
  shards_state s id st i sl bs.
Proof.
  induction bs as [|b bs IH]; intros i H; simpl; [done|]. split.
  - specialize (H 0%nat b eq_refl). by rewrite Z.add_0_r in H.
  - apply IH. intros j b' Hj. specialize (H (Datatypes.S j) b' Hj).
    by replace (i + 1 + Z.of_nat j) with (i + Z.of_nat (Datatypes.S j)) by lia.
Qed.

Lemma good_count_tolerance {S} {SS : ShardStore S} (s : S) id st n : forall i (L : gset Z),
  (forall j, i <= j < i + Z.of_nat n -> j ∉ L -> shard_good s (mkKey id st j) = true) ->
  Z.of_nat n - Z.of_nat (size L) <= good_count s id st i n.
Proof.
  induction n as [|n IH]; intros i L H; cbn [good_count]; [lia|].
  destruct (decide (i ∈ L)) as [Hi|Hi].
  - specialize (IH (i + 1) (L ∖ {[i]})). assert (size L = Datatypes.S (size (L ∖ {[i]}))) as Hsz.
    { rewrite size_difference by set_solver. rewrite size_singleton.
      assert (size L <> 0)%nat; [|lia]. intros H0%size_empty_inv. set_solver. }
    assert (Z.of_nat n - Z.of_nat (size (L ∖ {[i]})) <= good_count s id st (i + 1) n).
    { apply IH. intros j Hj Hjn. apply H; [lia|]. set_unfold. intros HL. apply Hjn. split; [done|lia]. }
    case_match; lia.
  - rewrite (H i) by (done || lia). specialize (IH (i + 1) L).
    assert (Z.of_nat n - Z.of_nat (size L) <= good_count s id st (i + 1) n); [|lia].
    apply IH. intros j Hj. apply H. lia.
Qed.

(** What is known about a stripe depends on the shards stored for it only. *)
Section same_shards.
Context (m1 m2 : MemStore) (id : string) (st : Z).
Context (Hsame : forall i, shards m2 !! mkKey id st i = shards m1 !! mkKey id st i).

Lemma shards_state_same sl bs : forall i, shards_state m1 id st i sl bs -> shards_state m2 id st i sl bs.
Proof.
  induction bs as [|b bs IH]; intros i; [done|]. intros [H1 H2]. split; [|by apply IH].
  revert H1. unfold shard_state. cbn [ss_GetShard MemStore_ShardStore]. unfold GetShard.
  by rewrite Hsame.
Qed.

Lemma good_count_same n : forall i, good_count m2 id st i n = good_count m1 id st i n.
Proof.
  induction n as [|n IH]; intros i; cbn [good_count]; [done|]. rewrite IH. f_equal.
  unfold shard_good. cbn [ss_GetShard MemStore_ShardStore]. unfold GetShard. by rewrite Hsame.
Qed.

Lemma stripe_readable_same o parity stripe :
  stripe_readable o (parity:=parity) m1 id st stripe ->
  stripe_readable o (parity:=parity) m2 id st stripe.
Proof. intros [H1 H2]. split; [by apply shards_state_same|by rewrite good_count_same]. Qed.
End same_shards.

Section contract.
Context {RS : ReedSolomon} (o : ObjectStore) {e : rs_enc} {parity : list bytes -> list bytes}.
Context {LAWS : RSLaws RS (toECParams (params o)) e parity}.
Context (Hp : params_ok (toECParams (params o))) (Hss : 0 < stripeSize o).

(** The store holds exactly the shards of [data] for [id], beside what the
    other keys hold in [s]. *)
Definition holds (s s' : MemStore) (id : string) (data : bytes) : Prop :=
  forall key, shards s' !! key = object_shards o (parity:=parity) id data key ∪ shards s !! key.

Lemma holds_shard s s' id data st stripe i b :
  holds s s' id data -> stripes_of (stripeSize o) data !! st = Some stripe ->
  codeword (p:=toECParams (params o)) (parity:=parity) stripe !! i = Some b ->
  shards s' !! mkKey id (Z.of_nat st) (Z.of_nat i)
  = Some (entry o id (Z.of_nat st) (Z.of_nat i) (len stripe) b).
Proof.
  intros H Hst Hi. rewrite H. unfold object_shards, object_entry, shards_entry. cbn.
  rewrite decide_True by lia. rewrite !Z.sub_0_r, !Nat2Z.id, Hst. cbn.
  rewrite decide_True by (split_and!; done || lia). rewrite Hi.
  apply Some_union.
Qed.

Lemma GetShard_entry m key id st i sl b :
  shards m !! key = Some (entry o id st i sl b) ->
  GetShard m key = (Some b, ms_h (entry o id st i sl b), None).
Proof. intros H. unfold GetShard. rewrite H. cbn. by rewrite bool_decide_eq_false_2 by auto. Qed.

(** Whatever happens to the shards, each is the one that was put or is lost. *)
Lemma holds_state s s' m2 id data st stripe :
  holds s s' id data -> degraded s' m2 id ->
  stripes_of (stripeSize o) data !! st = Some stripe ->
  stripe_state o (parity:=parity) m2 id (Z.of_nat st) stripe.
Proof.
  intros Hh [_ Hd] Hst. apply shards_state_intro. intros i b Hi. rewrite Z.add_0_l.
  pose proof (holds_shard _ _ _ _ _ _ _ _ Hh Hst Hi) as Hl.
  destruct (Hd (mkKey id (Z.of_nat st) (Z.of_nat i)) eq_refl) as [Heq|[_ Hlost]].
  - left. rewrite Hl in Heq. eexists. split; [by apply GetShard_entry|done].
  - right. exact Hlost.
Qed.

Lemma holds_readable s s' m2 id data st stripe :
  holds s s' id data -> degraded s' m2 id ->
  loses_at_most s' m2 id (ec_ParityShards (params o)) ->
  stripes_of (stripeSize o) data !! st = Some stripe ->
  stripe_readable o (parity:=parity) m2 id (Z.of_nat st) stripe.
Proof.
  intros Hh Hd Hl Hst. split; [by eapply holds_state|].
  destruct (total_spec o Hp) as (Hk & Hkt & Ht & Htot).
  destruct (Hl (Z.of_nat st)) as (L & HL & Hsame).
  assert (Z.of_nat (total o) - Z.of_nat (size L) <= good_count m2 id (Z.of_nat st) 0 (total o));
    [|destruct Hp as (? & ? & ?); cbn in *; lia].
  apply good_count_tolerance. intros j Hj HjL.
  destruct (lookup_lt_is_Some_2 (codeword (p:=toECParams (params o)) (parity:=parity) stripe) (Z.to_nat j))
    as [b Hb]; [rewrite (length_C o Hp); lia|].
  pose proof (holds_shard _ _ _ _ _ _ _ _ Hh Hst Hb) as Hsh. rewrite Z2Nat.id in Hsh by lia.
  unfold shard_good. cbn [ss_GetShard MemStore_ShardStore].
  erewrite GetShard_entry by (rewrite Hsame by done; exact Hsh). done.
Qed.

(** After a put over no longer object, the stripes listed are those put. *)
Lemma holds_max s s' m2 id data M :
  holds s s' id data -> degraded s' m2 id -> no_stale s id (M + 1) ->
  len (stripes_of (stripeSize o) data) = M + 1 ->
  forall key, k_ObjectID key = id -> is_Some (shards m2 !! key) -> k_StripeIdx key <= M.
Proof.
  intros Hh [_ Hd] Hns HM key Hk Hs.
  assert (is_Some (shards s' !! key)) as Hs'.
  { destruct (Hd key Hk) as [<-|[? _]]; done. }
  rewrite Hh in Hs'. destruct (shards s !! key) as [x|] eqn:Ex.
  - specialize (Hns key Hk). rewrite Ex in Hns. specialize (Hns ltac:(eauto)). lia.
  - unfold object_shards, object_entry in Hs'. case_decide; [|by destruct Hs'].
    destruct (stripes_of (stripeSize o) data !! Z.to_nat (k_StripeIdx key - 0)) eqn:E; [|by destruct Hs'].
    apply lookup_lt_Some in E. unfold len in HM. lia.
Qed.
End contract.

(** * Reading what was put *)

Lemma object_entry_nil o parity id key : object_entry o (parity:=parity) id 0 [] key = None.
Proof. unfold object_entry. rewrite lookup_nil. by case_decide. Qed.

(** No shards, but a marker: the object is empty, whatever size it claims. *)
Lemma GetObject_marker {RS : ReedSolomon} o id c m meta :
  id <> ""%string -> (forall key, k_ObjectID key = id -> shards m !! key = None) ->
  markers m !! id = Some meta ->
  GetObject o id (mkWorld c m) = (OK (emptyReader, m_Size meta), mkWorld c m).
Proof.
  intros Hid Hno Hm. destruct (elem_of_ListObjectShards m id Hid) as (keys & Hl & Hkeys).
  unfold GetObject. cbn [w_store ss_ListObjectShards MemStore_ShardStore]. rewrite Hl.
  destruct keys as [|k keys].
  - cbn [ss_ReadMarker MemStore_ShardStore w_store]. unfold ReadMarker. by rewrite Hm.
  - destruct (proj1 (Hkeys k) ltac:(left)) as [Hk [x Hx]]. by rewrite Hno in Hx.
Qed.

Lemma GetObject_missing {RS : ReedSolomon} o id c m :
  id <> ""%string -> (forall key, k_ObjectID key = id -> shards m !! key = None) ->
  markers m !! id = None ->
  GetObject o id (mkWorld c m) = (Err ErrObjectNotFound, mkWorld c m).
Proof.
  intros Hid Hno Hm. destruct (elem_of_ListObjectShards m id Hid) as (keys & Hl & Hkeys).
  unfold GetObject. cbn [w_store ss_ListObjectShards MemStore_ShardStore]. rewrite Hl.
  destruct keys as [|k keys].
  - cbn [ss_ReadMarker MemStore_ShardStore w_store]. unfold ReadMarker. by rewrite Hm.
  - destruct (proj1 (Hkeys k) ltac:(left)) as [Hk [x Hx]]. by rewrite Hno in Hx.
Qed.

Section read_back.
Context {RS : ReedSolomon} (o : ObjectStore) {e : rs_enc} {parity : list bytes -> list bytes}.
Context {LAWS : RSLaws RS (toECParams (params o)) e parity}.
Context (Hp : params_ok (toECParams (params o))) (Hss : 0 < stripeSize o).

Let ngood (m : MemStore) (id : string) (st : Z) : Z := good_count m id st 0 (total o).
Let readable (m : MemStore) := stripe_readable o (parity:=parity) m.
Let state (m : MemStore) := stripe_state o (parity:=parity) m.

(** The common shape of all reads: a non-empty list of [stripes] listed for
    [id], of which a prefix of length [j] is readable and stripe [j], if there
    is one, is not. *)
Lemma get_stripes id c m stripes last j :
  cache_ok c -> id <> ""%string ->
  len (stripes ++ [last]) < 2 ^ 32 -> 0 <= len stripes * stripeSize o + len last < 2 ^ 63 ->
  (forall key, k_ObjectID key = id -> is_Some (shards m !! key) -> k_StripeIdx key <= len stripes) ->
  (forall i s, (stripes ++ [last]) !! i = Some s -> s <> [] /\ state m id (Z.of_nat i) s) ->
  0 < ngood m id (len stripes) ->
  (j <= length (stripes ++ [last]))%nat ->
  (forall i s, (i < j)%nat -> (stripes ++ [last]) !! i = Some s -> readable m id (Z.of_nat i) s) ->
  (forall s, (stripes ++ [last]) !! j = Some s ->
     ngood m id (Z.of_nat j) < ec_DataShards (params o)) ->
  exists rd w2, GetObject o id (mkWorld c m) = (OK (rd, len stripes * stripeSize o + len last), w2) /\
    w_store w2 = m /\ cache_ok (w_cache w2) /\
    forall sizes fuel, (forall i, 0 < sizes i)%nat -> (length (concat (stripes ++ [last])) < fuel)%nat ->
      ReadAll fuel sizes 0 rd m
      = OK (concat (take j (stripes ++ [last])),
            if decide (j = length (stripes ++ [last])) then None
            else Some (Wrapf "storage: stripe %d: %w: %d of %d shards valid" ErrUnrecoverable)).
Proof.
  intros Hc Hid Hlen Hsize Hmax Hst Hg Hj Hrd Hbad.
  set (all := stripes ++ [last]) in *.
  assert (len all = len stripes + 1) as Hall by (unfold all; len_lia).
  destruct (Hst (length stripes) last) as [Hne Hlast].
  { unfold all. by rewrite lookup_app_r, Nat.sub_diag by lia. }
  destruct (GetObject_ok o Hp id c m (len stripes) last) as (c' & Hc' & Hget); [done..| |done|exact Hlast|done|].
  { unfold len in *. lia. }
  eexists _, _. split; [rewrite Hget|].
  { assert (0 <= len last /\ 0 <= len stripes) by (unfold len; lia).
    assert (0 <= len stripes * stripeSize o) by nia.
    rewrite (wrapS64_id (len stripes * stripeSize o)) by (unfold inS; lia).
    rewrite wrapS64_id by (unfold inS; lia). reflexivity. }
  split; [done|]. split; [done|]. intros sizes fuel Hsz Hf.
  assert (forall i s, take j all !! i = Some s -> all !! i = Some s /\ (i < j)%nat) as Htake.
  { intros i s [H1 H2]%lookup_take_Some. done. }
  assert (length (take j all) = j) as Hlj by len_lia.
  assert (length (concat (take j all)) < fuel)%nat as Hfj.
  { rewrite <- (take_drop j all), concat_app, length_app in Hf. lia. }
  assert (0 <= Z.of_nat j <= len stripes + 1) by (unfold len in *; lia).
  erewrite (ReadAll_start o m id (len stripes + 1) (take j all)) with
    (err := if decide (j = length all) then EOF
            else Wrapf "storage: stripe %d: %w: %d of %d shards valid" ErrUnrecoverable)
    (rend := reader_at (e:=e) o id (len stripes + 1) (Z.of_nat j) [] 0);
    [|..|exact Hsz| |exact Hfj].
  - f_equal. f_equal. destruct (decide (j = length all)); by case_decide.
  - intros i s [H1 _]%Htake. by apply (Hst i).
  - intros i s buf off [H1 H2]%Htake. apply (loadStripe_ok o Hp); [by apply (Hst i)|by apply Hrd].
  - unfold len in *. rewrite Hlj. lia.
  - intros n. change (len (take j all)) with (Z.of_nat (length (take j all))). rewrite Hlj. case_decide as Hd.
    + replace (len stripes + 1) with (Z.of_nat j) by (unfold len in *; lia). apply Read_EOF.
    + destruct (lookup_lt_is_Some_2 all j) as [s Hs]; [lia|].
      destruct (Hst j s Hs) as [Hsne Hsst].
      unfold Read. cbn [r_stripeIdx r_totalStripes r_off r_buf reader_at length Nat.eqb].
      rewrite Z.geb_leb. destruct (Z.leb_spec (len stripes + 1) (Z.of_nat j)); [unfold len in *; lia|].
      by rewrite (loadStripe_lost o Hp m id _ _ s) by eauto.
Qed.

(** All stripes readable: all of them are delivered. *)
Lemma get_readable id c m stripes last :
  cache_ok c -> id <> ""%string ->
  len (stripes ++ [last]) < 2 ^ 32 -> 0 <= len stripes * stripeSize o + len last < 2 ^ 63 ->
  (forall key, k_ObjectID key = id -> is_Some (shards m !! key) -> k_StripeIdx key <= len stripes) ->
  (forall i s, (stripes ++ [last]) !! i = Some s -> s <> [] /\ readable m id (Z.of_nat i) s) ->
  exists rd w2, GetObject o id (mkWorld c m) = (OK (rd, len stripes * stripeSize o + len last), w2) /\
    w_store w2 = m /\ cache_ok (w_cache w2) /\
    forall sizes fuel, (forall i, 0 < sizes i)%nat -> (length (concat (stripes ++ [last])) < fuel)%nat ->
      ReadAll fuel sizes 0 rd m = OK (concat (stripes ++ [last]), None).
Proof.
  intros Hc Hid Hlen Hsize Hmax Hread. pose proof (total_spec o Hp) as (Hk & _).
  destruct (get_stripes id c m stripes last (length (stripes ++ [last])))
    as (rd & w2 & H1 & H2 & H3 & H4); [done..| | |done| | |].
  - intros i s Hi. destruct (Hread i s Hi) as [? [? _]]. done.
  - destruct (Hread (length stripes) last) as [_ [_ Hg]]; [|unfold len, ngood in *; lia].
    by rewrite lookup_app_r, Nat.sub_diag by lia.
  - intros i s _ Hi. by apply Hread.
  - intros s Hi. apply lookup_lt_Some in Hi. lia.
  - exists rd, w2. split_and!; [done..|]. intros sizes fuel Hsz Hf.
    rewrite H4 by done. by rewrite decide_True, take_ge by done.
Qed.
End read_back.
