(* ===== verification/Contract.v ===== *)
(** The properties of the object store over an in-memory shard store: what
    PutObject, GetObject and DeleteObject promise together, under loss and
    corruption of shards, and where the code falls short of its comments. *)
From S2P Require Import Prelude Binary Sha256 EC XorCodec Header ShardStore MemStore ObjectStore ObjectWrite ObjectRead ObjectSpec.

(** Every shard of [id] from stripe [j] on is gone; the others are as they were. *)
Definition tail_deleted (m1 m2 : MemStore) (id : string) (j : Z) : Prop :=
  markers m2 !! id = markers m1 !! id /\
  forall key, k_ObjectID key = id ->
    shards m2 !! key = if decide (j <= k_StripeIdx key) then None else shards m1 !! key.

(** Number of stripes of an object, as PutObject counts them. *)
Definition count_stripes (o : ObjectStore) (data : bytes) : Z :=
  len (stripes_of (stripeSize o) data).

Definition unrecoverable : error :=
  Wrapf "storage: stripe %d: %w: %d of %d shards valid" ErrUnrecoverable.

(** A store that lost one shard, and one that lost the end of an object. *)
Definition lose_shard (m : MemStore) (key : ShardKey) : MemStore :=
  mkMemStore (delete key (shards m)) (markers m).

Definition lose_tail (m : MemStore) (j : Z) : MemStore :=
  mkMemStore (filter (fun ks => k_StripeIdx ks.1 < j) (shards m)) (markers m).

(** 2+1 shards over the XOR engine, stripes of 4 bytes. *)
Definition ex_store : ObjectStore := NewObjectStore (mkECParams 2 1) 4.

Section contract.
Context {RS : ReedSolomon} (o : ObjectStore) {e : rs_enc} {parity : list bytes -> list bytes}.
Context {LAWS : RSLaws RS (toECParams (params o)) e parity}.
Context (Hp : params_ok (toECParams (params o))) (Hss : 0 < stripeSize o).

Abbreviation stripes := (stripes_of (stripeSize o)).
Abbreviation Holds := (holds o (parity:=parity)).
Abbreviation good m id st := (good_count m id st 0 (total o)).

Lemma stripes_snoc data :
  data <> [] -> exists ss last, stripes data = ss ++ [last] /\
    len data = len ss * stripeSize o + len last.
Proof.
  intros Hd. destruct (stripes_of_spec (stripeSize o) data Hss) as [Hok Hcat].
  destruct (decide (stripes data = [])) as [E|(ss & last & E)%exists_last].
  - rewrite E in Hcat. by subst.
  - exists ss, last. split; [done|]. rewrite <- Hcat at 1. rewrite E in *.
    rewrite (len_concat_stripes (stripeSize o)) by done. lia.
Qed.

Lemma stripe_props s s' m2 id data st stripe :
  Holds s s' id data -> degraded s' m2 id -> stripes data !! st = Some stripe ->
  stripe <> [] /\ stripe_state o (parity:=parity) m2 id (Z.of_nat st) stripe.
Proof.
  intros Hh Hd Hst. split; [|by eapply holds_state].
  eapply stripes_ok_nonempty; [by apply stripes_of_spec|done].
Qed.

(** Each stripe is readable or not; the first that is not ends the read. *)
Lemma first_unreadable (m : MemStore) id n : exists j : nat, (j <= n)%nat /\
  (forall i : nat, (i < j)%nat -> ec_DataShards (params o) <= good m id (Z.of_nat i)) /\
  ((j < n)%nat -> good m id (Z.of_nat j) < ec_DataShards (params o)).
Proof.
  induction n as [|n (j & Hj & Hlt & Hbad)]; [exists 0%nat; split_and!; intros; lia|].
  destruct (decide (j = n)) as [->|].
  - destruct (decide (ec_DataShards (params o) <= good m id (Z.of_nat n))).
    + exists (S n). split_and!; [done| |lia]. intros i Hi.
      destruct (decide (i = n)) as [->|]; [done|]. apply Hlt. lia.
    + exists n. split_and!; [lia|done|lia].
  - exists j. split_and!; [lia|done|]. intros _. apply Hbad. lia.
Qed.

(** No shards of the object, but its marker: an empty stream of the marker's size. *)
Lemma get_no_shards n m2 id (data : bytes) c :
  id <> ""%string -> (forall key, k_ObjectID key = id -> shards m2 !! key = None) ->
  markers m2 !! id = Some (mkMeta (len data) n (toECParams (params o))) ->
  exists w2, GetObject o id (mkWorld c m2) = (OK (emptyReader, len data), w2) /\ w_store w2 = m2.
Proof. intros Hid Hno Hm. eexists. by rewrite (GetObject_marker o id c m2 _ Hid Hno Hm). Qed.

Lemma empty_no_shards s s' m2 id :
  no_stale s id 0 -> Holds s s' id [] -> degraded s' m2 id ->
  forall key, k_ObjectID key = id -> shards m2 !! key = None.
Proof.
  intros Hns Hh [_ Hd] key Hk. destruct (shards m2 !! key) as [x|] eqn:Ex; [|done]. exfalso.
  assert (is_Some (shards s' !! key)) as Hy.
  { destruct (Hd key Hk) as [Heq|[? _]]; [rewrite <- Heq, Ex; eauto|done]. }
  rewrite Hh in Hy. unfold object_shards in Hy.
  rewrite stripes_of_nil, object_entry_nil, None_union in Hy by done.
  specialize (Hns key Hk Hy). lia.
Qed.

Lemma count_nil : count_stripes o [] = 0.
Proof. unfold count_stripes. by rewrite stripes_of_nil. Qed.

(** PutObject in the form the proofs use. *)
Lemma put_holds id data w :
  cache_ok (w_cache w) -> id <> ""%string -> count_stripes o data < 2 ^ 32 ->
  exists c' s', PutObject o id (NewReader data) (len data) w = (OK tt, mkWorld c' s') /\
    cache_ok c' /\ Holds (w_store w) s' id data /\
    markers s' = <[id := mkMeta (len data) (count_stripes o data) (toECParams (params o))]>
                   (markers (w_store w)).
Proof.
  destruct w as [c s]. cbn [w_cache w_store]. intros Hc Hid Hn.
  destruct (PutObject_ok o Hp id data [] EOF c s) as (c1 & s1 & Hput & Hc1 & Hm & Hh); [done..|].
  rewrite app_nil_r in Hput. exists c1, s1. done.
Qed.

(** Reading a damaged object whose last stripe still has a valid shard. *)
Lemma read_damaged id data s s' m2 c :
  cache_ok c -> id <> ""%string -> data <> [] -> len data < 2 ^ 63 -> count_stripes o data < 2 ^ 32 ->
  no_stale s id (count_stripes o data) -> Holds s s' id data -> degraded s' m2 id ->
  0 < good m2 id (count_stripes o data - 1) ->
  exists rd w2 j, GetObject o id (mkWorld c m2) = (OK (rd, len data), w2) /\
    w_store w2 = m2 /\ (j <= length (stripes data))%nat /\
    (forall i : nat, (i < j)%nat -> ec_DataShards (params o) <= good m2 id (Z.of_nat i)) /\
    ((j < length (stripes data))%nat -> good m2 id (Z.of_nat j) < ec_DataShards (params o)) /\
    forall sizes fuel, (forall i, 0 < sizes i)%nat -> (length data < fuel)%nat ->
      ReadAll fuel sizes 0 rd m2
      = OK (concat (take j (stripes data)),
            if decide (j = length (stripes data)) then None else Some unrecoverable).
Proof.
  intros Hc Hid Hne Hlen Hn Hns Hh Hd Hg. unfold count_stripes in *.
  destruct (stripes_snoc data Hne) as (ss & last & E & Hl).
  destruct (first_unreadable m2 id (length (stripes data))) as (j & Hj & Hok & Hbad).
  pose proof (stripe_props s s' m2 id data) as Hsp.
  destruct (stripes_of_spec (stripeSize o) data Hss) as [_ Hcat].
  rewrite E in *. assert (len (ss ++ [last]) = len ss + 1) as Hall by len_lia. rewrite Hall in *.
  replace (len ss + 1 - 1) with (len ss) in Hg by lia.
  destruct (get_stripes o Hp Hss id c m2 ss last j) as (rd & w2 & H1 & H2 & _ & H4);
    [done|done|lia|unfold len in *; lia| | |exact Hg|exact Hj| | |].
  - intros key Hk Hx. apply (holds_max o (parity:=parity) s s' m2 id data); [done..|by rewrite E|done|done].
  - intros i st Hi. by apply Hsp.
  - intros i st Hi Hst. split; [by apply Hsp|by apply Hok].
  - intros st Hst. apply Hbad. by eapply lookup_lt_Some.
  - rewrite <- Hl in H1. rewrite Hcat in H4. exists rd, w2, j.
    split_and!; [done..|exact Hbad|]. exact H4.
Qed.

(** Reading an object of which every stripe lost at most [m] shards. *)
Lemma read_holds id data s s' m2 c :
  cache_ok c -> id <> ""%string -> data <> [] -> len data < 2 ^ 63 -> count_stripes o data < 2 ^ 32 ->
  no_stale s id (count_stripes o data) -> Holds s s' id data ->
  degraded s' m2 id -> loses_at_most s' m2 id (ec_MaxLoss (params o)) ->
  exists rd w2, GetObject o id (mkWorld c m2) = (OK (rd, len data), w2) /\ w_store w2 = m2 /\
    forall sizes fuel, (forall i, 0 < sizes i)%nat -> (length data < fuel)%nat ->
      ReadAll fuel sizes 0 rd m2 = OK (data, None).
Proof.
  intros Hc Hid Hne Hlen Hn Hns Hh Hd Hl. unfold count_stripes in *.
  destruct (stripes_snoc data Hne) as (ss & last & E & Hl').
  pose proof (proj2 (stripes_of_spec _ data Hss)) as Hcat.
  destruct (get_readable o Hp Hss id c m2 ss last) as (rd & w2 & H1 & H2 & _ & H4);
    [done|done|by rewrite <- E|unfold len in *; lia| | |].
  - eapply (holds_max o); [exact Hh|exact Hd| |].
    all: replace (len ss + 1) with (len (stripes data)) by (rewrite E; len_lia); done.
  - rewrite <- E. intros i st Hi. split; [by eapply stripe_props|by eapply (holds_readable o Hp)].
  - rewrite <- E, Hcat in H4. exists rd, w2. rewrite Hl'. done.
Qed.

(** Read after write; [put_get_degraded] states it. *)
Lemma put_get id data w :
  cache_ok (w_cache w) -> id <> ""%string -> len data < 2 ^ 63 ->
  count_stripes o data < 2 ^ 32 -> no_stale (w_store w) id (count_stripes o data) ->
  exists w1, PutObject o id (NewReader data) (len data) w = (OK tt, w1) /\
    forall m2, degraded (w_store w1) m2 id ->
      loses_at_most (w_store w1) m2 id (ec_MaxLoss (params o)) ->
      exists rd w2, GetObject o id (mkWorld (w_cache w1) m2) = (OK (rd, len data), w2) /\
        w_store w2 = m2 /\
        forall sizes fuel, (forall i, 0 < sizes i)%nat -> (length data < fuel)%nat ->
          ReadAll fuel sizes 0 rd m2 = OK (data, None).
Proof.
  intros Hc Hid Hlen Hn Hns. destruct (put_holds id data w Hc Hid Hn) as (c1 & s1 & Hput & Hc1 & Hh & Hm).
  exists (mkWorld c1 s1). split; [exact Hput|]. cbn [w_cache w_store]. intros m2 Hd Hl.
  destruct (decide (data = [])) as [->|Hne].
  - rewrite count_nil in Hns. exists emptyReader.
    destruct (get_no_shards (count_stripes o []) m2 id [] c1 Hid) as (w2 & H1 & H2).
    + by eapply empty_no_shards.
    + destruct Hd as [-> _]. by rewrite Hm, lookup_insert_eq.
    + exists w2. split_and!; [done..|]. intros sizes [|fuel] _ Hf; [simpl in Hf; lia|done].
  - by eapply read_holds.
Qed.

(** C4. Read after write, under damage. PutObject of any data of fewer than 2^32
    stripes, under an id that is not empty and into a store that holds no longer
    version of the object (no stripe beyond the new ones; see
    [overwrite_shorter_keeps_tail] for what happens otherwise), succeeds; then,
    whatever shards of the object are lost or get a payload that fails its
    checksum, as long as no stripe loses more than [m] of them, GetObject
    succeeds with the exact size, and a client reading to the end with buffers
    of any sizes receives exactly the data. (Damage that no checksum sees is
    the subject of HeaderRot.) *)
Theorem put_get_degraded id data w :
  cache_ok (w_cache w) -> id <> ""%string -> len data < 2 ^ 63 ->
  count_stripes o data < 2 ^ 32 -> no_stale (w_store w) id (count_stripes o data) ->
  exists w1, PutObject o id (NewReader data) (len data) w = (OK tt, w1) /\
    forall m2, degraded (w_store w1) m2 id ->
      loses_at_most (w_store w1) m2 id (ec_MaxLoss (params o)) ->
      exists rd w2, GetObject o id (mkWorld (w_cache w1) m2) = (OK (rd, len data), w2) /\
        w_store w2 = m2 /\
        forall sizes fuel, (forall i, 0 < sizes i)%nat -> (length data < fuel)%nat ->
          ReadAll fuel sizes 0 rd m2 = OK (data, None).
Proof. apply put_get. Qed.

(** C15. Damage beyond repair is never returned as data. A non-empty object of
    fewer than 2^32 stripes is put into a store that holds no longer version of
    it. Whatever shards of it are then lost, or get a payload that fails its
    checksum, as long as some shard of its last stripe is still listed:
    GetObject either fails with ErrUnrecoverable (no shard of the last stripe is
    valid), or returns the exact size and a reader that delivers, from the start
    of the object, the stripes up to the first one with fewer than [k] valid
    shards, and then ErrUnrecoverable; it ends without error only after all of
    the data. *)
Theorem damaged_read id data w :
  cache_ok (w_cache w) -> id <> ""%string -> data <> [] -> len data < 2 ^ 63 ->
  count_stripes o data < 2 ^ 32 -> no_stale (w_store w) id (count_stripes o data) ->
  exists w1, PutObject o id (NewReader data) (len data) w = (OK tt, w1) /\
    forall m2, degraded (w_store w1) m2 id ->
      (exists i, is_Some (shards m2 !! mkKey id (count_stripes o data - 1) i)) ->
      (good m2 id (count_stripes o data - 1) = 0 /\
       exists msg w2, GetObject o id (mkWorld (w_cache w1) m2) = (Err (Wrapf msg ErrUnrecoverable), w2)) \/
      exists rd w2 (j : nat), GetObject o id (mkWorld (w_cache w1) m2) = (OK (rd, len data), w2) /\
        (forall i : nat, (i < j)%nat -> ec_DataShards (params o) <= good m2 id (Z.of_nat i)) /\
        (Z.of_nat j < count_stripes o data -> good m2 id (Z.of_nat j) < ec_DataShards (params o)) /\
        forall sizes fuel, (forall i, 0 < sizes i)%nat -> (length data < fuel)%nat ->
          ReadAll fuel sizes 0 rd m2
          = if decide (Z.of_nat j = count_stripes o data) then OK (data, None)
            else OK (take (j * Z.to_nat (stripeSize o)) data, Some unrecoverable).
Proof.
  intros Hc Hid Hne Hlen Hn Hns.
  destruct (put_holds id data w Hc Hid Hn) as (c1 & s1 & Hput & Hc1 & Hh & Hm).
  exists (mkWorld c1 s1). split; [exact Hput|]. cbn [w_cache w_store]. intros m2 Hd Hlisted.
  pose proof (good_count_range m2 id (count_stripes o data - 1) 0 (total o)).
  destruct (stripes_snoc data Hne) as (ss & last & E & _).
  assert (count_stripes o data - 1 = Z.of_nat (length ss)) as Hlast
    by (unfold count_stripes; rewrite E; len_lia).
  destruct (decide (good m2 id (count_stripes o data - 1) = 0)) as [Hz|Hnz].
  - left. split; [done|]. rewrite Hlast in *.
    destruct (GetObject_lost_last o Hp id c1 m2 (Z.of_nat (length ss)) last) as [msg Hmsg];
      [done|lia| |done| |done|eauto].
    + intros key Hk Hx. eapply (holds_max o); [exact Hh|exact Hd| | |done..].
      * unfold count_stripes in *. by replace (Z.of_nat (length ss) + 1) with (len (stripes data)) by lia.
      * unfold count_stripes in *. lia.
    + eapply stripe_props; [exact Hh|exact Hd|]. by rewrite E, lookup_app_r, Nat.sub_diag by lia.
  - right. destruct (read_damaged id data (w_store w) s1 m2 c1)
      as (rd & w2 & j & H1 & H2 & Hj & Hok & Hbad & Hrd); [done..|lia|].
    exists rd, w2, j. unfold count_stripes, len in *. split_and!; [done..| |].
    + intros. apply Hbad. lia.
    + intros sizes fuel Hsz Hf. rewrite Hrd by done. repeat case_decide; try lia.
      * rewrite take_ge by lia. by rewrite (proj2 (stripes_of_spec _ _ Hss)).
      * by rewrite concat_take_stripes.
Qed.

(** Where nothing was put, a key keeps what it had. *)
Lemma object_entry_beyond id ss key :
  len ss <= k_StripeIdx key -> object_entry o (parity:=parity) id 0 ss key = None.
Proof.
  intros H. unfold object_entry. case_decide; [|done].
  rewrite lookup_ge_None_2; [done|]. unfold len in H. lia.
Qed.

Lemma holds_readable_refl s s' id data st stripe :
  Holds s s' id data -> stripes data !! st = Some stripe ->
  stripe_readable o (parity:=parity) s' id (Z.of_nat st) stripe.
Proof.
  intros Hh Hst. eapply (holds_readable o Hp); [exact Hh|apply degraded_refl| |done].
  apply loses_at_most_refl. destruct Hp as (? & ? & ?). cbn in *. lia.
Qed.

(** The first [j > 0] stripes of an object. *)
Lemma stripes_prefix data j : 0 < j < count_stripes o data ->
  exists ss last, take (Z.to_nat j) (stripes data) = ss ++ [last] /\
    len ss = j - 1 /\ len last = stripeSize o /\ j * stripeSize o <= len data.
Proof.
  intros Hj. unfold count_stripes in *.
  destruct (stripes_snoc data) as (ss' & last' & E' & Hl).
  { intros ->. rewrite stripes_of_nil in Hj by done. unfold len in Hj. simpl in Hj. lia. }
  destruct (lookup_lt_is_Some_2 (stripes data) (Z.to_nat j - 1)) as [last Hlast]; [unfold len in *; lia|].
  exists (take (Z.to_nat j - 1) (stripes data)), last. split_and!.
  - replace (Z.to_nat j) with (S (Z.to_nat j - 1)) at 1 by lia. by apply take_S_r.
  - unfold len in *. rewrite length_take. lia.
  - eapply stripes_ok_full; [by apply stripes_of_spec|exact Hlast|unfold len in *; lia].
  - rewrite E' in *. assert (len (ss' ++ [last']) = len ss' + 1) by len_lia.
    assert (0 <= len last') by (unfold len; lia). nia.
Qed.

Lemma tail_keys s s1 m2 id data j :
  no_stale s id (count_stripes o data) -> Holds s s1 id data -> tail_deleted s1 m2 id j ->
  0 <= j -> forall key, k_ObjectID key = id -> is_Some (shards m2 !! key) -> 0 <= k_StripeIdx key < j.
Proof.
  intros Hns Hh [_ Hd] Hj key Hkey. rewrite Hd by done. case_decide; [by intros []|].
  rewrite Hh. unfold object_shards, object_entry. case_decide; [lia|].
  rewrite None_union. intros Hx. specialize (Hns key Hkey Hx). lia.
Qed.

(** C31. Losing the end of an object is not noticed. The comment of GetObject
    promises ErrUnrecoverable when fewer than [k] shards of any stripe are
    valid; but the number of stripes is taken from the shards listed, so when
    every shard from stripe [j] on is gone, GetObject and the reader succeed
    and deliver the first [j] stripes as if they were the whole object, with
    no error. With all shards gone ([j = 0]) the stream is empty while the
    size is the full one. *)
Theorem lost_tail_is_silent id data w j :
  cache_ok (w_cache w) -> id <> ""%string -> len data < 2 ^ 63 ->
  count_stripes o data < 2 ^ 32 -> no_stale (w_store w) id (count_stripes o data) ->
  0 <= j < count_stripes o data ->
  exists w1, PutObject o id (NewReader data) (len data) w = (OK tt, w1) /\
    forall m2, tail_deleted (w_store w1) m2 id j ->
      exists rd w2, GetObject o id (mkWorld (w_cache w1) m2)
          = (OK (rd, if decide (j = 0) then len data else j * stripeSize o), w2) /\
        forall sizes fuel, (forall i, 0 < sizes i)%nat -> (length data < fuel)%nat ->
          ReadAll fuel sizes 0 rd m2
          = OK (take (Z.to_nat j * Z.to_nat (stripeSize o)) data, None).
Proof.
  intros Hc Hid Hlen Hn Hns Hj.
  destruct (put_holds id data w Hc Hid Hn) as (c1 & s1 & Hput & Hc1 & Hh & Hm).
  exists (mkWorld c1 s1). split; [exact Hput|]. cbn [w_cache w_store]. intros m2 [Hmk Hd].
  pose proof (tail_keys _ _ _ _ _ _ Hns Hh (conj Hmk Hd) (proj1 Hj)) as Hkeys.
  case_decide as Hj0.
  - subst j. destruct (get_no_shards (count_stripes o data) m2 id data c1 Hid) as (w2 & H1 & _).
    + intros key Hkey. destruct (shards m2 !! key) eqn:Ex; [|done].
      specialize (Hkeys key Hkey ltac:(eauto)). lia.
    + by rewrite Hmk, Hm, lookup_insert_eq.
    + exists emptyReader, w2. split; [done|]. intros sizes [|fuel] _ Hf; [lia|done].
  - destruct (stripes_prefix data j ltac:(lia)) as (ss & last & E & Hss1 & Hl & Hle).
    destruct (get_readable o Hp Hss id c1 m2 ss last) as (rd & w2 & H1 & _ & _ & H4);
      [done|done|unfold count_stripes in *; len_lia|nia| | |].
    + intros key Hkey Hx. specialize (Hkeys key Hkey Hx). lia.
    + rewrite <- E. intros i st [Hi Hlt]%lookup_take_Some. split.
      * eapply stripes_ok_nonempty; [by apply stripes_of_spec|done].
      * apply (stripe_readable_same s1); [|by apply (holds_readable_refl _ _ _ _ _ _ Hh)].
        intros x. rewrite Hd by done. rewrite decide_False; [done|]. cbn. lia.
    + rewrite <- E, concat_take_stripes in H4 by done. exists rd, w2. split.
      * rewrite H1. do 3 f_equal. rewrite Hss1, Hl. lia.
      * intros sizes fuel Hsz Hf. apply H4; [done|]. rewrite length_take. lia.
Qed.

(** C32. Overwriting an object by a shorter one leaves the tail of the old one
    in place: the old stripes beyond the new ones are still listed, so after
    both puts succeeded, GetObject announces the old size and the reader
    delivers the new data followed by the rest of the old. An object
    overwritten by an empty one still reads as the old object. *)
Theorem overwrite_shorter_keeps_tail id old new w :
  cache_ok (w_cache w) -> id <> ""%string -> len old < 2 ^ 63 ->
  count_stripes o old < 2 ^ 32 -> no_stale (w_store w) id (count_stripes o old) ->
  count_stripes o new < count_stripes o old ->
  exists w1 w2, PutObject o id (NewReader old) (len old) w = (OK tt, w1) /\
    PutObject o id (NewReader new) (len new) w1 = (OK tt, w2) /\
    exists rd w3, GetObject o id w2 = (OK (rd, len old), w3) /\
      let rest := drop (Z.to_nat (count_stripes o new) * Z.to_nat (stripeSize o)) old in
      forall sizes fuel, (forall i, 0 < sizes i)%nat -> (length (new ++ rest) < fuel)%nat ->
        ReadAll fuel sizes 0 rd (w_store w2) = OK (new ++ rest, None).
Proof.
  intros Hc Hid Hlen Hn Hns Hlt.
  destruct (put_holds id old w Hc Hid Hn) as (c1 & s1 & Hput1 & Hc1 & Hh1 & Hm1).
  destruct (put_holds id new (mkWorld c1 s1) Hc1 Hid ltac:(lia)) as (c2 & s2 & Hput2 & Hc2 & Hh2 & Hm2).
  exists (mkWorld c1 s1), (mkWorld c2 s2). split_and!; [done..|]. cbn [w_store] in *.
  destruct (stripes_snoc old) as (ss & last & E & Hl).
  { intros ->. rewrite count_nil in Hlt. unfold count_stripes, len in Hlt. lia. }
  unfold count_stripes, len in *. set (n := length (stripes new)) in *.
  assert (stripes new ++ drop n (stripes old) = (stripes new ++ drop n ss) ++ [last]) as Eall.
  { rewrite E, drop_app_le, app_assoc; [done|]. rewrite E, length_app in Hlt. simpl in Hlt. lia. }
  assert (length (stripes new ++ drop n ss) = length ss) as Hall.
  { rewrite length_app, length_drop. fold n. rewrite E, length_app in Hlt. simpl in Hlt. lia. }
  assert (length (stripes old) = S (length ss)) as Hlold by (rewrite E, length_app; simpl; lia).
  destruct (get_readable o Hp Hss id c2 s2 (stripes new ++ drop n ss) last) as (rd & w3 & H1 & _ & _ & H4).
  - done.
  - done.
  - rewrite <- Eall. unfold len. rewrite length_app, length_drop. fold n. lia.
  - unfold len. rewrite Hall. lia.
  - intros key Hk Hx. unfold len. rewrite Hall.
    destruct (decide (Z.of_nat n <= k_StripeIdx key)); [|lia].
    rewrite Hh2 in Hx. unfold object_shards in Hx. rewrite object_entry_beyond, None_union in Hx by done.
    assert (k_StripeIdx key <= Z.of_nat (length ss)); [|lia].
    eapply (holds_max o _ _ _ _ _ (Z.of_nat (length ss)) Hh1 (degraded_refl _ _)); [..|exact Hk|exact Hx].
    + intros k' Hk' Hx'. specialize (Hns k' Hk' Hx'). lia.
    + unfold len. lia.
  - rewrite <- Eall. intros i st [Hi|[Hge Hi]]%lookup_app_Some.
    + split; [eapply stripes_ok_nonempty; [by apply stripes_of_spec|exact Hi]|].
      by apply (holds_readable_refl _ _ _ _ _ _ Hh2).
    + rewrite lookup_drop in Hi. fold n in Hge, Hi. replace (n + (i - n))%nat with i in Hi by lia.
      split; [eapply stripes_ok_nonempty; [by apply stripes_of_spec|exact Hi]|].
      apply (stripe_readable_same s1); [|by apply (holds_readable_refl _ _ _ _ _ _ Hh1)].
      intros x. rewrite Hh2. unfold object_shards. rewrite object_entry_beyond; [apply None_union|].
      unfold len. cbn. lia.
  - exists rd, w3. split.
    + rewrite H1. do 3 f_equal. unfold len. rewrite Hall. lia.
    + cbv zeta. rewrite <- Eall, concat_app, (proj2 (stripes_of_spec _ new Hss)) in H4.
      rewrite concat_drop_stripes in H4 by done. rewrite Nat2Z.id. exact H4.
Qed.

Lemma MaxLoss_nonneg : 0 <= ec_MaxLoss (params o).
Proof. destruct Hp as (_ & ? & _). cbn in *. unfold ec_MaxLoss. lia. Qed.

(** PutObject when the input ends before [size] bytes. *)
Lemma put_short id data fin size w :
  cache_ok (w_cache w) -> id <> ""%string -> len data < size ->
  let n := Z.to_nat (len data / stripeSize o) in
  let full := take (n * Z.to_nat (stripeSize o)) data in
  len data / stripeSize o < 2 ^ 32 ->
  exists c' s', PutObject o id (mkReader data fin) size w
      = (Err (Wrapf "storage: read input" (short_error (drop (n * Z.to_nat (stripeSize o)) data) fin)),
         mkWorld c' s') /\
    len (drop (n * Z.to_nat (stripeSize o)) data) = len data mod stripeSize o /\
    cache_ok c' /\ markers s' = markers (w_store w) /\ Holds (w_store w) s' id full /\
    count_stripes o full = len data / stripeSize o /\ len full = stripeSize o * (len data / stripeSize o).
Proof.
  intros Hc Hid Hsz n full Hn. destruct w as [c s]. cbn [w_cache w_store] in *.
  assert (0 <= len data) by (unfold len; lia).
  pose proof (Z.div_mod (len data) (stripeSize o) ltac:(lia)) as Hdm.
  pose proof (Z.mod_pos_bound (len data) (stripeSize o) Hss) as Hmod.
  assert (0 <= len data / stripeSize o) by (apply Z.div_pos; lia).
  assert (n * Z.to_nat (stripeSize o) <= length data)%nat as Hnl by (unfold n, len in *; nia).
  destruct (stripes_of_take (stripeSize o) n data Hss Hnl) as [Hst Hfull]. fold full in Hst.
  assert (length full = n * Z.to_nat (stripeSize o))%nat as Hlf by (unfold full; len_lia).
  assert (length (take n (stripes data)) = n) as Hlt.
  { assert (length (concat (take n (stripes data))) = Z.to_nat (stripeSize o) * length (take n (stripes data)))%nat as Hx.
    { apply length_concat_same. eapply List.Forall_impl; [|exact Hfull]. intros st Hs. unfold len in Hs. lia. }
    rewrite concat_take_stripes in Hx by done. fold full in Hx. nia. }
  destruct (EncoderFor_ok _ c e Hc Hp (law_new (p:=toECParams (params o)))) as (c' & He & Hc').
  assert (n < put_fuel o size)%nat as Hfuel.
  { unfold put_fuel, n. assert (len data / stripeSize o <= size / stripeSize o) by (apply Z.div_le_mono; lia). lia. }
  destruct (put_loop_full o Hp id (take n (stripes data)) 0 (S (put_fuel o size - n - 1))
    (drop (n * Z.to_nat (stripeSize o)) data) fin (size - stripeSize o * len (take n (stripes data))) c' s)
    as (s' & H1 & H2 & H3); [done|done| |lia| |]; unfold len in *; rewrite ?Hlt in *; [nia|lia|].
  assert (len (drop (n * Z.to_nat (stripeSize o)) data) = len data mod stripeSize o) as Htail
    by (unfold len, n in *; rewrite length_drop; lia).
  exists c', s'. split_and!; [|done|done|done| | |].
  - unfold PutObject. rewrite bool_decide_eq_false_2 by done.
    destruct (Z.ltb_spec size 0); [lia|].
    erewrite M_bind_ok; [|unfold on_cache; cbn [w_cache]; by rewrite He]. cbn [w_store].
    rewrite concat_take_stripes, take_drop, Z.add_0_l in H1 by done.
    replace (n + S (put_fuel o size - n - 1))%nat with (put_fuel o size) in H1 by lia.
    replace (stripeSize o * Z.of_nat n + (size - stripeSize o * Z.of_nat n)) with size in H1 by lia.
    erewrite M_bind_err; [reflexivity|]. etransitivity; [exact H1|]. unfold len in *.
    apply put_loop_short_input; unfold len; lia.
  - intros key. rewrite H3. unfold object_shards. by rewrite Hst.
  - unfold count_stripes, len. rewrite Hst, Hlt. unfold n. lia.
  - rewrite Hlf. unfold n, len. lia.
Qed.

(** A put that fails is visible. When the input ends before the announced
    size, PutObject returns the reader's error and writes no marker; but the
    stripes it read completely stay in the store, and when there is one,
    GetObject of the id succeeds and delivers them as a complete object. *)
Theorem short_input_leaves_object id data size w :
  cache_ok (w_cache w) -> id <> ""%string -> len data < size -> len data < 2 ^ 63 ->
  len data / stripeSize o < 2 ^ 32 ->
  let n := len data / stripeSize o in
  exists w1, PutObject o id (NewReader data) size w
      = (Err (Wrapf "storage: read input"
                (if decide (len data mod stripeSize o = 0) then EOF else ErrUnexpectedEOF)), w1) /\
    markers (w_store w1) = markers (w_store w) /\
    (0 < n -> no_stale (w_store w) id n ->
     exists rd w2, GetObject o id w1 = (OK (rd, stripeSize o * n), w2) /\
       forall sizes fuel, (forall i, 0 < sizes i)%nat -> (length data < fuel)%nat ->
         ReadAll fuel sizes 0 rd (w_store w1)
         = OK (take (Z.to_nat n * Z.to_nat (stripeSize o)) data, None)).
Proof.
  intros Hc Hid Hsz Hlen Hn n.
  destruct (put_short id data EOF size w Hc Hid Hsz Hn) as (c1 & s1 & Hput & Htail & Hc1 & Hm & Hh & Hcount & Hl).
  exists (mkWorld c1 s1). split_and!; [|exact Hm|].
  { unfold short_error in Hput. rewrite Htail in Hput. exact Hput. } intros Hpos Hns.
  fold n in Hh, Hcount, Hl. set (full := take _ data) in *.
  assert (n * stripeSize o <= len data) by (unfold n; pose proof (Z.mul_div_le (len data) (stripeSize o)); lia).
  destruct (read_holds id full (w_store w) s1 s1 c1) as (rd & w2 & H1 & _ & H3); [done|done| |lia|lia| |done|..].
  - intros E. rewrite E in Hcount. rewrite count_nil in Hcount. lia.
  - by rewrite Hcount.
  - apply degraded_refl.
  - apply loses_at_most_refl, MaxLoss_nonneg.
  - rewrite Hl in H1. exists rd, w2. split; [done|]. intros sizes fuel Hs Hf. apply H3; [done|].
    unfold full. rewrite length_take. lia.
Qed.

(** C18. PutObject ends, and its outcome depends on the input only: for any
    reader, whatever it delivers and however it breaks off, PutObject returns
    nil exactly when the reader delivers the announced number of bytes, and
    otherwise the wrapped error of the reader. It never panics, and the bound
    the model puts on its loop is never hit. *)
Theorem PutObject_total id r size w :
  cache_ok (w_cache w) -> id <> ""%string -> 0 <= size ->
  exists w', if decide (size <= len (pending r))
    then PutObject o id r size w = (OK tt, w')
    else exists err, PutObject o id r size w = (Err (Wrapf "storage: read input" err), w').
Proof.
  destruct w as [c s]. cbn [w_cache]. intros Hc Hid Hs.
  destruct (EncoderFor_ok _ c e Hc Hp (law_new (p:=toECParams (params o)))) as (c' & He & _).
  destruct (put_loop_total o Hp id (put_fuel o size) r 0 size c' s Hss (put_fuel_covers o size Hss Hs))
    as (res & w1 & Hl & Hres).
  unfold PutObject. rewrite bool_decide_eq_false_2 by done.
  destruct (Z.ltb_spec size 0); [lia|]. unfold mbind, M_bind, on_cache. cbn [w_cache w_store].
  rewrite He, Hl. case_decide.
  - destruct Hres as [n ->]. by eexists.
  - destruct Hres as [err ->]. eauto.
Qed.
End contract.

(** What PutObject leaves alone; [PutObject_frame] states it. *)
Lemma put_frame {RS : ReedSolomon} (o : ObjectStore) id r size w res w' :
  PutObject o id r size w = (res, w') ->
  (forall key, k_ObjectID key <> id -> shards (w_store w') !! key = shards (w_store w) !! key) /\
  (forall id', id' <> id -> markers (w_store w') !! id' = markers (w_store w) !! id') /\
  (res <> OK tt -> markers (w_store w') = markers (w_store w)).
Proof.
  unfold PutObject. intros H.
  assert (same_others id (w_store w) (w_store w') \/
    res = OK tt /\ exists m1 meta, same_others id (w_store w) m1 /\
      w_store w' = mkMemStore (shards m1) (<[id := meta]> (markers m1))) as Hcases.
  { case_bool_decide; [left; inversion H; reflexivity|]. case_match; [left; inversion H; reflexivity|].
    unfold mbind, M_bind, on_cache in H.
    destruct (EncoderFor _ _) as [[enc|err|msg] c']; [|left; inversion H; reflexivity..].
    pose proof (put_loop_same_others o id enc (put_fuel o size) r 0 size (mkWorld c' (w_store w))) as Hs.
    destruct (put_loop _ _ _ _ _ _ _ _) as [[n|err|msg] w1]; cbn [snd w_store] in Hs;
      [|left; inversion H; subst; exact Hs..].
    right. unfold on_store in H. cbn in H. inversion H. split; [done|]. by eexists (w_store w1), _. }
  destruct Hcases as [[Hm Hk]|(-> & m1 & meta & [Hm Hk] & ->)]; cbn.
  - by rewrite Hm.
  - split_and!; [done| |done]. intros id' Hne. by rewrite lookup_insert_ne, Hm by congruence.
Qed.

(** Frame. Whatever PutObject is given and however it ends, it changes no
    shard and no marker of another object; and unless it succeeds it writes
    no marker at all. *)
Theorem PutObject_frame {RS : ReedSolomon} (o : ObjectStore) id r size w res w' :
  PutObject o id r size w = (res, w') ->
  (forall key, k_ObjectID key <> id -> shards (w_store w') !! key = shards (w_store w) !! key) /\
  (forall id', id' <> id -> markers (w_store w') !! id' = markers (w_store w) !! id') /\
  (res <> OK tt -> markers (w_store w') = markers (w_store w)).
Proof. apply put_frame. Qed.

(** * Deleting *)

Lemma delete_shards_ok keys : forall m, NoDup keys -> (forall k, k ∈ keys -> is_Some (shards m !! k)) ->
  exists m', delete_shards keys m = (OK tt, m') /\ markers m' = markers m /\
    forall k, shards m' !! k = if decide (k ∈ keys) then None else shards m !! k.
Proof.
  induction keys as [|k0 keys IH]; intros m Hnd Hin.
  { exists m. split_and!; [done..|]. intros k. by rewrite decide_False by set_solver. }
  apply NoDup_cons in Hnd as [Hk0 Hnd]. destruct (Hin k0 ltac:(set_solver)) as [x Hx].
  set (m1 := mkMemStore (delete k0 (shards m)) (markers m)).
  destruct (IH m1) as (m' & H1 & H2 & H3); [done| |].
  { intros k Hk. cbn. rewrite lookup_delete_ne by set_solver. apply Hin. set_solver. }
  exists m'. split_and!; [|done|].
  - cbn [delete_shards]. erewrite M_bind_ok; [exact H1|].
    cbn [ss_DeleteShard MemStore_ShardStore]. unfold DeleteShard. by rewrite Hx.
  - intros k. rewrite H3. cbn. destruct (decide (k = k0)) as [->|Hne].
    + rewrite lookup_delete_eq, (decide_True (P := k0 ∈ k0 :: keys)) by apply list_elem_of_here. by case_decide.
    + rewrite lookup_delete_ne by done. repeat case_decide; rewrite ?elem_of_cons in *; tauto.
Qed.

(** Deletion; [DeleteObject_spec] states it. *)
Lemma delete_object {RS : ReedSolomon} (o : ObjectStore) id w :
  id <> ""%string ->
  exists w', DeleteObject o id w = (OK tt, w') /\ w_cache w' = w_cache w /\
    (forall k, shards (w_store w') !! k
       = if decide (k_ObjectID k = id) then None else shards (w_store w) !! k) /\
    markers (w_store w') = delete id (markers (w_store w)) /\
    GetObject o id w' = (Err ErrObjectNotFound, w').
Proof.
  destruct w as [c m]. cbn [w_store w_cache]. intros Hid.
  destruct (elem_of_ListObjectShards m id Hid) as (keys & Hl & Hkeys).
  destruct (delete_shards_ok keys m) as (m' & H1 & H2 & H3).
  { by eapply NoDup_ListObjectShards. }
  { intros k Hk. by apply Hkeys. }
  assert (forall k, shards m' !! k = if decide (k_ObjectID k = id) then None else shards m !! k) as Hsh.
  { intros k. rewrite H3. repeat case_decide; try done.
    - by apply Hkeys in H as [? _].
    - destruct (shards m !! k) eqn:Ek; [|done]. destruct H. apply Hkeys. eauto. }
  exists (mkWorld c (mkMemStore (shards m') (delete id (markers m)))). cbn [w_cache w_store shards markers].
  split_and!; [|done|exact Hsh|done|].
  - unfold DeleteObject. cbn [w_store ss_ListObjectShards MemStore_ShardStore]. rewrite Hl.
    unfold on_store. cbn [w_store w_cache]. erewrite M_bind_ok by exact H1.
    cbn [ss_RemoveMarker MemStore_ShardStore]. unfold RemoveMarker. by rewrite H2.
  - apply GetObject_missing; [done| |cbn; by rewrite lookup_delete_eq].
    intros k Hk. cbn. by rewrite Hsh, decide_True.
Qed.

(** DeleteObject removes the object entirely and nothing else: it
    succeeds, every shard and the marker of the id are gone, every other
    shard and marker is as before, and GetObject then reports
    ErrObjectNotFound. Deleting an object that does not exist succeeds. *)
Theorem DeleteObject_spec {RS : ReedSolomon} (o : ObjectStore) id w :
  id <> ""%string ->
  exists w', DeleteObject o id w = (OK tt, w') /\ w_cache w' = w_cache w /\
    (forall k, shards (w_store w') !! k
       = if decide (k_ObjectID k = id) then None else shards (w_store w) !! k) /\
    markers (w_store w') = delete id (markers (w_store w)) /\
    GetObject o id w' = (Err ErrObjectNotFound, w').
Proof. apply delete_object. Qed.

(** DeleteObject with the empty id removes every shard of every object:
    ListObjectShards treats the empty id as "all", and DeleteObject, unlike
    PutObject, does not reject it. The markers stay, so every non-empty
    object then reads as an empty stream. *)
Theorem DeleteObject_empty_id {RS : ReedSolomon} (o : ObjectStore) w :
  exists w', DeleteObject o "" w = (OK tt, w') /\ w_cache w' = w_cache w /\
    shards (w_store w') = ∅ /\ markers (w_store w') = delete ""%string (markers (w_store w)) /\
    forall id meta, id <> ""%string -> markers (w_store w) !! id = Some meta ->
      GetObject o id w' = (OK (emptyReader, m_Size meta), w').
Proof.
  destruct w as [c m]. cbn [w_store w_cache].
  destruct (ListObjectShards_all m) as (keys & Hl & Hkeys & Hnd).
  destruct (delete_shards_ok keys m Hnd) as (m' & H1 & H2 & H3); [by intros k ?%Hkeys|].
  assert (shards m' = ∅) as Hsh.
  { apply map_eq. intros k. rewrite H3, lookup_empty. case_decide; [done|].
    destruct (shards m !! k) eqn:Ek; [|done]. destruct H. apply Hkeys. eauto. }
  exists (mkWorld c (mkMemStore (shards m') (delete ""%string (markers m)))).
  cbn [w_cache w_store shards markers]. split_and!; [|done|exact Hsh|done|].
  - unfold DeleteObject. cbn [w_store ss_ListObjectShards MemStore_ShardStore]. rewrite Hl.
    unfold on_store. cbn [w_store w_cache]. erewrite M_bind_ok by exact H1.
    cbn [ss_RemoveMarker MemStore_ShardStore]. unfold RemoveMarker. by rewrite H2.
  - intros id meta Hid Hm. apply GetObject_marker; [done| |cbn; by rewrite lookup_delete_ne by congruence].
    intros k _. cbn. by rewrite Hsh, lookup_empty.
Qed.

(** * At work, on the XOR engine *)

Lemma lose_shard_degraded m key id : degraded m (lose_shard m key) id.
Proof.
  split; [done|]. intros key' Hk. cbn. destruct (decide (key' = key)) as [->|].
  - destruct (shards m !! key) as [x|] eqn:E; [|left; by rewrite lookup_delete_eq]. right.
    split; [eauto|]. eexists _, _, _. unfold GetShard. cbn. by rewrite lookup_delete_eq.
  - left. by rewrite lookup_delete_ne by congruence.
Qed.

Lemma lose_shard_one m key id : loses_at_most m (lose_shard m key) id 1.
Proof.
  intros st. exists {[k_ShardIdx key]}. rewrite size_singleton. split; [done|].
  intros i Hi. cbn. apply lookup_delete_ne. intros ->. set_solver.
Qed.

Lemma lose_tail_deleted m id j : tail_deleted m (lose_tail m j) id j.
Proof.
  split; [done|]. intros key _. unfold lose_tail. cbn [shards]. case_decide.
  - apply map_lookup_filter_None. right. intros x Hx. cbn. lia.
  - destruct (shards m !! key) as [x|] eqn:E.
    + apply map_lookup_filter_Some. split; [done|]. cbn. lia.
    + apply map_lookup_filter_None. by left.
Qed.

Lemma ex_params : params_ok (toECParams (params ex_store)).
Proof. unfold params_ok. cbn. lia. Qed.

Lemma ex_laws : RSLaws XorRS (toECParams (params ex_store)) 2%nat xor_parity.
Proof. apply (XorLaws (mkParams 2 1)); cbn; lia. Qed.

Lemma ex_no_stale n : no_stale NewMemStore "a" n.
Proof. intros key _ [x Hx]. cbn in Hx. by rewrite lookup_empty in Hx. Qed.

Lemma put_get_degraded_witness :
  let data := bytes_of_string "shards" in
  exists w1, PutObject ex_store "a" (NewReader data) 6 (mkWorld ∅ NewMemStore) = (OK tt, w1) /\
    let m2 := lose_shard (w_store w1) (mkKey "a" 1 0) in
    exists rd w2, GetObject ex_store "a" (mkWorld (w_cache w1) m2) = (OK (rd, 6), w2) /\
      ReadAll 7 (fun _ => 3%nat) 0 rd m2 = OK (data, None).
Proof.
  destruct (put_get_degraded (LAWS := ex_laws) ex_store ex_params eq_refl "a" (bytes_of_string "shards")
    (mkWorld ∅ NewMemStore) cache_ok_empty ltac:(done) ltac:(done) ltac:(done) (ex_no_stale _))
    as (w1 & Hput & Hget).
  exists w1. split; [exact Hput|].
  destruct (Hget _ (lose_shard_degraded (w_store w1) (mkKey "a" 1 0) "a") (lose_shard_one _ _ _))
    as (rd & w2 & H1 & _ & H3).
  exists rd, w2. split; [exact H1|]. apply H3; [intros _|vm_compute]; lia.
Defined.

Lemma degraded_trans m1 m2 m3 id : degraded m1 m2 id -> degraded m2 m3 id -> degraded m1 m3 id.
Proof.
  intros [Hm Hd] [Hm' Hd']. split; [congruence|]. intros key Hk.
  destruct (Hd key Hk) as [E|[Hs Hl]], (Hd' key Hk) as [E'|[Hs' Hl']].
  - left. congruence.
  - right. by rewrite E in Hs'.
  - right. split; [done|]. destruct Hl as (d & h & err & Hg & He). exists d, h, err.
    unfold GetShard in *. by rewrite E'.
  - by right.
Qed.

(** The state a computation ends in, by running it. *)
Lemma run_state {St A} (m : M St A) s r s' : m s = (r, s') -> s' = (m s).2.
Proof. by intros ->. Qed.

Lemma damaged_read_witness :
  let data := bytes_of_string "shards" in
  exists w1, PutObject ex_store "a" (NewReader data) 6 (mkWorld ∅ NewMemStore) = (OK tt, w1) /\
    let m2 := lose_shard (lose_shard (w_store w1) (mkKey "a" 1 0)) (mkKey "a" 1 1) in
    exists rd w2, GetObject ex_store "a" (mkWorld (w_cache w1) m2) = (OK (rd, 6), w2) /\
      ReadAll 7 (fun _ => 3%nat) 0 rd m2 = OK (bytes_of_string "shar", Some unrecoverable).
Proof.
  destruct (damaged_read (LAWS := ex_laws) ex_store ex_params eq_refl "a" (bytes_of_string "shards")
    (mkWorld ∅ NewMemStore) cache_ok_empty ltac:(done) ltac:(done) ltac:(done) ltac:(done) (ex_no_stale _))
    as (w1 & Hput & Hget).
  exists w1. split; [exact Hput|]. cbv zeta. apply run_state in Hput.
  set (m2 := lose_shard (lose_shard (w_store w1) (mkKey "a" 1 0)) (mkKey "a" 1 1)).
  assert (good_count m2 "a" 0 0 (total ex_store) = 3 /\ good_count m2 "a" 1 0 (total ex_store) = 1)
    as [Hg0 Hg1] by (unfold m2; rewrite Hput; vm_compute; done).
  destruct (Hget m2) as [[Hz _]|(rd & w2 & j & H1 & Hok & Hbad & Hread)].
  - eapply degraded_trans; apply lose_shard_degraded.
  - exists 2. unfold m2. rewrite Hput. vm_compute. eauto.
  - change (good_count m2 "a" 1 0 (total ex_store) = 0) in Hz. lia.
  - assert (j = 1%nat) as ->.
    { change (count_stripes ex_store _) with 2 in Hbad. cbn [params ex_store] in *.
      destruct j as [|[|j]]; [|done|].
      - specialize (Hbad ltac:(lia)). change (ec_DataShards _) with 2 in Hbad.
        change (Z.of_nat 0) with 0 in Hbad. lia.
      - specialize (Hok 1%nat ltac:(lia)). change (ec_DataShards _) with 2 in Hok.
        change (Z.of_nat 1) with 1 in Hok. lia. }
    exists rd, w2. split; [exact H1|]. rewrite Hread; [reflexivity|lia|vm_compute; lia].
Defined.

Lemma lost_tail_is_silent_witness :
  let data := bytes_of_string "shards" in
  exists w1, PutObject ex_store "a" (NewReader data) 6 (mkWorld ∅ NewMemStore) = (OK tt, w1) /\
    exists rd w2, GetObject ex_store "a" (mkWorld (w_cache w1) (lose_tail (w_store w1) 1)) = (OK (rd, 4), w2) /\
      ReadAll 7 (fun _ => 3%nat) 0 rd (lose_tail (w_store w1) 1) = OK (bytes_of_string "shar", None).
Proof.
  destruct (lost_tail_is_silent (LAWS := ex_laws) ex_store ex_params eq_refl "a" (bytes_of_string "shards")
    (mkWorld ∅ NewMemStore) 1 cache_ok_empty ltac:(done) ltac:(done) ltac:(done) (ex_no_stale _) ltac:(done))
    as (w1 & Hput & Hget).
  exists w1. split; [exact Hput|].
  destruct (Hget _ (lose_tail_deleted (w_store w1) "a" 1)) as (rd & w2 & H1 & H2).
  exists rd, w2. split; [exact H1|]. rewrite H2; [reflexivity|lia|vm_compute; lia].
Defined.

Lemma overwrite_shorter_keeps_tail_witness :
  exists w1 w2, PutObject ex_store "a" (NewReader (bytes_of_string "shards")) 6 (mkWorld ∅ NewMemStore) = (OK tt, w1) /\
    PutObject ex_store "a" (NewReader (bytes_of_string "new")) 3 w1 = (OK tt, w2) /\
    exists rd w3, GetObject ex_store "a" w2 = (OK (rd, 6), w3) /\
      ReadAll 7 (fun _ => 3%nat) 0 rd (w_store w2) = OK (bytes_of_string "newds", None).
Proof.
  destruct (overwrite_shorter_keeps_tail (LAWS := ex_laws) ex_store ex_params eq_refl "a"
    (bytes_of_string "shards") (bytes_of_string "new")
    (mkWorld ∅ NewMemStore) cache_ok_empty ltac:(done) ltac:(done) ltac:(done) (ex_no_stale _) ltac:(done))
    as (w1 & w2 & Hput1 & Hput2 & rd & w3 & H1 & H2).
  exists w1, w2. split; [exact Hput1|]. split; [exact Hput2|].
  exists rd, w3. split; [exact H1|]. apply H2; [lia|vm_compute; lia].
Defined.

Lemma short_input_leaves_object_witness :
  exists w1 rd w2, PutObject ex_store "a" (NewReader (bytes_of_string "shards")) 100 (mkWorld ∅ NewMemStore)
      = (Err (Wrapf "storage: read input" ErrUnexpectedEOF), w1) /\
    GetObject ex_store "a" w1 = (OK (rd, 4), w2) /\
    ReadAll 7 (fun _ => 3%nat) 0 rd (w_store w1) = OK (bytes_of_string "shar", None).
Proof.
  destruct (short_input_leaves_object (LAWS := ex_laws) ex_store ex_params eq_refl "a"
    (bytes_of_string "shards") 100 (mkWorld ∅ NewMemStore) cache_ok_empty
    ltac:(done) ltac:(done) ltac:(done) ltac:(done)) as (w1 & Hput & _ & Hget).
  destruct (Hget ltac:(done) (ex_no_stale _)) as (rd & w2 & H1 & H2).
  exists w1, rd, w2. split; [exact Hput|]. split; [exact H1|]. rewrite H2; [reflexivity|lia|vm_compute; lia].
Defined.

Lemma PutObject_total_witness :
  exists w' err, PutObject ex_store "a" (mkReader (bytes_of_string "shards") (IOError "reset")) 9
      (mkWorld ∅ NewMemStore) = (Err (Wrapf "storage: read input" err), w').
Proof.
  destruct (PutObject_total (LAWS := ex_laws) ex_store ex_params eq_refl "a"
    (mkReader (bytes_of_string "shards") (IOError "reset")) 9 (mkWorld ∅ NewMemStore)
    cache_ok_empty ltac:(done) ltac:(done)) as (w' & err & H). eauto.
Defined.

Lemma PutObject_frame_witness :
  let w := mkWorld (RS := XorRS) ∅ NewMemStore in
  exists w', PutObject ex_store "a" (NewReader (bytes_of_string "shards")) 100 w
      = (Err (Wrapf "storage: read input" ErrUnexpectedEOF), w') /\
    markers (w_store w') = ∅ /\ shards (w_store w') !! mkKey "b" 0 0 = None.
Proof.
  intros w. destruct (PutObject ex_store "a" (NewReader (bytes_of_string "shards")) 100 w) as [r w'] eqn:E.
  assert (r = Err (Wrapf "storage: read input" ErrUnexpectedEOF)) as ->.
  { transitivity (r, w').1; [done|]. rewrite <- E. vm_compute. reflexivity. }
  destruct (PutObject_frame ex_store "a" _ _ w _ w' E) as (H1 & _ & H3).
  exists w'. split; [done|]. split; [by apply H3|]. by apply H1.
Defined.

Lemma DeleteObject_spec_witness :
  let w := (PutObject ex_store "a" (NewReader (bytes_of_string "shards")) 6
              (mkWorld (RS := XorRS) ∅ NewMemStore)).2 in
  size (shards (w_store w)) = 6%nat /\
  exists w', DeleteObject ex_store "a" w = (OK tt, w') /\
    GetObject ex_store "a" w' = (Err ErrObjectNotFound, w').
Proof.
  intros w. split; [vm_compute; reflexivity|].
  destruct (DeleteObject_spec ex_store "a" w ltac:(done)) as (w' & H1 & _ & _ & _ & H2). eauto.
Defined.
