(* ===== verification/ObjectSim.v ===== *)
(** What the object store asks of a shard store, as an interface: two shard
    stores that answer every call alike, in related states, cannot be told
    apart by ObjectStore. So what is proved of objects over the in-memory
    store holds over every store that simulates it. *)
From S2P Require Import Prelude Binary Sha256 EC Header ShardStore ObjectStore ObjectRead.

(** Related computations: the same result, and related states. *)
Definition rel_M {S1 S2 A} (R : S1 -> S2 -> Prop) (m1 : M S1 A) (m2 : M S2 A) : Prop :=
  forall s1 s2, R s1 s2 -> (m1 s1).1 = (m2 s2).1 /\ R (m1 s1).2 (m2 s2).2.

Section rel.
Context {S1 S2 : Type} (R : S1 -> S2 -> Prop).

Lemma rel_ret {A} (a : A) : rel_M R (mret a) (mret a).
Proof. by intros s1 s2 H. Qed.

Lemma rel_throw {A} e : rel_M R (throw (A:=A) e) (throw e).
Proof. by intros s1 s2 H. Qed.

Lemma rel_lift {A} (r : result A) : rel_M R (lift r) (lift r).
Proof. by intros s1 s2 H. Qed.

(** A value of the second computation may be assumed to satisfy [P]. *)
Lemma rel_bind_in {A B} (P : A -> Prop) (m1 : M S1 A) (m2 : M S2 A) (f1 : A -> M S1 B) f2 :
  rel_M R m1 m2 -> (forall s1 s2 a s', R s1 s2 -> m2 s2 = (OK a, s') -> P a) ->
  (forall a, P a -> rel_M R (f1 a) (f2 a)) -> rel_M R (m1 ≫= f1) (m2 ≫= f2).
Proof.
  intros Hm HP Hf s1 s2 H. destruct (Hm s1 s2 H) as [E1 E2]. pose proof (HP s1 s2) as HP'.
  unfold mbind, M_bind. destruct (m1 s1) as [r1 s1'], (m2 s2) as [r2 s2']. simpl in E1, E2. subst r2.
  destruct r1; simpl; eauto. by apply Hf; [eapply HP'|].
Qed.

Lemma rel_bind {A B} (P : A -> Prop) (m1 : M S1 A) (m2 : M S2 A) (f1 : A -> M S1 B) f2 :
  rel_M R m1 m2 -> (forall s a s', m2 s = (OK a, s') -> P a) ->
  (forall a, P a -> rel_M R (f1 a) (f2 a)) -> rel_M R (m1 ≫= f1) (m2 ≫= f2).
Proof. intros Hm HP. apply rel_bind_in; [done|]. intros s1 s2 a s0 _. apply HP. Qed.

Lemma rel_seq {A B} (m1 : M S1 A) (m2 : M S2 A) (f1 : A -> M S1 B) f2 :
  rel_M R m1 m2 -> (forall a, rel_M R (f1 a) (f2 a)) -> rel_M R (m1 ≫= f1) (m2 ≫= f2).
Proof. intros. by apply (rel_bind (fun _ => True)). Qed.

Lemma rel_wrapM {A} msg (m1 : M S1 A) m2 : rel_M R m1 m2 -> rel_M R (wrapM msg m1) (wrapM msg m2).
Proof.
  intros Hm s1 s2 H. destruct (Hm s1 s2 H) as [E1 E2]. unfold wrapM.
  destruct (m1 s1), (m2 s2). simpl in *. by subst.
Qed.
End rel.

#[export] Hint Resolve rel_ret rel_throw rel_lift rel_wrapM : shard.

(** GetObject does not write to the store. *)
Lemma GetObject_store {RS : ReedSolomon} {S} {SS : ShardStore S} o id (w : World S) :
  w_store (GetObject o id w).2 = w_store w.
Proof.
  unfold GetObject. destruct (ss_ListObjectShards _ _) as [[|k keys]|err|msg]; [|..|done|done].
  - by destruct (ss_ReadMarker _ _).
  - destruct (lastStripeLen _ _ _ _); [|done..]. unfold mbind, M_bind, encoder, on_cache.
    by destruct (EncoderFor _ _) as [[enc|err|msg] c'].
Qed.

(** * The interface *)

Definition key_ok (I : string -> Prop) (key : ShardKey) : Prop :=
  I (k_ObjectID key) /\ inU 32 (k_StripeIdx key) /\ inU 32 (k_ShardIdx key).

Lemma key_ok_u32 (I : string -> Prop) id st i : I id -> inU 32 st -> key_ok I (mkKey id st (u32 i)).
Proof. intros. split; [done|]. split; [done|]. apply wrapU_range. lia. Qed.

(** The ids markers are read for: listing everything reads the marker of the
    empty id. *)
Definition named (I : string -> Prop) (id : string) : Prop := I id \/ id = ""%string.

(** A header the object store may write for [key] and [data]. *)
Definition header_ok (key : ShardKey) (h : ShardHeader) : Prop :=
  h_ObjectID h = k_ObjectID key /\ header_wf h /\ 1 <= h_DataShards h /\ 1 <= h_ParityShards h.

Class StoreSim {S1 S2} (SS1 : ShardStore S1) (SS2 : ShardStore S2)
    (I : string -> Prop) (R : S1 -> S2 -> Prop) : Prop := {
  sim_put key h data : key_ok I key -> header_ok key h ->
    rel_M R (ss_PutShard key h data) (ss_PutShard key h data);
  sim_get s1 s2 key : R s1 s2 -> key_ok I key -> ss_GetShard s1 key = ss_GetShard s2 key;
  sim_verify s1 s2 key : R s1 s2 -> key_ok I key -> ss_VerifyShard s1 key = ss_VerifyShard s2 key;
  sim_delete key : key_ok I key -> rel_M R (ss_DeleteShard key) (ss_DeleteShard key);
  sim_list s1 s2 : R s1 s2 -> ss_ListShards s1 = ss_ListShards s2;
  sim_list_object s1 s2 id : R s1 s2 -> ss_ListObjectShards s1 id = ss_ListObjectShards s2 id;
  sim_listed s1 s2 id keys k : R s1 s2 -> ss_ListObjectShards s2 id = OK keys -> k ∈ keys -> key_ok I k;
  sim_write_marker id meta : I id -> meta_wf meta ->
    rel_M R (ss_WriteMarker id meta) (ss_WriteMarker id meta);
  sim_read_marker s1 s2 id : R s1 s2 -> named I id -> ss_ReadMarker s1 id = ss_ReadMarker s2 id;
  sim_remove_marker id : I id -> rel_M R (ss_RemoveMarker id) (ss_RemoveMarker id);
}.

(** * ObjectStore over related stores *)

Section sim.
Context {RS : ReedSolomon} {S1 S2 : Type} {SS1 : ShardStore S1} {SS2 : ShardStore S2}.
Context {I : string -> Prop} {R : S1 -> S2 -> Prop} {SIM : StoreSim SS1 SS2 I R}.
Context (o : ObjectStore) {e : rs_enc} {parity : list bytes -> list bytes}.
Context {LAWS : RSLaws RS (toECParams (params o)) e parity}.
Context (Hp : params_ok (toECParams (params o))) (Hss : 0 < stripeSize o < 2 ^ 63).

(** The process states: the same encoder cache, related stores. *)
Definition WR (w1 : World S1) (w2 : World S2) : Prop :=
  w_cache w1 = w_cache w2 /\ R (w_store w1) (w_store w2).

Lemma rel_on_store {A} (m1 : M S1 A) (m2 : M S2 A) : rel_M R m1 m2 -> rel_M WR (on_store m1) (on_store m2).
Proof.
  intros Hm [c1 s1] [c2 s2] [Hc H]. cbn in *. destruct (Hm s1 s2 H) as [E1 E2].
  unfold on_store. cbn. destruct (m1 s1), (m2 s2). simpl in *. by subst.
Qed.

Lemma rel_on_cache {A} (m : M encCache A) : rel_M WR (on_cache m) (on_cache m).
Proof.
  intros [c1 s1] [c2 s2] [Hc H]. cbn in *. subst. unfold on_cache. cbn. by destruct (m c2).
Qed.

(** ** PutObject *)

Lemma put_shards_sim id st sl bs : forall i,
  I id -> inU 32 st -> 0 <= sl < 2 ^ 63 ->
  Forall (fun b => 0 <= slice_len b < 2 ^ 63) bs ->
  rel_M WR (put_shards o id st sl i bs) (put_shards o id st sl i bs).
Proof.
  induction bs as [|b bs IH]; intros i Hid Hst Hsl HF; cbn [put_shards]; [apply rel_ret|].
  inversion_clear HF as [|? ? Hb HF']. apply rel_seq; [|intros; by apply IH].
  apply rel_wrapM, rel_on_store, sim_put.
  - split; [done|]. split; [done|]. apply wrapU_range. lia.
  - destruct Hp as (Hk & Hm & Hkm). cbn in Hk, Hm, Hkm. unfold header_ok, header_wf. cbn.
    rewrite !(wrapU_id 16) by (unfold inU; lia). unfold inU, inS in *.
    split_and!; (done || lia || (apply wrapU_range; lia) || (by rewrite length_replicate) || idtac).
Qed.

Lemma Encode_lengths stripe : stripe <> [] -> len stripe < 2 ^ 63 ->
  exists shards, Encode (mkEncoder e (toECParams (params o))) stripe = OK shards /\
    Forall (fun b => 0 <= slice_len b < 2 ^ 63) shards.
Proof.
  intros Hne Hl. eexists. split; [by apply (Encode_codeword Hp)|].
  destruct (codeword_shaped Hp stripe) as [_ HF]. apply Forall_map.
  eapply List.Forall_impl; [|exact HF]. intros b Hb. cbn in Hb |- *. rewrite Hb.
  pose proof (per_shard_bounds (Z.to_nat (ec_DataShards (params o))) (length stripe)) as Hps.
  destruct Hp as (Hk & _). cbn in Hk. unfold len in Hl. specialize (Hps ltac:(lia)). nia.
Qed.

Lemma put_loop_sim id fuel : forall r st rem,
  I id -> inU 32 st ->
  rel_M WR (put_loop fuel o (mkEncoder e (toECParams (params o))) id r st rem)
           (put_loop fuel o (mkEncoder e (toECParams (params o))) id r st rem).
Proof.
  induction fuel as [|fuel IH]; intros r st rem Hid Hst; cbn [put_loop];
    (destruct (Z.leb_spec rem 0) as [|Hrem]; [apply rel_ret|]); [apply rel_throw|].
  set (n := if rem <? stripeSize o then rem else stripeSize o).
  assert (0 < n <= stripeSize o) as Hn by (unfold n; go_bools; lia).
  destruct (ReadFull (Z.to_nat n) r) as [[chunk|err|msg] r'] eqn:ER; [|apply rel_throw|by intros ? ?].
  apply ReadFull_ok in ER as (_ & Hl & _).
  assert (chunk <> []) as Hne by (intros ->; simpl in Hl; lia).
  destruct (Encode_lengths chunk Hne ltac:(unfold len; lia)) as (bs & HE & HF).
  apply rel_seq; [|intros []; apply IH; [done|apply wrapU_range; lia]].
  unfold putStripe. rewrite HE. apply (rel_bind _ (fun x => x = bs)); [apply rel_lift| |].
  - intros s a s' [= -> _]. done.
  - intros a ->. apply put_shards_sim; [done|done|unfold len; lia|done].
Qed.

(** The stripe count fits the uint32 it is kept in. *)
Lemma put_loop_range id fuel : forall r st rem (w : World S2) n w',
  inU 32 st -> put_loop fuel o (mkEncoder e (toECParams (params o))) id r st rem w = (OK n, w') -> inU 32 n.
Proof.
  induction fuel as [|fuel IH]; intros r st rem w n w' Hst; cbn [put_loop]; (case_match; [by intros [= <- _]|]);
    [done|].
  destruct (ReadFull _ r) as [[chunk|err|msg] r']; [|done..].
  unfold mbind at 1, M_bind at 1. destruct (putStripe _ _ _ _ _ _) as [[[]|err|msg] w1]; [|done..].
  apply IH, wrapU_range. lia.
Qed.

Lemma PutObject_sim id r size : I id -> inS 64 size -> forall w1 w2, WR w1 w2 -> cache_ok (w_cache w2) ->
  (PutObject o id r size w1).1 = (PutObject o id r size w2).1 /\
  WR (PutObject o id r size w1).2 (PutObject o id r size w2).2.
Proof.
  intros Hid Hsize w1 w2 Hw Hc. unfold PutObject.
  case_bool_decide; [by apply rel_throw|]. destruct (size <? 0); [by apply rel_throw|].
  destruct (EncoderFor_ok _ (w_cache w2) e Hc Hp (law_new (p:=toECParams (params o)))) as (c' & He & _).
  destruct Hw as [Hcc Hs].
  assert (forall S (w : World S), w_cache w = w_cache w2 ->
    on_cache (EncoderFor (toECParams (params o))) w
    = (OK (mkEncoder e (toECParams (params o))), mkWorld c' (w_store w))) as Henc.
  { intros S w Hw. unfold on_cache. by rewrite Hw, He. }
  rewrite (M_bind_ok _ _ _ _ _ (Henc _ w1 Hcc)), (M_bind_ok _ _ _ _ _ (Henc _ w2 eq_refl)).
  apply (rel_bind WR (fun n => inU 32 n)); [| | |done].
  - apply put_loop_sim; [done|]. unfold inU. lia.
  - intros w a w' Hl. eapply put_loop_range; [|exact Hl]. unfold inU. lia.
  - intros n Hn. apply rel_on_store, sim_write_marker; [done|].
    destruct Hp as (Hk & Hm & Hkm). cbn in Hk, Hm, Hkm. unfold meta_wf. cbn.
    split_and!; [done..| |]; unfold inU; lia.
Qed.

(** ** GetObject and the reader *)

Lemma first_valid_len_sim s1 s2 id st idxs : R s1 s2 -> I id -> inU 32 st ->
  first_valid_len s1 id st idxs = first_valid_len s2 id st idxs.
Proof.
  intros Hs Hid Hst. induction idxs as [|i idxs IH]; [done|]. cbn [first_valid_len].
  rewrite (sim_verify s1 s2) by (done || by apply key_ok_u32). by rewrite IH.
Qed.

Lemma load_shards_sim s1 s2 id st idxs : forall l, R s1 s2 -> I id -> inU 32 st ->
  load_shards s1 id st idxs l = load_shards s2 id st idxs l.
Proof.
  induction idxs as [|i idxs IH]; intros l Hs Hid Hst; [done|]. cbn [load_shards].
  rewrite (sim_get s1 s2) by (done || by apply key_ok_u32).
  destruct (ss_GetShard s2 _) as [[data h] [err|]]; by rewrite !IH.
Qed.

Lemma max_stripe_range keys : (forall k, k ∈ keys -> inU 32 (k_StripeIdx k)) -> inU 32 (max_stripe keys).
Proof.
  unfold max_stripe. assert (inU 32 0) as H0 by (unfold inU; lia). revert H0. generalize 0 as a.
  induction keys as [|k keys IH]; intros a Ha H; [done|]. cbn [fold_left].
  apply IH; [|intros; apply H; by right]. case_match; [apply H; by left|done].
Qed.

Lemma GetObject_sim id w1 w2 : I id -> WR w1 w2 ->
  (GetObject o id w1).1 = (GetObject o id w2).1 /\ WR (GetObject o id w1).2 (GetObject o id w2).2.
Proof.
  intros Hid Hw. pose proof Hw as [Hc Hs]. unfold GetObject. rewrite (sim_list_object _ _ _ Hs).
  destruct (ss_ListObjectShards (w_store w2) id) as [keys|err|msg] eqn:EL; [|done..].
  destruct keys as [|k keys].
  { rewrite (sim_read_marker _ _ id Hs (or_introl Hid)). by destruct (ss_ReadMarker (w_store w2) id). }
  assert (inU 32 (max_stripe (k :: keys))) as HM.
  { apply max_stripe_range. intros k' Hk'. by eapply (sim_listed _ _ _ _ _ Hs EL) in Hk' as (_ & ? & _). }
  unfold lastStripeLen. rewrite (first_valid_len_sim _ _ _ _ _ Hs Hid HM).
  destruct (first_valid_len _ _ _ _); [|done..].
  unfold mbind, M_bind, encoder, on_cache. rewrite Hc.
  destruct (EncoderFor _ (w_cache w2)) as [[enc|err|msg] c']; done.
Qed.

(** A reader GetObject made, or left behind by Read. *)
Definition reader_ok (r : reader) : Prop :=
  match r with
  | emptyReader => True
  | stripeReader r0 => I (r_objectID r0) /\ inU 32 (r_stripeIdx r0)
  end.

Lemma GetObject_reader_ok id w rd size w' : I id ->
  GetObject (SS := SS2) o id w = (OK (rd, size), w') -> reader_ok rd.
Proof.
  intros Hid. unfold GetObject. destruct (ss_ListObjectShards _ _) as [[|k keys]|err|msg]; [..|done|done].
  - destruct (ss_ReadMarker _ _); [|done..]. by intros [= <- _ _].
  - destruct (lastStripeLen _ _ _ _); [|done..]. unfold mbind, M_bind.
    destruct (encoder o w) as [[enc|err|msg] w1]; [|done..]. intros [= <- _ _].
    split; [done|]. unfold inU. cbn. lia.
Qed.

Lemma loadStripe_sim r s1 s2 : R s1 s2 -> I (r_objectID r) -> inU 32 (r_stripeIdx r) ->
  loadStripe r s1 = loadStripe r s2.
Proof.
  intros Hs Hid Hst. unfold loadStripe.
  destruct (make_slice (ec_ShardCount (r_params r)) (@None bytes)) as [shards0|err|msg]; [|done..].
  cbn [mbind result_bind]. by rewrite (load_shards_sim s1 s2).
Qed.

Lemma loadStripe_same r (s : S2) r1 : loadStripe r s = OK r1 ->
  r_objectID r1 = r_objectID r /\ r_stripeIdx r1 = r_stripeIdx r.
Proof.
  unfold loadStripe, mbind, result_bind.
  repeat case_match; intros; simplify_eq/=; done.
Qed.

Lemma Read_sim n r s1 s2 : R s1 s2 -> reader_ok (stripeReader r) -> Read n r s1 = Read n r s2.
Proof. intros Hs [Hid Hst]. unfold Read. by rewrite (loadStripe_sim r s1 s2). Qed.

Lemma Read_reader_ok n r (s : S2) p err r' : reader_ok (stripeReader r) ->
  Read n r s = OK (p, err, r') -> reader_ok (stripeReader r').
Proof.
  assert (forall r0, reader_ok (stripeReader r0) -> reader_ok (stripeReader (copy_out n r0).2)) as Hcopy.
  { intros r0 [H1 H2]. unfold copy_out. cbn. case_match; split; cbn; try done. apply wrapU_range. lia. }
  intros Hr. unfold Read. case_match; [intros; by simplify_eq|]. case_match.
  - destruct (loadStripe r s) as [r1|e1|m1] eqn:EL; [|intros; by simplify_eq..].
    assert (reader_ok (stripeReader r1)) as Hr1.
    { apply loadStripe_same in EL as [E1 E2]. cbn. by rewrite E1, E2. }
    case_match; intros HR%OK_inj.
    + destruct Hr1. simplify_eq. split; [done|]. cbn. apply wrapU_range. lia.
    + specialize (Hcopy r1 Hr1). by rewrite HR in Hcopy.
  - intros HR%OK_inj. specialize (Hcopy r Hr). by rewrite HR in Hcopy.
Qed.

Lemma ReadAll_sim fuel sizes s1 s2 : R s1 s2 -> forall i r, reader_ok r ->
  ReadAll fuel sizes i r s1 = ReadAll fuel sizes i r s2.
Proof.
  intros Hs. induction fuel as [|fuel IH]; intros i r Hr; [done|]. cbn [ReadAll].
  destruct r as [|r]; [done|]. cbn [reader_Read]. rewrite (Read_sim _ _ s1 s2) by done.
  destruct (Read (sizes i) r s2) as [[[p err] r']|err|msg] eqn:ER; [|done..].
  cbn [mbind result_bind]. destruct err; [done|].
  rewrite IH; [done|]. by eapply Read_reader_ok.
Qed.

(** ** DeleteObject *)

Lemma delete_shards_sim keys : (forall k, k ∈ keys -> key_ok I k) ->
  rel_M R (delete_shards keys) (delete_shards keys).
Proof.
  induction keys as [|k keys IH]; intros H; [apply rel_ret|]. cbn [delete_shards].
  apply rel_seq; [apply sim_delete, H; by left|]. intros _. apply IH. intros k' Hk'. apply H. by right.
Qed.

Lemma DeleteObject_sim id w1 w2 : I id -> WR w1 w2 ->
  (DeleteObject o id w1).1 = (DeleteObject o id w2).1 /\ WR (DeleteObject o id w1).2 (DeleteObject o id w2).2.
Proof.
  intros Hid Hw. pose proof Hw as [Hc Hs]. unfold DeleteObject. rewrite (sim_list_object _ _ _ Hs).
  destruct (ss_ListObjectShards (w_store w2) id) as [keys|err|msg] eqn:EL; [|done..].
  apply rel_on_store; [|done]. apply rel_seq.
  - apply delete_shards_sim. intros k Hk. by eapply (sim_listed _ _ _ _ _ Hs EL).
  - intros _. by apply sim_remove_marker.
Qed.
End sim.
