(* ===== verification/FileNames.v ===== *)
(** internal/storage/store.go: the file names of FileStore. Every object has
    a directory named by the hash of its id; the shards of the object are
    files in it, named by the stripe and shard index. A name is printed with
    fmt.Sprintf and parsed back with strings.CutSuffix, strings.Split and
    fmt.Sscanf; the part of these the code uses is modelled here. *)
From S2P Require Import Prelude Binary Sha256 EC Header.

(** * Numbers in names *)

(** A digit of base at most 16, printed in lower case ([%x], [%d]). *)
Definition digit_byte (n : Z) : byte :=
  byte_of_Z (if n <? 10 then 48 + n else 87 + n).

(** The value of a digit, in either case. *)
Definition byte_digit (b : byte) : option Z :=
  let v := byte_val b in
  if (48 <=? v) && (v <=? 57) then Some (v - 48)
  else if (97 <=? v) && (v <=? 102) then Some (v - 87)
  else if (65 <=? v) && (v <=? 70) then Some (v - 55)
  else None.

Definition is_digit (base : Z) (b : byte) : bool :=
  match byte_digit b with Some n => n <? base | None => false end.

(** The [n] low digits of [z], most significant first. *)
Fixpoint digits (base : Z) (n : nat) (z : Z) : bytes :=
  match n with
  | O => []
  | S n' => digits base n' (z / base) ++ [digit_byte (z mod base)]
  end.

(** How many digits [z] has; ten are enough for 32 bits. *)
Fixpoint width (base : Z) (fuel : nat) (z : Z) : nat :=
  match fuel with
  | O => O
  | S f => if z <? base then 1%nat else S (width base f (z / base))
  end.

Definition number (base : Z) (l : bytes) : Z :=
  fold_left (fun acc b => acc * base + default 0 (byte_digit b)) l 0.

(** fmt.Sprintf("%08x", z) and fmt.Sprintf("%d", z), for a uint32 [z]. *)
Definition sprintf_08x (z : Z) : bytes := digits 16 8 z.
Definition sprintf_d (z : Z) : bytes := digits 10 (width 10 10 z) z.

(** The leading bytes that satisfy [p], at most [n] of them. *)
Fixpoint span_max (p : byte -> bool) (n : nat) (l : bytes) : bytes :=
  match n, l with
  | S n', b :: l' => if p b then b :: span_max p n' l' else []
  | _, _ => []
  end.

(** Sscanf skips blanks in front of a number (a newline is an error, and is
    not a digit either). *)
Fixpoint skip_space (l : bytes) : bytes :=
  match l with
  | xc2 :: ((x85 | xa0) :: l') => skip_space l'
  | xe1 :: (x9a :: (x80 :: l')) => skip_space l'
  | xe2 :: (x80 :: (b :: l')) =>
      if ((128 <=? byte_val b) && (byte_val b <=? 138)) || (byte_val b =? 168) || (byte_val b =? 169)
         || (byte_val b =? 175) then skip_space l' else l
  | xe2 :: (x81 :: (x9f :: l')) => skip_space l'
  | xe3 :: (x80 :: (x80 :: l')) => skip_space l'
  | b :: l' => if (byte_val b =? 32) || (byte_val b =? 9)
                  || ((11 <=? byte_val b) && (byte_val b <=? 13))
               then skip_space l' else l
  | [] => []
  end.

(** fmt.Sscanf of one unsigned number of at most [maxWidth] digits into a
    variable of [bits] bits; what follows the digits is not looked at. *)
Definition sscanf_uint (base : Z) (maxWidth : nat) (bits : Z) (l : bytes) : result Z :=
  match span_max (is_digit base) maxWidth (skip_space l) with
  | [] => Err (Errorf "expected integer")
  | tok => if number base tok <? 2 ^ bits then OK (number base tok)
           else Err (Errorf "unsigned integer overflow")
  end.

Definition sscanf_08x (l : bytes) : result Z := sscanf_uint 16 8 64 l.
Definition sscanf_d32 (l : bytes) : result Z := sscanf_uint 10 (length l) 32 l.

(** * Names *)

Definition shard_suffix : bytes := bytes_of_string ".shard".
Definition dash : byte := "-"%byte.

(** strings.HasSuffix, strings.CutSuffix. *)
Definition HasSuffix (name suffix : bytes) : bool :=
  (length suffix <=? length name)%nat &&
  bool_decide (drop (length name - length suffix) name = suffix).

Definition CutSuffix (name suffix : bytes) : bytes * bool :=
  if HasSuffix name suffix then (take (length name - length suffix) name, true) else (name, false).

(** strings.Split(s, sep) for a one-byte separator. *)
Fixpoint Split (s : bytes) (sep : byte) : list bytes :=
  match s with
  | [] => [[]]
  | b :: s' =>
      if bool_decide (b = sep) then [] :: Split s' sep
      else match Split s' sep with
           | part :: parts => (b :: part) :: parts
           | [] => [[b]]
           end
  end.

(** The directory of an object, below the root of the store. *)
Definition objectDir (objectID : string) : string :=
  EncodeToString (take 20 (Sum256 (bytes_of_string objectID))).

Definition shardFileName (key : ShardKey) : string :=
  string_of_bytes (sprintf_08x (k_StripeIdx key) ++ [dash] ++ sprintf_d (k_ShardIdx key) ++ shard_suffix).

(** The ObjectID of the result is left empty: the name does not hold it. *)
Definition parseShardFileName (name : string) : result ShardKey :=
  match CutSuffix (bytes_of_string name) shard_suffix with
  | (_, false) => Err (Errorf "storage: not a shard file: %q")
  | (rest, true) =>
      match Split rest dash with
      | [part0; part1] =>
          match sscanf_08x part0 with
          | OK stripe =>
              match sscanf_d32 part1 with
              | OK shard => OK (mkKey "" (u32 stripe) shard)
              | _ => Err (Errorf "storage: malformed shard index: %q")
              end
          | _ => Err (Errorf "storage: malformed stripe index: %q")
          end
      | _ => Err (Errorf "storage: malformed shard name: %q")
      end
  end.

(** * Properties *)

Lemma digit_byte_digit n : 0 <= n < 16 -> byte_digit (digit_byte n) = Some n.
Proof.
  intros H. assert (n ∈ seqZ 0 16) as Hn by (apply elem_of_seqZ; lia). revert Hn.
  change (seqZ 0 16) with [0;1;2;3;4;5;6;7;8;9;10;11;12;13;14;15].
  repeat (rewrite elem_of_cons; intros [->|Hn]; [reflexivity|revert Hn]).
  intros Hn. by apply not_elem_of_nil in Hn.
Qed.

Lemma digits_are_digits base n z : 0 < base <= 16 -> Forall (fun b => is_digit base b = true) (digits base n z).
Proof.
  intros Hb. revert z. induction n as [|n IH]; intros z; [constructor|]. cbn [digits].
  apply Forall_app. split; [apply IH|]. constructor; [|constructor].
  pose proof (Z.mod_pos_bound z base ltac:(lia)).
  unfold is_digit. rewrite digit_byte_digit by lia. apply Z.ltb_lt. lia.
Qed.

Lemma length_digits base n z : length (digits base n z) = n.
Proof. revert z. induction n as [|n IH]; intros z; [done|]. cbn [digits]. rewrite length_app, IH. simpl. lia. Qed.

Lemma number_snoc base l b : number base (l ++ [b]) = number base l * base + default 0 (byte_digit b).
Proof. unfold number. by rewrite fold_left_app. Qed.

Lemma number_digits base n z : 0 < base <= 16 -> number base (digits base n z) = z mod base ^ Z.of_nat n.
Proof.
  intros Hb. revert z. induction n as [|n IH]; intros z; [by rewrite Z.mod_1_r|].
  cbn [digits]. pose proof (Z.mod_pos_bound z base ltac:(lia)).
  rewrite number_snoc, IH, digit_byte_digit by lia. cbn [default].
  rewrite Nat2Z.inj_succ, Z.pow_succ_r by lia.
  assert (0 < base ^ Z.of_nat n) by (apply Z.pow_pos_nonneg; lia).
  rewrite Z.rem_mul_r by lia. cbn. lia.
Qed.

Lemma width_spec base fuel z : 1 < base -> 0 <= z < base ^ Z.of_nat fuel ->
  0 <= z < base ^ Z.of_nat (width base fuel z).
Proof.
  intros Hb. revert z. induction fuel as [|f IH]; intros z Hz; [done|]. cbn [width].
  destruct (Z.ltb_spec z base); [rewrite Z.pow_1_r; lia|].
  rewrite Nat2Z.inj_succ, Z.pow_succ_r in * by lia.
  pose proof (Z.div_mod z base ltac:(lia)). pose proof (Z.mod_pos_bound z base ltac:(lia)).
  assert (0 <= z / base < base ^ Z.of_nat f) as Hd.
  { split; [apply Z.div_pos; lia|]. apply Z.div_lt_upper_bound; lia. }
  specialize (IH _ Hd). nia.
Qed.

Lemma width_pos base fuel z : (0 < fuel)%nat -> (0 < width base fuel z)%nat.
Proof. destruct fuel; [lia|]. cbn. case_match; lia. Qed.

Lemma digit_not_space base b l : is_digit base b = true -> skip_space (b :: l) = b :: l.
Proof. intros H. destruct b; first [reflexivity | vm_compute in H; discriminate]. Qed.

Lemma digit_not_dash base b : is_digit base b = true -> b <> dash.
Proof. intros H ->. vm_compute in H. discriminate. Qed.

Lemma span_max_all p l rest n : Forall (fun b => p b = true) l -> n = length l ->
  span_max p n (l ++ rest) = l.
Proof.
  intros H. revert n. induction H as [|b l Hb _ IH]; intros n ->; [by destruct rest|].
  cbn. rewrite Hb. f_equal. by apply IH.
Qed.

Lemma sscanf_digits base bits l : 0 < base <= 16 -> l <> [] ->
  Forall (fun b => is_digit base b = true) l -> number base l < 2 ^ bits ->
  sscanf_uint base (length l) bits l = OK (number base l).
Proof.
  intros Hb Hne HF Hn. unfold sscanf_uint.
  assert (skip_space l = l) as ->.
  { destruct HF as [|b l Hd _]; [done|]. by apply (digit_not_space base). }
  pose proof (span_max_all _ l [] _ HF eq_refl) as Hs. rewrite app_nil_r in Hs. rewrite Hs.
  destruct l; [done|]. by rewrite (proj2 (Z.ltb_lt _ _) Hn).
Qed.

Lemma sscanf_08x_print z : inU 32 z -> sscanf_08x (sprintf_08x z) = OK z.
Proof.
  unfold inU. intros Hz. unfold sscanf_08x, sprintf_08x.
  assert (number 16 (digits 16 8 z) = z) as Hn.
  { rewrite number_digits by lia. apply Z.mod_small. lia. }
  pose proof (sscanf_digits 16 64 (digits 16 8 z)) as H. rewrite length_digits, Hn in H.
  apply H; [lia| |by apply digits_are_digits|lia].
  intros E. apply (f_equal length) in E. by rewrite length_digits in E.
Qed.

Lemma sscanf_d32_print z : inU 32 z -> sscanf_d32 (sprintf_d z) = OK z.
Proof.
  unfold inU. intros Hz. unfold sscanf_d32, sprintf_d.
  pose proof (width_spec 10 10 z ltac:(lia) ltac:(lia)).
  pose proof (width_pos 10 10 z ltac:(lia)).
  assert (number 10 (digits 10 (width 10 10 z) z) = z) as Hn.
  { rewrite number_digits by lia. by apply Z.mod_small. }
  rewrite sscanf_digits; [by rewrite Hn|lia| |by apply digits_are_digits|rewrite Hn; lia].
  intros E. apply (f_equal length) in E. rewrite length_digits in E. cbn [length] in E. lia.
Qed.

Lemma CutSuffix_app l suffix : CutSuffix (l ++ suffix) suffix = (l, true).
Proof.
  unfold CutSuffix, HasSuffix. rewrite length_app.
  replace (length l + length suffix - length suffix)%nat with (length l) by lia.
  rewrite drop_app_length, take_app_length, bool_decide_eq_true_2 by done.
  by rewrite leb_correct by lia.
Qed.

Lemma Split_none l sep : sep ∉ l -> Split l sep = [l].
Proof.
  induction l as [|b l IH]; intros H; [done|]. cbn. apply not_elem_of_cons in H as [H1 H2].
  rewrite bool_decide_eq_false_2 by done. by rewrite IH.
Qed.

Lemma Split_app l sep rest : sep ∉ l -> Split (l ++ sep :: rest) sep = l :: Split rest sep.
Proof.
  induction l as [|b l IH]; intros H; cbn; [by rewrite bool_decide_eq_true_2|].
  apply not_elem_of_cons in H as [H1 H2]. rewrite bool_decide_eq_false_2 by done. by rewrite IH.
Qed.

Lemma dash_not_digit base l : Forall (fun b => is_digit base b = true) l -> dash ∉ l.
Proof.
  intros H Hin. rewrite Forall_forall in H. specialize (H _ Hin).
  by apply digit_not_dash in H.
Qed.

Lemma string_bytes_id b : bytes_of_string (string_of_bytes b) = b.
Proof. apply list_byte_of_string_of_list_byte. Qed.

Lemma shardFileName_bytes key : bytes_of_string (shardFileName key)
  = (sprintf_08x (k_StripeIdx key) ++ dash :: sprintf_d (k_ShardIdx key)) ++ shard_suffix.
Proof. unfold shardFileName. rewrite string_bytes_id, <- app_assoc. done. Qed.

Lemma parse_shardFileName key : inU 32 (k_StripeIdx key) -> inU 32 (k_ShardIdx key) ->
  parseShardFileName (shardFileName key) = OK (mkKey "" (k_StripeIdx key) (k_ShardIdx key)).
Proof.
  intros H1 H2. unfold parseShardFileName. rewrite shardFileName_bytes, CutSuffix_app.
  rewrite Split_app by (apply (dash_not_digit 16), digits_are_digits; lia).
  rewrite Split_none by (apply (dash_not_digit 10), digits_are_digits; lia).
  rewrite sscanf_08x_print, sscanf_d32_print by done. by rewrite wrapU_id.
Qed.

(** The name of a shard file gives back the stripe and shard index it was
    made from, for all 32-bit indexes; so the files of an object never
    overwrite each other. *)
Theorem shardFileName_roundtrip key :
  inU 32 (k_StripeIdx key) -> inU 32 (k_ShardIdx key) ->
  parseShardFileName (shardFileName key) = OK (mkKey "" (k_StripeIdx key) (k_ShardIdx key)) /\
  forall key', inU 32 (k_StripeIdx key') -> inU 32 (k_ShardIdx key') ->
    shardFileName key' = shardFileName key ->
    k_StripeIdx key' = k_StripeIdx key /\ k_ShardIdx key' = k_ShardIdx key.
Proof.
  intros H1 H2. split; [by apply parse_shardFileName|]. intros key' H3 H4 E.
  pose proof (parse_shardFileName key' H3 H4) as Hp. rewrite E, parse_shardFileName in Hp by done.
  by simplify_eq.
Qed.

Lemma shardFileName_inj k1 k2 :
  inU 32 (k_StripeIdx k1) -> inU 32 (k_ShardIdx k1) -> inU 32 (k_StripeIdx k2) -> inU 32 (k_ShardIdx k2) ->
  shardFileName k1 = shardFileName k2 -> k_StripeIdx k1 = k_StripeIdx k2 /\ k_ShardIdx k1 = k_ShardIdx k2.
Proof.
  intros H1 H2 H3 H4 E. pose proof (parse_shardFileName k1 H1 H2) as Hp.
  rewrite E, parse_shardFileName in Hp by done. by simplify_eq.
Qed.

Lemma shardFileName_suffix key : HasSuffix (bytes_of_string (shardFileName key)) shard_suffix = true.
Proof.
  rewrite shardFileName_bytes. unfold HasSuffix. rewrite length_app.
  rewrite leb_correct by lia. apply bool_decide_eq_true. rewrite drop_app_length'; [done|lia].
Qed.

Lemma shardFileName_roundtrip_witness :
  shardFileName (mkKey "a" 4294967295 12) = "ffffffff-12.shard"%string /\
  parseShardFileName "ffffffff-12.shard" = OK (mkKey "" 4294967295 12).
Proof.
  split; [reflexivity|].
  apply (shardFileName_roundtrip (mkKey "a" 4294967295 12)); unfold inU; cbn; lia.
Defined.

#[global] Opaque objectDir shardFileName.
