(* ===== verification/FileStore.v ===== *)
(** internal/storage/store.go, FileStore: shards as files under
    root/objects/<hash of the object id>/. The disk is the tree below that
    root: directories of files. The operating system may fail any call; which
    calls fail, and how far a failing write or read got, is decided by an
    [Environment], a parameter of every definition. *)
From S2P Require Import Prelude Binary Sha256 EC Header ShardStore FileNames.

(** * The file system *)

Abbreviation files := (gmap string bytes).
Record Disk := mkDisk { dirs : gmap string files }.

Definition file (d : Disk) (dir name : string) : option bytes :=
  fs ← dirs d !! dir; fs !! name.

(** Calls that can fail: those of the os package, and ctx.Err. *)
Inductive syscall :=
  | CtxErr
  | SysMkdirRoot
  | SysMkdirAll (dir : string)
  | SysCreate (dir name : string)
  | SysWrite (dir name : string) (data : bytes)
  | SysSync (dir name : string)
  | SysOpen (dir name : string)
  | SysRead (dir name : string)
  | SysRemove (dir name : string)
  | SysReadDir (dir : option string). (* None: the root *)

(** The error of a failing call, and the bytes a failing write or read got done. *)
Record fault := mkFault { f_err : error; f_done : nat }.

Class Environment := env : Disk -> syscall -> option fault.

(** The environment in which nothing fails. *)
Definition no_faults : Environment := fun _ _ => None.

Definition errNotExist : error := IOError "file does not exist".
Definition os_IsNotExist (err : error) : bool := bool_decide (err = errNotExist).

Section FileStore.
Context {ENV : Environment}.

Definition sys (c : syscall) : M Disk unit := fun d =>
  match env d c with Some f => (Err (f_err f), d) | None => (OK tt, d) end.

Definition os_MkdirAll (dir : string) : M Disk unit :=
  sys (SysMkdirAll dir);;
  (fun d => (OK tt, match dirs d !! dir with Some _ => d | None => mkDisk (<[dir := ∅]> (dirs d)) end))
    : M Disk unit.

Definition set_file (dir name : string) (content : bytes) (d : Disk) : Disk :=
  mkDisk (alter (fun fs => <[name := content]> fs) dir (dirs d)).

(** os.Create: an empty file, in a directory that exists. *)
Definition os_Create (dir name : string) : M Disk unit :=
  sys (SysCreate dir name);;
  (fun d => match dirs d !! dir with
            | None => (Err errNotExist, d)
            | Some _ => (OK tt, set_file dir name [] d)
            end) : M Disk unit.

(** Write on a file handle at the end of the file. *)
Definition fh_Write (dir name : string) (data : bytes) : M Disk unit := fun d =>
  let append b := match file d dir name with
                  | Some c => set_file dir name (c ++ b) d
                  | None => d
                  end in
  match env d (SysWrite dir name data) with
  | Some f => (Err (f_err f), append (take (f_done f) data))
  | None => (OK tt, append data)
  end.

Definition fh_Sync (dir name : string) : M Disk unit := sys (SysSync dir name).

(** os.Open, and what reading the file from its start will deliver. *)
Definition os_Open (d : Disk) (dir name : string) : result Reader :=
  match env d (SysOpen dir name) with
  | Some f => Err (f_err f)
  | None =>
      match file d dir name with
      | None => Err errNotExist
      | Some c => OK match env d (SysRead dir name) with
                     | Some f => mkReader (take (f_done f) c) (f_err f)
                     | None => NewReader c
                     end
      end
  end.

Definition os_Remove (dir name : string) : M Disk unit :=
  sys (SysRemove dir name);;
  (fun d => match file d dir name with
            | None => (Err errNotExist, d)
            | Some _ => (OK tt, mkDisk (alter (fun fs => delete name fs) dir (dirs d)))
            end) : M Disk unit.

Definition os_WriteFile (dir name : string) (data : bytes) : M Disk unit :=
  os_Create dir name;; fh_Write dir name data.

Definition os_ReadFile (d : Disk) (dir name : string) : result bytes :=
  rd ← os_Open d dir name;
  if bool_decide (final rd = EOF) then OK (pending rd) else Err (final rd).

(** io.ReadAll(io.LimitReader(rd, n)), and io.Copy from it. *)
Definition read_limited (n : Z) (rd : Reader) : result bytes :=
  if n <=? len (pending rd) then OK (take (Z.to_nat n) (pending rd))
  else if bool_decide (final rd = EOF) then OK (pending rd) else Err (final rd).

(** * The store *)

Definition PutShard (key : ShardKey) (h : ShardHeader) (data : bytes) : M Disk unit :=
  sys CtxErr;;
  if bool_decide (k_ObjectID key <> h_ObjectID h) then
    throw (Errorf "storage: key/header object id mismatch")
  else if negb (len data =? h_DataLen h) then
    throw (Errorf "storage: payload len %d != header DataLen %d")
  else
    let h := with_checksum h (Sum256 data) in
    let dir := objectDir (k_ObjectID key) in
    wrapM "storage: mkdir" (os_MkdirAll dir);;
    let name := shardFileName key in
    hdrBytes ← lift (encodeShardHeader h);
    wrapM "storage: create shard" (os_Create dir name);;
    wrapM "storage: write header" (fh_Write dir name hdrBytes);;
    wrapM "storage: write payload" (fh_Write dir name data);;
    wrapM "storage: fsync shard" (fh_Sync dir name).

Definition open_shard_error (err : error) : error :=
  if os_IsNotExist err then ErrShardNotFound else Wrapf "storage: open shard" err.

(** The outcome of a call that does not panic: [inl] is an error return. The
    calls it is used on do not panic ([no_panic_decodeShardHeader], and
    [os_Open] and [read_limited] by their definitions). *)
Definition outcome {A} (r : result A) : error + A :=
  match r with OK a => inr a | Err err => inl err | Panicked msg => inl (Errorf msg) end.

Definition GetShard (d : Disk) (key : ShardKey) : slice * ShardHeader * option error :=
  match outcome (os_Open d (objectDir (k_ObjectID key)) (shardFileName key)) with
  | inl err => (None, emptyHeader, Some (open_shard_error err))
  | inr fh =>
      let '(r, fh') := decodeShardHeader fh in
      match outcome r with
      | inl err => (None, emptyHeader, Some (Wrapf "storage: decode header" err))
      | inr h =>
          match outcome (read_limited (h_DataLen h) fh') with
          | inl err => (None, emptyHeader, Some (Wrapf "storage: read payload" err))
          | inr data =>
              if negb (len data =? h_DataLen h) then
                (None, emptyHeader, Some (Errorf "storage: short payload: got %d, want %d"))
              else if bool_decide (Sum256 data <> h_Checksum h) then (None, h, Some ErrCorruptShard)
              else (Some data, h, None)
          end
      end
  end.

Definition VerifyShard (d : Disk) (key : ShardKey) : ShardHeader * option error :=
  match outcome (os_Open d (objectDir (k_ObjectID key)) (shardFileName key)) with
  | inl err => (emptyHeader, Some (open_shard_error err))
  | inr fh =>
      let '(r, fh') := decodeShardHeader fh in
      match outcome r with
      | inl err => (emptyHeader, Some (Wrapf "storage: decode header" err))
      | inr h =>
          match outcome (read_limited (h_DataLen h) fh') with
          | inl err => (emptyHeader, Some (Wrapf "storage: hash payload" err))
          | inr data =>
              if bool_decide (Sum256 data <> h_Checksum h) then (h, Some ErrCorruptShard)
              else (h, None)
          end
      end
  end.

(** Replaces the error of a computation. *)
Definition map_err {A} (f : error -> error) (m : M Disk A) : M Disk A := fun d =>
  match m d with (Err err, d') => (Err (f err), d') | x => x end.

Definition DeleteShard (key : ShardKey) : M Disk unit :=
  map_err (fun err => if os_IsNotExist err then ErrShardNotFound else Wrapf "storage: remove shard" err)
    (os_Remove (objectDir (k_ObjectID key)) (shardFileName key)).

(** ** Listing *)

Definition resolveObjectID (d : Disk) (dir name : string) : result string :=
  fh ← wrap_err "storage: open shard for id resolution" (os_Open d dir name);
  h ← wrap_err "storage: decode header for id resolution" (decodeShardHeader fh).1;
  OK (h_ObjectID h).

(** filepath.WalkDir visits the entries of a directory in lexical order. *)
Definition name_le {A} (x y : string * A) : Prop := String.leb x.1 y.1 = true.
#[global] Instance name_le_dec {A} : RelDecision (@name_le A).
Proof. intros x y. unfold name_le. apply _. Defined.

Definition entries {A} (m : gmap string A) : list (string * A) := merge_sort name_le (map_to_list m).

(** The function passed to WalkDir, on a file; it appends to [keys]. *)
Definition visit (d : Disk) (dir name : string) (keys : list ShardKey) : result (list ShardKey) :=
  if negb (HasSuffix (bytes_of_string name) shard_suffix) then OK keys
  else
    key ← parseShardFileName name;
    objectID ← resolveObjectID d dir name;
    OK (keys ++ [mkKey objectID (k_StripeIdx key) (k_ShardIdx key)]).

Fixpoint walk_files (d : Disk) (dir : string) (es : list (string * bytes)) (keys : list ShardKey)
    : result (list ShardKey) :=
  match es with
  | [] => OK keys
  | (name, _) :: es' => keys' ← visit d dir name keys; walk_files d dir es' keys'
  end.

Fixpoint walk_dirs (d : Disk) (es : list (string * files)) (keys : list ShardKey)
    : result (list ShardKey) :=
  match es with
  | [] => OK keys
  | (dir, fs) :: es' =>
      match env d (SysReadDir (Some dir)) with
      | Some f => Err (f_err f)
      | None => keys' ← walk_files d dir (entries fs) keys; walk_dirs d es' keys'
      end
  end.

Definition WalkDir (d : Disk) : result (list ShardKey) :=
  match env d (SysReadDir None) with
  | Some f => Err (f_err f)
  | None => walk_dirs d (entries (dirs d)) []
  end.

Definition ListShards (d : Disk) : result (list ShardKey) :=
  keys ← wrap_err "storage: walk" (WalkDir d); OK (sort_keys keys).

Definition ListObjectShards (d : Disk) (objectID : string) : result (list ShardKey) :=
  all ← ListShards d; OK (object_keys objectID all).

(** ** Markers *)

Definition markerFileName : string := ".meta".

Definition WriteMarker (objectID : string) (meta : ObjectMeta) : M Disk unit :=
  b ← lift (encodeObjectMeta meta);
  let dir := objectDir objectID in
  wrapM "storage: mkdir marker" (os_MkdirAll dir);;
  wrapM "storage: write marker" (os_WriteFile dir markerFileName b);;
  wrapM "storage: reopen marker" ((fun d => (_ ← os_Open d dir markerFileName; OK tt, d)) : M Disk unit);;
  wrapM "storage: fsync marker" (fh_Sync dir markerFileName).

Definition ReadMarker (d : Disk) (objectID : string) : result ObjectMeta :=
  match os_ReadFile d (objectDir objectID) markerFileName with
  | Err err => Err (if os_IsNotExist err then ErrObjectNotFound else Wrapf "storage: read marker" err)
  | Panicked msg => Panicked msg
  | OK b => decodeObjectMeta b
  end.

Definition RemoveMarker (objectID : string) : M Disk unit := fun d =>
  match os_Remove (objectDir objectID) markerFileName d with
  | (Err err, d') => if os_IsNotExist err then (OK tt, d') else (Err (Wrapf "storage: remove marker" err), d')
  | x => x
  end.

#[export] Instance FileStore_ShardStore : ShardStore Disk := {
  ss_PutShard := PutShard;
  ss_GetShard := GetShard;
  ss_VerifyShard := VerifyShard;
  ss_DeleteShard := DeleteShard;
  ss_ListShards := ListShards;
  ss_ListObjectShards := ListObjectShards;
  ss_WriteMarker := WriteMarker;
  ss_ReadMarker := ReadMarker;
  ss_RemoveMarker := RemoveMarker;
}.

(** [d] is what is found below root/objects: nothing, for a new root. *)
Definition NewFileStore : M Disk unit := wrapM "storage: create root" (sys SysMkdirRoot).
End FileStore.

Definition empty_disk : Disk := mkDisk ∅.
