(* ===== verification/FileRefine.v ===== *)
(** FileStore simulates MemStore: on a disk where no call fails, and for ids
    that do not collide in their directory names, every method of FileStore
    answers as MemStore does, and keeps the disk in step with the maps. So
    everything proved of objects over the in-memory store holds of objects on
    disk. *)
From S2P Require Import Prelude Binary Sha256 EC Header ShardStore MemStore FileNames FileStore ObjectStore ObjectRead ObjectSim.

#[local] Existing Instance no_faults.

(** The contents of the file of a shard. *)
Definition shard_file (s : memShard) : bytes := header_bytes (ms_h s) ++ ms_data s.

(** A shard the store can hold under [key]. *)
Definition shard_ok (key : ShardKey) (s : memShard) : Prop :=
  header_ok key (ms_h s) /\ len (ms_data s) = h_DataLen (ms_h s).

Definition id_ok (id : string) : Prop := 1 <= len (bytes_of_string id) <= 65535.

Section refine.
(** The ids in use. *)
Context (I : string -> Prop) (HI : forall id, I id -> id_ok id).
Context (Hinj : forall id1 id2, named I id1 -> named I id2 -> objectDir id1 = objectDir id2 -> id1 = id2).

(** The disk holds the shards and markers of the maps, and no other shard. *)
Record disk_rel (d : Disk) (m : MemStore) : Prop := {
  rel_shard key s : MemStore.shards m !! key = Some s ->
    key_ok I key /\ shard_ok key s /\
    file d (objectDir (k_ObjectID key)) (shardFileName key) = Some (shard_file s);
  rel_file dir name c : file d dir name = Some c -> HasSuffix (bytes_of_string name) shard_suffix = true ->
    exists key s, MemStore.shards m !! key = Some s /\ dir = objectDir (k_ObjectID key) /\ name = shardFileName key;
  rel_marker id : named I id ->
    match MemStore.markers m !! id with
    | Some meta => meta_wf meta /\ exists b, encodeObjectMeta meta = OK b /\
                   file d (objectDir id) markerFileName = Some b
    | None => file d (objectDir id) markerFileName = None
    end;
}.

Lemma disk_rel_empty : disk_rel empty_disk NewMemStore.
Proof.
  constructor; cbn.
  - intros key s. by rewrite lookup_empty.
  - intros dir name c. unfold file. cbn. by rewrite lookup_empty.
  - intros id _. rewrite lookup_empty. unfold file. cbn. by rewrite lookup_empty.
Qed.

Lemma file_of_key d m key : disk_rel d m -> key_ok I key ->
  file d (objectDir (k_ObjectID key)) (shardFileName key)
  = shard_file <$> MemStore.shards m !! key.
Proof.
  intros R (Hid & H1 & H2). destruct (MemStore.shards m !! key) as [s|] eqn:E.
  - by destruct (rel_shard d m R key s E) as (_ & _ & ->).
  - destruct (file d _ _) as [c|] eqn:Ef; [|done]. exfalso.
    destruct (rel_file d m R _ _ _ Ef (shardFileName_suffix key)) as (key' & s & Hs & Hd & Hn).
    destruct (rel_shard d m R key' s Hs) as ((Hid' & H1' & H2') & _).
    apply Hinj in Hd; [|by left..]. apply shardFileName_inj in Hn as [? ?]; [|done..].
    assert (key = key') as <- by (destruct key, key'; cbn in *; congruence). congruence.
Qed.

(** ** The file system without faults *)

Lemma file_set d dir name c dir' name' :
  file (set_file dir name c d) dir' name'
  = if decide (dir' = dir /\ name' = name) then (fun _ => c) <$> dirs d !! dir else file d dir' name'.
Proof.
  unfold file, set_file. cbn. case_decide as H.
  - destruct H as [-> ->]. rewrite lookup_alter_eq. destruct (dirs d !! dir); cbn; [|done].
    by rewrite lookup_insert_eq.
  - destruct (decide (dir' = dir)) as [->|].
    + rewrite lookup_alter_eq. destruct (dirs d !! dir); cbn; [|done]. rewrite lookup_insert_ne; [done|]. intros ->. by apply H.
    + by rewrite lookup_alter_ne by done.
Qed.

(** Writing a whole file: MkdirAll, Create and the Writes together. *)
Lemma mkdir_create dir name d :
  exists d1 d2, os_MkdirAll dir d = (OK tt, d1) /\ os_Create dir name d1 = (OK tt, d2) /\
    file d2 dir name = Some [] /\
    forall dir' name', (dir', name') <> (dir, name) -> file d2 dir' name' = file d dir' name'.
Proof.
  unfold os_MkdirAll, os_Create, sys, env, no_faults, mbind, M_bind.
  destruct (dirs d !! dir) as [fs|] eqn:E.
  - exists d, (set_file dir name [] d). rewrite E. split_and!; [done..| |].
    + rewrite file_set, decide_True by done. by rewrite E.
    + intros dir' name' Hne. rewrite file_set, decide_False; [done|]. by intros [-> ->].
  - set (d1 := mkDisk (<[dir:=∅]> (dirs d))). exists d1, (set_file dir name [] d1).
    assert (dirs d1 !! dir = Some ∅) as E1 by (unfold d1; cbn; by rewrite lookup_insert_eq).
    rewrite E1. split_and!; [done..| |].
    + rewrite file_set, decide_True by done. by rewrite E1.
    + intros dir' name' Hne. rewrite file_set, decide_False by (by intros [-> ->]).
      unfold file, d1. cbn. destruct (decide (dir' = dir)) as [->|].
      * rewrite lookup_insert_eq, E. cbn. by rewrite lookup_empty.
      * by rewrite lookup_insert_ne by done.
Qed.

Lemma write_ok dir name c data d : file d dir name = Some c ->
  exists d', fh_Write dir name data d = (OK tt, d') /\ file d' dir name = Some (c ++ data) /\
    forall dir' name', (dir', name') <> (dir, name) -> file d' dir' name' = file d dir' name'.
Proof.
  intros H. unfold fh_Write, env, no_faults. rewrite H. eexists. split; [done|]. split.
  - rewrite file_set, decide_True by done. unfold file in H. by destruct (dirs d !! dir).
  - intros dir' name' Hne. rewrite file_set, decide_False; [done|]. by intros [-> ->].
Qed.

Lemma remove_spec dir name d :
  exists d', os_Remove dir name d
    = (match file d dir name with Some _ => OK tt | None => Err errNotExist end, d') /\
    file d' dir name = None /\
    forall dir' name', (dir', name') <> (dir, name) -> file d' dir' name' = file d dir' name'.
Proof.
  unfold os_Remove, sys, env, no_faults, mbind, M_bind.
  destruct (file d dir name) as [c|] eqn:E; [|by exists d].
  eexists. split; [done|]. unfold file. cbn. split.
  - rewrite lookup_alter_eq. destruct (dirs d !! dir); cbn; [by rewrite lookup_delete_eq|done].
  - intros dir' name' Hne. destruct (decide (dir' = dir)) as [->|].
    + rewrite lookup_alter_eq. destruct (dirs d !! dir); cbn; [|done]. rewrite lookup_delete_ne; [done|congruence].
    + by rewrite lookup_alter_ne by done.
Qed.

(** ** Reading *)

Lemma decode_shard_file key s : id_ok (k_ObjectID key) -> shard_ok key s ->
  decodeShardHeader (NewReader (shard_file s)) = (OK (ms_h s), NewReader (ms_data s)) /\
  read_limited (h_DataLen (ms_h s)) (NewReader (ms_data s)) = OK (ms_data s).
Proof.
  intros Hid [(Hh & Hwf & _) Hl]. split.
  - unfold NewReader, shard_file, id_ok in *. rewrite decode_header_bytes; [reflexivity|exact Hwf|]. rewrite Hh. lia.
  - unfold read_limited. cbn. rewrite <- Hl. destruct (Z.leb_spec (len (ms_data s)) (len (ms_data s))); [|lia].
    f_equal. apply take_ge. unfold len. lia.
Qed.

Lemma GetShard_sim d m key : disk_rel d m -> key_ok I key -> GetShard d key = MemStore.GetShard m key.
Proof.
  intros R Hk. unfold GetShard, MemStore.GetShard, os_Open, env, no_faults.
  rewrite (file_of_key d m key R Hk). destruct (MemStore.shards m !! key) as [s|] eqn:E; cbn [fmap option_fmap option_map]; [|done].
  destruct (rel_shard d m R key s E) as (_ & Hs & _).
  destruct (decode_shard_file key s (HI _ (proj1 Hk)) Hs) as [H1 H2]. cbn [outcome].
  rewrite H1. cbn [outcome]. rewrite H2. cbn [outcome]. destruct Hs as [_ Hl].
  by rewrite (proj2 (Z.eqb_eq _ _) Hl).
Qed.

Lemma VerifyShard_sim d m key : disk_rel d m -> key_ok I key -> VerifyShard d key = MemStore.VerifyShard m key.
Proof.
  intros R Hk. unfold VerifyShard, MemStore.VerifyShard, os_Open, env, no_faults.
  rewrite (file_of_key d m key R Hk). destruct (MemStore.shards m !! key) as [s|] eqn:E; cbn [fmap option_fmap option_map]; [|done].
  destruct (rel_shard d m R key s E) as (_ & Hs & _).
  destruct (decode_shard_file key s (HI _ (proj1 Hk)) Hs) as [H1 H2]. cbn [outcome].
  rewrite H1. cbn [outcome]. by rewrite H2.
Qed.

(** ** Writing shards *)

Lemma meta_not_shard key : markerFileName <> shardFileName key.
Proof.
  intros E. pose proof (shardFileName_suffix key) as H. rewrite <- E in H. vm_compute in H. done.
Qed.

(** The path of a shard is the path of no other shard. *)
Lemma path_inj key key' : key_ok I key -> key_ok I key' ->
  (objectDir (k_ObjectID key'), shardFileName key') = (objectDir (k_ObjectID key), shardFileName key) ->
  key' = key.
Proof.
  intros (H1 & H2 & H3) (H1' & H2' & H3') [Hd Hn]%pair_equal_spec.
  apply Hinj in Hd; [|by left..]. apply shardFileName_inj in Hn as [? ?]; [|done..].
  destruct key, key'. cbn in *. congruence.
Qed.

Definition same_but (d d' : Disk) (dir name : string) : Prop :=
  forall dir' name', (dir', name') <> (dir, name) -> file d' dir' name' = file d dir' name'.

Lemma same_but_trans d1 d2 d3 dir name :
  same_but d1 d2 dir name -> same_but d2 d3 dir name -> same_but d1 d3 dir name.
Proof. intros H1 H2 dir' name' Hne. by rewrite H2, H1. Qed.

(** Markers do not see what happens to a shard file. *)
Lemma rel_marker_same d d' m key : disk_rel d m ->
  same_but d d' (objectDir (k_ObjectID key)) (shardFileName key) -> forall id, named I id ->
  match MemStore.markers m !! id with
  | Some meta => meta_wf meta /\ exists b, encodeObjectMeta meta = OK b /\
                 file d' (objectDir id) markerFileName = Some b
  | None => file d' (objectDir id) markerFileName = None
  end.
Proof.
  intros R Hs id Hid. rewrite (Hs (objectDir id)); [by apply (rel_marker d m R)|].
  intros [_ E]%pair_equal_spec. by apply meta_not_shard in E.
Qed.

Lemma rel_insert d d' m key s : disk_rel d m -> key_ok I key -> shard_ok key s ->
  file d' (objectDir (k_ObjectID key)) (shardFileName key) = Some (shard_file s) ->
  same_but d d' (objectDir (k_ObjectID key)) (shardFileName key) ->
  disk_rel d' (mkMemStore (<[key := s]> (MemStore.shards m)) (MemStore.markers m)).
Proof.
  intros R Hk Hs Hf Hsame. constructor; cbn [MemStore.shards MemStore.markers].
  - intros key' s' [[<- <-]|[Hne Hl]]%lookup_insert_Some; [done|].
    destruct (rel_shard d m R key' s' Hl) as (H1 & H2 & H3). split_and!; [done..|].
    rewrite Hsame; [done|]. intros E. by apply path_inj in E.
  - intros dir name c Hc Hsuf.
    destruct (decide ((dir, name) = (objectDir (k_ObjectID key), shardFileName key))) as [[-> ->]%pair_equal_spec|Hne].
    + exists key, s. by rewrite lookup_insert_eq.
    + rewrite Hsame in Hc by done. destruct (rel_file d m R dir name c Hc Hsuf) as (key' & s' & H1 & -> & ->).
      exists key', s'. rewrite lookup_insert_ne; [done|congruence].
  - by apply (rel_marker_same d _ _ key).
Qed.

Lemma rel_remove d d' m key : disk_rel d m -> key_ok I key ->
  file d' (objectDir (k_ObjectID key)) (shardFileName key) = None ->
  same_but d d' (objectDir (k_ObjectID key)) (shardFileName key) ->
  disk_rel d' (mkMemStore (delete key (MemStore.shards m)) (MemStore.markers m)).
Proof.
  intros R Hk Hf Hsame. constructor; cbn [MemStore.shards MemStore.markers].
  - intros key' s' [Hne Hl]%lookup_delete_Some.
    destruct (rel_shard d m R key' s' Hl) as (H1 & H2 & H3). split_and!; [done..|].
    rewrite Hsame; [done|]. intros E. by apply path_inj in E.
  - intros dir name c Hc Hsuf.
    destruct (decide ((dir, name) = (objectDir (k_ObjectID key), shardFileName key))) as [[-> ->]%pair_equal_spec|Hne];
      [congruence|].
    rewrite Hsame in Hc by done. destruct (rel_file d m R dir name c Hc Hsuf) as (key' & s' & H1 & -> & ->).
    exists key', s'. rewrite lookup_delete_ne; [done|congruence].
  - by apply (rel_marker_same d _ _ key).
Qed.

Lemma encode_ok key h : id_ok (k_ObjectID key) -> header_ok key h -> encodeShardHeader h = OK (header_bytes h).
Proof.
  intros [H1 H2] (Hid & _ & Hk & Hm). unfold encodeShardHeader. rewrite Hid.
  rewrite bool_decide_eq_false_2 by (intros E; rewrite E in H1; unfold len in H1; simpl in H1; lia).
  go_bools; (lia || done).
Qed.

Lemma with_checksum_ok key h data : header_ok key h -> header_ok key (with_checksum h (Sum256 data)).
Proof.
  intros (H1 & (W1 & W2 & W3 & W4 & W5 & W6 & W7) & H2 & H3). split_and!; [done| |done..].
  unfold header_wf. cbn. split_and!; done || apply length_Sum256.
Qed.

(** PutShard without faults, once the arguments are accepted. *)
Lemma PutShard_writes key h data d : key_ok I key -> header_ok key h -> h_DataLen h = len data ->
  exists d', PutShard key h data d = (OK tt, d') /\
    file d' (objectDir (k_ObjectID key)) (shardFileName key)
      = Some (shard_file (mkMemShard (with_checksum h (Sum256 data)) data)) /\
    same_but d d' (objectDir (k_ObjectID key)) (shardFileName key).
Proof.
  intros Hk Hh Hl. set (dir := objectDir _). set (name := shardFileName _).
  destruct (mkdir_create dir name d) as (d1 & d2 & H1 & H2 & H3 & H4).
  set (h' := with_checksum h (Sum256 data)).
  destruct (write_ok dir name [] (header_bytes h') d2 H3) as (d3 & H5 & H6 & H7).
  destruct (write_ok dir name (header_bytes h') data d3 H6) as (d4 & H8 & H9 & H10).
  assert (encodeShardHeader h' = OK (header_bytes h')) as He
    by (apply (encode_ok key); [by apply HI, Hk|by apply with_checksum_ok]).
  exists d4. split_and!; [|done|].
  - unfold PutShard. erewrite M_bind_ok by reflexivity.
    rewrite bool_decide_eq_false_2 by (intros Hn; apply Hn; symmetry; apply Hh).
    rewrite (proj2 (Z.eqb_eq _ _)) by congruence. cbn [negb]. cbv zeta. fold dir name h'.
    erewrite M_bind_ok by (by apply wrapM_ok). erewrite M_bind_ok; [|unfold lift; by rewrite He].
    repeat (erewrite M_bind_ok by (by apply wrapM_ok)). done.
  - eapply same_but_trans; [exact H4|]. eapply same_but_trans; [exact H7|exact H10].
Qed.

Lemma PutShard_sim key h data : key_ok I key -> header_ok key h ->
  rel_M disk_rel (PutShard key h data) (MemStore.PutShard key h data).
Proof.
  intros Hk Hh d m R. destruct (decide (h_DataLen h = len data)) as [Hl|Hl].
  - destruct (PutShard_writes key h data d Hk Hh Hl) as (d' & H1 & H2 & H3).
    rewrite H1, PutShard_ok by (done || apply Hh). split; [done|]. eapply rel_insert; [exact R|done| |done..].
    split; [by apply with_checksum_ok|done].
  - unfold PutShard, MemStore.PutShard. erewrite M_bind_ok by reflexivity.
    rewrite bool_decide_eq_false_2 by (intros Hn; apply Hn; symmetry; apply Hh).
    rewrite (proj2 (Z.eqb_neq _ _)) by congruence. done.
Qed.

Lemma DeleteShard_sim key : key_ok I key -> rel_M disk_rel (DeleteShard key) (MemStore.DeleteShard key).
Proof.
  intros Hk d m R. unfold DeleteShard, MemStore.DeleteShard, map_err.
  destruct (remove_spec (objectDir (k_ObjectID key)) (shardFileName key) d) as (d' & H1 & H2 & H3).
  rewrite H1, (file_of_key d m key R Hk).
  pose proof (rel_remove d d' m key R Hk H2 H3) as R'.
  destruct (MemStore.shards m !! key) as [s|] eqn:E; cbn; [done|].
  split; [done|]. rewrite delete_id in R' by done. by destruct m.
Qed.

(** ** Listing *)

Lemma elem_of_entries {A} (m : gmap string A) name c : (name, c) ∈ entries m <-> m !! name = Some c.
Proof. unfold entries. by rewrite merge_sort_Permutation, elem_of_map_to_list. Qed.

Lemma NoDup_entries {A} (m : gmap string A) : NoDup (entries m).*1.
Proof. unfold entries. rewrite merge_sort_Permutation. apply NoDup_fst_map_to_list. Qed.

Lemma resolve_ok d m key s : disk_rel d m -> MemStore.shards m !! key = Some s ->
  resolveObjectID d (objectDir (k_ObjectID key)) (shardFileName key) = OK (k_ObjectID key).
Proof.
  intros R Hs. destruct (rel_shard d m R key s Hs) as (Hk & Hok & Hf).
  unfold resolveObjectID, os_Open, env, no_faults. rewrite Hf. cbn [wrap_err mbind result_bind].
  rewrite (proj1 (decode_shard_file key s (HI _ (proj1 Hk)) Hok)). cbn. by destruct Hok as [[-> _] _].
Qed.

(** The shard that lies at a path, if one does. *)
Definition at_path (m : MemStore) (dir name : string) (k : ShardKey) : Prop :=
  is_Some (MemStore.shards m !! k) /\ dir = objectDir (k_ObjectID k) /\ name = shardFileName k.

Lemma visit_ok d m dir name c keys : disk_rel d m -> file d dir name = Some c ->
  exists ks, visit d dir name keys = OK (keys ++ ks) /\ NoDup ks /\
    forall k, k ∈ ks <-> at_path m dir name k.
Proof.
  intros R Hf. unfold visit. destruct (HasSuffix _ _) eqn:Hsuf; cbn [negb].
  - destruct (rel_file d m R dir name c Hf Hsuf) as (key & s & Hs & -> & ->).
    destruct (rel_shard d m R key s Hs) as ((Hid & H1 & H2) & _).
    rewrite parse_shardFileName by done. cbn [mbind result_bind].
    rewrite (resolve_ok d m key s R Hs). cbn [mbind result_bind k_StripeIdx k_ShardIdx].
    exists [key]. split; [by destruct key|]. split; [apply NoDup_singleton|].
    intros k. rewrite list_elem_of_singleton. split; [intros ->; split; eauto|].
    intros ([s' Hs'] & Hd & Hn). destruct (rel_shard d m R k s' Hs') as (Hk & _).
    apply path_inj; [done..|]. by rewrite Hd, Hn.
  - exists []. rewrite app_nil_r. split; [done|]. split; [constructor|]. intros k.
    split; [by intros ?%not_elem_of_nil|]. intros (_ & _ & ->). by rewrite shardFileName_suffix in Hsuf.
Qed.

Lemma walk_files_ok d m dir es : disk_rel d m -> NoDup es.*1 ->
  (forall name c, (name, c) ∈ es -> file d dir name = Some c) -> forall keys,
  exists ks, walk_files d dir es keys = OK (keys ++ ks) /\ NoDup ks /\
    forall k, k ∈ ks <-> exists name, name ∈ es.*1 /\ at_path m dir name k.
Proof.
  intros R. induction es as [|[name c] es IH]; intros Hnd Hes keys.
  { exists []. cbn. rewrite app_nil_r. split; [done|]. split; [constructor|]. intros k.
    split; [by intros ?%not_elem_of_nil|]. intros (? & ?%not_elem_of_nil & _). done. }
  cbn in Hnd. apply NoDup_cons in Hnd as [Hn Hnd].
  destruct (visit_ok d m dir name c keys R) as (ks1 & H1 & H2 & H3); [apply Hes; left|].
  destruct (IH Hnd) with (keys := keys ++ ks1) as (ks2 & H4 & H5 & H6); [intros; apply Hes; by right|].
  exists (ks1 ++ ks2). cbn [walk_files]. rewrite H1. cbn [mbind result_bind]. rewrite H4, app_assoc.
  split; [done|]. split.
  - apply NoDup_app. split_and!; [done| |done]. intros k Hk1 Hk2.
    apply H3 in Hk1 as (_ & _ & ->). apply H6 in Hk2 as (name' & Hn' & _ & _ & ->). done.
  - intros k. rewrite elem_of_app, H3, H6. cbn [fmap list_fmap fst]. split.
    + intros [Ha|(name' & Hn' & Ha)]; [exists name; split; [left|done]|exists name'; split; [by right|done]].
    + intros (name' & [->|Hn']%elem_of_cons & Ha); [by left|right; eauto].
Qed.

Lemma walk_dirs_ok d m es : disk_rel d m -> NoDup es.*1 ->
  (forall dir fs, (dir, fs) ∈ es -> dirs d !! dir = Some fs) -> forall keys,
  exists ks, walk_dirs d es keys = OK (keys ++ ks) /\ NoDup ks /\
    forall k, k ∈ ks <-> exists dir name, dir ∈ es.*1 /\ at_path m dir name k.
Proof.
  intros R. induction es as [|[dir fs] es IH]; intros Hnd Hes keys.
  { exists []. cbn. rewrite app_nil_r. split; [done|]. split; [constructor|]. intros k.
    split; [by intros ?%not_elem_of_nil|]. intros (? & ? & ?%not_elem_of_nil & _). done. }
  cbn in Hnd. apply NoDup_cons in Hnd as [Hn Hnd].
  pose proof (Hes dir fs ltac:(left)) as Hdir.
  destruct (walk_files_ok d m dir (entries fs) R (NoDup_entries fs)) with (keys := keys)
    as (ks1 & H1 & H2 & H3).
  { intros name c Hc%elem_of_entries. unfold file. by rewrite Hdir. }
  destruct (IH Hnd) with (keys := keys ++ ks1) as (ks2 & H4 & H5 & H6); [intros; apply Hes; by right|].
  exists (ks1 ++ ks2). cbn [walk_dirs]. change (env d _) with (@None fault). cbn match. rewrite H1. cbn [mbind result_bind].
  rewrite H4, app_assoc. split; [done|]. split.
  - apply NoDup_app. split_and!; [done| |done]. intros k Hk1 Hk2.
    apply H3 in Hk1 as (? & _ & _ & -> & _). apply H6 in Hk2 as (dir' & ? & Hn' & _ & -> & _). done.
  - intros k. rewrite elem_of_app, H3, H6. cbn [fmap list_fmap fst]. split.
    + intros [(name & _ & Ha)|(dir' & name & Hd' & Ha)];
        [exists dir, name; split; [left|done]|exists dir', name; split; [by right|done]].
    + intros (dir' & name & [->|Hd']%elem_of_cons & Ha); [left|right; eauto].
      exists name. split; [|done]. destruct Ha as ([s Hs] & -> & ->).
      destruct (rel_shard d m R k s Hs) as (_ & _ & Hf). unfold file in Hf. rewrite Hdir in Hf.
      apply list_elem_of_fmap. eexists (_, _). split; [|by apply elem_of_entries]. done.
Qed.

Lemma ListShards_sim d m : disk_rel d m -> ListShards d = MemStore.ListShards m.
Proof.
  intros R. unfold ListShards, MemStore.ListShards, WalkDir. change (env d _) with (@None fault). cbn match.
  destruct (walk_dirs_ok d m (entries (dirs d)) R (NoDup_entries _)) with (keys := @nil ShardKey)
    as (ks & -> & Hnd & Hks); [by intros dir fs ?%elem_of_entries|].
  cbn. f_equal. apply sort_keys_unique, NoDup_Permutation; [done|apply NoDup_fst_map_to_list|].
  intros k. rewrite Hks. split.
  - intros (dir & name & _ & [s Hs] & _). apply list_elem_of_fmap. exists (k, s).
    split; [done|]. by apply elem_of_map_to_list.
  - intros ([k' s] & -> & Hs%elem_of_map_to_list)%list_elem_of_fmap.
    destruct (rel_shard d m R k' s Hs) as (_ & _ & Hf). unfold file in Hf.
    destruct (dirs d !! objectDir (k_ObjectID k')) as [fs|] eqn:Hd; [|done].
    eexists _, _. split; [|split; [eauto|done]].
    apply list_elem_of_fmap. eexists (_, _). split; [|by apply elem_of_entries]. done.
Qed.

(** ** Markers *)

Lemma same_but_shards d d' m id : disk_rel d m -> same_but d d' (objectDir id) markerFileName ->
  (forall key s, MemStore.shards m !! key = Some s ->
    key_ok I key /\ shard_ok key s /\
    file d' (objectDir (k_ObjectID key)) (shardFileName key) = Some (shard_file s)) /\
  (forall dir name c, file d' dir name = Some c -> HasSuffix (bytes_of_string name) shard_suffix = true ->
    exists key s, MemStore.shards m !! key = Some s /\ dir = objectDir (k_ObjectID key) /\ name = shardFileName key).
Proof.
  intros R Hs. split.
  - intros key s H. destruct (rel_shard d m R key s H) as (H1 & H2 & H3). split_and!; [done..|].
    rewrite Hs; [done|]. intros [_ E]%pair_equal_spec. by apply eq_sym, meta_not_shard in E.
  - intros dir name c Hf Hsuf. rewrite Hs in Hf; [by eapply rel_file|].
    intros [_ ->]%pair_equal_spec. by vm_compute in Hsuf.
Qed.

Lemma dir_ne id id' : named I id -> named I id' -> id' <> id ->
  (objectDir id', markerFileName) <> (objectDir id, markerFileName).
Proof. intros H1 H2 Hne [E _]%pair_equal_spec. by apply Hinj in E. Qed.

Lemma WriteMarker_sim id meta : I id -> meta_wf meta ->
  rel_M disk_rel (WriteMarker id meta) (MemStore.WriteMarker id meta).
Proof.
  intros Hid Hwf d m R. destruct (encodeObjectMeta meta) as [b|err|msg] eqn:Hb; [|done..].
  destruct (mkdir_create (objectDir id) markerFileName d) as (d1 & d2 & H1 & H2 & H3 & H4).
  destruct (write_ok (objectDir id) markerFileName [] b d2 H3) as (d3 & H5 & H6 & H7).
  assert (same_but d d3 (objectDir id) markerFileName) as Hsame by (eapply same_but_trans; [exact H4|exact H7]).
  assert (WriteMarker id meta d = (OK tt, d3)) as ->.
  { unfold WriteMarker. erewrite M_bind_ok; [|unfold lift; by rewrite Hb]. cbv zeta.
    erewrite M_bind_ok by (by apply wrapM_ok).
    erewrite M_bind_ok; [|apply wrapM_ok; unfold os_WriteFile; erewrite M_bind_ok by done; exact H5].
    erewrite M_bind_ok; [|apply wrapM_ok; unfold os_Open, env, no_faults; rewrite H6; reflexivity]. done. }
  unfold MemStore.WriteMarker. cbn [fst snd]. split; [done|].
  destruct (same_but_shards d d3 m id R Hsame) as [HS1 HS2].
  constructor; cbn [MemStore.shards MemStore.markers]; [done..|].
  intros id' Hid'. destruct (decide (id' = id)) as [->|Hne].
  - rewrite lookup_insert_eq. split; [done|]. eauto.
  - rewrite lookup_insert_ne by congruence. rewrite (Hsame (objectDir id')) by (by apply dir_ne; [left|..]).
    by apply (rel_marker d m R).
Qed.

Lemma decode_marker meta b : meta_wf meta -> encodeObjectMeta meta = OK b -> decodeObjectMeta b = OK meta.
Proof. intros Hw He. rewrite <- (app_nil_r b). by apply decode_encode_meta. Qed.

Lemma ReadMarker_sim d m id : disk_rel d m -> named I id -> ReadMarker d id = MemStore.ReadMarker m id.
Proof.
  intros R Hid. pose proof (rel_marker d m R id Hid) as Hm.
  unfold ReadMarker, MemStore.ReadMarker, os_ReadFile, os_Open, env, no_faults.
  destruct (MemStore.markers m !! id) as [meta|].
  - destruct Hm as (Hwf & b & He & ->). cbn. by apply decode_marker.
  - by rewrite Hm.
Qed.

Lemma RemoveMarker_sim id : I id -> rel_M disk_rel (RemoveMarker id) (MemStore.RemoveMarker id).
Proof.
  intros Hid d m R. unfold RemoveMarker, MemStore.RemoveMarker.
  destruct (remove_spec (objectDir id) markerFileName d) as (d' & -> & H2 & H3).
  assert (disk_rel d' (mkMemStore (MemStore.shards m) (delete id (MemStore.markers m)))) as R'.
  { destruct (same_but_shards d d' m id R H3) as [HS1 HS2].
    constructor; cbn [MemStore.shards MemStore.markers]; [done..|].
    intros id' Hid'. destruct (decide (id' = id)) as [->|Hne].
    - by rewrite lookup_delete_eq.
    - rewrite lookup_delete_ne by congruence. rewrite (H3 (objectDir id')) by (by apply dir_ne; [left|..]).
      by apply (rel_marker d m R). }
  by destruct (file d _ _).
Qed.

#[export] Instance FileStore_sim : StoreSim FileStore_ShardStore MemStore_ShardStore I disk_rel.
Proof.
  constructor.
  - intros. by apply PutShard_sim.
  - intros. by apply GetShard_sim.
  - intros. by apply VerifyShard_sim.
  - intros. by apply DeleteShard_sim.
  - intros. by apply ListShards_sim.
  - intros d m id R. cbn. unfold ListObjectShards, MemStore.ListObjectShards. by rewrite (ListShards_sim d m R).
  - intros d m id keys k R [= <-] Hk. apply elem_of_object_keys in Hk as [_ Hk].
    apply elem_of_ListShards in Hk as [s Hs]. by destruct (rel_shard d m R k s Hs).
  - intros. by apply WriteMarker_sim.
  - intros. by apply ReadMarker_sim.
  - intros. by apply RemoveMarker_sim.
Qed.
End refine.
