(* ===== verification/FileContract.v ===== *)
(** The properties of FileStore: it implements the shard store MemStore
    specifies, so objects on disk can be read back through damage; and what
    failing system calls and torn files do to it. *)
From S2P Require Import Prelude Binary Sha256 EC XorCodec Header ShardStore MemStore FileNames FileStore ObjectStore ObjectWrite ObjectRead ObjectSpec ObjectSim Contract FileRefine.

(** * Calls of a shard store *)

Inductive call :=
  | CPut (key : ShardKey) (h : ShardHeader) (data : bytes)
  | CGet (key : ShardKey)
  | CVerify (key : ShardKey)
  | CDelete (key : ShardKey)
  | CList
  | CListObject (id : string)
  | CWriteMarker (id : string) (meta : ObjectMeta)
  | CReadMarker (id : string)
  | CRemoveMarker (id : string).

Inductive response :=
  | RDone (r : result unit)
  | RShard (x : slice * ShardHeader * option error)
  | RHeader (x : ShardHeader * option error)
  | RKeys (r : result (list ShardKey))
  | RMeta (r : result ObjectMeta).

Definition do_call {S} {SS : ShardStore S} (c : call) (s : S) : response * S :=
  let done (x : result unit * S) := (RDone x.1, x.2) in
  match c with
  | CPut key h data => done (ss_PutShard key h data s)
  | CGet key => (RShard (ss_GetShard s key), s)
  | CVerify key => (RHeader (ss_VerifyShard s key), s)
  | CDelete key => done (ss_DeleteShard key s)
  | CList => (RKeys (ss_ListShards s), s)
  | CListObject id => (RKeys (ss_ListObjectShards s id), s)
  | CWriteMarker id meta => done (ss_WriteMarker id meta s)
  | CReadMarker id => (RMeta (ss_ReadMarker s id), s)
  | CRemoveMarker id => done (ss_RemoveMarker id s)
  end.

Fixpoint run {S} {SS : ShardStore S} (cs : list call) (s : S) : list response * S :=
  match cs with
  | [] => ([], s)
  | c :: cs' => let '(r, s1) := do_call c s in let '(rs, s2) := run cs' s1 in (r :: rs, s2)
  end.

(** Calls whose arguments are values of the Go types, for ids in [I], with
    headers that name their key and have positive shard counts. *)
Definition call_ok (I : string -> Prop) (c : call) : Prop :=
  match c with
  | CPut key h _ => key_ok I key /\ header_ok key h
  | CGet key | CVerify key | CDelete key => key_ok I key
  | CList | CListObject _ => True
  | CWriteMarker id meta => I id /\ meta_wf meta
  | CReadMarker id | CRemoveMarker id => I id
  end.

(** Ids of legal length whose directory names do not collide with each other
    or with the one of the empty id. *)
Definition ids_ok (I : string -> Prop) : Prop :=
  (forall id, I id -> id_ok id) /\
  (forall id1 id2, named I id1 -> named I id2 -> objectDir id1 = objectDir id2 -> id1 = id2).

#[local] Existing Instance no_faults.


(** * Objects on disk *)

Section objects.
Context {RS : ReedSolomon} (o : ObjectStore) {e : rs_enc} {parity : list bytes -> list bytes}.
Context {LAWS : RSLaws RS (toECParams (params o)) e parity}.
Context (Hp : params_ok (toECParams (params o))) (Hss : 0 < stripeSize o < 2 ^ 63).
Context (I : string -> Prop) (HI : ids_ok I).

(** Shared by the theorems about objects on disk. *)
Lemma put_get_on_disk id data c d m :
  I id -> cache_ok c -> len data < 2 ^ 63 -> count_stripes o data < 2 ^ 32 ->
  disk_rel I d m -> no_stale m id (count_stripes o data) ->
  exists c1 d1 m1, PutObject o id (NewReader data) (len data) (mkWorld c d) = (OK tt, mkWorld c1 d1) /\
    disk_rel I d1 m1 /\
    forall d2 m2, disk_rel I d2 m2 -> degraded m1 m2 id -> loses_at_most m1 m2 id (ec_MaxLoss (params o)) ->
      exists rd w2, GetObject o id (mkWorld c1 d2) = (OK (rd, len data), w2) /\ w_store w2 = d2 /\
        forall sizes fuel, (forall i, 0 < sizes i)%nat -> (length data < fuel)%nat ->
          ReadAll fuel sizes 0 rd d2 = OK (data, None).
Proof.
  destruct HI as [Hok Hinj]. intros Hid Hc Hlen Hn R Hns.
  pose proof (FileStore_sim I Hok Hinj) as SIM.
  assert (id <> ""%string) as Hne.
  { intros ->. specialize (Hok _ Hid). unfold id_ok, len in Hok. simpl in Hok. lia. }
  destruct (put_get o Hp (proj1 Hss) id data (mkWorld c m) Hc Hne Hlen Hn Hns) as ([c1 m1] & Hput & Hget).
  assert (inS 64 (len data)) as Hsz by (unfold inS, len in *; lia).
  destruct (PutObject_sim o Hp Hss id (NewReader data) (len data) Hid Hsz (mkWorld c d) (mkWorld c m)
    (conj eq_refl R) Hc) as [E1 [E2 R1]].
  rewrite Hput in *. destruct (PutObject o id (NewReader data) (len data) (mkWorld c d)) as [r [c1' d1]].
  cbn in E1, E2, R1. subst. exists c1, d1, m1. split; [done|]. split; [done|].
  intros d2 m2 R2 Hd Hl. cbn [w_store w_cache] in Hget.
  destruct (Hget m2 Hd Hl) as (rd & w2 & H1 & H2 & H3).
  destruct (GetObject_sim o id (mkWorld c1 d2) (mkWorld c1 m2) Hid (conj eq_refl R2)) as [E3 _].
  pose proof (GetObject_reader_ok o id _ _ _ _ Hid H1) as Hrd. rewrite H1 in E3. cbn in E3.
  pose proof (GetObject_store o id (mkWorld c1 d2)) as Hst.
  destruct (GetObject o id (mkWorld c1 d2)) as [r w2']. cbn in E3, Hst. subst r.
  exists rd, w2'. split; [done|]. split; [done|]. intros sizes fuel Hsz' Hf.
  rewrite (ReadAll_sim fuel sizes d2 m2 R2) by done. by apply H3.
Qed.

(** Objects on disk are read back through damage. On a disk that holds no
    longer version of the object, PutObject succeeds; and whatever shards of
    the object are then lost from the disk or have their payload corrupted, at
    most [m] per stripe, GetObject succeeds with the exact size and reading to
    the end returns exactly the data. *)
Theorem file_put_get id data c d m :
  I id -> cache_ok c -> len data < 2 ^ 63 -> count_stripes o data < 2 ^ 32 ->
  disk_rel I d m -> no_stale m id (count_stripes o data) ->
  exists c1 d1 m1, PutObject o id (NewReader data) (len data) (mkWorld c d) = (OK tt, mkWorld c1 d1) /\
    disk_rel I d1 m1 /\
    forall d2 m2, disk_rel I d2 m2 -> degraded m1 m2 id -> loses_at_most m1 m2 id (ec_MaxLoss (params o)) ->
      exists rd w2, GetObject o id (mkWorld c1 d2) = (OK (rd, len data), w2) /\ w_store w2 = d2 /\
        forall sizes fuel, (forall i, 0 < sizes i)%nat -> (length data < fuel)%nat ->
          ReadAll fuel sizes 0 rd d2 = OK (data, None).
Proof. apply put_get_on_disk. Qed.
End objects.

(** * When system calls fail *)

Section faults.
Context {ENV : Environment}.

(** A computation that touches no file but one. *)
Definition only {A} (dir name : string) (m : M Disk A) : Prop := forall d, same_but d (m d).2 dir name.

Lemma only_bind {A B} dir name (m : M Disk A) (f : A -> M Disk B) :
  only dir name m -> (forall a, only dir name (f a)) -> only dir name (m ≫= f).
Proof.
  intros Hm Hf d. unfold mbind, M_bind. specialize (Hm d). destruct (m d) as [[a|e|q] d1]; [|done..].
  eapply same_but_trans; [exact Hm|]. apply Hf.
Qed.

Lemma only_wrapM {A} dir name msg (m : M Disk A) : only dir name m -> only dir name (wrapM msg m).
Proof. intros Hm d. specialize (Hm d). unfold wrapM. by destruct (m d). Qed.

Lemma only_sys dir name c : only dir name (sys c).
Proof. intros d. unfold sys. by destruct (env d c). Qed.

Lemma only_sync dir name dir' name' : only dir name (fh_Sync dir' name').
Proof. apply only_sys. Qed.

Lemma only_lift {A} dir name (r : result A) : only dir name (lift r).
Proof. by intros d. Qed.

Lemma only_throw {A} dir name e : only dir name (throw (A:=A) e).
Proof. by intros d. Qed.

Lemma only_mkdir dir name : only dir name (os_MkdirAll dir).
Proof.
  apply only_bind; [apply only_sys|]. intros _ d dir' name' _. cbn.
  destruct (dirs d !! dir) eqn:E; [done|]. unfold file. cbn.
  destruct (decide (dir' = dir)) as [->|]; [|by rewrite lookup_insert_ne].
  rewrite lookup_insert_eq, E. cbn. by rewrite lookup_empty.
Qed.

Lemma same_but_set d dir name c : same_but d (set_file dir name c d) dir name.
Proof. intros dir' name' Hne. rewrite file_set, decide_False; [done|]. by intros [-> ->]. Qed.

Lemma only_create dir name : only dir name (os_Create dir name).
Proof.
  apply only_bind; [apply only_sys|]. intros _ d. cbn.
  destruct (dirs d !! dir); [apply same_but_set|done].
Qed.

Lemma only_write dir name data : only dir name (fh_Write dir name data).
Proof.
  intros d. unfold fh_Write. destruct (env _ _); cbn; destruct (file d dir name); done || apply same_but_set.
Qed.

Create HintDb only.
#[local] Hint Resolve only_bind only_wrapM only_sys only_sync only_lift only_throw only_mkdir only_create only_write : only.

Lemma only_PutShard key h data : only (objectDir (k_ObjectID key)) (shardFileName key) (PutShard key h data).
Proof.
  apply only_bind; [auto with only|]. intros _. case_match; [auto with only|].
  case_match; [auto with only|]. cbv zeta.
  auto 20 with only.
Qed.

Lemma bind_OK {A B} (m : M Disk A) (f : A -> M Disk B) d b d' :
  (m ≫= f) d = (OK b, d') -> exists a d1, m d = (OK a, d1) /\ f a d1 = (OK b, d').
Proof. unfold mbind, M_bind. destruct (m d) as [[a|e|q] d1]; [eauto|done..]. Qed.

Lemma wrap_OK {A} msg (m : M Disk A) d a d' : wrapM msg m d = (OK a, d') -> m d = (OK a, d').
Proof. unfold wrapM. destruct (m d) as [[a1|e|q] d1]; cbn; congruence. Qed.

Lemma sys_OK c d d' : sys c d = (OK tt, d') -> d' = d.
Proof. unfold sys. destruct (env d c); congruence. Qed.

Lemma create_OK dir name d d' : os_Create dir name d = (OK tt, d') -> file d' dir name = Some [].
Proof.
  intros H. apply bind_OK in H as ([] & d1 & <-%sys_OK & H).
  destruct (dirs d1 !! dir) as [fs|] eqn:E; [|done]. injection H as <-.
  rewrite file_set, decide_True by done. by rewrite E.
Qed.

Lemma write_OK dir name c data d d' : file d dir name = Some c ->
  fh_Write dir name data d = (OK tt, d') -> file d' dir name = Some (c ++ data).
Proof.
  intros Hc. unfold fh_Write. rewrite Hc. destruct (env _ _); [done|]. intros [= <-].
  rewrite file_set, decide_True by done. unfold file in Hc. by destruct (dirs d !! dir).
Qed.

(** Only a complete file counts as written. *)
Lemma PutShard_OK key h data d d' : PutShard key h data d = (OK tt, d') ->
  k_ObjectID key = h_ObjectID h /\ len data = h_DataLen h /\
  exists b, encodeShardHeader (with_checksum h (Sum256 data)) = OK b /\
    file d' (objectDir (k_ObjectID key)) (shardFileName key) = Some (b ++ data).
Proof.
  intros H. unfold PutShard in H. apply bind_OK in H as ([] & d0 & <-%sys_OK & H).
  case_bool_decide as Hid; [done|]. destruct (Z.eqb_spec (len data) (h_DataLen h)) as [Hl|]; [|done].
  cbn [negb] in H. cbv zeta in H.
  apply bind_OK in H as ([] & d1 & _ & H). apply bind_OK in H as (b & d2 & Hb & H).
  injection Hb as Hb <-. apply bind_OK in H as ([] & d3 & Hcr%wrap_OK%create_OK & H).
  apply bind_OK in H as ([] & d4 & Hw%wrap_OK & H). apply (write_OK _ _ _ _ _ _ Hcr) in Hw.
  apply bind_OK in H as ([] & d5 & Hw2%wrap_OK & H). apply (write_OK _ _ _ _ _ _ Hw) in Hw2.
  apply wrap_OK, sys_OK in H as ->.
  split; [|split; [done|]]; [destruct (decide (k_ObjectID key = h_ObjectID h)); [done|by destruct Hid]|].
  by exists b.
Qed.
End faults.

Lemma with_checksum_wf h data : header_wf h -> header_wf (with_checksum h (Sum256 data)).
Proof.
  intros (W1 & W2 & W3 & W4 & W5 & W6 & W7). unfold header_wf. cbn. split_and!; done || apply length_Sum256.
Qed.

Lemma GetShard_whole d key h data b :
  header_wf h -> len data = h_DataLen h -> encodeShardHeader (with_checksum h (Sum256 data)) = OK b ->
  file d (objectDir (k_ObjectID key)) (shardFileName key) = Some (b ++ data) ->
  GetShard (ENV:=no_faults) d key = (Some data, with_checksum h (Sum256 data), None).
Proof.
  intros W Hl He Hf.
  unfold GetShard, os_Open. change (env d _) with (@None fault). cbn match. rewrite Hf. cbn [outcome].
  pose proof (with_checksum_wf h data W) as W'.
  unfold NewReader. rewrite (decode_encoded _ data EOF b W' He). cbn [outcome h_DataLen with_checksum].
  unfold read_limited. cbn [pending final]. rewrite <- Hl.
  destruct (Z.leb_spec (len data) (len data)); [|lia]. cbn [outcome].
  rewrite take_ge by (unfold len; lia). rewrite Z.eqb_refl. cbn [negb h_Checksum].
  by rewrite bool_decide_eq_false_2 by auto.
Qed.

(** Whatever system calls fail, PutShard touches no file but its own; and
    when it reports success, GetShard finds the shard on the disk it left,
    with the checksum of the payload. So a nil error means a whole shard. *)
Theorem PutShard_any_environment {ENV : Environment} key h data d r d' :
  header_wf h -> PutShard (ENV:=ENV) key h data d = (r, d') ->
  same_but d d' (objectDir (k_ObjectID key)) (shardFileName key) /\
  (r = OK tt -> GetShard (ENV:=no_faults) d' key = (Some data, with_checksum h (Sum256 data), None)).
Proof.
  intros W H. split; [pose proof (only_PutShard (ENV:=ENV) key h data d) as Ho; by rewrite H in Ho|].
  intros ->. apply PutShard_OK in H as (Hid & Hl & b & He & Hf).
  by eapply GetShard_whole.
Qed.

(** ** Torn files *)

(** A shard file whose header does not decode. *)
Definition bad_file (d : Disk) (dir name : string) : Prop :=
  exists c err, file d dir name = Some c /\ HasSuffix (bytes_of_string name) shard_suffix = true /\
    (decodeShardHeader (NewReader c)).1 = Err err.

Definition ends {A} (r : result A) : Prop := (exists a, r = OK a) \/ (exists err, r = Err err).

Lemma ends_ok {A} (a : A) : ends (OK a).
Proof. left. by exists a. Qed.

Lemma ends_err {A} err : ends (Err (A := A) err).
Proof. right. by exists err. Qed.

Lemma ends_bind {A B} (r : result A) (f : A -> result B) : ends r -> (forall a, ends (f a)) -> ends (r ≫= f).
Proof. intros [[a ->]|[err ->]] Hf; [apply Hf|apply ends_err]. Qed.

Lemma ends_wrap {A} msg (r : result A) : ends r -> ends (wrap_err msg r).
Proof. intros [[a ->]|[err ->]]; [apply ends_ok|apply ends_err]. Qed.

Lemma ends_match {A} (r : option fault) (x : result A) : ends x ->
  ends match r with Some f => Err (f_err f) | None => x end.
Proof. destruct r; [intros; apply ends_err|done]. Qed.

Create HintDb ends.
#[export] Hint Resolve ends_ok ends_err ends_bind ends_wrap ends_match : ends.

Lemma parse_ends name : ends (parseShardFileName name).
Proof. unfold parseShardFileName. repeat case_match; auto with ends. Qed.

(** Listing ends in a list or an error, whatever system calls fail. *)
Section ends.
Context {ENV : Environment}.

Lemma open_ends d dir name : ends (os_Open d dir name).
Proof. unfold os_Open. repeat case_match; auto with ends. Qed.

Lemma decode_ends rd : ends (decodeShardHeader rd).1.
Proof.
  destruct (decodeShardHeader rd) as [[h|err|msg] rd'] eqn:E; [apply ends_ok|apply ends_err|].
  by apply no_panic_decodeShardHeader in E.
Qed.

Lemma visit_ends d dir name keys : ends (visit d dir name keys).
Proof.
  unfold visit, resolveObjectID. case_match; [apply ends_ok|].
  pose proof (parse_ends name). pose proof (open_ends d dir name). auto 10 using decode_ends with ends.
Qed.

Lemma walk_files_ends d dir es : forall keys, ends (walk_files d dir es keys).
Proof. induction es as [|[name c] es IH]; intros keys; cbn; auto using visit_ends with ends. Qed.

Lemma walk_dirs_ends d es : forall keys, ends (walk_dirs d es keys).
Proof. induction es as [|[dir fs] es IH]; intros keys; cbn; auto using walk_files_ends with ends. Qed.

Lemma ListObjectShards_ends d id : ends (ListObjectShards d id).
Proof. unfold ListObjectShards, ListShards, WalkDir. auto using walk_dirs_ends with ends. Qed.
End ends.

Lemma visit_bad d dir name keys : bad_file d dir name -> exists err, visit d dir name keys = Err err.
Proof.
  intros (c & err & Hf & Hs & Hd). unfold visit. rewrite Hs. cbn [negb].
  destruct (parse_ends name) as [[key ->]|[err' ->]]; [|by eexists].
  cbn [mbind result_bind]. unfold resolveObjectID, os_Open. change (env d _) with (@None fault). cbn match.
  rewrite Hf. cbn [wrap_err mbind result_bind]. rewrite Hd. by eexists.
Qed.

Lemma walk_files_bad d dir name es : bad_file d dir name -> name ∈ es.*1 -> forall keys,
  exists err, walk_files d dir es keys = Err err.
Proof.
  intros Hb. induction es as [|[name' c] es IH]; intros Hin keys; [by apply not_elem_of_nil in Hin|].
  cbn [walk_files]. cbn in Hin. apply elem_of_cons in Hin as [<-|Hin].
  - destruct (visit_bad d dir name keys Hb) as [err ->]. by eexists.
  - destruct (visit_ends d dir name' keys) as [[ks ->]|[err ->]]; [by apply IH|by eexists].
Qed.

Lemma walk_dirs_bad d dir name es fs : bad_file d dir name -> (dir, fs) ∈ es -> name ∈ (entries fs).*1 ->
  forall keys, exists err, walk_dirs d es keys = Err err.
Proof.
  intros Hb. induction es as [|[dir' fs'] es IH]; intros Hin Hn keys; [by apply not_elem_of_nil in Hin|].
  cbn [walk_dirs]. change (env d _) with (@None fault). cbn match.
  apply elem_of_cons in Hin as [[= <- <-]|Hin].
  - destruct (walk_files_bad d dir name (entries fs) Hb Hn keys) as [err ->]. by eexists.
  - destruct (walk_files_ends d dir' (entries fs') keys) as [[ks ->]|[err ->]]; [by apply IH|by eexists].
Qed.

Lemma ListObjectShards_bad d dir name id : bad_file d dir name -> exists err, ListObjectShards d id = Err err.
Proof.
  intros Hb. pose proof Hb as (c & _ & Hf & _). unfold file in Hf.
  destruct (dirs d !! dir) as [fs|] eqn:Hd; [|done].
  assert (name ∈ (entries fs).*1) as Hn.
  { apply list_elem_of_fmap. exists (name, c). split; [done|]. by apply elem_of_entries. }
  unfold ListObjectShards, ListShards, WalkDir. change (env d _) with (@None fault). cbn match.
  destruct (walk_dirs_bad d dir name (entries (dirs d)) fs Hb) with (keys := @nil ShardKey) as [err ->];
    [by apply elem_of_entries|done|]. by eexists.
Qed.

(** The code lists all shards before it reads or deletes an object. *)
Lemma bad_file_blocks d dir name : bad_file d dir name -> forall (RS : ReedSolomon) o id (c : encCache),
  (exists err, GetObject o id (mkWorld c d) = (Err err, mkWorld c d)) /\
  (exists err, DeleteObject o id (mkWorld c d) = (Err err, mkWorld c d)).
Proof.
  intros Hb RS o id c. destruct (ListObjectShards_bad d dir name id Hb) as [err Hlist].
  split; eexists; unfold GetObject, DeleteObject;
    cbn [w_store ss_ListObjectShards FileStore_ShardStore]; by rewrite Hlist.
Qed.

(** The environment in which every write stops early, as on a full disk. *)
Definition failing_writes (f : fault) : Environment := fun _ c =>
  match c with SysWrite _ _ _ => Some f | _ => None end.

Lemma PutShard_torn f key h data b d :
  k_ObjectID key = h_ObjectID h -> h_DataLen h = len data ->
  encodeShardHeader (with_checksum h (Sum256 data)) = OK b ->
  exists d', PutShard (ENV := failing_writes f) key h data d
      = (Err (Wrapf "storage: write header" (f_err f)), d') /\
    file d' (objectDir (k_ObjectID key)) (shardFileName key) = Some (take (f_done f) b).
Proof.
  intros Hid Hl He. set (dir := objectDir _). set (name := shardFileName _).
  destruct (mkdir_create dir name d) as (d1 & d2 & H1 & H2 & H3 & _).
  exists (set_file dir name (take (f_done f) b) d2). split.
  - unfold PutShard. erewrite M_bind_ok by reflexivity.
    rewrite bool_decide_eq_false_2 by (intros Hn; by apply Hn).
    rewrite (proj2 (Z.eqb_eq _ _)) by congruence. cbn [negb]. cbv zeta. fold dir name.
    erewrite M_bind_ok by (apply wrapM_ok; exact H1).
    erewrite M_bind_ok by (unfold lift; by rewrite He).
    erewrite M_bind_ok by (apply wrapM_ok; exact H2).
    apply M_bind_err, wrapM_err. unfold fh_Write. by rewrite H3.
  - rewrite file_set, decide_True by done. unfold file in H3. by destruct (dirs d2 !! dir).
Qed.

(** C33. One torn header makes the whole store unreadable. When the disk fills
    up while PutShard writes the header of a shard, PutShard returns an error
    but leaves the torn file; from then on every listing fails at that file,
    so GetObject and DeleteObject fail for every object, whatever its own
    shards are. (The comment of ErrCorruptShard counts a torn write as a
    corrupt shard, which a read would survive.) *)
Theorem torn_header_blocks_store f key h data b d :
  header_wf h -> k_ObjectID key = h_ObjectID h -> h_DataLen h = len data ->
  encodeShardHeader (with_checksum h (Sum256 data)) = OK b -> (f_done f < length b)%nat ->
  exists d', PutShard (ENV := failing_writes f) key h data d
      = (Err (Wrapf "storage: write header" (f_err f)), d') /\
    forall (RS : ReedSolomon) o id (c : encCache),
      (exists err, GetObject o id (mkWorld c d') = (Err err, mkWorld c d')) /\
      (exists err, DeleteObject o id (mkWorld c d') = (Err err, mkWorld c d')).
Proof.
  intros W Hid Hl He Hn. destruct (PutShard_torn f key h data b d Hid Hl He) as (d' & Hput & Hf).
  exists d'. split; [done|]. intros RS o id c.
  pose proof (with_checksum_wf h data W) as W'.
  destruct (decode_truncated _ b (f_done f) EOF W' He Hn) as [err Herr].
  apply (bad_file_blocks d' (objectDir (k_ObjectID key)) (shardFileName key)).
  exists (take (f_done f) b), err. split; [done|]. split; [apply shardFileName_suffix|exact Herr].
Qed.

Lemma make_slice_nonneg {A} n (x : A) : 0 <= n -> make_slice n x = OK (replicate (Z.to_nat n) x).
Proof. intros. unfold make_slice. destruct (Z.ltb_spec n 0); [lia|done]. Qed.

(** A shard that fails with another error than "corrupt" or "not found" stops
    the loading of its stripe. *)
Lemma load_shards_stops {S} {SS : ShardStore S} (s : S) id st idxs i rest err : forall l,
  0 <= i < 2 ^ 32 ->
  (forall i', i' ∈ idxs -> match (ss_GetShard s (mkKey id st (u32 i'))).2 with
                           | None => True | Some e => lost_error e = true end) ->
  (ss_GetShard s (mkKey id st i)).2 = Some err -> lost_error err = false ->
  load_shards s id st (idxs ++ i :: rest) l = Err err.
Proof.
  induction idxs as [|i' idxs IH]; intros l Hi Hbefore Hg Hl; cbn [app load_shards].
  - rewrite wrapU_id by (unfold inU; lia).
    destruct (ss_GetShard s (mkKey id st i)) as [[data h] e]. cbn in Hg. subst e.
    unfold lost_error in Hl. by rewrite Hl.
  - pose proof (Hbefore i' ltac:(left)) as Hb.
    destruct (ss_GetShard s (mkKey id st (u32 i'))) as [[data h] [e|]]; cbn in Hb.
    + unfold lost_error in Hb. rewrite Hb. apply IH; try done. intros. apply Hbefore. by right.
    + apply IH; try done. intros. apply Hbefore. by right.
Qed.

(** A torn payload is not tolerated. On a shard file whose header is whole
    but whose payload is cut, VerifyShard reports ErrCorruptShard while
    GetShard returns an untyped error; and since loadStripe passes every
    untyped error on, the stripe cannot be read, however many of its other
    shards are valid. *)
Theorem torn_payload_not_tolerated d key h b payload :
  header_wf h -> encodeShardHeader h = OK b -> len payload < h_DataLen h ->
  inU 32 (k_ShardIdx key) -> Sum256 payload <> h_Checksum h ->
  file d (objectDir (k_ObjectID key)) (shardFileName key) = Some (b ++ payload) ->
  GetShard d key = (None, emptyHeader, Some (Errorf "storage: short payload: got %d, want %d")) /\
  VerifyShard d key = (h, Some ErrCorruptShard) /\
  forall (RS : ReedSolomon) (r : objectReader),
    r_objectID r = k_ObjectID key -> r_stripeIdx r = k_StripeIdx key ->
    k_ShardIdx key < ec_ShardCount (r_params r) ->
    (forall i, 0 <= i < k_ShardIdx key ->
       match (GetShard d (mkKey (k_ObjectID key) (k_StripeIdx key) (u32 i))).2 with
       | None => True | Some e => lost_error e = true end) ->
    loadStripe r d = Err (Errorf "storage: short payload: got %d, want %d").
Proof.
  intros W He Hlen Hidx Hsum Hf.
  assert (read_limited (h_DataLen h) (mkReader payload EOF) = OK payload) as Hread.
  { unfold read_limited. cbn [pending]. destruct (Z.leb_spec (h_DataLen h) (len payload)); [lia|done]. }
  assert (GetShard d key = (None, emptyHeader, Some (Errorf "storage: short payload: got %d, want %d"))) as Hget.
  { unfold GetShard, os_Open. change (env d _) with (@None fault). cbn match. rewrite Hf. cbn [outcome].
    unfold NewReader. rewrite (decode_encoded _ _ _ _ W He). cbn [outcome]. rewrite Hread. cbn [outcome].
    by rewrite (proj2 (Z.eqb_neq _ _)) by lia. }
  split_and!; [done| |].
  - unfold VerifyShard, os_Open. change (env d _) with (@None fault). cbn match. rewrite Hf. cbn [outcome].
    unfold NewReader. rewrite (decode_encoded _ _ _ _ W He). cbn [outcome]. rewrite Hread. cbn [outcome].
    by rewrite bool_decide_eq_true_2.
  - intros RS r Hid Hst Hcount Hbefore. unfold loadStripe. rewrite Hid, Hst.
    unfold inU in Hidx. rewrite make_slice_nonneg by lia. cbn [mbind result_bind].
    assert (exists rest, seqZ 0 (ec_ShardCount (r_params r))
      = seqZ 0 (k_ShardIdx key) ++ k_ShardIdx key :: rest) as [rest ->].
    { exists (seqZ (k_ShardIdx key + 1) (ec_ShardCount (r_params r) - k_ShardIdx key - 1)).
      replace (ec_ShardCount (r_params r)) with (k_ShardIdx key + (ec_ShardCount (r_params r) - k_ShardIdx key)) at 1 by lia.
      rewrite seqZ_app by lia. f_equal. rewrite seqZ_cons by lia. rewrite Z.add_0_l. do 2 f_equal; lia. }
    rewrite (load_shards_stops _ _ _ _ _ _ (Errorf "storage: short payload: got %d, want %d")); [done|lia| | |done].
    + intros i Hi%elem_of_seqZ. apply Hbefore. lia.
    + cbn [ss_GetShard FileStore_ShardStore]. destruct key. cbn in *. by rewrite Hget.
Qed.

(** * At work *)

(** Ids of a list, checked by computing their directories. *)
Lemma NoDup_map_inj {A B} (f : A -> B) l x y : NoDup (map f l) -> x ∈ l -> y ∈ l -> f x = f y -> x = y.
Proof.
  induction l as [|z l IH]; cbn [map]; [set_solver|]. intros [Hz Hnd]%NoDup_cons Hx Hy E.
  assert (forall v, v ∈ l -> f z <> f v) as Hne.
  { intros v Hv Ev. apply Hz, list_elem_of_fmap. eauto. }
  apply elem_of_cons in Hx as [->|Hx], Hy as [->|Hy]; [done| | |by apply IH]; exfalso; eapply Hne; eauto.
Qed.

Lemma named_list ids id : named (fun id => id ∈ ids) id -> id ∈ ""%string :: ids.
Proof. intros [H| ->]; set_solver. Qed.

Lemma ids_ok_list ids :
  Forall (fun id => id_ok id) ids -> NoDup (map objectDir (""%string :: ids)) -> ids_ok (fun id => id ∈ ids).
Proof.
  intros Hl Hnd. split.
  - intros id Hid. by apply (proj1 (Forall_forall _ ids) Hl).
  - intros id1 id2 H1%named_list H2%named_list. by apply (NoDup_map_inj objectDir (""%string :: ids)).
Qed.

Lemma ids_ok_ab : ids_ok (fun id => id ∈ ["a"; "b"]%string).
Proof.
  apply ids_ok_list.
  - repeat constructor; unfold id_ok, len; cbn; lia.
  - apply (bool_decide_unpack _). vm_compute. exact Logic.I.
Qed.

(** The header of a 2-byte shard of a 4-byte stripe. *)
Definition ex_header : ShardHeader := shard_header ex_store "a" 0 0 4 2.
Definition ex_key : ShardKey := mkKey "a" 0 0.

Lemma ex_header_wf : header_wf ex_header.
Proof. unfold header_wf, inU, inS. cbn. split_and!; done || lia. Qed.

Lemma ex_key_ok (I : string -> Prop) : I "a"%string -> key_ok I ex_key.
Proof. intros. unfold key_ok, inU. cbn. split_and!; done || lia. Qed.

Lemma ex_header_ok : header_ok ex_key ex_header.
Proof. split; [done|]. split; [apply ex_header_wf|]. cbn. done. Qed.


Lemma file_put_get_witness :
  exists c1 d1, PutObject ex_store "a" (NewReader (bytes_of_string "shards")) 6 (mkWorld ∅ empty_disk)
      = (OK tt, mkWorld c1 d1) /\
    exists rd w2, GetObject ex_store "a" (mkWorld c1 d1) = (OK (rd, 6), w2) /\
      ReadAll 7 (fun _ => 4%nat) 0 rd d1 = OK (bytes_of_string "shards", None).
Proof.
  destruct (file_put_get (LAWS := ex_laws) ex_store ex_params ltac:(done) _ ids_ok_ab "a"
    (bytes_of_string "shards") ∅ empty_disk NewMemStore ltac:(set_solver) cache_ok_empty ltac:(done) ltac:(done)
    (disk_rel_empty _) (ex_no_stale _)) as (c1 & d1 & m1 & Hput & R1 & Hget).
  destruct (Hget d1 m1 R1 (degraded_refl _ _) (loses_at_most_refl m1 "a" 1 ltac:(lia)))
    as (rd & w2 & H1 & _ & H2).
  exists c1, d1. split; [exact Hput|]. exists rd, w2. split; [exact H1|].
  apply H2; [lia|vm_compute; lia].
Defined.

Lemma PutShard_any_environment_witness :
  exists d', PutShard (ENV := no_faults) ex_key ex_header (bytes_of_string "hi") empty_disk = (OK tt, d') /\
    GetShard d' ex_key
    = (Some (bytes_of_string "hi"), with_checksum ex_header (Sum256 (bytes_of_string "hi")), None).
Proof.
  destruct (PutShard_writes _ (proj1 ids_ok_ab) ex_key ex_header (bytes_of_string "hi") empty_disk)
    as (d' & H & _); [apply ex_key_ok; set_solver|apply ex_header_ok|done|].
  exists d'. split; [exact H|].
  by apply (PutShard_any_environment ex_key ex_header (bytes_of_string "hi") empty_disk (OK tt) d' ex_header_wf H).
Defined.

Lemma torn_header_blocks_store_witness :
  exists d', PutShard (ENV := failing_writes (mkFault (IOError "no space left on device") 20)) ex_key ex_header
      (bytes_of_string "hi") empty_disk
    = (Err (Wrapf "storage: write header" (IOError "no space left on device")), d') /\
    exists err, GetObject (RS := XorRS) ex_store "b" (mkWorld ∅ d') = (Err err, mkWorld ∅ d').
Proof.
  destruct (torn_header_blocks_store (mkFault (IOError "no space left on device") 20) ex_key ex_header
    (bytes_of_string "hi") _ empty_disk ex_header_wf eq_refl eq_refl eq_refl ltac:(vm_compute; lia))
    as (d' & H1 & H2).
  exists d'. split; [exact H1|]. apply (H2 XorRS ex_store "b"%string ∅).
Defined.

(** A disk with one file: the header of a 2-byte shard, and one byte. *)
Definition torn_disk : Disk :=
  mkDisk {[objectDir "a" := {[shardFileName ex_key
    := header_bytes (with_checksum ex_header (Sum256 (bytes_of_string "hi"))) ++ bytes_of_string "h"]}]}.

Lemma torn_payload_not_tolerated_witness :
  VerifyShard torn_disk ex_key
    = (with_checksum ex_header (Sum256 (bytes_of_string "hi")), Some ErrCorruptShard) /\
  loadStripe (reader_at (RS := XorRS) (e := 2%nat) ex_store "a" 1 0 [] 0) torn_disk
    = Err (Errorf "storage: short payload: got %d, want %d").
Proof.
  destruct (torn_payload_not_tolerated torn_disk ex_key
    (with_checksum ex_header (Sum256 (bytes_of_string "hi")))
    (header_bytes (with_checksum ex_header (Sum256 (bytes_of_string "hi")))) (bytes_of_string "h"))
    as (_ & H1 & H2).
  - apply (with_checksum_ok ex_key), ex_header_ok.
  - reflexivity.
  - done.
  - unfold inU. cbn. lia.
  - intros E. apply (f_equal hd_error) in E. vm_compute in E. done.
  - unfold file, torn_disk. cbn [dirs ex_key k_ObjectID]. rewrite lookup_singleton_eq. cbn.
    by rewrite lookup_singleton_eq.
  - split; [exact H1|]. apply H2; [done|done|done|]. cbn. lia.
Defined.
