(* ===== verification/FileFaults.v ===== *)
(** Objects on a disk of which any system call may fail (object.go over
    FileStore): what PutObject reports as stored is whole, and a read is right
    or reports an error. *)
From S2P Require Import Prelude Binary Sha256 EC XorCodec Header ShardStore MemStore ObjectStore ObjectWrite ObjectRead ObjectSpec ObjectSim Contract FileNames FileStore FileRefine FileContract.

(** * Writing *)

(** What the first computation does when it returns without an error, the
    second does as well. *)
Definition succeeds_as {St A} (m1 m2 : M St A) : Prop :=
  forall s a s', m1 s = (OK a, s') -> m2 s = (OK a, s').

Lemma succeeds_refl {St A} (m : M St A) : succeeds_as m m.
Proof. by intros s a s' H. Qed.

Lemma succeeds_bind {St A B} (m1 m2 : M St A) (f1 f2 : A -> M St B) :
  succeeds_as m1 m2 -> (forall a, succeeds_as (f1 a) (f2 a)) -> succeeds_as (m1 ≫= f1) (m2 ≫= f2).
Proof.
  intros Hm Hf s b s' H. unfold mbind, M_bind in *. specialize (Hm s).
  destruct (m1 s) as [[a|e|q] s1]; [|done..]. rewrite (Hm a s1 eq_refl). by apply Hf.
Qed.

Lemma succeeds_wrapM {St A} msg (m1 m2 : M St A) :
  succeeds_as m1 m2 -> succeeds_as (wrapM msg m1) (wrapM msg m2).
Proof.
  intros Hm s a s' H. unfold wrapM in *. specialize (Hm s).
  destruct (m1 s) as [[a1|e|q] s1]; [|done..]. by rewrite (Hm a1 s1 eq_refl).
Qed.

Create HintDb succeeds.
#[local] Hint Resolve succeeds_refl succeeds_bind succeeds_wrapM : succeeds.

Section writes.
Context {ENV : Environment}.

Lemma sys_succeeds c : succeeds_as (sys c) (sys (ENV := no_faults) c).
Proof. intros d [] d' H. apply sys_OK in H as ->. done. Qed.

Lemma write_succeeds dir name data :
  succeeds_as (fh_Write dir name data) (fh_Write (ENV := no_faults) dir name data).
Proof. intros d a d' H. unfold fh_Write in *. by destruct (env d _). Qed.

Lemma mkdir_succeeds dir : succeeds_as (os_MkdirAll dir) (os_MkdirAll (ENV := no_faults) dir).
Proof. apply succeeds_bind; [apply sys_succeeds|auto with succeeds]. Qed.

Lemma create_succeeds dir name : succeeds_as (os_Create dir name) (os_Create (ENV := no_faults) dir name).
Proof. apply succeeds_bind; [apply sys_succeeds|auto with succeeds]. Qed.

Lemma open_succeeds dir name :
  succeeds_as ((fun d => (_ ← os_Open d dir name; OK tt, d)) : M Disk unit)
    ((fun d => (_ ← os_Open (ENV := no_faults) d dir name; OK tt, d)) : M Disk unit).
Proof.
  intros d a d' H. unfold os_Open in *. destruct (env d _); [done|].
  change (env d _) with (@None fault). cbn match. by destruct (file d dir name).
Qed.

#[local] Hint Resolve sys_succeeds write_succeeds mkdir_succeeds create_succeeds open_succeeds : succeeds.

Lemma PutShard_succeeds key h data :
  succeeds_as (PutShard key h data) (PutShard (ENV := no_faults) key h data).
Proof.
  apply succeeds_bind; [auto with succeeds|]. intros _. case_match; [auto with succeeds|].
  case_match; [auto with succeeds|]. cbv zeta. unfold fh_Sync. auto 20 with succeeds.
Qed.

Lemma WriteMarker_succeeds id meta :
  succeeds_as (WriteMarker id meta) (WriteMarker (ENV := no_faults) id meta).
Proof. unfold WriteMarker, os_WriteFile, fh_Sync. cbv zeta. auto 20 with succeeds. Qed.

Lemma on_store_succeeds {RS : ReedSolomon} {A} (m1 m2 : M Disk A) :
  succeeds_as m1 m2 -> succeeds_as (on_store m1) (on_store m2).
Proof.
  intros Hm w a w' H. unfold on_store in *. specialize (Hm (w_store w)).
  destruct (m1 (w_store w)) as [r d]. injection H as -> <-. by rewrite (Hm a d eq_refl).
Qed.

(** The object store, over FileStore with and without failing calls. *)
Context {RS : ReedSolomon} (o : ObjectStore).
Abbreviation faulty := (@FileStore_ShardStore ENV).
Abbreviation healthy := (@FileStore_ShardStore no_faults).

Lemma put_shards_succeeds id st sl shards : forall i,
  succeeds_as (put_shards (SS := faulty) o id st sl i shards) (put_shards (SS := healthy) o id st sl i shards).
Proof.
  induction shards as [|s shards IH]; intros i; [apply succeeds_refl|].
  apply succeeds_bind; [|intros; apply IH]. apply succeeds_wrapM, on_store_succeeds, PutShard_succeeds.
Qed.

Lemma put_loop_succeeds fuel : forall enc id r st rem,
  succeeds_as (put_loop (SS := faulty) fuel o enc id r st rem) (put_loop (SS := healthy) fuel o enc id r st rem).
Proof.
  induction fuel as [|fuel IH]; intros; cbn [put_loop]; destruct (rem <=? 0); try apply succeeds_refl.
  destruct (ReadFull _ r) as [[chunk|e|q] r']; try apply succeeds_refl.
  apply succeeds_bind; [|intros; apply IH]. apply succeeds_bind; [apply succeeds_refl|].
  intros. apply put_shards_succeeds.
Qed.

Lemma PutObject_succeeds id r size :
  succeeds_as (PutObject (SS := faulty) o id r size) (PutObject (SS := healthy) o id r size).
Proof.
  unfold PutObject. case_bool_decide; [apply succeeds_refl|]. destruct (size <? 0); [apply succeeds_refl|].
  apply succeeds_bind; [apply succeeds_refl|]. intros enc.
  apply succeeds_bind; [apply put_loop_succeeds|]. intros n. apply on_store_succeeds, WriteMarker_succeeds.
Qed.
End writes.

(** * Reading *)

(** The error of a failing system call is none of the errors the program knows:
    not its own errors, not the end of a file, and not "does not exist". *)
Definition honest (ENV : Environment) : Prop := forall d c f, ENV d c = Some f ->
  lost_error (f_err f) = false /\ errors_Is (f_err f) ErrObjectNotFound = false /\
  f_err f <> EOF /\ os_IsNotExist (f_err f) = false.

(** Computations on a stream of which every error is untyped if the error that
    ends the stream is. *)
Definition untyped {A} (m : M Reader A) : Prop := forall r, lost_error (final r) = false ->
  lost_error (final (m r).2) = false /\ match (m r).1 with Err e => lost_error e = false | _ => True end.

Lemma lost_error_wrap msg e : lost_error (Wrapf msg e) = lost_error e.
Proof. unfold lost_error. cbn [errors_Is]. by rewrite !bool_decide_eq_false_2. Qed.

Lemma untyped_bind {A B} (m : M Reader A) (f : A -> M Reader B) :
  untyped m -> (forall a, untyped (f a)) -> untyped (m ≫= f).
Proof.
  intros Hm Hf r Hr. destruct (Hm r Hr) as [H1 H2]. unfold mbind, M_bind.
  destruct (m r) as [[a|e|q] r']; [by apply Hf|done..].
Qed.

Lemma untyped_wrapM {A} msg (m : M Reader A) : untyped m -> untyped (wrapM msg m).
Proof.
  intros Hm r Hr. destruct (Hm r Hr) as [H1 H2]. unfold wrapM.
  destruct (m r) as [[a|e|q] r']; [done| |done]. split; [done|]. cbn. by rewrite lost_error_wrap.
Qed.

Lemma untyped_ReadFull n : untyped (ReadFull n).
Proof.
  intros r Hr. unfold ReadFull. destruct (n <=? length (pending r))%nat; [done|]. split; [done|]. cbn [fst].
  by repeat case_bool_decide.
Qed.

Lemma untyped_ret {A} (a : A) : untyped (mret a).
Proof. done. Qed.

Lemma untyped_throw {A} msg : untyped (throw (A := A) (Errorf msg)).
Proof. done. Qed.

Lemma untyped_if {A} (b : bool) (m1 m2 : M Reader A) : untyped m1 -> untyped m2 -> untyped (if b then m1 else m2).
Proof. by destruct b. Qed.

Create HintDb untyped.
#[local] Hint Resolve untyped_bind untyped_wrapM untyped_ReadFull untyped_ret untyped_throw untyped_if : untyped.

Lemma untyped_ReadUint n : untyped (ReadUint n).
Proof. unfold ReadUint. auto with untyped. Qed.
#[local] Hint Resolve untyped_ReadUint : untyped.

Lemma untyped_decodeShardHeader : untyped decodeShardHeader.
Proof. unfold decodeShardHeader. auto 40 with untyped. Qed.

(** A header that decodes from the start of a stream decodes from all of it. *)
Lemma decode_extends p q fin fin' h r' :
  decodeShardHeader (mkReader p fin) = (OK h, r') ->
  decodeShardHeader (mkReader (p ++ q) fin') = (OK h, mkReader (pending r' ++ q) fin') /\ final r' = fin.
Proof.
  intros (W & Hl & Hf & Hp)%decodeShardHeader_inv. cbn [pending final] in *. split; [|done].
  rewrite Hp, <- app_assoc. by apply decode_header_bytes.
Qed.

(** An error that no read takes for a lost shard or for the end of the data. *)
Definition serious (err : error) : Prop := lost_error err = false /\ err <> EOF.

Section reads.
Context {ENV : Environment} (Henv : honest ENV).

(** Two outcomes: as without failing calls, or an error that is not tolerated. *)
Definition same_or_error {A} (bad : error -> Prop) (r1 r2 : result A) : Prop :=
  r1 = r2 \/ exists err, r1 = Err err /\ bad err.

Abbreviation anyerror := (fun _ : error => True).

(** What a file delivers when reading may stop early. *)
Lemma os_Open_cases d dir name :
  os_Open d dir name = os_Open (ENV := no_faults) d dir name \/
  (exists err, os_Open d dir name = Err err /\ lost_error err = false /\
     errors_Is err ErrObjectNotFound = false /\ os_IsNotExist err = false) \/
  exists c n err, file d dir name = Some c /\ os_Open d dir name = OK (mkReader (take n c) err) /\
    lost_error err = false /\ errors_Is err ErrObjectNotFound = false /\ err <> EOF.
Proof.
  unfold os_Open.
  destruct (env d (SysOpen dir name)) as [f|] eqn:Eo.
  { right. left. exists (f_err f). split; [done|]. by apply Henv in Eo as (? & ? & ? & ?). }
  change (@env no_faults d _) with (@None fault). cbn match.
  destruct (file d dir name) as [c|]; [|by left].
  destruct (env d (SysRead dir name)) as [f|] eqn:Er; [|by left].
  right. right. exists c, (f_done f), (f_err f). apply Henv in Er as (? & ? & ? & ?). done.
Qed.

(** Reading the header and the payload of a file that may end early. *)
Lemma decode_cut c n err : lost_error err = false -> err <> EOF ->
  match decodeShardHeader (mkReader (take n c) err) with
  | (OK h, r') =>
      exists r2, decodeShardHeader (NewReader c) = (OK h, r2) /\
        same_or_error serious (read_limited (h_DataLen h) r') (read_limited (h_DataLen h) r2)
  | (Err e, _) => lost_error e = false
  | (Panicked _, _) => False
  end.
Proof.
  intros Hl He. pose proof (untyped_decodeShardHeader (mkReader (take n c) err) Hl) as [_ Hu].
  destruct (decodeShardHeader (mkReader (take n c) err)) as [[h|e|q] r'] eqn:E; [|done|].
  - apply (decode_extends _ (drop n c) _ EOF) in E as [E2 Hf]. rewrite take_drop in E2.
    eexists. split; [exact E2|]. unfold read_limited. cbn [pending final]. rewrite Hf.
    destruct (Z.leb_spec (h_DataLen h) (len (pending r'))) as [H|H].
    + left. unfold len in *. rewrite length_app. destruct (Z.leb_spec (h_DataLen h) (Z.of_nat (length (pending r') + length (drop n c)))); [|lia].
      rewrite take_app_le by lia. done.
    + rewrite bool_decide_eq_false_2 by done. right. by exists err.
  - by destruct (no_panic_decodeShardHeader _ _ _ E).
Qed.

Lemma same_or_error_refl {A} bad (r : result A) : same_or_error bad r r.
Proof. by left. Qed.

Lemma same_or_error_err {A} (bad : error -> Prop) err (r : result A) : bad err -> same_or_error bad (Err err) r.
Proof. right. by exists err. Qed.

Lemma same_or_error_bind {A B} bad (r1 r2 : result A) (f1 f2 : A -> result B) :
  same_or_error bad r1 r2 -> (forall a, same_or_error bad (f1 a) (f2 a)) ->
  same_or_error bad (r1 ≫= f1) (r2 ≫= f2).
Proof.
  intros [->|(err & -> & He)] Hf; [|right; by exists err]. destruct r2; [apply Hf|by left..].
Qed.

Lemma same_or_error_wrap {A} msg (r1 r2 : result A) :
  same_or_error anyerror r1 r2 -> same_or_error anyerror (wrap_err msg r1) (wrap_err msg r2).
Proof. intros [->|(err & -> & _)]; [by left|right; by eexists]. Qed.

Create HintDb faulty.
#[local] Hint Resolve same_or_error_refl same_or_error_err same_or_error_bind same_or_error_wrap : faulty.

Lemma serious_wrap msg e : lost_error e = false -> serious (Wrapf msg e).
Proof. intros H. split; [by rewrite lost_error_wrap|done]. Qed.

(** Opening a shard file and decoding its header. *)
Lemma open_decode d dir name :
  os_Open d dir name = os_Open (ENV := no_faults) d dir name \/
  (exists err, os_Open d dir name = Err err /\ lost_error err = false /\ os_IsNotExist err = false) \/
  exists rd rd', os_Open d dir name = OK rd /\ os_Open (ENV := no_faults) d dir name = OK rd' /\
    match decodeShardHeader rd with
    | (OK h, r') =>
        exists r2, decodeShardHeader rd' = (OK h, r2) /\
          same_or_error serious (read_limited (h_DataLen h) r') (read_limited (h_DataLen h) r2)
    | (Err e, _) => lost_error e = false
    | (Panicked _, _) => False
    end.
Proof.
  destruct (os_Open_cases d dir name) as [H|[(err & H & ? & _ & ?)|(c & n & err & Hf & H & Hl & _ & He)]];
    [by left|right; left; by exists err|].
  right. right. exists (mkReader (take n c) err), (NewReader c). split; [done|].
  split; [|by apply decode_cut]. unfold os_Open. change (@env no_faults d _) with (@None fault). by rewrite Hf.
Qed.

(** ** Shards *)

Lemma GetShard_faulty d key : GetShard d key = GetShard (ENV := no_faults) d key \/
  exists err, GetShard d key = (None, emptyHeader, Some err) /\ serious err.
Proof.
  unfold GetShard.
  destruct (open_decode d (objectDir (k_ObjectID key)) (shardFileName key))
    as [->|[(err & -> & Hl & Hn)|(rd & rd' & -> & -> & Hd)]]; [by left| |]; cbn [outcome].
  - right. eexists. split; [done|]. unfold open_shard_error. rewrite Hn. by apply serious_wrap.
  - destruct (decodeShardHeader rd) as [[h|e|q] r']; cbn [outcome]; [| |done].
    + destruct Hd as (r2 & -> & [->|(e & -> & He1 & He2)]); [by left|].
      right. eexists. split; [done|]. by apply serious_wrap.
    + right. eexists. split; [done|]. by apply serious_wrap.
Qed.

Lemma VerifyShard_faulty d key : VerifyShard d key = VerifyShard (ENV := no_faults) d key \/
  exists err, VerifyShard d key = (emptyHeader, Some err) /\ serious err.
Proof.
  unfold VerifyShard.
  destruct (open_decode d (objectDir (k_ObjectID key)) (shardFileName key))
    as [->|[(err & -> & Hl & Hn)|(rd & rd' & -> & -> & Hd)]]; [by left| |]; cbn [outcome].
  - right. eexists. split; [done|]. unfold open_shard_error. rewrite Hn. by apply serious_wrap.
  - destruct (decodeShardHeader rd) as [[h|e|q] r']; cbn [outcome]; [| |done].
    + destruct Hd as (r2 & -> & [->|(e & -> & He1 & He2)]); [by left|].
      right. eexists. split; [done|]. by apply serious_wrap.
    + right. eexists. split; [done|]. by apply serious_wrap.
Qed.

(** ** Listings and markers *)

Lemma resolve_faulty d dir name :
  same_or_error anyerror (resolveObjectID d dir name) (resolveObjectID (ENV := no_faults) d dir name).
Proof.
  unfold resolveObjectID.
  destruct (open_decode d dir name) as [->|[(err & -> & _)|(rd & rd' & -> & -> & Hd)]];
    [by left|right; by eexists|]. cbn [wrap_err mbind result_bind].
  destruct (decodeShardHeader rd) as [[h|e|q] r']; cbn [fst]; [|right; by eexists|done].
  destruct Hd as (r2 & -> & _). by left.
Qed.

Lemma visit_faulty d dir name keys :
  same_or_error anyerror (visit d dir name keys) (visit (ENV := no_faults) d dir name keys).
Proof.
  unfold visit. case_match; [by left|]. apply same_or_error_bind; [by left|]. intros key.
  apply same_or_error_bind; [apply resolve_faulty|by left].
Qed.

Lemma walk_files_faulty d dir es : forall keys,
  same_or_error anyerror (walk_files d dir es keys) (walk_files (ENV := no_faults) d dir es keys).
Proof.
  induction es as [|[name c] es IH]; intros keys; [by left|]. apply same_or_error_bind; [apply visit_faulty|apply IH].
Qed.

Lemma walk_dirs_faulty d es : forall keys,
  same_or_error anyerror (walk_dirs d es keys) (walk_dirs (ENV := no_faults) d es keys).
Proof.
  induction es as [|[dir fs] es IH]; intros keys; [by left|]. cbn [walk_dirs].
  change (@env no_faults d _) with (@None fault). cbn match.
  destruct (env d _); [right; by eexists|]. apply same_or_error_bind; [apply walk_files_faulty|apply IH].
Qed.

Lemma ListObjectShards_faulty d id :
  same_or_error anyerror (ListObjectShards d id) (ListObjectShards (ENV := no_faults) d id).
Proof.
  unfold ListObjectShards, ListShards, WalkDir. change (@env no_faults d _) with (@None fault). cbn match.
  apply same_or_error_bind; [|by left]. apply same_or_error_bind; [|by left]. apply same_or_error_wrap.
  destruct (env d _); [right; by eexists|apply walk_dirs_faulty].
Qed.

Lemma ReadMarker_faulty d id :
  same_or_error anyerror (ReadMarker d id) (ReadMarker (ENV := no_faults) d id).
Proof.
  unfold ReadMarker, os_ReadFile.
  destruct (os_Open_cases d (objectDir id) markerFileName)
    as [->|[(err & -> & _)|(c & n & err & Hf & -> & _ & _ & He)]]; [by left|right; by eexists|].
  cbn [mbind result_bind final]. rewrite bool_decide_eq_false_2 by done. right. by eexists.
Qed.

(** ** Objects *)

Context {RS : ReedSolomon}.
Abbreviation faulty := (@FileStore_ShardStore ENV).
Abbreviation healthy := (@FileStore_ShardStore no_faults).

Lemma serious_passes err : serious err -> errors_Is err ErrCorruptShard || errors_Is err ErrShardNotFound = false.
Proof. by intros [H _]. Qed.

Lemma first_valid_len_faulty d id st idxs :
  same_or_error anyerror (first_valid_len (SS := faulty) d id st idxs) (first_valid_len (SS := healthy) d id st idxs).
Proof.
  induction idxs as [|i idxs IH]; [by left|]. cbn [first_valid_len ss_VerifyShard FileStore_ShardStore].
  destruct (VerifyShard_faulty d (mkKey id st (u32 i))) as [->|(err & -> & He)].
  - destruct (VerifyShard _ _) as [h [err|]]; [|by left]. by destruct (_ || _); [apply IH|left].
  - rewrite serious_passes by done. right. by eexists.
Qed.

Lemma GetObject_faulty o id (w : World Disk) :
  GetObject (SS := faulty) o id w = GetObject (SS := healthy) o id w \/
  exists err, GetObject (SS := faulty) o id w = (Err err, w).
Proof.
  unfold GetObject. cbn [ss_ListObjectShards FileStore_ShardStore].
  destruct (ListObjectShards_faulty (w_store w) id) as [->|(err & -> & _)]; [|right; by eexists].
  destruct (ListObjectShards _ _) as [[|k keys]|err|q]; [|cbv zeta|by left..].
  - cbn [ss_ReadMarker FileStore_ShardStore].
    destruct (ReadMarker_faulty (w_store w) id) as [->|(err & -> & _)]; [by left|right; by eexists].
  - unfold lastStripeLen.
    destruct (first_valid_len_faulty (w_store w) id (max_stripe (k :: keys)) (seqZ 0 (ec_ShardCount (params o))))
      as [->|(err & -> & _)]; [by left|right; by eexists].
Qed.

Lemma load_shards_faulty d id st idxs : forall l,
  same_or_error serious (load_shards (SS := faulty) d id st idxs l) (load_shards (SS := healthy) d id st idxs l).
Proof.
  induction idxs as [|i idxs IH]; intros l; [by left|]. cbn [load_shards ss_GetShard FileStore_ShardStore].
  destruct (GetShard_faulty d (mkKey id st (u32 i))) as [->|(err & -> & He)].
  - destruct (GetShard _ _) as [[data h] [err|]]; [|apply IH]. by destruct (_ || _); [apply IH|left].
  - rewrite serious_passes by done. right. by eexists.
Qed.

Lemma loadStripe_faulty r d :
  same_or_error serious (loadStripe (SS := faulty) r d) (loadStripe (SS := healthy) r d).
Proof.
  unfold loadStripe. cbv zeta. apply same_or_error_bind; [by left|]. intros sh.
  apply same_or_error_bind; [apply load_shards_faulty|by left].
Qed.

Lemma reader_Read_faulty n rd d :
  reader_Read (SS := faulty) n rd d = reader_Read (SS := healthy) n rd d \/
  exists err, reader_Read (SS := faulty) n rd d = OK ([], Some err, rd) /\ serious err.
Proof.
  destruct rd as [|r]; [by left|]. cbn [reader_Read]. unfold Read.
  destruct (r_stripeIdx r >=? r_totalStripes r); [by left|].
  destruct (r_off r =? length (r_buf r))%nat; [|by left].
  destruct (loadStripe_faulty r d) as [->|(err & -> & He)]; [by left|]. right. by exists err.
Qed.

Lemma ReadAll_faulty sizes d data fuel : forall i rd,
  ReadAll (SS := healthy) fuel sizes i rd d = OK (data, None) ->
  exists p e, ReadAll (SS := faulty) fuel sizes i rd d = OK (p, e) /\
    p `prefix_of` data /\ (e = None -> p = data).
Proof.
  revert data. induction fuel as [|fuel IH]; intros data i rd H; [done|]. cbn [ReadAll] in *.
  destruct (reader_Read_faulty (sizes i) rd d) as [->|(err & -> & Hl & He)].
  - destruct (reader_Read (sizes i) rd d) as [[[p [err|]] rd']| |]; cbn [mbind result_bind] in *; [|  |done..].
    + exists p, None. destruct (decide (err = EOF)); [|done]. by injection H as ->.
    + destruct (ReadAll fuel sizes (S i) rd' d) as [[rest e]| |] eqn:E; [|done..]. cbn in H. injection H as <- ->.
      destruct (IH rest (S i) rd' E) as (p' & e & -> & Hp & He). exists (p ++ p'), e.
      split; [done|]. split; [by apply prefix_app|]. intros Hn. by rewrite (He Hn).
  - cbn [mbind result_bind]. rewrite decide_False by done. exists [], (Some err).
    split; [done|]. split; [apply prefix_nil|done].
Qed.
End reads.

(** * What a put touches *)

Section frame.
Context {ENV : Environment} {RS : ReedSolomon}.

(** A computation that changes files in one directory only. *)
Definition within {A} (dir : string) (m : M (World Disk) A) : Prop := forall w dir' name, dir' <> dir ->
  file (w_store (m w).2) dir' name = file (w_store w) dir' name.

Lemma within_bind {A B} dir (m : M (World Disk) A) (f : A -> M (World Disk) B) :
  within dir m -> (forall a, within dir (f a)) -> within dir (m ≫= f).
Proof.
  intros Hm Hf w dir' name Hne. specialize (Hm w dir' name Hne). unfold mbind, M_bind.
  destruct (m w) as [[a|e|q] w']; [|done..]. by rewrite Hf.
Qed.

Lemma within_wrapM {A} dir msg (m : M (World Disk) A) : within dir m -> within dir (wrapM msg m).
Proof. intros Hm w. specialize (Hm w). unfold wrapM. by destruct (m w). Qed.

Lemma within_only {A} dir name (m : M Disk A) : only dir name m -> within dir (on_store m).
Proof.
  intros Hm w dir' name' Hne. specialize (Hm (w_store w) dir' name'). unfold on_store.
  destruct (m (w_store w)) as [r d]. apply Hm. congruence.
Qed.

Lemma within_pure {A} dir (m : M (World Disk) A) : (forall w, w_store (m w).2 = w_store w) -> within dir m.
Proof. intros H w dir' name _. by rewrite H. Qed.

Lemma only_WriteMarker id meta : only (objectDir id) markerFileName (WriteMarker id meta).
Proof.
  apply only_bind; [apply only_lift|]. intros b.
  apply only_bind; [apply only_wrapM, only_mkdir|]. intros _.
  apply only_bind; [apply only_wrapM; apply only_bind; [apply only_create|intros _; apply only_write]|]. intros _.
  apply only_bind; [by intros d|]. intros _. apply only_wrapM, only_sync.
Qed.

Lemma put_shards_within o id st sl shards : forall i, within (objectDir id) (put_shards o id st sl i shards).
Proof.
  induction shards as [|s shards IH]; intros i; [by apply within_pure|].
  apply within_bind; [|intros _; apply IH]. apply within_wrapM. eapply within_only. apply only_PutShard.
Qed.

Lemma put_loop_within fuel : forall o enc id r st rem, within (objectDir id) (put_loop fuel o enc id r st rem).
Proof.
  induction fuel as [|fuel IH]; intros; cbn [put_loop]; destruct (rem <=? 0); try by apply within_pure.
  destruct (ReadFull _ r) as [[chunk|e|q] r']; try by apply within_pure.
  apply within_bind; [|intros _; apply IH]. apply within_bind; [by apply within_pure|]. intros sh.
  apply put_shards_within.
Qed.

Lemma PutObject_within o id r size : within (objectDir id) (PutObject o id r size).
Proof.
  unfold PutObject. case_bool_decide; [by apply within_pure|]. destruct (size <? 0); [by apply within_pure|].
  apply within_bind.
  - apply within_pure. intros w. unfold on_cache. by destruct (EncoderFor _ _).
  - intros enc. apply within_bind; [apply put_loop_within|]. intros n. eapply within_only, only_WriteMarker.
Qed.
End frame.

(** C5. An acknowledged object is safe on a disk that fails. The object has an id
    in use (1 to 65535 bytes, directory names without collisions) and fewer than
    2^32 stripes, and the disk holds whole shards and markers only and no
    longer version of the object. Whatever system calls fail while PutObject
    runs, it changes no file of another object's directory; and if it returns
    nil, then after at most [m] shards per stripe are lost or get payloads that
    fail their checksums, and whatever system calls fail while the object is
    opened and read: GetObject gives the exact size or an error, and reading
    delivers a prefix of the data and ends without an error only after all of
    it. (A failing call of the read reports an error of its own, not the end of
    the file or "does not exist".) *)
Theorem acknowledged_put_survives {RS : ReedSolomon} (o : ObjectStore) e parity
    (LAWS : RSLaws RS (toECParams (params o)) e parity) I (ENV1 ENV2 ENV3 : Environment) id data c d m r w1 :
  params_ok (toECParams (params o)) -> 0 < stripeSize o < 2 ^ 63 -> ids_ok I -> honest ENV2 -> honest ENV3 ->
  I id -> cache_ok c -> len data < 2 ^ 63 -> count_stripes o data < 2 ^ 32 ->
  disk_rel I d m -> no_stale m id (count_stripes o data) ->
  PutObject (SS := @FileStore_ShardStore ENV1) o id (NewReader data) (len data) (mkWorld c d) = (r, w1) ->
  (forall dir name, dir <> objectDir id -> file (w_store w1) dir name = file d dir name) /\
  (r = OK tt -> exists m1, disk_rel I (w_store w1) m1 /\
    forall d2 m2, disk_rel I d2 m2 -> degraded m1 m2 id -> loses_at_most m1 m2 id (ec_MaxLoss (params o)) ->
      match GetObject (SS := @FileStore_ShardStore ENV2) o id (mkWorld (w_cache w1) d2) with
      | (OK (rd, size), _) => size = len data /\
          forall sizes fuel, (forall i, 0 < sizes i)%nat -> (length data < fuel)%nat ->
            exists p err, ReadAll (SS := @FileStore_ShardStore ENV3) fuel sizes 0 rd d2 = OK (p, err) /\
              p `prefix_of` data /\ (err = None -> p = data)
      | (Err _, w2) => w2 = mkWorld (w_cache w1) d2
      | (Panicked _, _) => False
      end).
Proof.
  intros Hp Hss HI He2 He3 Hid Hc Hlen Hn R Hns Hput. split.
  { intros dir name Hne. pose proof (PutObject_within (ENV := ENV1) o id (NewReader data) (len data) (mkWorld c d) dir name Hne) as H.
    by rewrite Hput in H. }
  intros ->. apply PutObject_succeeds in Hput.
  destruct (put_get_on_disk (LAWS := LAWS) o Hp Hss I HI id data c d m Hid Hc Hlen Hn R Hns)
    as (c1 & d1 & m1 & Hput' & R1 & Hget).
  rewrite Hput in Hput'. injection Hput' as ->. exists m1. split; [exact R1|].
  intros d2 m2 R2 Hd Hl. destruct (Hget d2 m2 R2 Hd Hl) as (rd & w2 & Hg & _ & Hr). cbn [w_cache].
  destruct (GetObject_faulty (ENV := ENV2) He2 o id (mkWorld c1 d2)) as [E|(err & E)]; rewrite E; [|done].
  rewrite Hg. split; [done|]. intros sizes fuel Hs Hf. apply (ReadAll_faulty He3), Hr; done.
Qed.

(** * At work *)

(** A disk on which no shard file can be opened. *)
Definition failing_opens : Environment := fun _ c =>
  match c with SysOpen _ _ => Some (mkFault (IOError "input/output error") 0) | _ => None end.

Lemma failing_opens_honest : honest failing_opens.
Proof. by intros d [] f; intros [= <-]. Qed.

Lemma no_faults_honest : honest no_faults.
Proof. done. Qed.

Lemma acknowledged_put_survives_witness :
  exists c1 d1, PutObject (SS := @FileStore_ShardStore no_faults) ex_store "a" (NewReader (bytes_of_string "shards")) 6
      (mkWorld ∅ empty_disk) = (OK tt, mkWorld c1 d1) /\
    exists rd, (GetObject (SS := @FileStore_ShardStore no_faults) ex_store "a" (mkWorld c1 d1)).1 = OK (rd, 6) /\
      exists p err, ReadAll (SS := @FileStore_ShardStore failing_opens) 7 (fun _ => 4%nat) 0 rd d1 = OK (p, err) /\
        p `prefix_of` bytes_of_string "shards".
Proof.
  destruct (put_get_on_disk (LAWS := ex_laws) ex_store ex_params ltac:(done) _ ids_ok_ab "a"
    (bytes_of_string "shards") ∅ empty_disk NewMemStore ltac:(set_solver) cache_ok_empty ltac:(done) ltac:(done)
    (disk_rel_empty _) (ex_no_stale _)) as (c1 & d1 & m1 & Hput & R1 & Hget).
  exists c1, d1. split; [exact Hput|].
  destruct (Hget d1 m1 R1 (degraded_refl _ _) (loses_at_most_refl m1 "a" 1 ltac:(lia))) as (rd & w2 & H1 & _).
  destruct (acknowledged_put_survives (RS := XorRS) ex_store _ _ ex_laws (fun id => id ∈ ["a"; "b"]%string)
    no_faults no_faults failing_opens "a" (bytes_of_string "shards") ∅ empty_disk NewMemStore (OK tt)
    (mkWorld c1 d1) ex_params (conj eq_refl eq_refl) ids_ok_ab no_faults_honest failing_opens_honest
    (list_elem_of_here _ _) cache_ok_empty eq_refl eq_refl (disk_rel_empty _) (ex_no_stale _) Hput) as [_ H].
  destruct (H eq_refl) as (m1' & R1' & Hsafe). cbn [w_store w_cache] in *.
  specialize (Hsafe d1 m1' R1' (degraded_refl _ _) (loses_at_most_refl m1' "a" 1 ltac:(lia))).
  rewrite H1 in Hsafe |- *. destruct Hsafe as [_ Hr]. exists rd. split; [reflexivity|].
  destruct (Hr (fun _ => 4%nat) 7%nat (fun _ => Nat.lt_0_succ 3) ltac:(vm_compute; lia)) as (p & err & E & Hp & _).
  exists p, err. split; [exact E|exact Hp].
Defined.
