(* ===== verification/ObjectMap.v ===== *)
(** What the object store is, seen from outside: a map from object ids to
    stripes and to the metadata of the last completed put. The specification
    [spec_call] answers PutObject, GetObject with reading to the end,
    ObjectShards and DeleteObject on that map; the theorems show that an
    ObjectStore, over a MemStore and over a FileStore, answers every sequence
    of calls as the map does, whatever shards are lost or corrupted between
    the calls as long as each stripe keeps [k] valid ones. *)
From stdpp Require Import relations.
From S2P Require Import Prelude Binary Sha256 EC XorCodec Header ShardStore MemStore ObjectStore ObjectWrite ObjectRead ObjectSpec Contract.

(** * The specification *)

Record object_map := mkObjects {
  o_stripes : gmap string (list bytes);
  o_markers : gmap string ObjectMeta;
}.

Definition no_objects : object_map := mkObjects ∅ ∅.

Definition stored (sp : object_map) (id : string) : list bytes := default [] (o_stripes sp !! id).

(** A put replaces the stripes it writes, and leaves the stripes of a longer
    object after them. *)
Definition overwrite (new old : list bytes) : list bytes := new ++ drop (length new) old.

(** The size GetObject announces. *)
Definition stripes_size (ss : Z) (stripes : list bytes) : Z :=
  (len stripes - 1) * ss + len (default [] (last stripes)).

(** The part of the input that reaches the store: the announced size, or the
    full stripes of an input that ends before it. *)
Definition accepted (ss : Z) (r : Reader) (size : Z) : bytes :=
  if size <=? len (pending r) then take (Z.to_nat size) (pending r)
  else take (Z.to_nat (len (pending r) / ss) * Z.to_nat ss) (pending r).

Definition put_result (ss : Z) (r : Reader) (size : Z) : result unit :=
  if size <=? len (pending r) then OK tt
  else Err (Wrapf "storage: read input"
         (short_error (drop (Z.to_nat (len (pending r) / ss) * Z.to_nat ss) (pending r)) (final r))).

Definition spec_put (o : ObjectStore) (id : string) (r : Reader) (size : Z) (sp : object_map)
    : result unit * object_map :=
  if bool_decide (id = ""%string) then (Err (Errorf "storage: empty object id"), sp) else
  if size <? 0 then (Err (Errorf "storage: negative size %d"), sp) else
  let new := stripes_of (stripeSize o) (accepted (stripeSize o) r size) in
  (put_result (stripeSize o) r size,
   mkObjects (<[id := overwrite new (stored sp id)]> (o_stripes sp))
     (if size <=? len (pending r)
      then <[id := mkMeta size (len new) (toECParams (params o))]> (o_markers sp)
      else o_markers sp)).

Definition spec_get (o : ObjectStore) (id : string) (sp : object_map) : result (Z * bytes) :=
  match stored sp id with
  | [] => match o_markers sp !! id with
          | Some meta => OK (m_Size meta, [])
          | None => Err ErrObjectNotFound
          end
  | stripes => OK (stripes_size (stripeSize o) stripes, concat stripes)
  end.

Definition spec_has_shards (id : string) (sp : object_map) : result bool :=
  match stored sp id with
  | [] => match o_markers sp !! id with Some _ => OK false | None => Err ErrObjectNotFound end
  | _ => OK true
  end.

Definition spec_delete (id : string) (sp : object_map) : object_map :=
  mkObjects (delete id (o_stripes sp)) (delete id (o_markers sp)).

(** * The calls *)

(** A client of GetObject reads to the end, the [i]-th Read with a buffer of
    [sizes i] bytes. *)
Inductive object_call :=
  | PutCall (id : string) (r : Reader) (size : Z)
  | GetCall (id : string) (sizes : nat -> nat)
  | ShardsCall (id : string)
  | DeleteCall (id : string).

(** Of the keys ObjectShards returns the client learns whether there are any:
    which ones there are depends on the damage. *)
Inductive object_reply :=
  | Done (r : result unit)
  | Stream (r : result (Z * (bytes * option error)))
  | HasShards (r : result bool).

Definition spec_call (o : ObjectStore) (c : object_call) (sp : object_map) : object_reply * object_map :=
  match c with
  | PutCall id r size => let '(x, sp') := spec_put o id r size sp in (Done x, sp')
  | GetCall id _ => (Stream ('(size, data) ← spec_get o id sp; OK (size, (data, None))), sp)
  | ShardsCall id => (HasShards (spec_has_shards id sp), sp)
  | DeleteCall id => (Done (OK tt), spec_delete id sp)
  end.

Section calls.
Context {RS : ReedSolomon} {S : Type} {SS : ShardStore S}.

(** One Read per announced byte, and one for the end, are enough. *)
Definition get_all (o : ObjectStore) (id : string) (sizes : nat -> nat) (w : World S)
    : result (Z * (bytes * option error)) * World S :=
  let '(x, w') := GetObject o id w in
  ('(rd, size) ← x;
   data ← ReadAll (Datatypes.S (Z.to_nat size)) sizes 0 rd (w_store w');
   OK (size, data), w').

Definition do_object (o : ObjectStore) (c : object_call) (w : World S) : object_reply * World S :=
  match c with
  | PutCall id r size => let '(x, w') := PutObject o id r size w in (Done x, w')
  | GetCall id sizes => let '(x, w') := get_all o id sizes w in (Stream x, w')
  | ShardsCall id =>
      (HasShards (keys ← ObjectShards o (w_store w) id; OK (negb (bool_decide (keys = [])))), w)
  | DeleteCall id => let '(x, w') := DeleteObject o id w in (Done x, w')
  end.
End calls.

(** Sizes within int64 and 2^32 - 1 stripes, non-empty buffers, and ids that
    are not empty (a listing takes the empty id for all objects). *)
Definition object_call_ok (o : ObjectStore) (c : object_call) : Prop :=
  match c with
  | PutCall _ _ size => inS 64 size /\ size <= stripeSize o * (2 ^ 32 - 1)
  | GetCall id sizes => id <> ""%string /\ forall i, (0 < sizes i)%nat
  | ShardsCall id | DeleteCall id => id <> ""%string
  end.

(** * The map *)

Lemma overwrite_nil old : overwrite [] old = old.
Proof. done. Qed.

Lemma lookup_overwrite new old (i : nat) :
  overwrite new old !! i = if decide (i < length new)%nat then new !! i else old !! i.
Proof.
  unfold overwrite. case_decide.
  - by rewrite lookup_app_l.
  - rewrite lookup_app_r, lookup_drop by lia. f_equal. lia.
Qed.

Lemma length_overwrite new old : length (overwrite new old) = (length new `max` length old)%nat.
Proof. unfold overwrite. rewrite length_app, length_drop. lia. Qed.

Lemma stripes_size_snoc ss stripes c : stripes_size ss (stripes ++ [c]) = len stripes * ss + len c.
Proof.
  unfold stripes_size. rewrite last_snoc. cbn [default from_option id].
  assert (len (stripes ++ [c]) = len stripes + 1) as -> by len_lia. lia.
Qed.

(** The last stripe after a put: that of the longer object. *)
Lemma stripes_size_overwrite ss new old :
  stripes_size ss (overwrite new old)
  = if decide (length new < length old)%nat then stripes_size ss old else stripes_size ss new.
Proof.
  unfold stripes_size, len. rewrite length_overwrite. case_decide.
  - rewrite Nat.max_r by lia. do 3 f_equal. rewrite !last_lookup, lookup_overwrite, length_overwrite.
    f_equal. rewrite decide_False by lia. f_equal. lia.
  - rewrite Nat.max_l by lia. unfold overwrite. by rewrite drop_ge, app_nil_r by lia.
Qed.

Lemma stored_insert sp id stripes id' mk :
  stored (mkObjects (<[id := stripes]> (o_stripes sp)) mk) id'
  = if decide (id' = id) then stripes else stored sp id'.
Proof.
  unfold stored. cbn [o_stripes]. case_decide as H.
  - subst. by rewrite lookup_insert_eq.
  - by rewrite lookup_insert_ne by congruence.
Qed.

Lemma stored_delete sp id id' :
  stored (spec_delete id sp) id' = if decide (id' = id) then [] else stored sp id'.
Proof.
  unfold stored, spec_delete. cbn [o_stripes]. case_decide as H.
  - subst. by rewrite lookup_delete_eq.
  - by rewrite lookup_delete_ne by congruence.
Qed.

(** Stripes of at most [ss] bytes: the announced size covers them. *)
Lemma stripes_size_covers ss stripes : 0 < ss -> Forall (fun c => len c <= ss) stripes ->
  stripes <> [] -> len (concat stripes) <= stripes_size ss stripes.
Proof.
  intros Hss. induction stripes as [|c stripes IH]; intros HF Hne; [done|].
  inversion_clear HF as [|? ? Hc HF']. destruct stripes as [|c' stripes].
  - rewrite (stripes_size_snoc ss [] c : stripes_size ss [c] = _). cbn [concat]. rewrite app_nil_r.
    unfold len. cbn [length]. lia.
  - specialize (IH HF' ltac:(done)). unfold stripes_size in *. rewrite last_cons_cons. cbn [concat] in *.
    unfold len in *. rewrite !length_app in *. cbn [length] in *. nia.
Qed.

Lemma stripes_of_size ss data : 0 < ss -> data <> [] ->
  stripes_size ss (stripes_of ss data) = len data.
Proof.
  intros Hss Hd. destruct (stripes_snoc (mkObjectStore (mkECParams 1 1) ss) Hss data Hd) as (l & c & E & ->).
  cbn [stripeSize] in *. by rewrite E, stripes_size_snoc.
Qed.

(** * ObjectStore over MemStore *)

Section represents.
Context {RS : ReedSolomon} (o : ObjectStore) {e : rs_enc} {parity : list bytes -> list bytes}.
Context {LAWS : RSLaws RS (toECParams (params o)) e parity}.
Context (Hp : params_ok (toECParams (params o))) (Hss : 0 < stripeSize o).

Abbreviation k := (ec_DataShards (params o)).
Abbreviation good m id st := (good_count m id st 0 (total o)).
Abbreviation readable := (stripe_readable o (parity:=parity)).

(** A stripe of an object: not empty, not too long, and [k] of its shards are
    in the store and valid, the others being the right ones or lost. *)
Definition stripe_held (m : MemStore) (id : string) (st : Z) (stripe : bytes) : Prop :=
  0 < len stripe <= stripeSize o /\ readable m id st stripe.

(** The stripes of one object, with their number and size in range. *)
Definition object_held (m : MemStore) (id : string) (stripes : list bytes) : Prop :=
  (forall (i : nat) stripe, stripes !! i = Some stripe -> stripe_held m id (Z.of_nat i) stripe) /\
  len stripes < 2 ^ 32 /\ stripes_size (stripeSize o) stripes < 2 ^ 63.

(** No shards but those of the stripes. *)
Definition represents (sp : object_map) (m : MemStore) : Prop :=
  markers m = o_markers sp /\
  (forall key, is_Some (shards m !! key) ->
     k_ObjectID key <> ""%string /\ 0 <= k_StripeIdx key < len (stored sp (k_ObjectID key))) /\
  forall id, object_held m id (stored sp id).

Lemma represents_empty : represents no_objects NewMemStore.
Proof.
  split; [done|]. split.
  - intros key [x Hx]. cbn in Hx. by rewrite lookup_empty in Hx.
  - intros id. assert (stored no_objects id = []) as -> by (unfold stored; cbn; by rewrite lookup_empty).
    split; [done|]. unfold stripes_size. cbn. unfold len. cbn. lia.
Qed.

(** ** Damage *)

Lemma degraded_state m m' id st stripe : degraded m m' id ->
  stripe_state o (parity:=parity) m id st stripe -> stripe_state o (parity:=parity) m' id st stripe.
Proof.
  intros [_ Hd]. unfold stripe_state. generalize 0.
  induction (codeword (p:=toECParams (params o)) (parity:=parity) stripe) as [|b bs IH]; intros i; [done|].
  intros [Hb Hbs]. split; [|by apply IH].
  destruct (Hd (mkKey id st i) eq_refl) as [E|[_ Hl]]; [|by right].
  revert Hb. unfold shard_state. cbn [ss_GetShard MemStore_ShardStore]. unfold GetShard. by rewrite E.
Qed.

(** Damage that leaves every stripe [k] valid shards does not change the map. *)
Lemma represents_damage sp m m' :
  (forall id, degraded m m' id) ->
  (forall id (i : nat), is_Some (stored sp id !! i) -> k <= good m' id (Z.of_nat i)) ->
  represents sp m -> represents sp m'.
Proof.
  intros Hd Hg (Hm & Hk & Ho). split; [|split].
  - rewrite <- Hm. apply map_eq. intros id. apply (Hd id).
  - intros key Hx. apply Hk. destruct (Hd (k_ObjectID key)) as [_ H].
    destruct (H key eq_refl) as [<-|[? _]]; done.
  - intros id. destruct (Ho id) as (Hst & Hn). split; [|done]. intros i stripe Hi.
    destruct (Hst i stripe Hi) as (Hl & Hs & _). split; [done|]. split; [by apply (degraded_state m)|].
    apply Hg. eauto.
Qed.

(** ** PutObject *)

Lemma stripe_held_same m m' id st stripe :
  (forall i, shards m' !! mkKey id st i = shards m !! mkKey id st i) ->
  stripe_held m id st stripe -> stripe_held m' id st stripe.
Proof. intros Hs [H1 H2]. split; [done|]. by apply (stripe_readable_same m). Qed.

Lemma stripes_of_bounds data (i : nat) stripe :
  stripes_of (stripeSize o) data !! i = Some stripe -> 0 < len stripe <= stripeSize o.
Proof.
  destruct (stripes_of_spec (stripeSize o) data Hss) as [Hok _]. revert i.
  induction (stripes_of (stripeSize o) data) as [|c cs IH]; intros i Hi; [done|].
  destruct Hok as (H1 & _ & H3). destruct i; simplify_eq/=; [done|by eapply IH].
Qed.

(** A put leaves alone other objects, and stripes beyond its own. *)
Lemma put_leaves m m' id data id' st i :
  holds o (parity:=parity) m m' id data -> id' <> id \/ ~ 0 <= st < count_stripes o data ->
  shards m' !! mkKey id' st i = shards m !! mkKey id' st i.
Proof.
  intros Hh Hne. rewrite Hh. unfold object_shards, object_entry, shards_entry.
  cbn [k_StripeIdx k_ObjectID k_ShardIdx]. case_decide; [|apply None_union].
  destruct (_ !! _) as [c|] eqn:Ec; [|apply None_union]. apply lookup_lt_Some in Ec. cbn.
  rewrite decide_False; [apply None_union|]. unfold count_stripes, len in Hne. intros (-> & _). destruct Hne as [?|Hne]; [done|lia].
Qed.

Lemma put_keys sp m m' id data mk key :
  id <> ""%string -> holds o (parity:=parity) m m' id data -> represents sp m -> is_Some (shards m' !! key) ->
  k_ObjectID key <> ""%string /\ 0 <= k_StripeIdx key
    < len (stored (mkObjects (<[id := overwrite (stripes_of (stripeSize o) data) (stored sp id)]> (o_stripes sp)) mk)
             (k_ObjectID key)).
Proof.
  intros Hid Hh (_ & Hk & _) Hx. destruct key as [id' st i]. cbn [k_ObjectID k_StripeIdx].
  rewrite stored_insert. unfold len.
  destruct (decide (id' <> id \/ ~ 0 <= st < count_stripes o data)) as [Hd|Hd].
  - rewrite (put_leaves m m' id data) in Hx by done. apply Hk in Hx as [? Hx]. cbn in *. split; [done|].
    case_decide; [subst|done]. rewrite length_overwrite. unfold len in *. lia.
  - unfold count_stripes, len in Hd. assert (id' = id) as -> by (destruct (decide (id' = id)); tauto).
    rewrite decide_True, length_overwrite by done. split; [done|]. lia.
Qed.

(** The store holds the stripes of [data] for [id], over what it held. *)
Lemma represents_put sp m m' id data mk :
  id <> ""%string -> len data < 2 ^ 63 -> count_stripes o data < 2 ^ 32 ->
  holds o (parity:=parity) m m' id data -> markers m' = mk -> represents sp m ->
  represents (mkObjects (<[id := overwrite (stripes_of (stripeSize o) data) (stored sp id)]> (o_stripes sp)) mk) m'.
Proof.
  intros Hid Hlen Hn Hh Hm R. split; [done|]. split; [intros; by eapply put_keys|].
  destruct R as (_ & _ & Ho). intros id'. rewrite stored_insert. destruct (Ho id') as (Hst & Hn' & Hz').
  case_decide as Hi; [subst id'; split; [|split]|split; [|done]].
  - intros i stripe Hl. rewrite lookup_overwrite in Hl. case_decide.
    + split; [by eapply stripes_of_bounds|]. by apply (holds_readable_refl o Hp m m' id data).
    + apply (stripe_held_same m); [|by apply Hst]. intros j. apply (put_leaves _ _ id data); [done|].
      right. unfold count_stripes, len. lia.
  - unfold count_stripes, len in *. rewrite length_overwrite. lia.
  - rewrite stripes_size_overwrite. case_decide; [done|]. destruct (decide (data = [])) as [->|].
    + rewrite stripes_of_nil in * by done. destruct (stored sp id); [done|cbn in *; lia].
    + by rewrite stripes_of_size.
  - intros i stripe Hl. apply (stripe_held_same m); [|by apply Hst]. intros j.
    apply (put_leaves _ _ id data); [done|by left].
Qed.

(** The outcome of a put, in the terms of the specification. *)
Lemma put_outcome c (m : MemStore) id r size :
  cache_ok c -> id <> ""%string -> 0 <= size -> size <= stripeSize o * (2 ^ 32 - 1) ->
  let data := accepted (stripeSize o) r size in
  count_stripes o data < 2 ^ 32 /\ len data <= size /\
  exists c' (m' : MemStore), PutObject o id r size (mkWorld c m) = (put_result (stripeSize o) r size, mkWorld c' m') /\
    cache_ok c' /\ holds o (parity:=parity) m m' id data /\
    markers m' = if size <=? len (pending r)
                 then <[id := mkMeta size (count_stripes o data) (toECParams (params o))]> (markers m)
                 else markers m.
Proof.
  intros Hc Hid Hs Hmax. unfold accepted, put_result. destruct r as [data fin]. cbn [pending final].
  destruct (Z.leb_spec size (len data)) as [Hle|Hlt].
  - assert (len (take (Z.to_nat size) data) = size) as Hl by len_lia.
    assert (count_stripes o (take (Z.to_nat size) data) < 2 ^ 32) as Hn.
    { unfold count_stripes, stripes_of, len. rewrite length_chunks. unfold nstripes.
      pose proof (per_shard_bounds (Z.to_nat (stripeSize o)) (length (take (Z.to_nat size) data)) ltac:(lia)) as Hb.
      unfold len in Hl. nia. }
    split; [done|]. split; [lia|].
    destruct (PutObject_ok o Hp id (take (Z.to_nat size) data) (drop (Z.to_nat size) data) fin c m)
      as (c' & m' & H1 & H2 & H3 & H4); [done..|].
    rewrite take_drop, Hl in H1. rewrite Hl in H3. by exists c', m'.
  - assert (len data / stripeSize o < 2 ^ 32) as Hn by (apply Z.div_lt_upper_bound; lia).
    destruct (put_short o Hp Hss id data fin size (mkWorld c m) Hc Hid Hlt Hn)
      as (c' & m' & H1 & _ & H2 & H3 & H4 & H5 & H6).
    split; [lia|]. split; [|by exists c', m'].
    rewrite H6. pose proof (Z.mul_div_le (len data) (stripeSize o) Hss). lia.
Qed.

(** ** Answering the calls *)

Abbreviation world_of sp := (fun w : World MemStore => cache_ok (w_cache w) /\ represents sp (w_store w)).

Lemma answers_put sp id r size w :
  object_call_ok o (PutCall id r size) -> world_of sp w ->
  (do_object o (PutCall id r size) w).1 = (spec_call o (PutCall id r size) sp).1 /\
  world_of (spec_call o (PutCall id r size) sp).2 (do_object o (PutCall id r size) w).2.
Proof.
  intros [Hs Hmax] [Hc R]. destruct w as [c m]. cbn [w_cache w_store] in *.
  unfold do_object, spec_call, spec_put.
  case_bool_decide as Hid; [subst; by unfold PutObject; rewrite bool_decide_eq_true_2|].
  destruct (Z.ltb_spec size 0) as [Hneg|Hpos].
  { unfold PutObject. rewrite bool_decide_eq_false_2 by done. by destruct (Z.ltb_spec size 0); [|lia]. }
  destruct (put_outcome c m id r size Hc Hid Hpos Hmax) as (Hn & Hl & c' & m' & -> & Hc' & Hh & Hm).
  cbn [fst snd w_cache w_store]. split; [done|]. split; [done|].
  apply (represents_put sp m); [done|unfold inS in Hs; lia|done..| |done].
  rewrite Hm. by rewrite (proj1 R).
Qed.

(** An id without stripes has no shards. *)
Lemma no_shards sp m id : represents sp m -> stored sp id = [] ->
  forall key, k_ObjectID key = id -> shards m !! key = None.
Proof.
  intros (_ & Hk & _) E key Hid. destruct (shards m !! key) eqn:Ex; [|done].
  destruct (Hk key ltac:(eauto)) as [_ H]. rewrite Hid, E in H. unfold len in H. cbn in H. lia.
Qed.

(** What GetObject returns for an object of the map. *)
Definition spec_open (id : string) (sp : object_map) : result (reader * Z) :=
  match stored sp id with
  | [] => match o_markers sp !! id with
          | Some meta => OK (emptyReader, m_Size meta)
          | None => Err ErrObjectNotFound
          end
  | stripes => OK (stripeReader (reader_at (e:=e) o id (len stripes) 0 [] 0), stripes_size (stripeSize o) stripes)
  end.

(** An object with stripes can be opened, and read to the end. *)
Lemma stripes_held sp id c m : represents sp m -> id <> ""%string -> cache_ok c -> stored sp id <> [] ->
  exists c', cache_ok c' /\
    GetObject o id (mkWorld c m)
      = (OK (stripeReader (reader_at (e:=e) o id (len (stored sp id)) 0 [] 0),
             stripes_size (stripeSize o) (stored sp id)), mkWorld c' m) /\
    forall sizes fuel, (forall i, 0 < sizes i)%nat -> (length (concat (stored sp id)) < fuel)%nat ->
      ReadAll fuel sizes 0 (stripeReader (reader_at (e:=e) o id (len (stored sp id)) 0 [] 0)) m
      = OK (concat (stored sp id), None).
Proof.
  intros (_ & Hk & Ho) Hid Hc Hne. destruct (exists_last (l := stored sp id)) as (init & last & E); [done|].
  destruct (Ho id) as (Hst & Hn & Hz).
  assert (forall key, k_ObjectID key = id -> is_Some (shards m !! key) -> k_StripeIdx key <= len init) as Hmax.
  { intros key Hkey Hx. apply Hk in Hx as [_ Hx]. rewrite Hkey, E in Hx. unfold len in *.
    rewrite length_app in Hx. cbn in Hx. lia. }
  rewrite E in *. rewrite stripes_size_snoc in *.
  assert (len (init ++ [last]) = len init + 1) as Hlen by len_lia.
  assert (0 <= len init * stripeSize o /\ 0 <= len init /\ 0 <= len last) as (Hz1 & Hz2 & Hz3) by (unfold len; nia).
  destruct (get_readable o Hp Hss id c m init last) as (rd & [c' m'] & H1 & H2 & H3 & H4); [done|done|done|lia|done| |].
  { intros i x Hi. destruct (Hst i x Hi) as [Hl Hr]. split; [|done]. intros ->. unfold len in Hl. cbn in Hl. lia. }
  destruct (Hst (length init) last) as [_ [Hlast Hg]]; [by rewrite lookup_app_r, Nat.sub_diag by lia|].
  pose proof (total_spec o Hp) as (Hk1 & _).
  destruct (GetObject_ok o Hp id c m (len init) last) as (c2 & Hc2 & Hget); [done|done|lia|done|exact Hlast|unfold len; lia|].
  rewrite (wrapS64_id (len init * stripeSize o)), wrapS64_id in Hget by (unfold inS; lia). rewrite H1 in Hget. injection Hget as -> -> ->.
  cbn [w_store w_cache] in *. exists c2. by rewrite Hlen.
Qed.

Lemma get_held sp id c m : represents sp m -> id <> ""%string -> cache_ok c ->
  exists c', cache_ok c' /\ GetObject o id (mkWorld c m) = (spec_open id sp, mkWorld c' m).
Proof.
  intros R Hid Hc. destruct (decide (stored sp id = [])) as [E|Hne].
  - pose proof (no_shards sp m id R E) as Hno. pose proof (proj1 R) as Hm. exists c. split; [done|].
    unfold spec_open. rewrite E. destruct (o_markers sp !! id) as [meta|] eqn:Em; rewrite <- Hm in Em.
    + by rewrite (GetObject_marker o id c m meta) by done.
    + by rewrite (GetObject_missing o id c m) by done.
  - destruct (stripes_held sp id c m R Hid Hc Hne) as (c' & Hc' & Hg & _). exists c'. split; [done|].
    rewrite Hg. unfold spec_open. by destruct (stored sp id).
Qed.

Lemma answers_get sp id sizes w :
  object_call_ok o (GetCall id sizes) -> world_of sp w ->
  (do_object o (GetCall id sizes) w).1 = (spec_call o (GetCall id sizes) sp).1 /\
  world_of sp (do_object o (GetCall id sizes) w).2.
Proof.
  intros [Hid Hsz] [Hc R]. destruct w as [c m]. cbn [w_cache w_store] in *.
  unfold do_object, spec_call, spec_get, get_all.
  destruct (get_held sp id c m R Hid Hc) as (c' & Hc' & Hg). rewrite Hg. unfold spec_open.
  destruct (decide (stored sp id = [])) as [E|Hne].
  - rewrite E. by destruct (o_markers sp !! id).
  - destruct (stripes_held sp id c m R Hid Hc Hne) as (_ & _ & _ & Hread).
    pose proof (proj2 (proj2 R) id) as (Hst & _).
    assert (len (concat (stored sp id)) <= stripes_size (stripeSize o) (stored sp id)) as Hcov.
    { apply stripes_size_covers; [done| |done]. apply Forall_lookup. intros i x Hi. apply (Hst i x Hi). }
    specialize (Hread sizes (Datatypes.S (Z.to_nat (stripes_size (stripeSize o) (stored sp id)))) Hsz
      ltac:(unfold len in *; lia)).
    destruct (stored sp id) as [|x l]; [done|]. cbn [mbind result_bind w_store]. by rewrite Hread.
Qed.

(** A stripe has a shard in the store. *)
Lemma stripe_has_shard sp m id (i : nat) : represents sp m -> is_Some (stored sp id !! i) ->
  exists j, 0 <= j < Z.of_nat (total o) /\ is_Some (shards m !! mkKey id (Z.of_nat i) j).
Proof.
  intros (_ & _ & Ho) [stripe Hi]. destruct (Ho id) as (Hst & _). destruct (Hst i stripe Hi) as (_ & _ & Hg).
  destruct (total_spec o Hp) as (Hk1 & _).
  destruct (good_count_pos m id (Z.of_nat i) (total o) 0) as (j & Hj & Hgood); [lia|].
  exists j. split; [lia|]. by apply shard_good_stored.
Qed.

Lemma answers_shards sp id w :
  object_call_ok o (ShardsCall id) -> world_of sp w ->
  (do_object o (ShardsCall id) w).1 = (spec_call o (ShardsCall id) sp).1.
Proof.
  intros Hid [_ R]. destruct w as [c m]. cbn [w_store] in R.
  cbn [do_object spec_call fst w_store]. unfold ObjectShards, spec_has_shards.
  destruct (elem_of_ListObjectShards m id Hid) as (keys & Hl & Hkeys).
  cbn [ss_ListObjectShards MemStore_ShardStore]. rewrite Hl. cbn [mbind result_bind].
  destruct (stored sp id) as [|stripe stripes] eqn:E.
  - destruct keys as [|key keys].
    + cbn [ss_ReadMarker MemStore_ShardStore]. unfold ReadMarker. rewrite (proj1 R).
      by destruct (o_markers sp !! id).
    + destruct (proj1 (Hkeys key) ltac:(left)) as [Hk [x Hx]].
      by rewrite (no_shards sp m id R E key Hk) in Hx.
  - destruct (stripe_has_shard sp m id 0 R) as (j & _ & Hj); [by rewrite E|].
    assert (mkKey id (Z.of_nat 0) j ∈ keys) as Hin by (by apply Hkeys).
    destruct keys as [|key keys]; [by apply not_elem_of_nil in Hin|]. cbn [mbind result_bind]. by rewrite bool_decide_eq_false_2.
Qed.

Lemma answers_delete sp id w :
  object_call_ok o (DeleteCall id) -> world_of sp w ->
  (do_object o (DeleteCall id) w).1 = Done (OK tt) /\ world_of (spec_delete id sp) (do_object o (DeleteCall id) w).2.
Proof.
  intros Hid [Hc (Hm & Hk & Ho)]. destruct (delete_object o id w Hid) as (w' & Hdel & Hc' & Hs & Hm' & _).
  unfold do_object. rewrite Hdel. cbn [fst snd]. split; [done|]. split; [by rewrite Hc'|].
  split; [by rewrite Hm', Hm|]. split.
  - intros key Hx. rewrite Hs in Hx. rewrite stored_delete. case_decide; [by destruct Hx|]. by apply Hk.
  - intros id'. rewrite stored_delete. case_decide as Hi.
    + split; [done|]. unfold stripes_size, len. cbn. lia.
    + destruct (Ho id') as (Hst & Hn). split; [|done]. intros i stripe Hl.
      apply (stripe_held_same (w_store w)); [|by apply Hst]. intros j. rewrite Hs. by rewrite decide_False.
Qed.

(** Every call gets the answer of the map, and leaves a store that holds the
    map after the call. *)
Lemma answers c sp w : object_call_ok o c -> world_of sp w ->
  (do_object o c w).1 = (spec_call o c sp).1 /\ world_of (spec_call o c sp).2 (do_object o c w).2.
Proof.
  destruct c as [id r size|id sizes|id|id]; intros Hok Hw.
  - by apply answers_put.
  - by apply answers_get.
  - split; [by apply answers_shards|exact Hw].
  - by apply answers_delete.
Qed.

(** The life of a store: calls, and damage that leaves each stripe of each
    object [k] valid shards. *)
Inductive mem_life : object_map * World MemStore -> object_map * World MemStore -> Prop :=
  | life_call c sp w : object_call_ok o c ->
      mem_life (sp, w) ((spec_call o c sp).2, (do_object o c w).2)
  | life_damage sp w m' : (forall id, degraded (w_store w) m' id) ->
      (forall id (i : nat), is_Some (stored sp id !! i) -> k <= good m' id (Z.of_nat i)) ->
      mem_life (sp, w) (sp, mkWorld (w_cache w) m').

Lemma mem_life_world x y : rtc mem_life x y -> world_of x.1 x.2 -> world_of y.1 y.2.
Proof.
  induction 1 as [|x y z Hxy _ IH]; [done|]. intros Hx. apply IH. destruct Hxy as [c sp w Hok|sp w m' Hd Hg].
  - by apply answers.
  - destruct Hx as [Hc R]. split; [done|]. by apply (represents_damage sp (w_store w)).
Qed.

(** C3. The object store is a map. From an empty MemStore, through any calls
    of PutObject (with inputs of any length that end in any error), GetObject
    and reading to the end with any buffers, ObjectShards and DeleteObject,
    and any loss or corruption of shards that leaves each stripe [k] valid
    ones, every call gets the answer of the specification: a get delivers the
    stripes of the puts since the last delete, each put laid over the ones
    before it. *)
Theorem object_store_is_map sp w c :
  rtc mem_life (no_objects, mkWorld ∅ NewMemStore) (sp, w) -> object_call_ok o c ->
  (do_object o c w).1 = (spec_call o c sp).1.
Proof.
  intros Hl Hok. apply mem_life_world in Hl.
  - by apply answers.
  - split; [apply cache_ok_empty|apply represents_empty].
Qed.
End represents.

(** * At work, on the XOR engine *)

(** One object, one shard of it lost, then overwritten by a shorter one. *)
Definition ex_put (s : string) : object_call :=
  PutCall "a" (NewReader (bytes_of_string s)) (len (bytes_of_string s)).

Lemma ex_put_ok s : len (bytes_of_string s) <= 100 -> object_call_ok ex_store (ex_put s).
Proof. unfold object_call_ok, ex_put, inS, len. cbn. lia. Qed.

Lemma lookup_two {A} (x y : A) (i : nat) : is_Some ([x; y] !! i) -> i = 0%nat \/ i = 1%nat.
Proof. intros H%lookup_lt_is_Some. cbn in H. lia. Qed.

Lemma ex_stored id (i : nat) :
  is_Some (stored (spec_call ex_store (ex_put "shards") no_objects).2 id !! i) -> id = "a"%string /\ (i = 0%nat \/ i = 1%nat).
Proof.
  unfold stored.
  change (o_stripes _) with
    (<["a"%string := [bytes_of_string "shar"; bytes_of_string "ds"]]> (∅ : gmap string (list bytes))).
  destruct (decide (id = "a"%string)) as [->|Hid].
  - rewrite lookup_insert_eq. by intros H%lookup_two.
  - rewrite lookup_insert_ne, lookup_empty by congruence. by intros [].
Qed.

Lemma object_store_is_map_witness :
  let w1 := (do_object ex_store (ex_put "shards") (mkWorld (RS := XorRS) ∅ NewMemStore)).2 in
  let w2 := mkWorld (w_cache w1) (lose_shard (w_store w1) (mkKey "a" 1 0)) in
  let w3 := (do_object ex_store (ex_put "new") w2).2 in
  (do_object ex_store (GetCall "a" (fun _ => 3%nat)) w3).1
    = Stream (OK (6, (bytes_of_string "newds", None))).
Proof.
  cbv zeta. set (w1 := (do_object _ (ex_put "shards") _).2). set (w2 := mkWorld _ _).
  set (w3 := (do_object _ _ w2).2).
  set (sp1 := (spec_call ex_store (ex_put "shards") no_objects).2).
  set (sp2 := (spec_call ex_store (ex_put "new") sp1).2).
  transitivity ((spec_call ex_store (GetCall "a" (fun _ => 3%nat)) sp2).1); [|vm_compute; reflexivity].
  apply (object_store_is_map (LAWS := ex_laws) ex_store ex_params eq_refl sp2 w3).
  2: { split; [done|]. intros _. lia. }
  apply rtc_l with (sp1, w1); [apply life_call, ex_put_ok; vm_compute; done|].
  apply rtc_l with (sp1, w2); [apply life_damage|].
  - intros id. apply lose_shard_degraded.
  - intros id i [-> [-> | ->]]%ex_stored; vm_compute; done.
  - apply rtc_once, life_call, ex_put_ok. vm_compute. done.
Defined.
