(* ===== verification/DiskMap.v ===== *)
(** An object store on disk is the map of [ObjectMap]: over a FileStore whose
    system calls do not fail, any sequence of calls gets the answers of the
    map, while shard files are lost or their payloads rot between the calls,
    as long as each stripe keeps [k] valid shards. *)
From stdpp Require Import relations.
From S2P Require Import Prelude Binary Sha256 EC XorCodec Header ShardStore MemStore ObjectStore ObjectWrite ObjectRead ObjectSpec Contract ObjectSim FileNames FileStore FileRefine FileContract ObjectMap.

Definition call_id (c : object_call) : string :=
  match c with PutCall id _ _ | GetCall id _ | ShardsCall id | DeleteCall id => id end.

(** * Calls on related stores *)

Section sim.
Context {RS : ReedSolomon} {S1 S2 : Type} {SS1 : ShardStore S1} {SS2 : ShardStore S2}.
Context {I : string -> Prop} {R : S1 -> S2 -> Prop} {SIM : StoreSim SS1 SS2 I R}.
Context (o : ObjectStore) {e : rs_enc} {parity : list bytes -> list bytes}.
Context {LAWS : RSLaws RS (toECParams (params o)) e parity}.
Context (Hp : params_ok (toECParams (params o))) (Hss : 0 < stripeSize o < 2 ^ 63).

Lemma get_all_sim id sizes w1 w2 : I id -> WR (R:=R) w1 w2 ->
  (get_all o id sizes w1).1 = (get_all o id sizes w2).1 /\
  WR (R:=R) (get_all o id sizes w1).2 (get_all o id sizes w2).2.
Proof.
  intros Hid Hw. destruct (GetObject_sim o id w1 w2 Hid Hw) as [E1 E2].
  pose proof (GetObject_reader_ok (I:=I) (SS2:=SS2) o id w2) as Hrd. unfold get_all.
  destruct (GetObject o id w1) as [x1 w1'], (GetObject o id w2) as [x2 w2']. cbn [fst snd] in *.
  split; [|done]. subst x1. destruct x2 as [[rd size]|err|msg]; [|done..].
  specialize (Hrd rd size w2' Hid eq_refl). cbn [mbind result_bind].
  by rewrite (ReadAll_sim (R:=R) _ _ (w_store w1') (w_store w2') (proj2 E2) 0 rd Hrd).
Qed.

Lemma ObjectShards_sim id s1 s2 : I id -> R s1 s2 -> ObjectShards o s1 id = ObjectShards o s2 id.
Proof.
  intros Hid Hs. unfold ObjectShards. rewrite (sim_list_object _ _ _ Hs).
  destruct (ss_ListObjectShards s2 id) as [[|key keys]|err|msg]; [|done..]. cbn [mbind result_bind].
  by rewrite (sim_read_marker _ _ id Hs (or_introl Hid)).
Qed.

Lemma do_object_sim c w1 w2 : I (call_id c) -> object_call_ok o c -> WR (R:=R) w1 w2 -> cache_ok (w_cache w2) ->
  (do_object o c w1).1 = (do_object o c w2).1 /\ WR (R:=R) (do_object o c w1).2 (do_object o c w2).2.
Proof.
  intros Hid Hok Hw Hc. destruct c as [id r size|id sizes|id|id]; cbn [call_id object_call_ok] in *.
  - destruct (PutObject_sim o Hp Hss id r size Hid (proj1 Hok) w1 w2 Hw Hc) as [E1 E2]. cbn [do_object].
    destruct (PutObject o id r size w1), (PutObject o id r size w2). cbn [fst snd] in *. by subst.
  - destruct (get_all_sim id sizes w1 w2 Hid Hw) as [E1 E2]. cbn [do_object].
    destruct (get_all o id sizes w1), (get_all o id sizes w2). cbn [fst snd] in *. by subst.
  - cbn [do_object fst snd]. by rewrite (ObjectShards_sim id (w_store w1) (w_store w2) Hid (proj2 Hw)).
  - destruct (DeleteObject_sim o id w1 w2 Hid Hw) as [E1 E2]. cbn [do_object].
    destruct (DeleteObject o id w1), (DeleteObject o id w2). cbn [fst snd] in *. by subst.
Qed.
End sim.

(** * The disk *)

#[local] Existing Instance no_faults.

(** A shard file is lost, or its payload changes: the header is whole, the
    length is the same, and the checksum of the header does not match. *)
Inductive disk_damage (I : string -> Prop) (d : Disk) : Disk -> Prop :=
  | disk_lose key d' :
      key_ok I key -> file d' (objectDir (k_ObjectID key)) (shardFileName key) = None ->
      same_but d d' (objectDir (k_ObjectID key)) (shardFileName key) -> disk_damage I d d'
  | disk_rot key c h raw raw' d' :
      key_ok I key -> file d (objectDir (k_ObjectID key)) (shardFileName key) = Some c ->
      decodeShardHeader (NewReader c) = (OK h, NewReader raw) ->
      length raw' = length raw -> Sum256 raw' <> h_Checksum h ->
      file d' (objectDir (k_ObjectID key)) (shardFileName key)
        = Some (take (length c - length raw) c ++ raw') ->
      same_but d d' (objectDir (k_ObjectID key)) (shardFileName key) -> disk_damage I d d'.

Section disk.
Context {RS : ReedSolomon} (o : ObjectStore) {e : rs_enc} {parity : list bytes -> list bytes}.
Context {LAWS : RSLaws RS (toECParams (params o)) e parity}.
Context (Hp : params_ok (toECParams (params o))) (Hss : 0 < stripeSize o < 2 ^ 63).
Context (I : string -> Prop) (HI : ids_ok I).

Abbreviation k := (ec_DataShards (params o)).

(** A shard that becomes unreadable damages the maps behind the disk. *)
Lemma rot_degraded m key s s' id : shards m !! key = Some s -> shard_lost (mkMemStore (<[key := s']> (shards m)) (markers m)) key ->
  degraded m (mkMemStore (<[key := s']> (shards m)) (markers m)) id.
Proof.
  intros Hs Hl. split; [done|]. intros key' _. cbn [shards]. destruct (decide (key' = key)) as [->|Hne].
  - right. split; [by eexists|done].
  - left. by rewrite lookup_insert_ne by congruence.
Qed.

Lemma disk_damage_degraded d d' m : disk_rel I d m -> disk_damage I d d' ->
  exists m', disk_rel I d' m' /\ forall id, degraded m m' id.
Proof.
  destruct HI as [Hok Hinj]. intros R [key d1 Hk Hf Hs|key c h raw raw' d1 Hk Hc Hdec Hl Hsum Hf Hs].
  - eexists. split; [by eapply (rel_remove I Hinj)|]. intros id. apply (lose_shard_degraded m key id).
  - rewrite (file_of_key I Hinj d m key R Hk) in Hc.
    destruct (shards m !! key) as [s|] eqn:Es; [|done]. injection Hc as <-.
    destruct (rel_shard I d m R key s Es) as (_ & [Hh Hlen] & _).
    destruct (decode_shard_file key s (Hok _ (proj1 Hk)) (conj Hh Hlen)) as [Hd _].
    rewrite Hd in Hdec. injection Hdec as <- <-.
    unfold shard_file in Hf. rewrite length_app, Nat.add_sub, take_app_length in Hf.
    exists (mkMemStore (<[key := mkMemShard (ms_h s) raw']> (shards m)) (markers m)). split.
    + eapply (rel_insert I Hinj); [exact R|done| |exact Hf|exact Hs].
      split; [done|]. cbn [ms_data ms_h]. unfold len in *. by rewrite Hl.
    + intros id. eapply rot_degraded; [exact Es|]. eexists _, _, _. unfold MemStore.GetShard. cbn [shards].
      rewrite lookup_insert_eq. cbn. by rewrite bool_decide_eq_true_2.
Qed.

(** The valid shards of a stripe, counted on disk and in the maps. *)
Lemma good_count_disk d m id st n : disk_rel I d m -> I id -> inU 32 st -> forall i,
  0 <= i -> i + Z.of_nat n <= 2 ^ 32 -> good_count d id st i n = good_count m id st i n.
Proof.
  destruct HI as [Hok Hinj]. intros R Hid Hst. induction n as [|n IH]; intros i Hi Hn; [done|].
  cbn [good_count]. rewrite IH by lia. f_equal. unfold shard_good.
  cbn [ss_GetShard FileStore_ShardStore MemStore_ShardStore].
  rewrite (GetShard_sim I Hok Hinj d m); [done|done|]. split; [done|]. split; [done|]. unfold inU. cbn. lia.
Qed.

(** The life of an object store on disk: calls for ids in use, and damage that
    leaves each stripe of each object [k] valid shards. *)
Inductive disk_life : object_map * World Disk -> object_map * World Disk -> Prop :=
  | disk_call c sp w : object_call_ok o c -> I (call_id c) ->
      disk_life (sp, w) ((spec_call o c sp).2, (do_object o c w).2)
  | disk_decay sp w d' : disk_damage I (w_store w) d' ->
      (forall id (i : nat), is_Some (stored sp id !! i) ->
         k <= good_count d' id (Z.of_nat i) 0 (total o)) ->
      disk_life (sp, w) (sp, mkWorld (w_cache w) d').

(** The disk holds the map, through the in-memory store it corresponds to. *)
Definition disk_holds (x : object_map * World Disk) : Prop :=
  cache_ok (w_cache x.2) /\ exists m, disk_rel I (w_store x.2) m /\ represents o (parity:=parity) x.1 m.

Lemma disk_answers c sp w : object_call_ok o c -> I (call_id c) -> disk_holds (sp, w) ->
  (do_object o c w).1 = (spec_call o c sp).1 /\ disk_holds ((spec_call o c sp).2, (do_object o c w).2).
Proof.
  intros Hok Hid (Hc & m & R & Hm). pose proof (FileStore_sim I (proj1 HI) (proj2 HI)) as SIM.
  destruct (do_object_sim o Hp Hss c w (mkWorld (w_cache w) m) Hid Hok (conj eq_refl R) Hc) as [E1 [E2 E3]].
  destruct (answers o Hp (proj1 Hss) c sp (mkWorld (w_cache w) m) Hok (conj Hc Hm)) as [A1 [A2 A3]].
  split; [by rewrite E1|]. split; [by cbn; rewrite E2|]. by eexists.
Qed.

Lemma disk_holds_empty : disk_holds (no_objects, mkWorld ∅ empty_disk).
Proof.
  split; [apply cache_ok_empty|]. exists NewMemStore. split; [apply disk_rel_empty|apply (represents_empty o), Hss].
Qed.

Lemma disk_holds_step x y : disk_life x y -> disk_holds x -> disk_holds y.
Proof.
  intros [c sp w Hok Hid|sp w d' Hd Hg] Hx; [by apply disk_answers|].
  destruct Hx as (Hc & m & R & Hm). destruct (disk_damage_degraded (w_store w) d' m R Hd) as (m' & R' & Hdeg).
  split; [done|]. exists m'. split; [done|]. apply (represents_damage o sp m); [done| |done].
  intros id i Hi. destruct (stripe_has_shard o Hp sp m id i Hm Hi) as (j & _ & [b Hb]).
  destruct (rel_shard I (w_store w) m R _ b Hb) as ((Hid & Hst & _) & _).
  rewrite <- (good_count_disk d' m'); [by apply Hg|done..|lia|].
  destruct (total_spec o Hp) as (_ & ? & _). lia.
Qed.

(** C2. The object store on disk is a map. From an empty directory, through any
    calls of PutObject, GetObject and reading to the end, ObjectShards and
    DeleteObject, and any loss of shard files and rot of their payloads that
    leaves each stripe [k] valid shards, every call gets the answer of the
    specification. The conditions: no system call fails; every id has 1 to
    65535 bytes, and the names of their directories do not collide; the size a
    put announces is an int64 and at most 2^32-1 stripes; buffers are not
    empty; a rotten payload keeps its length and fails its checksum. *)
Theorem disk_store_is_map sp w c :
  rtc disk_life (no_objects, mkWorld ∅ empty_disk) (sp, w) -> object_call_ok o c -> I (call_id c) ->
  (do_object o c w).1 = (spec_call o c sp).1.
Proof.
  intros Hl Hok Hid. apply disk_answers; [done..|].
  pose proof disk_holds_empty as H0. revert H0.
  induction Hl as [|x y z Hxy _ IH]; [done|]. intros H0. by apply IH, (disk_holds_step x).
Qed.
End disk.

(** * At work, on the XOR engine *)

Lemma a_in_ab : "a"%string ∈ ["a"; "b"]%string.
Proof. left. Qed.

Lemma disk_store_is_map_witness :
  let w1 := (do_object ex_store (ex_put "shards") (mkWorld (RS := XorRS) ∅ empty_disk)).2 in
  let w2 := mkWorld (w_cache w1) (os_Remove (objectDir "a") (shardFileName (mkKey "a" 1 0)) (w_store w1)).2 in
  let w3 := (do_object ex_store (ex_put "new") w2).2 in
  (do_object ex_store (GetCall "a" (fun _ => 3%nat)) w3).1
    = Stream (OK (6, (bytes_of_string "newds", None))).
Proof.
  cbv zeta. set (w1 := (do_object _ (ex_put "shards") _).2). set (w2 := mkWorld _ _).
  set (w3 := (do_object _ _ w2).2).
  set (sp1 := (spec_call ex_store (ex_put "shards") no_objects).2).
  set (sp2 := (spec_call ex_store (ex_put "new") sp1).2).
  transitivity ((spec_call ex_store (GetCall "a" (fun _ => 3%nat)) sp2).1); [|vm_compute; reflexivity].
  apply (disk_store_is_map (LAWS := ex_laws) ex_store ex_params ltac:(done) _ ids_ok_ab sp2 w3);
    [|split; [done|]; intros _; lia|exact a_in_ab].
  apply rtc_l with (sp1, w1); [apply (disk_call _ _ (ex_put "shards")); [apply ex_put_ok; vm_compute; done|exact a_in_ab]|].
  apply rtc_l with (sp1, w2); [apply disk_decay|].
  - destruct (remove_spec (objectDir "a") (shardFileName (mkKey "a" 1 0)) (w_store w1)) as (d' & E & H1 & H2).
    apply run_state in E. rewrite E in H1, H2. apply (disk_lose _ _ (mkKey "a" 1 0)); [|exact H1|exact H2].
    split; [exact a_in_ab|]. unfold inU. cbn. lia.
  - intros id i [-> [-> | ->]]%ex_stored; vm_compute; done.
  - apply rtc_once. apply (disk_call _ _ (ex_put "new")); [apply ex_put_ok; vm_compute; done|exact a_in_ab].
Defined.
