(* ===== verification/Utf8.v ===== *)
(** Text as the Go standard library sees it: a string is a sequence of bytes,
    read as UTF-8 (unicode/utf8), and the characters that XML allows
    (encoding/xml). *)
From S2P Require Import Prelude Binary.

(** * unicode/utf8 *)

(** A rune and the bytes it was read from. A byte that starts no rune is read
    as U+FFFD, of width 1. *)
Definition rune : Type := Z * bytes.

Definition RuneError : Z := 65533.

Definition in_range (lo hi : Z) (b : byte) : bool := (lo <=? byte_val b) && (byte_val b <=? hi).

Definition continuation (b : byte) : bool := in_range 128 191 b.

(** The bytes that may come second, after a first byte of value [v]. *)
Definition second (v : Z) : byte -> bool :=
  if v =? 224 then in_range 160 191
  else if v =? 237 then in_range 128 159
  else if v =? 240 then in_range 144 191
  else if v =? 244 then in_range 128 143
  else continuation.

(** How many bytes a rune has that starts with a byte of value [v]; 0 if none does. *)
Definition rune_len (v : Z) : nat :=
  if v <? 128 then 1 else if v <? 194 then 0 else if v <? 224 then 2
  else if v <? 240 then 3 else if v <? 245 then 4 else 0.

Definition low6 (b : byte) : Z := Z.land (byte_val b) 63.

(** utf8.DecodeRune, again and again. *)
Fixpoint runes (s : bytes) : list rune :=
  match s with
  | [] => []
  | b0 :: s1 =>
      let v := byte_val b0 in
      let bad := (RuneError, [b0]) :: runes s1 in
      match rune_len v with
      | 1%nat => (v, [b0]) :: runes s1
      | 2%nat =>
          match s1 with
          | b1 :: s2 =>
              if second v b1 then (Z.lor (Z.shiftl (Z.land v 31) 6) (low6 b1), [b0; b1]) :: runes s2 else bad
          | _ => bad
          end
      | 3%nat =>
          match s1 with
          | b1 :: b2 :: s3 =>
              if second v b1 && continuation b2 then
                (Z.lor (Z.lor (Z.shiftl (Z.land v 15) 12) (Z.shiftl (low6 b1) 6)) (low6 b2), [b0; b1; b2])
                :: runes s3
              else bad
          | _ => bad
          end
      | 4%nat =>
          match s1 with
          | b1 :: b2 :: b3 :: s4 =>
              if second v b1 && continuation b2 && continuation b3 then
                (Z.lor (Z.lor (Z.lor (Z.shiftl (Z.land v 7) 18) (Z.shiftl (low6 b1) 12))
                   (Z.shiftl (low6 b2) 6)) (low6 b3), [b0; b1; b2; b3])
                :: runes s4
              else bad
          | _ => bad
          end
      | _ => bad
      end
  end.

(** Read from one byte that starts no rune. *)
Definition broken (x : rune) : bool := (x.1 =? RuneError) && (length x.2 =? 1)%nat.

Definition replacement : bytes := [xef; xbf; xbd].

(** utf8.EncodeRune *)
Definition EncodeRune (r : Z) : bytes :=
  if r <? 128 then [byte_of_Z r]
  else if r <? 2048 then [byte_of_Z (192 + r / 64); byte_of_Z (128 + r mod 64)]
  else if r <? 65536 then
    [byte_of_Z (224 + r / 4096); byte_of_Z (128 + r / 64 mod 64); byte_of_Z (128 + r mod 64)]
  else [byte_of_Z (240 + r / 262144); byte_of_Z (128 + r / 4096 mod 64); byte_of_Z (128 + r / 64 mod 64);
        byte_of_Z (128 + r mod 64)].

(** * Characters of XML *)

(** isInCharacterRange *)
Definition isInCharacterRange (r : Z) : bool :=
  (r =? 9) || (r =? 10) || (r =? 13) || ((32 <=? r) && (r <=? 55295)) ||
  ((57344 <=? r) && (r <=? 65533)) || ((65536 <=? r) && (r <=? 1114111)).

Definition xml_char (x : rune) : bool := isInCharacterRange x.1 && negb (broken x).

(** Text as XML can carry it: everything else is replaced by U+FFFD. *)
Definition clean (s : bytes) : bytes :=
  concat (map (fun x => if xml_char x then x.2 else replacement) (runes s)).

(** Text that XML carries unchanged. *)
Definition xml_text (s : bytes) : bool := forallb xml_char (runes s).

(** * Properties *)


(** A rune of one byte below 128, a byte that starts no rune, or a rune of
    several bytes from 128 on. A rune is read in the same way whatever follows. *)
Inductive rune_ok : rune -> Prop :=
  | rune_ascii b : byte_val b < 128 -> rune_ok (byte_val b, [b])
  | rune_broken b : 128 <= byte_val b -> rune_ok (RuneError, [b])
  | rune_wide r raw : 128 <= r -> raw = EncodeRune r -> (2 <= length raw)%nat -> Forall (fun b => 128 <= byte_val b) raw ->
      (forall s, runes (raw ++ s) = (r, raw) :: runes s) -> rune_ok (r, raw).

Lemma in_range_spec lo hi b : in_range lo hi b = true <-> lo <= byte_val b <= hi.
Proof. unfold in_range. rewrite andb_true_iff, !Z.leb_le. done. Qed.

Lemma continuation_high b : continuation b = true -> 128 <= byte_val b.
Proof. intros [H _]%in_range_spec. done. Qed.

Lemma second_high v b : second v b = true -> 128 <= byte_val b.
Proof. unfold second, continuation. repeat case_match; intros ?%in_range_spec; lia. Qed.

Lemma rune_len_high v n : rune_len v = n -> n <> 1%nat -> 128 <= v.
Proof. unfold rune_len. destruct (Z.ltb_spec v 128); [by intros <-|lia]. Qed.

Lemma rune_len_ascii v : rune_len v = 1%nat -> v < 128.
Proof. unfold rune_len. destruct (Z.ltb_spec v 128); [done|]. by repeat case_match. Qed.

(** ** The runes of several bytes, in arithmetic *)

Lemma lor_low a b n : 0 <= n -> 0 <= b < 2 ^ n -> Z.lor (Z.shiftl a n) b = a * 2 ^ n + b.
Proof.
  intros Hn Hb. rewrite <- (Z.shiftl_mul_pow2 a n Hn).
  assert (Z.land (Z.shiftl a n) b = 0) as H0; [|by rewrite Z.add_nocarry_lxor, Z.lxor_lor].
  apply Z.bits_inj'. intros i Hi. rewrite Z.land_spec, Z.bits_0. destruct (Z.ltb_spec i n).
  - by rewrite Z.shiftl_spec_low.
  - by rewrite <- (Z.mod_small b (2 ^ n) Hb), Z.mod_pow2_bits_high, andb_false_r by lia.
Qed.

Lemma continuation_low b : continuation b = true -> low6 b = byte_val b - 128.
Proof. destruct b; vm_compute; congruence. Qed.

Lemma second_continuation v b : second v b = true -> continuation b = true.
Proof.
  unfold second, continuation. repeat case_match; intros ?%in_range_spec; apply in_range_spec; lia.
Qed.

(** The ranges of the second byte exclude overlong forms and surrogates. *)
Lemma second_low v b : second v b = true -> (v = 224 -> 160 <= byte_val b) /\ (v = 240 -> 144 <= byte_val b).
Proof.
  unfold second, continuation. repeat case_match; intros ?%in_range_spec; lia.
Qed.

Lemma lead2 b : rune_len (byte_val b) = 2%nat -> Z.land (byte_val b) 31 = byte_val b - 192 /\ 194 <= byte_val b < 224.
Proof. destruct b; vm_compute; first [congruence|intros _; split; [done|split; congruence]]. Qed.

Lemma lead3 b : rune_len (byte_val b) = 3%nat -> Z.land (byte_val b) 15 = byte_val b - 224 /\ 224 <= byte_val b < 240.
Proof. destruct b; vm_compute; first [congruence|intros _; split; [done|split; congruence]]. Qed.

Lemma lead4 b : rune_len (byte_val b) = 4%nat -> Z.land (byte_val b) 7 = byte_val b - 240 /\ 240 <= byte_val b < 245.
Proof. destruct b; vm_compute; first [congruence|intros _; split; [done|split; congruence]]. Qed.

Lemma continuation_spec b : continuation b = true -> 128 <= byte_val b < 192.
Proof. intros ?%in_range_spec. lia. Qed.

Lemma byte_of_Z_eq z b : z = byte_val b -> byte_of_Z z = b.
Proof. intros ->. apply byte_of_Z_val. Qed.

Lemma rune2_spec b0 b1 : rune_len (byte_val b0) = 2%nat -> second (byte_val b0) b1 = true ->
  let r := Z.lor (Z.shiftl (Z.land (byte_val b0) 31) 6) (low6 b1) in 128 <= r /\ [b0; b1] = EncodeRune r.
Proof.
  intros [E H0]%lead2 H1%second_continuation. pose proof (continuation_spec b1 H1). cbv zeta.
  rewrite E, (continuation_low b1 H1), lor_low by lia. split; [lia|].
  unfold EncodeRune. destruct (Z.ltb_spec ((byte_val b0 - 192) * 2 ^ 6 + (byte_val b1 - 128)) 128); [lia|].
  destruct (Z.ltb_spec ((byte_val b0 - 192) * 2 ^ 6 + (byte_val b1 - 128)) 2048); [|lia].
  symmetry. do 2 (apply (f_equal2 cons); [apply byte_of_Z_eq; Z.div_mod_to_equations; lia|]). done.
Qed.

Lemma rune3_spec b0 b1 b2 : rune_len (byte_val b0) = 3%nat -> second (byte_val b0) b1 = true ->
  continuation b2 = true ->
  let r := Z.lor (Z.lor (Z.shiftl (Z.land (byte_val b0) 15) 12) (Z.shiftl (low6 b1) 6)) (low6 b2) in
  128 <= r /\ [b0; b1; b2] = EncodeRune r.
Proof.
  intros [E H0]%lead3 H1 H2. pose proof (second_low _ _ H1) as [Hl _]. apply second_continuation in H1.
  pose proof (continuation_spec b1 H1). pose proof (continuation_spec b2 H2). cbv zeta.
  assert (Z.lor (Z.lor (Z.shiftl (Z.land (byte_val b0) 15) 12) (Z.shiftl (low6 b1) 6)) (low6 b2)
    = (byte_val b0 - 224) * 4096 + (byte_val b1 - 128) * 64 + (byte_val b2 - 128)) as ->.
  { rewrite E, (continuation_low b1 H1), (continuation_low b2 H2).
    rewrite (Z.shiftl_mul_pow2 (byte_val b1 - 128)) by lia. rewrite lor_low by lia.
    replace ((byte_val b0 - 224) * 2 ^ 12 + (byte_val b1 - 128) * 2 ^ 6)
      with (Z.shiftl ((byte_val b0 - 224) * 64 + (byte_val b1 - 128)) 6) by (rewrite Z.shiftl_mul_pow2; lia).
    rewrite lor_low by lia. lia. }
  split; [lia|]. unfold EncodeRune. set (r := _ + (byte_val b2 - 128)).
  destruct (Z.ltb_spec r 128); [lia|]. destruct (Z.ltb_spec r 2048); [lia|].
  destruct (Z.ltb_spec r 65536); [|lia]. symmetry. do 3 (apply (f_equal2 cons); [apply byte_of_Z_eq; Z.div_mod_to_equations; lia|]). done.
Qed.

Lemma rune4_spec b0 b1 b2 b3 : rune_len (byte_val b0) = 4%nat -> second (byte_val b0) b1 = true ->
  continuation b2 = true -> continuation b3 = true ->
  let r := Z.lor (Z.lor (Z.lor (Z.shiftl (Z.land (byte_val b0) 7) 18) (Z.shiftl (low6 b1) 12))
             (Z.shiftl (low6 b2) 6)) (low6 b3) in
  128 <= r /\ [b0; b1; b2; b3] = EncodeRune r.
Proof.
  intros [E H0]%lead4 H1 H2 H3. pose proof (second_low _ _ H1) as [_ Hl]. apply second_continuation in H1.
  pose proof (continuation_spec b1 H1). pose proof (continuation_spec b2 H2).
  pose proof (continuation_spec b3 H3). cbv zeta.
  assert (Z.lor (Z.lor (Z.lor (Z.shiftl (Z.land (byte_val b0) 7) 18) (Z.shiftl (low6 b1) 12))
      (Z.shiftl (low6 b2) 6)) (low6 b3)
    = (byte_val b0 - 240) * 262144 + (byte_val b1 - 128) * 4096 + (byte_val b2 - 128) * 64 + (byte_val b3 - 128))
    as ->.
  { rewrite E, (continuation_low b1 H1), (continuation_low b2 H2), (continuation_low b3 H3).
    rewrite (Z.shiftl_mul_pow2 (byte_val b1 - 128)), (Z.shiftl_mul_pow2 (byte_val b2 - 128)) by lia.
    rewrite lor_low by lia.
    replace ((byte_val b0 - 240) * 2 ^ 18 + (byte_val b1 - 128) * 2 ^ 12)
      with (Z.shiftl ((byte_val b0 - 240) * 64 + (byte_val b1 - 128)) 12) by (rewrite Z.shiftl_mul_pow2; lia).
    rewrite lor_low by lia.
    replace (((byte_val b0 - 240) * 64 + (byte_val b1 - 128)) * 2 ^ 12 + (byte_val b2 - 128) * 2 ^ 6)
      with (Z.shiftl ((byte_val b0 - 240) * 4096 + (byte_val b1 - 128) * 64 + (byte_val b2 - 128)) 6)
      by (rewrite Z.shiftl_mul_pow2; lia).
    rewrite lor_low by lia. lia. }
  split; [lia|]. unfold EncodeRune. set (r := _ + (byte_val b3 - 128)).
  destruct (Z.ltb_spec r 128); [lia|]. destruct (Z.ltb_spec r 2048); [lia|].
  destruct (Z.ltb_spec r 65536); [lia|]. symmetry. do 4 (apply (f_equal2 cons); [apply byte_of_Z_eq; Z.div_mod_to_equations; lia|]). done.
Qed.

Lemma runes_step b0 s1 : exists x s', b0 :: s1 = x.2 ++ s' /\ runes (b0 :: s1) = x :: runes s' /\ rune_ok x.
Proof.
  assert (128 <= byte_val b0 -> runes (b0 :: s1) = (RuneError, [b0]) :: runes s1 ->
    exists x s', b0 :: s1 = x.2 ++ s' /\ runes (b0 :: s1) = x :: runes s' /\ rune_ok x) as Hbad.
  { intros Hh Hr. exists (RuneError, [b0]), s1. split_and!; [done..|by apply rune_broken]. }
  assert (forall r raw s', 128 <= r -> raw = EncodeRune r -> (2 <= length raw)%nat -> Forall (fun b => 128 <= byte_val b) raw ->
    (forall s, runes (raw ++ s) = (r, raw) :: runes s) -> b0 :: s1 = raw ++ s' ->
    exists x s', b0 :: s1 = x.2 ++ s' /\ runes (b0 :: s1) = x :: runes s' /\ rune_ok x) as Hwide.
  { intros r raw s' Hr128 Henc Hl Hf Hr E. exists (r, raw), s'. rewrite E. split_and!; [done..|by apply rune_wide]. }
  destruct (rune_len (byte_val b0)) as [|[|[|[|[|n]]]]] eqn:E;
    [|exists (byte_val b0, [b0]), s1; split_and!;
      [done|cbn [runes]; by rewrite E|by apply rune_ascii, rune_len_ascii]|..];
    pose proof (rune_len_high _ _ E ltac:(done)) as Hh.
  - apply Hbad; [done|]. cbn [runes]. by rewrite E.
  - destruct s1 as [|b1 s2]; [apply Hbad; [done|]; cbn [runes]; by rewrite E|].
    destruct (second (byte_val b0) b1) eqn:E1; [|apply Hbad; [done|]; cbn [runes]; by rewrite E, E1].
    eapply (Hwide _ [b0; b1] s2); [by apply (rune2_spec b0 b1)|by apply (rune2_spec b0 b1)|done| |intros s; cbn [runes app]; by rewrite E, E1|done].
    repeat constructor; eauto using second_high.
  - destruct s1 as [|b1 [|b2 s3]]; [apply Hbad; [done|]; cbn [runes]; by rewrite E..|].
    destruct (second (byte_val b0) b1 && continuation b2) eqn:E1;
      [|apply Hbad; [done|]; cbn [runes]; by rewrite E, E1].
    pose proof E1 as [E2 E3]%andb_true_iff.
    eapply (Hwide _ [b0; b1; b2] s3);
      [by apply (rune3_spec b0 b1 b2)|by apply (rune3_spec b0 b1 b2)|cbn; lia| |intros s; cbn [runes app]; by rewrite E, E1|done]. repeat constructor; eauto using second_high, continuation_high.
  - destruct s1 as [|b1 [|b2 [|b3 s4]]]; [apply Hbad; [done|]; cbn [runes]; by rewrite E..|].
    destruct (second (byte_val b0) b1 && continuation b2 && continuation b3) eqn:E1;
      [|apply Hbad; [done|]; cbn [runes]; by rewrite E, E1].
    pose proof E1 as [[E2 E3]%andb_true_iff E4]%andb_true_iff.
    eapply (Hwide _ [b0; b1; b2; b3] s4);
      [by apply (rune4_spec b0 b1 b2 b3)|by apply (rune4_spec b0 b1 b2 b3)|cbn; lia| |intros s; cbn [runes app]; by rewrite E, E1|done].
    repeat constructor; eauto using second_high, continuation_high.
  - apply Hbad; [done|]. cbn [runes]. by rewrite E.
Qed.

(** Induction over the runes of a string. *)
Lemma runes_ind (P : bytes -> Prop) :
  P [] -> (forall x s, rune_ok x -> runes (x.2 ++ s) = x :: runes s -> P s -> P (x.2 ++ s)) -> forall s, P s.
Proof.
  intros H0 Hs s. induction s as [s IH] using (Nat.measure_induction _ (@length byte)).
  destruct s as [|b s1]; [done|]. destruct (runes_step b s1) as (x & s' & E & Hr & Hx).
  rewrite E in *. apply Hs; [done..|]. apply IH. rewrite length_app.
  destruct Hx as [b' _|b' _|r raw _ _ Hl _ _]; cbn [snd length]; lia.
Qed.

Lemma concat_runes s : concat (map snd (runes s)) = s.
Proof. induction s as [|x s _ Hr IH] using runes_ind; [done|]. rewrite Hr. cbn. by rewrite IH. Qed.

Lemma clean_id s : xml_text s = true -> clean s = s.
Proof.
  unfold xml_text, clean. induction s as [|x s _ Hr IH] using runes_ind; [done|]. rewrite Hr. cbn [map concat forallb].
  intros [-> H]%andb_true_iff. by rewrite IH.
Qed.

(** What [clean] leaves is text that XML carries. *)
Lemma clean_text s : xml_text (clean s) = true.
Proof.
  induction s as [|x s Hx Hr IH] using runes_ind; [done|].
  unfold clean. rewrite Hr. cbn [map concat]. fold (clean s).
  assert (xml_text (replacement ++ clean s) = true) as Hrep by exact IH.
  destruct (xml_char x) eqn:E; [|done]. unfold xml_text.
  assert (runes (x.2 ++ clean s) = x :: runes (clean s)) as ->; [|cbn [forallb]; by rewrite E].
  destruct Hx as [b Hb|b Hb|r raw _ _ _ _ H]; [|done|apply H].
  cbn [snd app runes]. unfold rune_len. destruct (Z.ltb_spec (byte_val b) 128); [done|lia].
Qed.

Lemma clean_nil s : clean s = [] -> s = [].
Proof.
  induction s as [|x s Hx Hr _] using runes_ind; [done|]. unfold clean. rewrite Hr. cbn [map concat].
  intros [H _]%app_eq_nil. destruct (xml_char x); [|done].
  destruct Hx as [b Hb|b Hb|r raw _ _ Hl _ _]; [done..|]. cbn in *. subst. cbn in Hl. lia.
Qed.

(** Text of printable ASCII characters. *)
Lemma ascii_text s : Forall (fun b => 32 <= byte_val b < 128) s -> xml_text s = true.
Proof.
  induction 1 as [|b s Hb _ IH]; [done|]. unfold xml_text. cbn [runes]. unfold rune_len.
  destruct (Z.ltb_spec (byte_val b) 128); [|lia]. cbn [forallb]. fold (xml_text s). rewrite IH, andb_true_r.
  unfold xml_char, isInCharacterRange, broken, RuneError. cbn [fst snd length].
  destruct (Z.leb_spec 32 (byte_val b)), (Z.leb_spec (byte_val b) 55295), (Z.eqb_spec (byte_val b) 65533);
    lia.
Qed.
