(* ===== verification/Xml.v ===== *)
(** Documents as encoding/xml writes them: elements without attributes, in the
    order of the fields of a struct, with escaped text; and a reader of such
    documents, the reference the writer is held against. *)
From S2P Require Import Prelude Binary Utf8.

(** * Trees and their text *)

#[warnings="-register-all"]
Inductive xml :=
  | Elem (name : string) (kids : list xml)
  | Text (s : bytes).

(** xml.EscapeText *)
Definition escape_rune (x : rune) : bytes :=
  if x.1 =? 34 then bytes_of_string "&#34;"
  else if x.1 =? 39 then bytes_of_string "&#39;"
  else if x.1 =? 38 then bytes_of_string "&amp;"
  else if x.1 =? 60 then bytes_of_string "&lt;"
  else if x.1 =? 62 then bytes_of_string "&gt;"
  else if x.1 =? 9 then bytes_of_string "&#x9;"
  else if x.1 =? 10 then bytes_of_string "&#xA;"
  else if x.1 =? 13 then bytes_of_string "&#xD;"
  else if xml_char x then x.2 else replacement.

Definition EscapeText (s : bytes) : bytes := concat (map escape_rune (runes s)).

Definition open_tag (name : string) : bytes := "<"%byte :: bytes_of_string name ++ [">"%byte].
Definition close_tag (name : string) : bytes := "<"%byte :: "/"%byte :: bytes_of_string name ++ [">"%byte].

Fixpoint print (t : xml) : bytes :=
  match t with
  | Elem name kids => open_tag name ++ concat (map print kids) ++ close_tag name
  | Text s => EscapeText s
  end.

(** * A reader *)

(** The entities and character references that EscapeText writes. *)
Definition entities : list (bytes * byte) :=
  [(bytes_of_string "&#34;", x22); (bytes_of_string "&#39;", x27); (bytes_of_string "&amp;", x26);
   (bytes_of_string "&lt;", x3c); (bytes_of_string "&gt;", x3e); (bytes_of_string "&#x9;", x09);
   (bytes_of_string "&#xA;", x0a); (bytes_of_string "&#xD;", x0d)].

Fixpoint strip (pre l : bytes) : option bytes :=
  match pre, l with
  | [], _ => Some l
  | a :: pre', b :: l' => if bool_decide (a = b) then strip pre' l' else None
  | _ :: _, [] => None
  end.

Fixpoint entity (es : list (bytes * byte)) (l : bytes) : option (byte * bytes) :=
  match es with
  | [] => None
  | (e, b) :: es' => match strip e l with Some l' => Some (b, l') | None => entity es' l end
  end.

(** Character data up to the next tag. *)
Fixpoint read_text (fuel : nat) (l : bytes) : option (bytes * bytes) :=
  match fuel, l with
  | _, [] => Some ([], [])
  | O, _ => None
  | S fuel', b :: l' =>
      if bool_decide (b = "<"%byte) then Some ([], l)
      else if bool_decide (b = "&"%byte) then
        '(c, l1) ← entity entities l; '(s, l2) ← read_text fuel' l1; Some (c :: s, l2)
      else '(s, l2) ← read_text fuel' l'; Some (b :: s, l2)
  end.

(** The name of a tag, up to the bracket that closes it. *)
Fixpoint read_name (l : bytes) : option (bytes * bytes) :=
  match l with
  | [] => None
  | b :: l' => if bool_decide (b = ">"%byte) then Some ([], l')
               else '(n, l1) ← read_name l'; Some (b :: n, l1)
  end.

(** The contents of an element, up to the closing tag of its parent. *)
Fixpoint read_kids (fuel : nat) (l : bytes) : option (list xml * bytes) :=
  match fuel with
  | O => None
  | S fuel' =>
      match l with
      | [] => Some ([], [])
      | "<"%byte :: "/"%byte :: _ => Some ([], l)
      | "<"%byte :: l1 =>
          '(name, l2) ← read_name l1;
          '(kids, l3) ← read_kids fuel' l2;
          l4 ← strip (close_tag (string_of_bytes name)) l3;
          '(rest, l5) ← read_kids fuel' l4;
          Some (Elem (string_of_bytes name) kids :: rest, l5)
      | _ =>
          '(s, l1) ← read_text (length l) l;
          '(rest, l2) ← read_kids fuel' l1;
          Some (Text s :: rest, l2)
      end
  end.

(** A document: one element, and nothing after it. *)
Definition parse (l : bytes) : option xml :=
  match read_kids (S (length l)) l with
  | Some ([Elem name kids], []) => Some (Elem name kids)
  | _ => None
  end.

(** * Well-formed trees *)

Definition name_byte (b : byte) : bool :=
  in_range 48 57 b || in_range 65 90 b || in_range 97 122 b.

Definition name_ok (name : string) : bool :=
  negb (bool_decide (name = ""%string)) && forallb name_byte (bytes_of_string name).

Definition is_text (t : xml) : bool := match t with Text _ => true | _ => false end.

(** An element has one non-empty text in it, or elements only. *)
Fixpoint tree_ok (t : xml) : bool :=
  match t with
  | Elem name kids =>
      name_ok name &&
      match kids with
      | [Text s] => negb (bool_decide (s = []))
      | _ => forallb (fun k => negb (is_text k) && tree_ok k) kids
      end
  | Text s => negb (bool_decide (s = []))
  end.

(** The tree a reader sees: characters that XML cannot carry are replaced. *)
Fixpoint clean_tree (t : xml) : xml :=
  match t with
  | Elem name kids => Elem name (map clean_tree kids)
  | Text s => Text (clean s)
  end.

(** Every text of the tree is text that XML carries. *)
Fixpoint tree_text (t : xml) : bool :=
  match t with
  | Elem _ kids => forallb tree_text kids
  | Text s => xml_text s
  end.

(** * Writing and reading text *)

(** Reading [l] gives the text [s] and stops at [k]. *)
Definition reads (l s k : bytes) : Prop := forall fuel, (length l <= fuel)%nat -> read_text fuel l = Some (s, k).

(** The end of a text: the end of the input, or a tag. *)
Definition at_tag (k : bytes) : Prop := match k with [] => True | b :: _ => b = "<"%byte end.

Lemma reads_end k : at_tag k -> reads k [] k.
Proof. intros Hk fuel Hf. destruct k as [|b k]; [by destruct fuel|]. cbn in Hk. subst. destruct fuel; [cbn in Hf; lia|done]. Qed.

Lemma reads_byte b l s k : b <> "<"%byte -> b <> "&"%byte -> reads l s k -> reads (b :: l) (b :: s) k.
Proof.
  intros H1 H2 H [|fuel] Hf; cbn in Hf; [lia|]. cbn [read_text].
  rewrite !bool_decide_eq_false_2 by done. by rewrite H by lia.
Qed.

Lemma reads_raw raw l s k : Forall (fun b => b <> "<"%byte /\ b <> "&"%byte) raw -> reads l s k ->
  reads (raw ++ l) (raw ++ s) k.
Proof. induction 1 as [|b raw [H1 H2] _ IH]; [done|]. intros H. by apply reads_byte, IH. Qed.

Lemma entity_ok e c : (e, c) ∈ entities ->
  (exists e', e = "&"%byte :: e') /\ forall l, entity entities (e ++ l) = Some (c, l).
Proof.
  intros He. unfold entities in He.
  repeat (apply elem_of_cons in He as [[= -> ->]|He]; [split; [by eexists|intros l; vm_compute; reflexivity]|]).
  by apply not_elem_of_nil in He.
Qed.

Lemma reads_entity e c l s k : (e, c) ∈ entities -> reads l s k -> reads (e ++ l) (c :: s) k.
Proof.
  intros [[e' ->] He]%entity_ok H [|fuel] Hf; cbn [app length] in Hf; rewrite length_app in Hf; [lia|].
  specialize (He l). cbn [app] in *. cbn [read_text].
  rewrite bool_decide_eq_false_2, bool_decide_eq_true_2 by done. rewrite He. cbn. by rewrite H by lia.
Qed.

Lemma byte_val_inj b c : byte_val b = byte_val c -> b = c.
Proof. intros H. by rewrite <- (byte_of_Z_val b), H, byte_of_Z_val. Qed.

Lemma high_bytes raw : Forall (fun b => 128 <= byte_val b) raw -> Forall (fun b => b <> "<"%byte /\ b <> "&"%byte) raw.
Proof. intros H. eapply Forall_impl; [exact H|]. intros b Hb. split; intros ->; vm_compute in Hb; done. Qed.

Ltac special b E :=
  match type of E with byte_val _ = ?n => assert (b = byte_of_Z n) by (by apply byte_val_inj; rewrite E) end; subst b.

(** What EscapeText writes is read back as the text, rune by rune. *)
Lemma reads_rune x l s k : rune_ok x -> reads l s k ->
  reads (escape_rune x ++ l) ((if xml_char x then x.2 else replacement) ++ s) k.
Proof.
  intros Hx H.
  assert (reads (replacement ++ l) (replacement ++ s) k) as Hrep.
  { apply reads_raw; [|done]. apply high_bytes. repeat constructor; vm_compute; congruence. }
  destruct Hx as [b Hb|b Hb|r raw Hr _ Hl Hh _]; [|exact Hrep|].
  - unfold escape_rune. cbn [fst snd].
    repeat match goal with |- context [if ?v =? ?n then _ else _] =>
      destruct (Z.eqb_spec v n) as [E|?]; [special b E; by apply reads_entity; [repeat first [by left|right]|]|] end.
    destruct (xml_char _); [|done]. apply reads_byte; [intros ->..|done];
      match goal with H : byte_val "<" <> 60 |- _ => by destruct H
                    | H : byte_val "&" <> 38 |- _ => by destruct H end.
  - unfold escape_rune. cbn [fst snd].
    repeat match goal with |- context [if ?v =? ?n then _ else _] => destruct (Z.eqb_spec v n) as [E|?]; [lia|] end.
    destruct (xml_char _); [|done]. by apply reads_raw; [apply high_bytes|].
Qed.

Lemma reads_text s k : at_tag k -> reads (EscapeText s ++ k) (clean s) k.
Proof.
  intros Hk. induction s as [|x s Hx Hr IH] using runes_ind; [by apply reads_end|].
  unfold EscapeText, clean. rewrite Hr. cbn [map concat]. rewrite <- app_assoc. by apply reads_rune.
Qed.

Lemma escape_first s : s <> [] -> exists b l, EscapeText s = b :: l /\ b <> "<"%byte.
Proof.
  destruct s as [|b0 s]; [done|]. intros _. destruct (runes_step b0 s) as (x & s' & _ & Hr & Hx).
  unfold EscapeText. rewrite Hr. cbn [map concat].
  assert (exists b l, escape_rune x = b :: l /\ b <> "<"%byte) as (b & l & -> & Hb); [|by eexists _, _].
  unfold escape_rune.
  repeat match goal with |- context [if ?v =? ?n then _ else _] =>
    destruct (Z.eqb_spec v n) as [E|?]; [by eexists _, _|] end.
  destruct (xml_char x); [|by eexists _, _].
  destruct Hx as [b Hb|b Hb|r raw Hr128 _ Hl Hh _]; cbn [fst snd] in *.
  - eexists _, _. split; [done|]. intros ->. match goal with H : byte_val "<" <> 60 |- _ => by destruct H end.
  - eexists _, _. split; [done|]. intros ->. by vm_compute in Hb.
  - apply high_bytes in Hh. destruct Hh as [|b raw' [Hb _] _]; [cbn in Hl; lia|]. by eexists _, _.
Qed.

(** * Reading trees *)

(** The end of the contents of an element: the end of the input, or a closing tag. *)
Definition at_close (k : bytes) : Prop := match k with [] => True | b :: k' => b = "<"%byte /\ exists k2, k' = "/"%byte :: k2 end.

(** Reading [l] as contents gives [ts] and stops at [k]. *)
Definition reads_kids (l : bytes) (ts : list xml) (k : bytes) : Prop :=
  forall fuel, (length l < fuel)%nat -> read_kids fuel l = Some (ts, k).

Lemma reads_kids_end k : at_close k -> reads_kids k [] k.
Proof. intros Hk [|fuel] Hf; [lia|]. destruct k as [|b k]; [done|]. by destruct Hk as [-> [k2 ->]]. Qed.

Lemma read_kids_text fuel b l : b <> "<"%byte ->
  read_kids (S fuel) (b :: l)
  = '(s, l1) ← read_text (length (b :: l)) (b :: l); '(rest, l2) ← read_kids fuel l1; Some (Text s :: rest, l2).
Proof. destruct b; done. Qed.

Lemma reads_kids_text s k : s <> [] -> at_close k -> reads_kids (EscapeText s ++ k) [Text (clean s)] k.
Proof.
  intros Hs Hk [|fuel] Hf; [lia|].
  assert (at_tag k) as Ht by (destruct k; [done|apply Hk]).
  pose proof (reads_text s k Ht _ (le_n _)) as Hr. destruct (escape_first s Hs) as (b & l & E & Hb).
  rewrite E in *. cbn [app] in *. rewrite read_kids_text by done. rewrite Hr. cbn.
  rewrite (reads_kids_end k Hk) by (cbn in Hf; rewrite length_app in Hf; lia). done.
Qed.

Lemma name_byte_not b : name_byte b = true -> b <> ">"%byte /\ b <> "/"%byte.
Proof. intros H. split; intros ->; by vm_compute in H. Qed.

Lemma read_name_ok n l : forallb name_byte n = true -> read_name (n ++ ">"%byte :: l) = Some (n, l).
Proof.
  induction n as [|b n IH]; cbn [forallb app read_name]; [done|].
  intros [[H _]%name_byte_not Hn]%andb_true_iff. rewrite bool_decide_eq_false_2 by done. by rewrite IH.
Qed.

Lemma strip_app pre l : strip pre (pre ++ l) = Some l.
Proof. induction pre as [|b pre IH]; [done|]. cbn. by rewrite bool_decide_eq_true_2. Qed.

Lemma read_kids_elem fuel b l : b <> "/"%byte ->
  read_kids (S fuel) ("<"%byte :: b :: l)
  = '(name, l2) ← read_name (b :: l); '(kids, l3) ← read_kids fuel l2;
    l4 ← strip (close_tag (string_of_bytes name)) l3; '(rest, l5) ← read_kids fuel l4;
    Some (Elem (string_of_bytes name) kids :: rest, l5).
Proof. destruct b; done. Qed.

Lemma reads_kids_elem name kids ts l rest k : name_ok name = true ->
  (forall k', at_close k' -> reads_kids (concat (map print kids) ++ k') ts k') ->
  reads_kids l rest k -> reads_kids (print (Elem name kids) ++ l) (Elem name ts :: rest) k.
Proof.
  intros [Hn Hb]%andb_true_iff Hk Hr [|fuel] Hf; [lia|]. cbn [print] in *. unfold open_tag in *.
  apply negb_true_iff, bool_decide_eq_false in Hn.
  destruct (bytes_of_string name) as [|b n] eqn:E; [by destruct name|].
  pose proof Hb as [[_ Hs]%name_byte_not _]%andb_true_iff.
  rewrite <- !app_assoc in *. cbn [app] in *. rewrite <- !app_assoc in *. cbn [app] in *.
  rewrite read_kids_elem by done.
  pose proof (fun l' => read_name_ok (b :: n) l' Hb) as Hname. cbn [app] in Hname. rewrite Hname.
  cbn [mbind option_bind].
  rewrite <- E, string_bytes_string. cbn [length] in Hf. rewrite !length_app in Hf. cbn [length] in Hf.
  rewrite (Hk (close_tag name ++ l)); [|split; [done|by eexists]|lia]. rewrite !length_app in Hf.
  cbn [mbind option_bind]. rewrite strip_app. cbn [mbind option_bind]. rewrite Hr by lia. done.
Qed.

(** Induction over trees. *)
Lemma xml_kids_ind (P : xml -> Prop) :
  (forall s, P (Text s)) -> (forall name kids, Forall P kids -> P (Elem name kids)) -> forall t, P t.
Proof.
  intros HT HE. fix IH 1. intros [name kids|s]; [|apply HT]. apply HE.
  induction kids as [|t kids IHk]; constructor; [apply IH|exact IHk].
Qed.

Lemma reads_tree t : tree_ok t = true -> is_text t = false -> forall l rest k,
  reads_kids l rest k -> reads_kids (print t ++ l) (clean_tree t :: rest) k.
Proof.
  induction t as [s|name kids IH] using xml_kids_ind; [done|]. cbn [tree_ok].
  intros [Hn Hk]%andb_true_iff _ l rest k Hr. cbn [clean_tree]. apply reads_kids_elem; [done| |done].
  intros k' Hk'.
  assert ((exists s, kids = [Text s] /\ s <> []) \/ forallb (fun k => negb (is_text k) && tree_ok k) kids = true)
    as [(s & -> & Hs)|Hf].
  { destruct kids as [|[name' kids'|s] [|t' kids2]]; try by right. left. exists s. split; [done|].
    by apply negb_true_iff, bool_decide_eq_false in Hk. }
  - cbn. rewrite app_nil_r. by apply reads_kids_text.
  - clear Hk Hr. induction IH as [|t kids Ht _ IHk]; [by apply reads_kids_end|].
    cbn [forallb map concat] in *. apply andb_true_iff in Hf as [[Ht1 Ht2]%andb_true_iff Hf].
    rewrite <- app_assoc. apply Ht; [done|by apply negb_true_iff|]. by apply IHk.
Qed.

(** What encoding/xml writes is read back: for every document made of elements
    with a text or with elements in them, the text is a well-formed document,
    and a reader recovers its tree from the bytes, whatever bytes the texts
    contain. No text can be mistaken for markup; characters that XML cannot
    carry arrive as U+FFFD, all others as they were. *)
Lemma parse_print_tree t : tree_ok t = true -> is_text t = false ->
  parse (print t) = Some (clean_tree t) /\ (tree_text t = true -> clean_tree t = t).
Proof.
  intros Ht Hn. split.
  - unfold parse. pose proof (reads_tree t Ht Hn [] [] [] (reads_kids_end [] Logic.I)) as H.
    rewrite app_nil_r in H. rewrite H by lia. by destruct t.
  - clear Ht Hn. induction t as [s|name kids IH] using xml_kids_ind; cbn [tree_text clean_tree].
    + intros H. by rewrite clean_id.
    + intros H. f_equal. induction IH as [|t kids Ht _ IHk]; [done|]. cbn [forallb map] in *.
      apply andb_true_iff in H as [H1 H2]. by rewrite Ht, IHk.
Qed.
