(* ===== verification/Json.v ===== *)
(** What encoding/json makes of a string (the health response has two), and a
    reader of such strings. *)
From S2P Require Import Prelude Binary FileNames Utf8.

(** * Writing *)

Definition quote : byte := x22.
Definition backslash : byte := x5c.

(** A \u escape with four digits. *)
Definition escape_u (r : Z) : bytes := backslash :: "u"%byte :: digits 16 4 r.

(** One rune of appendString, with HTML escaping, as Encoder does by default. *)
Definition json_rune (x : rune) : bytes :=
  let r := x.1 in
  if (r =? 34) || (r =? 92) then backslash :: x.2
  else if r =? 8 then [backslash; "b"%byte]
  else if r =? 12 then [backslash; "f"%byte]
  else if r =? 10 then [backslash; "n"%byte]
  else if r =? 13 then [backslash; "r"%byte]
  else if r =? 9 then [backslash; "t"%byte]
  else if (r <? 32) || (r =? 60) || (r =? 62) || (r =? 38) then escape_u r
  else if broken x then escape_u RuneError
  else if (r =? 8232) || (r =? 8233) then escape_u r
  else x.2.

Definition json_string (s : bytes) : bytes := quote :: concat (map json_rune (runes s)) ++ [quote].

(** Text as JSON can carry it: bytes that are no UTF-8 are replaced. *)
Definition json_clean (s : bytes) : bytes :=
  concat (map (fun x => if broken x then replacement else x.2) (runes s)).

(** * Reading *)

(** The character of an escape of one letter. *)
Definition unescape (b : byte) : option byte :=
  if bool_decide (b = quote) || bool_decide (b = backslash) then Some b
  else if bool_decide (b = "b"%byte) then Some x08
  else if bool_decide (b = "f"%byte) then Some x0c
  else if bool_decide (b = "n"%byte) then Some x0a
  else if bool_decide (b = "r"%byte) then Some x0d
  else if bool_decide (b = "t"%byte) then Some x09
  else None.

(** The rest of a string, up to its quote. *)
Fixpoint read_string (fuel : nat) (l : bytes) : option (bytes * bytes) :=
  match fuel, l with
  | S fuel', b :: l' =>
      if bool_decide (b = quote) then Some ([], l')
      else if bool_decide (b = backslash) then
        match l' with
        | c :: l1 =>
            if bool_decide (c = "u"%byte) then
              '(s, l2) ← read_string fuel' (drop 4 l1);
              if forallb (is_digit 16) (take 4 l1) && (4 <=? length l1)%nat
              then Some (EncodeRune (number 16 (take 4 l1)) ++ s, l2) else None
            else d ← unescape c; '(s, l2) ← read_string fuel' l1; Some (d :: s, l2)
        | [] => None
        end
      else '(s, l2) ← read_string fuel' l'; Some (b :: s, l2)
  | _, _ => None
  end.

Definition parse_string (l : bytes) : option (bytes * bytes) :=
  match l with
  | b :: l' => if bool_decide (b = quote) then read_string (length l') l' else None
  | [] => None
  end.

(** * The string is read back *)

Definition reads_string (l s k : bytes) : Prop :=
  forall fuel, (length l <= fuel)%nat -> read_string fuel l = Some (s, k).

Lemma reads_quote k : reads_string (quote :: k) [] k.
Proof. intros [|fuel] Hf; cbn in Hf; [lia|done]. Qed.

Lemma reads_plain raw l s k : Forall (fun b => b <> quote /\ b <> backslash) raw -> reads_string l s k ->
  reads_string (raw ++ l) (raw ++ s) k.
Proof.
  induction 1 as [|b raw [H1 H2] _ IH]; [done|]. intros H [|fuel] Hf; cbn in Hf; [lia|].
  cbn [app read_string]. rewrite !bool_decide_eq_false_2 by done. by rewrite (IH H) by lia.
Qed.

Lemma reads_escape c d l s k : unescape c = Some d -> reads_string l s k ->
  reads_string (backslash :: c :: l) (d :: s) k.
Proof.
  intros Hc H [|fuel] Hf; cbn [length] in Hf; [lia|]. cbn [read_string].
  rewrite bool_decide_eq_false_2, bool_decide_eq_true_2 by done.
  rewrite bool_decide_eq_false_2 by (intros ->; by vm_compute in Hc). rewrite Hc. cbn [mbind option_bind].
  by rewrite H by lia.
Qed.

Lemma reads_u r l s k : 0 <= r < 65536 -> reads_string l s k ->
  reads_string (escape_u r ++ l) (EncodeRune r ++ s) k.
Proof.
  intros Hr H [|fuel] Hf; unfold escape_u in *; cbn [app length] in Hf; [lia|].
  rewrite length_app, length_digits in Hf. cbn [app read_string].
  rewrite bool_decide_eq_false_2, !bool_decide_eq_true_2 by done.
  rewrite drop_app_length', take_app_length' by (by rewrite length_digits). rewrite H by lia.
  assert (forallb (is_digit 16) (digits 16 4 r) = true) as ->.
  { apply forallb_forall. intros x Hx.
    by apply (proj1 (List.Forall_forall _ _) (digits_are_digits 16 4 r ltac:(lia))). }
  rewrite number_digits, Z.mod_small by lia. rewrite length_app, length_digits. done.
Qed.

Lemma plain_high raw : Forall (fun b => 128 <= byte_val b) raw -> Forall (fun b => b <> quote /\ b <> backslash) raw.
Proof. intros H. eapply Forall_impl; [exact H|]. intros b Hb. split; intros ->; vm_compute in Hb; done. Qed.

Lemma encode_ascii b : byte_val b < 128 -> EncodeRune (byte_val b) = [b].
Proof. intros H. unfold EncodeRune. destruct (Z.ltb_spec (byte_val b) 128); [by rewrite byte_of_Z_val|lia]. Qed.

Ltac is_byte b E :=
  match type of E with _ = ?n => assert (b = byte_of_Z n) by (by rewrite <- E, byte_of_Z_val) end; subst b.

Lemma reads_json_ascii b l s k : byte_val b < 128 -> reads_string l s k ->
  reads_string (json_rune (byte_val b, [b]) ++ l) (b :: s) k.
Proof.
  intros Hb H. pose proof (byte_val_range b). unfold json_rune. cbn [fst snd].
  destruct (Z.eqb_spec (byte_val b) 34) as [E|N34]; [is_byte b E; by apply reads_escape|].
  destruct (Z.eqb_spec (byte_val b) 92) as [E|N92]; [is_byte b E; by apply reads_escape|]. cbn [orb].
  do 5 (match goal with |- context [byte_val b =? ?n] =>
    destruct (Z.eqb_spec (byte_val b) n) as [E|?]; [is_byte b E; by apply reads_escape|] end).
  destruct ((byte_val b <? 32) || _ || _ || _).
  - change (b :: s) with ([b] ++ s). rewrite <- (encode_ascii b Hb). apply reads_u; [lia|done].
  - assert (broken (byte_val b, [b]) = false) as ->.
    { unfold broken, RuneError. cbn [fst]. by rewrite (proj2 (Z.eqb_neq _ _)) by lia. }
    rewrite !(proj2 (Z.eqb_neq _ _)) by lia. cbn [orb]. apply (reads_plain [b]); [|done].
    constructor; [|done]. split; intros ->; [by destruct N34|by destruct N92].
Qed.

Lemma reads_json_rune x l s k : rune_ok x -> reads_string l s k ->
  reads_string (json_rune x ++ l) ((if broken x then replacement else x.2) ++ s) k.
Proof.
  intros Hx H. destruct Hx as [b Hb|b Hb|r raw Hr Henc Hl Hh _].
  - assert (broken (byte_val b, [b]) = false) as ->; [|by apply reads_json_ascii].
    unfold broken, RuneError. cbn [fst]. by rewrite (proj2 (Z.eqb_neq _ _)) by lia.
  - apply (reads_u RuneError); [vm_compute; split; congruence|done].
  - assert (broken (r, raw) = false) as Hbr.
    { unfold broken. cbn [snd]. destruct (Nat.eqb_spec (length raw) 1); [lia|by rewrite andb_false_r]. }
    unfold json_rune. rewrite Hbr. cbn [fst snd].
    do 10 (rewrite (proj2 (Z.eqb_neq r _)) by lia; cbn [orb]). rewrite (proj2 (Z.ltb_ge r 32)) by lia. cbn [orb].
    destruct ((r =? 8232) || (r =? 8233)) eqn:E; [|by apply reads_plain; [apply plain_high|]].
    rewrite Henc. apply reads_u; [lia|done].
Qed.

(** A string in a JSON document survives the wire: what encoding/json writes
    for it is one JSON string, which ends where it ends, and a reader gets the
    string back; bytes that are no UTF-8 arrive as U+FFFD. *)
Lemma parse_json_string s k : parse_string (json_string s ++ k) = Some (json_clean s, k).
Proof.
  unfold json_string. cbn [app]. rewrite <- app_assoc. cbn [app parse_string].
  rewrite bool_decide_eq_true_2 by done.
  assert (reads_string (concat (map json_rune (runes s)) ++ quote :: k) (json_clean s) k) as H; [|by apply H].
  induction s as [|x s Hx Hr IH] using runes_ind; [apply reads_quote|].
  unfold json_clean. rewrite Hr. cbn [map concat]. rewrite <- app_assoc. by apply reads_json_rune.
Qed.

Lemma json_clean_id s : xml_text s = true -> json_clean s = s.
Proof.
  unfold xml_text, json_clean. induction s as [|x s _ Hr IH] using runes_ind; [done|].
  rewrite Hr. cbn [map concat forallb]. unfold xml_char at 1.
  intros [[_ ->%negb_true_iff]%andb_true_iff H]%andb_true_iff. by rewrite IH.
Qed.
