(* ===== verification/Http.v ===== *)
(** What internal/api uses of the Go standard library: string functions of
    strings and strconv, and net/http requests and response writers. A body
    that is an XML or JSON document is kept as a value here; ApiText has its
    text. *)
From S2P Require Import Prelude Binary FileNames.

(** * strings and strconv *)

(** strings.CutPrefix *)
Fixpoint cut_prefix (pre s : string) : option string :=
  match pre, s with
  | EmptyString, _ => Some s
  | String a pre', String b s' => if bool_decide (a = b) then cut_prefix pre' s' else None
  | String _ _, EmptyString => None
  end.

Definition HasPrefix (s pre : string) : bool := match cut_prefix pre s with Some _ => true | None => false end.
Definition TrimPrefix (s pre : string) : string := default s (cut_prefix pre s).

(** The part before the first [c], and the part after it if there is one. *)
Fixpoint cut_at (c : ascii) (s : string) : string * option string :=
  match s with
  | EmptyString => (EmptyString, None)
  | String b s' =>
      if bool_decide (b = c) then (EmptyString, Some s')
      else let '(x, y) := cut_at c s' in (String b x, y)
  end.

(** strings.SplitN(s, sep, n) for [n > 0] and a one-byte separator. *)
Fixpoint SplitN (s : string) (sep : ascii) (n : nat) : list string :=
  match n with
  | O => []
  | S O => [s]
  | S n' => match cut_at sep s with
            | (x, None) => [x]
            | (x, Some y) => x :: SplitN y sep n'
            end
  end.

(** strings.HasSuffix and strings.Contains, for the arguments in use. *)
Fixpoint ends_with (s : string) (c : ascii) : bool :=
  match s with
  | EmptyString => false
  | String b EmptyString => bool_decide (b = c)
  | String _ s' => ends_with s' c
  end.

Fixpoint Contains (s sub : string) : bool :=
  HasPrefix s sub || match s with EmptyString => false | String _ s' => Contains s' sub end.

Fixpoint all_bytes (p : ascii -> bool) (s : string) : bool :=
  match s with EmptyString => true | String b s' => p b && all_bytes p s' end.

Definition strlen (s : string) : Z := Z.of_nat (String.length s).

(** strconv.FormatInt(z, 10) and fmt's [%d]; fmt's [%x]. Sixteen hexadecimal
    or twenty decimal digits hold every int64. *)
Definition format (base : Z) (z : Z) : string :=
  if z <? 0 then String "-" (string_of_bytes (digits base (width base 20 (- z)) (- z)))
  else string_of_bytes (digits base (width base 20 z) z).
Definition FormatInt (z : Z) : string := format 10 z.
Definition format_x (z : Z) : string := format 16 z.

(** strconv.Atoi, strconv.ParseInt(s, 10, 64): an optional sign and decimal
    digits, within 64 bits; [None] is an error. *)
Definition parse_int (neg : bool) (l : bytes) : option Z :=
  match l with
  | [] => None
  | _ => if forallb (is_digit 10) l then
           let z := if neg then - number 10 l else number 10 l in
           if (- 2 ^ 63 <=? z) && (z <? 2 ^ 63) then Some z else None
         else None
  end.

Definition Atoi (s : string) : option Z :=
  match bytes_of_string s with
  | x2b :: l => parse_int false l
  | x2d :: l => parse_int true l
  | l => parse_int false l
  end.

(** * net/http *)

(** A request as the handlers see it. [rq_segments] are the segments of the
    escaped path, each unescaped, so that a segment may contain a slash that
    was written %2F; URL.Path is their concatenation. net/http answers paths
    that are not clean (empty, "." or ".." segments) by a redirect itself.
    Header and query maps hold the first value of each key. *)
Record Request := mkRequest {
  rq_Method : string;
  rq_segments : list string;
  rq_Header : gmap string string;
  rq_Query : gmap string string;
  rq_Body : Reader;
  rq_ContentLength : Z;
}.

Definition URL_Path (r : Request) : string :=
  match rq_segments r with
  | [] => "/"
  | segs => fold_right (fun seg rest => "/" +:+ seg +:+ rest) "" segs
  end.

(** Header.Get, Query().Get: the empty string for a key that is not there. *)
Definition get (m : gmap string string) (key : string) : string := default ""%string (m !! key).
Definition header_Get (r : Request) (key : string) : string := get (rq_Header r) key.
Definition query_Get (r : Request) (key : string) : string := get (rq_Query r) key.

(** http.ResponseWriter: WriteHeader takes a snapshot of the header map, and
    header changes after it have no effect on the response; a second
    WriteHeader is ignored; a Write without WriteHeader sends 200 first. *)
Record ResponseWriter (D : Type) := mkRW {
  rw_header : gmap string string;
  rw_sent : option (Z * gmap string string);
  rw_body : list D;
}.
Arguments mkRW {D} _ _ _.
Arguments rw_header {D} _.
Arguments rw_sent {D} _.
Arguments rw_body {D} _.

Section rw.
Context {D : Type}.

Definition rw_new : ResponseWriter D := mkRW ∅ None [].

Definition rw_Set (key value : string) (w : ResponseWriter D) : ResponseWriter D :=
  mkRW (<[key := value]> (rw_header w)) (rw_sent w) (rw_body w).

Definition rw_WriteHeader (code : Z) (w : ResponseWriter D) : ResponseWriter D :=
  match rw_sent w with
  | Some _ => w
  | None => mkRW (rw_header w) (Some (code, rw_header w)) (rw_body w)
  end.

Definition rw_Write (d : D) (w : ResponseWriter D) : ResponseWriter D :=
  let w := rw_WriteHeader 200 w in mkRW (rw_header w) (rw_sent w) (rw_body w ++ [d]).

(** What the client gets when the handler has returned. *)
Definition rw_finish (w : ResponseWriter D) : Z * gmap string string * list D :=
  match rw_sent w with
  | Some (code, hs) => (code, hs, rw_body w)
  | None => (200, rw_header w, rw_body w)
  end.
End rw.

(** * Lemmas *)

Lemma cut_prefix_app pre s : cut_prefix pre (pre +:+ s) = Some s.
Proof.
  induction pre as [|a pre IH]; [done|]. simpl. rewrite bool_decide_eq_true_2 by done. exact IH.
Qed.

Lemma cut_prefix_Some pre s r : cut_prefix pre s = Some r -> s = pre +:+ r.
Proof.
  revert s. induction pre as [|a pre IH]; intros s; simpl; [by intros [= ->]|].
  destruct s as [|b s]; [done|]. case_bool_decide as E; [|done]. subst. intros H%IH. by subst.
Qed.

Lemma HasPrefix_app pre s : HasPrefix (pre +:+ s) pre = true.
Proof. unfold HasPrefix. by rewrite cut_prefix_app. Qed.

(** A string without [c]. *)
Definition no_byte (c : ascii) (s : string) : bool := all_bytes (fun b => negb (bool_decide (b = c))) s.

Lemma cut_at_none c s : no_byte c s = true -> cut_at c s = (s, None).
Proof.
  unfold no_byte. induction s as [|b s IH]; [done|]. simpl. case_bool_decide; [done|].
  intros Hs. by rewrite IH.
Qed.

Lemma cut_at_app c s r : no_byte c s = true -> cut_at c (s +:+ String c r) = (s, Some r).
Proof.
  unfold no_byte. induction s as [|b s IH]; simpl; [by rewrite bool_decide_eq_true_2|].
  case_bool_decide; [done|]. intros Hs. by rewrite IH.
Qed.

(** ** Numbers *)

Lemma format_digits base z : 1 < base <= 16 -> 0 <= z < base ^ 20 ->
  let l := digits base (width base 20 z) z in
  number base l = z /\ Forall (fun b => is_digit base b = true) l /\ l <> [].
Proof.
  intros Hb Hz. pose proof (width_spec base 20 z ltac:(lia) Hz). pose proof (width_pos base 20 z ltac:(lia)).
  split_and!; [rewrite number_digits by lia; by apply Z.mod_small|by apply digits_are_digits; lia|].
  intros E. apply (f_equal length) in E. rewrite length_digits in E. cbn [length] in E. lia.
Qed.

(** The decimal digits of a number, behind a sign or not, are read as the number. *)
Lemma Atoi_digits (neg : bool) l : l <> [] -> Forall (fun b => is_digit 10 b = true) l ->
  - 2 ^ 63 <= (if neg then - number 10 l else number 10 l) < 2 ^ 63 ->
  Atoi (string_of_bytes (if neg then x2d :: l else l)) = Some (if neg then - number 10 l else number 10 l).
Proof.
  intros Hl Hd Hr. unfold Atoi. rewrite string_bytes_id.
  assert (parse_int neg l = Some (if neg then - number 10 l else number 10 l)) as Hp.
  { unfold parse_int.
    assert (forallb (is_digit 10) l = true) as ->
      by (apply forallb_forall; intros x Hx; by eapply (proj1 (List.Forall_forall _ _) Hd)).
    destruct l; [done|]. cbv zeta. set (z := if neg then _ else _) in *.
    destruct (Z.leb_spec (- 2 ^ 63) z), (Z.ltb_spec z (2 ^ 63)); lia || done. }
  destruct neg; [exact Hp|]. destruct l as [|b l]; [done|]. apply Forall_cons in Hd as [Hb _].
  assert (b <> x2b /\ b <> x2d) as [H1 H2] by (split; intros ->; done).
  by destruct b.
Qed.

Lemma Atoi_range v n : Atoi v = Some n -> inS 64 n.
Proof.
  assert (forall neg l, parse_int neg l = Some n -> inS 64 n) as H.
  { intros neg [|b l]; [done|]. unfold parse_int, inS. destruct (forallb _ _); [|done]. cbv zeta.
    destruct (_ && _) eqn:E; [|done]. intros [= <-]. lia. }
  unfold Atoi. destruct (bytes_of_string v) as [|b l]; [done|]. destruct b; apply H.
Qed.

Lemma Atoi_FormatInt z : inS 64 z -> Atoi (FormatInt z) = Some z.
Proof.
  unfold inS. intros Hz. unfold FormatInt, format. destruct (Z.ltb_spec z 0).
  - destruct (format_digits 10 (- z)) as (H1 & H2 & H3); [lia..|].
    pose proof (Atoi_digits true _ H3 H2) as Ha. rewrite H1, Z.opp_involutive in Ha. apply Ha. lia.
  - destruct (format_digits 10 z) as (H1 & H2 & H3); [lia..|].
    pose proof (Atoi_digits false _ H3 H2) as Ha. rewrite H1 in Ha. apply Ha. lia.
Qed.

Lemma format_ascii base z : base = 10 \/ base = 16 -> inS 64 z ->
  Forall (fun b => 32 <= byte_val b < 128) (bytes_of_string (format base z)).
Proof.
  intros Hbase Hz. unfold inS in Hz.
  assert (forall z, 0 <= z < 10 ^ 20 ->
    Forall (fun b => 32 <= byte_val b < 128) (digits base (width base 20 z) z)) as H.
  { intros z' Hz'. destruct (format_digits base z') as (_ & H & _); [lia|destruct Hbase as [-> | ->]; lia|].
    eapply Forall_impl; [exact H|]. intros b Hb. unfold is_digit, byte_digit in Hb.
    repeat (case_match; simplify_eq); try done; lia. }
  unfold format. destruct (Z.ltb_spec z 0); [|rewrite string_bytes_id; apply H; lia].
  change (Forall (fun b => 32 <= byte_val b < 128)
    (x2d :: bytes_of_string (string_of_bytes (digits base (width base 20 (- z)) (- z))))).
  rewrite string_bytes_id.
  constructor; [vm_compute; split; congruence|]. apply H. lia.
Qed.
