(* ===== verification/S3Types.v ===== *)
(** internal/api/s3_types.go: the documents of the S3 interface, with the
    fields and element names of their struct tags, and how encoding/xml writes
    them. Reading them back is the reference: it takes the fields from the
    tree as xml.Unmarshal does. *)
From S2P Require Import Prelude Binary FileNames Http Utf8 Xml.

(** * Structs as elements *)

(** The contents of an element with a string in it. *)
Definition chars (s : string) : list xml :=
  if bool_decide (s = ""%string) then [] else [Text (bytes_of_string s)].

Definition elem (name s : string) : xml := Elem name (chars s).

(** The option omitempty. *)
Definition elem_omitempty (name s : string) : list xml :=
  if bool_decide (s = ""%string) then [] else [elem name s].

Definition FormatBool (b : bool) : string := if b then "true" else "false".
Definition elem_int (name : string) (z : Z) : xml := elem name (FormatInt z).
Definition elem_bool (name : string) (b : bool) : xml := elem name (FormatBool b).
Definition elem_bool_omitempty (name : string) (b : bool) : list xml := if b then [elem_bool name b] else [].

(** The contents of the elements with a name. *)
Fixpoint kids_named (name : string) (ks : list xml) : list (list xml) :=
  match ks with
  | [] => []
  | Elem n kids :: ks' => if String.eqb name n then kids :: kids_named name ks' else kids_named name ks'
  | Text _ :: ks' => kids_named name ks'
  end.

Definition string_of (ks : list xml) : string :=
  match ks with [Text s] => string_of_bytes s | _ => "" end.

(** A field is taken from the last element with its name; it is the zero value
    if there is none. *)
Definition child (name : string) (ks : list xml) : list xml := default [] (last (kids_named name ks)).
Definition get_string (name : string) (ks : list xml) : string := string_of (child name ks).

Definition get_int (name : string) (ks : list xml) : option Z :=
  match get_string name ks with ""%string => Some 0 | s => Atoi s end.

Definition get_bool (name : string) (ks : list xml) : option bool :=
  match get_string name ks with
  | "true"%string => Some true | "false"%string | ""%string => Some false | _ => None end.

(** A struct as the contents of an element, and back. *)
Class XMLStruct (A : Type) := {
  xml_fields : A -> list xml;
  xml_read : list xml -> option A;
}.

(** The name of a struct that is a document, from the tag of XMLName. *)
Class XMLRoot (A : Type) := { root_name : string; root_ok : name_ok root_name = true }.

Definition elem_struct {A} `{XMLStruct A} (name : string) (a : A) : xml := Elem name (xml_fields a).
Definition elems {A} `{XMLStruct A} (name : string) (l : list A) : list xml := map (elem_struct name) l.
Definition get_struct {A} `{XMLStruct A} (name : string) (ks : list xml) : option A := xml_read (child name ks).
Definition get_list {A} `{XMLStruct A} (name : string) (ks : list xml) : option (list A) :=
  mapM xml_read (kids_named name ks).

(** xml.NewEncoder(w).Encode(v), and the reader of a client. *)
Definition marshal {A} `{XMLStruct A} `{XMLRoot A} (a : A) : bytes := print (Elem root_name (xml_fields a)).

Definition unmarshal {A} `{XMLStruct A} `{XMLRoot A} (b : bytes) : option A :=
  match parse b with
  | Some (Elem name ks) => if String.eqb name root_name then xml_read ks else None
  | _ => None
  end.

(** * The documents *)

Record S3ErrorResponse := mkS3Error {
  se_Code : string; se_Message : string; se_Resource : string; se_RequestID : string; se_HostID : string;
  se_BucketName : string; se_ObjectName : string;
}.

#[export] Instance S3ErrorResponse_xml : XMLStruct S3ErrorResponse := {
  xml_fields e :=
    [elem "Code" (se_Code e); elem "Message" (se_Message e); elem "Resource" (se_Resource e);
     elem "RequestId" (se_RequestID e); elem "HostId" (se_HostID e)]
    ++ elem_omitempty "BucketName" (se_BucketName e) ++ elem_omitempty "Key" (se_ObjectName e);
  xml_read ks :=
    Some (mkS3Error (get_string "Code" ks) (get_string "Message" ks) (get_string "Resource" ks)
      (get_string "RequestId" ks) (get_string "HostId" ks) (get_string "BucketName" ks) (get_string "Key" ks));
}.
#[export] Instance S3ErrorResponse_root : XMLRoot S3ErrorResponse :=
  {| root_name := "Error"; root_ok := eq_refl |}.

(** The error codes. *)
Definition ErrCodeInvalidRequest : string := "InvalidRequest".
Definition ErrCodeNoSuchBucket : string := "NoSuchBucket".
Definition ErrCodeBucketAlreadyExists : string := "BucketAlreadyExists".
Definition ErrCodeBucketAlreadyOwnedByYou : string := "BucketAlreadyOwnedByYou".
Definition ErrCodeNoSuchKey : string := "NoSuchKey".
Definition ErrCodeInvalidObjectState : string := "InvalidObjectState".
Definition ErrCodeMethodNotAllowed : string := "MethodNotAllowed".
Definition ErrCodeInvalidArgument : string := "InvalidArgument".
Definition ErrCodeInternalError : string := "InternalError".
Definition ErrCodeNotImplemented : string := "NotImplemented".
Definition ErrCodeAccessDenied : string := "AccessDenied".
Definition ErrCodeSignatureDoesNotMatch : string := "SignatureDoesNotMatch".
Definition ErrCodeInvalidAccessKeyId : string := "InvalidAccessKeyId".
Definition ErrCodeMissingContentLength : string := "MissingContentLength".
Definition ErrCodeEntityTooSmall : string := "EntityTooSmall".
Definition ErrCodeEntityTooLarge : string := "EntityTooLarge".
Definition ErrCodeBadDigest : string := "BadDigest".
Definition ErrCodeInvalidRange : string := "InvalidRange".
Definition ErrCodePreconditionFailed : string := "PreconditionFailed".

Record Bucket := mkBucket { bu_Name : string; bu_CreationDate : string }.

#[export] Instance Bucket_xml : XMLStruct Bucket := {
  xml_fields b := [elem "Name" (bu_Name b); elem "CreationDate" (bu_CreationDate b)];
  xml_read ks := Some (mkBucket (get_string "Name" ks) (get_string "CreationDate" ks));
}.

Record Owner := mkOwner { ow_ID : string; ow_DisplayName : string }.

#[export] Instance Owner_xml : XMLStruct Owner := {
  xml_fields o := [elem "ID" (ow_ID o); elem "DisplayName" (ow_DisplayName o)];
  xml_read ks := Some (mkOwner (get_string "ID" ks) (get_string "DisplayName" ks));
}.

(** The tag "Buckets>Bucket": the buckets are inside one element. *)
Record ListBucketsResult := mkListBuckets { lb_Owner : Owner; lb_Buckets : list Bucket }.

#[export] Instance ListBucketsResult_xml : XMLStruct ListBucketsResult := {
  xml_fields r := [elem_struct "Owner" (lb_Owner r); Elem "Buckets" (elems "Bucket" (lb_Buckets r))];
  xml_read ks :=
    owner ← get_struct "Owner" ks; buckets ← get_list "Bucket" (child "Buckets" ks);
    Some (mkListBuckets owner buckets);
}.
#[export] Instance ListBucketsResult_root : XMLRoot ListBucketsResult :=
  {| root_name := "ListAllMyBucketsResult"; root_ok := eq_refl |}.

(** A time.Time is kept as its text. *)
Record Object := mkObject {
  ob_Key : string; ob_LastModified : string; ob_ETag : string; ob_Size : Z;
  ob_StorageClass : string; ob_Owner : Owner;
}.

#[export] Instance Object_xml : XMLStruct Object := {
  xml_fields o :=
    [elem "Key" (ob_Key o); elem "LastModified" (ob_LastModified o); elem "ETag" (ob_ETag o);
     elem_int "Size" (ob_Size o); elem "StorageClass" (ob_StorageClass o); elem_struct "Owner" (ob_Owner o)];
  xml_read ks :=
    size ← get_int "Size" ks; owner ← get_struct "Owner" ks;
    Some (mkObject (get_string "Key" ks) (get_string "LastModified" ks) (get_string "ETag" ks) size
      (get_string "StorageClass" ks) owner);
}.

(** CommonPrefix has one field, its prefix. *)
Record CommonPrefix := mkCommonPrefix { cp_Prefix : string }.

#[export] Instance CommonPrefix_xml : XMLStruct CommonPrefix := {
  xml_fields p := [elem "Prefix" (cp_Prefix p)];
  xml_read ks := Some (mkCommonPrefix (get_string "Prefix" ks));
}.

Record ListObjectsV2Result := mkList {
  li_Name : string; li_Prefix : string; li_KeyCount : Z; li_MaxKeys : Z; li_Delimiter : string;
  li_IsTruncated : bool; li_NextContinuationToken : string; li_Contents : list Object;
  li_CommonPrefixes : list CommonPrefix;
}.

#[export] Instance ListObjectsV2Result_xml : XMLStruct ListObjectsV2Result := {
  xml_fields l :=
    [elem "Name" (li_Name l); elem "Prefix" (li_Prefix l); elem_int "KeyCount" (li_KeyCount l);
     elem_int "MaxKeys" (li_MaxKeys l); elem "Delimiter" (li_Delimiter l);
     elem_bool "IsTruncated" (li_IsTruncated l)]
    ++ elem_omitempty "NextContinuationToken" (li_NextContinuationToken l)
    ++ elems "Contents" (li_Contents l) ++ elems "CommonPrefixes" (li_CommonPrefixes l);
  xml_read ks :=
    count ← get_int "KeyCount" ks; max ← get_int "MaxKeys" ks; truncated ← get_bool "IsTruncated" ks;
    contents ← get_list "Contents" ks; prefixes ← get_list "CommonPrefixes" ks;
    Some (mkList (get_string "Name" ks) (get_string "Prefix" ks) count max (get_string "Delimiter" ks)
      truncated (get_string "NextContinuationToken" ks) contents prefixes);
}.
#[export] Instance ListObjectsV2Result_root : XMLRoot ListObjectsV2Result :=
  {| root_name := "ListBucketResult"; root_ok := eq_refl |}.

Record CreateMultipartUploadResult := mkCreateMultipart {
  cm_Bucket : string; cm_Key : string; cm_UploadID : string;
}.

#[export] Instance CreateMultipartUploadResult_xml : XMLStruct CreateMultipartUploadResult := {
  xml_fields c := [elem "Bucket" (cm_Bucket c); elem "Key" (cm_Key c); elem "UploadId" (cm_UploadID c)];
  xml_read ks :=
    Some (mkCreateMultipart (get_string "Bucket" ks) (get_string "Key" ks) (get_string "UploadId" ks));
}.
#[export] Instance CreateMultipartUploadResult_root : XMLRoot CreateMultipartUploadResult :=
  {| root_name := "InitiateMultipartUploadResult"; root_ok := eq_refl |}.

Record UploadPartResult := mkUploadPart { up_PartNumber : Z; up_ETag : string }.

#[export] Instance UploadPartResult_xml : XMLStruct UploadPartResult := {
  xml_fields u := [elem_int "PartNumber" (up_PartNumber u); elem "ETag" (up_ETag u)];
  xml_read ks := n ← get_int "PartNumber" ks; Some (mkUploadPart n (get_string "ETag" ks));
}.
#[export] Instance UploadPartResult_root : XMLRoot UploadPartResult :=
  {| root_name := "CopyPartResult"; root_ok := eq_refl |}.

Record CompleteMultipartUploadResult := mkCompleteMultipart {
  co_Location : string; co_Bucket : string; co_Key : string; co_ETag : string;
}.

#[export] Instance CompleteMultipartUploadResult_xml : XMLStruct CompleteMultipartUploadResult := {
  xml_fields c :=
    [elem "Location" (co_Location c); elem "Bucket" (co_Bucket c); elem "Key" (co_Key c);
     elem "ETag" (co_ETag c)];
  xml_read ks :=
    Some (mkCompleteMultipart (get_string "Location" ks) (get_string "Bucket" ks) (get_string "Key" ks)
      (get_string "ETag" ks));
}.
#[export] Instance CompleteMultipartUploadResult_root : XMLRoot CompleteMultipartUploadResult :=
  {| root_name := "CompleteMultipartUploadResult"; root_ok := eq_refl |}.

Record Initiator := mkInitiator { in_ID : string; in_DisplayName : string }.

#[export] Instance Initiator_xml : XMLStruct Initiator := {
  xml_fields o := [elem "ID" (in_ID o); elem "DisplayName" (in_DisplayName o)];
  xml_read ks := Some (mkInitiator (get_string "ID" ks) (get_string "DisplayName" ks));
}.

Record Part := mkS3Part { pt_PartNumber : Z; pt_LastModified : string; pt_ETag : string; pt_Size : Z }.

#[export] Instance Part_xml : XMLStruct Part := {
  xml_fields p :=
    [elem_int "PartNumber" (pt_PartNumber p); elem "LastModified" (pt_LastModified p);
     elem "ETag" (pt_ETag p); elem_int "Size" (pt_Size p)];
  xml_read ks :=
    n ← get_int "PartNumber" ks; size ← get_int "Size" ks;
    Some (mkS3Part n (get_string "LastModified" ks) (get_string "ETag" ks) size);
}.

Record ListPartsResult := mkListParts {
  lp_Bucket : string; lp_Key : string; lp_UploadID : string; lp_Initiator : Initiator; lp_Owner : Owner;
  lp_StorageClass : string; lp_PartNumberMarker : Z; lp_NextPartNumberMarker : Z; lp_MaxParts : Z;
  lp_IsTruncated : bool; lp_Parts : list Part;
}.

#[export] Instance ListPartsResult_xml : XMLStruct ListPartsResult := {
  xml_fields l :=
    [elem "Bucket" (lp_Bucket l); elem "Key" (lp_Key l); elem "UploadId" (lp_UploadID l);
     elem_struct "Initiator" (lp_Initiator l); elem_struct "Owner" (lp_Owner l);
     elem "StorageClass" (lp_StorageClass l); elem_int "PartNumberMarker" (lp_PartNumberMarker l);
     elem_int "NextPartNumberMarker" (lp_NextPartNumberMarker l); elem_int "MaxParts" (lp_MaxParts l);
     elem_bool "IsTruncated" (lp_IsTruncated l)]
    ++ elems "Part" (lp_Parts l);
  xml_read ks :=
    initiator ← get_struct "Initiator" ks; owner ← get_struct "Owner" ks;
    marker ← get_int "PartNumberMarker" ks; next ← get_int "NextPartNumberMarker" ks;
    max ← get_int "MaxParts" ks; truncated ← get_bool "IsTruncated" ks; parts ← get_list "Part" ks;
    Some (mkListParts (get_string "Bucket" ks) (get_string "Key" ks) (get_string "UploadId" ks) initiator owner
      (get_string "StorageClass" ks) marker next max truncated parts);
}.
#[export] Instance ListPartsResult_root : XMLRoot ListPartsResult :=
  {| root_name := "ListPartsResult"; root_ok := eq_refl |}.

Record DeletedObject := mkDeleted {
  de_Key : string; de_VersionId : string; de_DeleteMarker : bool; de_DeleteMarkerVersionId : string;
}.

#[export] Instance DeletedObject_xml : XMLStruct DeletedObject := {
  xml_fields d :=
    elem "Key" (de_Key d) :: elem_omitempty "VersionId" (de_VersionId d)
    ++ elem_bool_omitempty "DeleteMarker" (de_DeleteMarker d)
    ++ elem_omitempty "DeleteMarkerVersionId" (de_DeleteMarkerVersionId d);
  xml_read ks :=
    marker ← get_bool "DeleteMarker" ks;
    Some (mkDeleted (get_string "Key" ks) (get_string "VersionId" ks) marker
      (get_string "DeleteMarkerVersionId" ks));
}.

Record DeleteError := mkDeleteError {
  dr_Key : string; dr_VersionId : string; dr_Code : string; dr_Message : string;
}.

#[export] Instance DeleteError_xml : XMLStruct DeleteError := {
  xml_fields d :=
    elem "Key" (dr_Key d) :: elem_omitempty "VersionId" (dr_VersionId d)
    ++ [elem "Code" (dr_Code d); elem "Message" (dr_Message d)];
  xml_read ks :=
    Some (mkDeleteError (get_string "Key" ks) (get_string "VersionId" ks) (get_string "Code" ks)
      (get_string "Message" ks));
}.

Record DeleteResult := mkDeleteResult { dl_Deleted : list DeletedObject; dl_Errors : list DeleteError }.

#[export] Instance DeleteResult_xml : XMLStruct DeleteResult := {
  xml_fields d := elems "Deleted" (dl_Deleted d) ++ elems "Error" (dl_Errors d);
  xml_read ks :=
    deleted ← get_list "Deleted" ks; errors ← get_list "Error" ks; Some (mkDeleteResult deleted errors);
}.
#[export] Instance DeleteResult_root : XMLRoot DeleteResult :=
  {| root_name := "DeleteResult"; root_ok := eq_refl |}.

Record ObjectToDelete := mkObjectToDelete { od_Key : string; od_VersionId : string }.

#[export] Instance ObjectToDelete_xml : XMLStruct ObjectToDelete := {
  xml_fields d := elem "Key" (od_Key d) :: elem_omitempty "VersionId" (od_VersionId d);
  xml_read ks := Some (mkObjectToDelete (get_string "Key" ks) (get_string "VersionId" ks));
}.

Record Delete := mkDelete { dq_Quiet : bool; dq_Objects : list ObjectToDelete }.

#[export] Instance Delete_xml : XMLStruct Delete := {
  xml_fields d := elem_bool "Quiet" (dq_Quiet d) :: elems "Object" (dq_Objects d);
  xml_read ks :=
    quiet ← get_bool "Quiet" ks; objects ← get_list "Object" ks; Some (mkDelete quiet objects);
}.
#[export] Instance Delete_root : XMLRoot Delete :=
  {| root_name := "Delete"; root_ok := eq_refl |}.

(** The request body of a complete call (api.go). *)
Record CompleteMultipartPart := mkPart { pa_PartNumber : Z; pa_ETag : string }.

#[export] Instance CompleteMultipartPart_xml : XMLStruct CompleteMultipartPart := {
  xml_fields p := [elem_int "PartNumber" (pa_PartNumber p); elem "ETag" (pa_ETag p)];
  xml_read ks := n ← get_int "PartNumber" ks; Some (mkPart n (get_string "ETag" ks));
}.

Record CompleteMultipartUpload := mkComplete { cu_Parts : list CompleteMultipartPart }.

#[export] Instance CompleteMultipartUpload_xml : XMLStruct CompleteMultipartUpload := {
  xml_fields c := elems "Part" (cu_Parts c);
  xml_read ks := parts ← get_list "Part" ks; Some (mkComplete parts);
}.
#[export] Instance CompleteMultipartUpload_root : XMLRoot CompleteMultipartUpload :=
  {| root_name := "CompleteMultipartUpload"; root_ok := eq_refl |}.

(** * Reading fields *)

Lemma named_elem name n ks l :
  kids_named name (Elem n ks :: l) = if String.eqb name n then ks :: kids_named name l else kids_named name l.
Proof. done. Qed.

Lemma named_app name l1 l2 : kids_named name (l1 ++ l2) = kids_named name l1 ++ kids_named name l2.
Proof.
  induction l1 as [|[n ks|s] l1 IH]; [done| |exact IH]. cbn [app kids_named]. rewrite IH. by case_match.
Qed.

Lemma named_elems {A} `{XMLStruct A} name n (l : list A) :
  kids_named name (elems n l) = if String.eqb name n then map xml_fields l else [].
Proof.
  induction l as [|a l IH]; cbn [elems map]; [by case_match|]. unfold elem_struct at 1.
  rewrite named_elem. fold (elems n l). rewrite IH. by case_match.
Qed.

Lemma named_omitempty name n s :
  kids_named name (elem_omitempty n s)
  = if String.eqb name n then if bool_decide (s = ""%string) then [] else [chars s] else [].
Proof. unfold elem_omitempty. case_bool_decide; [by case_match|]. cbn [kids_named elem]. done. Qed.

Lemma named_bool_omitempty name n b :
  kids_named name (elem_bool_omitempty n b)
  = if String.eqb name n then if b then [chars "true"] else [] else [].
Proof. destruct b; cbn [elem_bool_omitempty kids_named elem_bool elem FormatBool]; by case_match. Qed.

Lemma string_of_chars s : string_of (chars s) = s.
Proof. unfold chars. case_bool_decide; [by subst|]. apply string_bytes_string. Qed.

Lemma get_string_child name ks s : kids_named name ks = [chars s] -> get_string name ks = s.
Proof. unfold get_string, child. intros ->. apply string_of_chars. Qed.

Lemma get_string_omitempty name ks s :
  kids_named name ks = (if bool_decide (s = ""%string) then [] else [chars s]) -> get_string name ks = s.
Proof. unfold get_string, child. intros ->. case_bool_decide; [by subst|apply string_of_chars]. Qed.

Lemma get_int_child name ks z : kids_named name ks = [chars (FormatInt z)] -> inS 64 z -> get_int name ks = Some z.
Proof.
  intros H Hz. unfold get_int. rewrite (get_string_child _ _ _ H). pose proof (Atoi_FormatInt z Hz) as Ha.
  by destruct (FormatInt z).
Qed.

Lemma get_bool_child name ks b : kids_named name ks = [chars (FormatBool b)] -> get_bool name ks = Some b.
Proof. intros H. unfold get_bool. rewrite (get_string_child _ _ _ H). by destruct b. Qed.

Lemma get_bool_omitempty name ks (b : bool) :
  kids_named name ks = (if b then [chars "true"] else []) -> get_bool name ks = Some b.
Proof. unfold get_bool, get_string, child. intros ->. by destruct b. Qed.

(** * Every struct is read back *)

(** An element with elements in it. *)
Definition kid_ok (t : xml) : bool := negb (is_text t) && tree_ok t.

(** [xml_ok]: the numbers fit their Go types. *)
Class XMLLaws (A : Type) {X : XMLStruct A} := {
  xml_ok : A -> Prop;
  read_fields a : xml_ok a -> xml_read (xml_fields a) = Some a;
  fields_ok a : forallb kid_ok (xml_fields a) = true;
}.

Lemma child_one name ks k : kids_named name ks = [k] -> child name ks = k.
Proof. unfold child. by intros ->. Qed.

Lemma get_struct_child {A} `{XMLLaws A} name ks (a : A) :
  kids_named name ks = [xml_fields a] -> xml_ok a -> get_struct name ks = Some a.
Proof. unfold get_struct, child. intros -> Ha. by apply read_fields. Qed.

Lemma get_list_child {A} `{XMLLaws A} name ks (l : list A) :
  kids_named name ks = map xml_fields l -> Forall xml_ok l -> get_list name ks = Some l.
Proof.
  unfold get_list. intros -> Hl. induction Hl as [|a l Ha _ IH]; [done|]. cbn [map mapM].
  rewrite read_fields by done. cbn [mbind option_bind]. by rewrite IH.
Qed.

Lemma kid_elem name s : name_ok name = true -> kid_ok (elem name s) = true.
Proof.
  unfold kid_ok, elem, chars. intros Hn. cbn [is_text negb andb tree_ok]. rewrite Hn.
  case_bool_decide as Hs; [done|]. cbn. rewrite bool_decide_eq_false_2; [done|]. by destruct s.
Qed.

Lemma kid_struct name ks : name_ok name = true -> forallb kid_ok ks = true -> kid_ok (Elem name ks) = true.
Proof.
  unfold kid_ok at 2. intros Hn Hk. cbn [is_text negb andb tree_ok]. rewrite Hn.
  by destruct ks as [|[] [|]].
Qed.

Lemma kids_app l1 l2 : forallb kid_ok l1 = true -> forallb kid_ok l2 = true -> forallb kid_ok (l1 ++ l2) = true.
Proof. intros H1 H2. by rewrite forallb_app, H1, H2. Qed.

Lemma kids_cons t l : kid_ok t = true -> forallb kid_ok l = true -> forallb kid_ok (t :: l) = true.
Proof. intros H1 H2. cbn [forallb]. by rewrite H1, H2. Qed.

Lemma kids_omitempty name s : name_ok name = true -> forallb kid_ok (elem_omitempty name s) = true.
Proof. intros Hn. unfold elem_omitempty. case_bool_decide; [done|]. apply kids_cons; [by apply kid_elem|done]. Qed.

Lemma kids_bool_omitempty name b : name_ok name = true -> forallb kid_ok (elem_bool_omitempty name b) = true.
Proof. intros Hn. destruct b; [|done]. apply kids_cons; [by apply kid_elem|done]. Qed.

Lemma kids_elems {A} `{XMLLaws A} name (l : list A) : name_ok name = true -> forallb kid_ok (elems name l) = true.
Proof.
  intros Hn. induction l as [|a l IH]; [done|]. apply kids_cons; [|exact IH].
  apply kid_struct; [done|]. apply fields_ok.
Qed.

Ltac kids_tac :=
  repeat match goal with
  | |- forallb kid_ok [] = true => reflexivity
  | |- forallb kid_ok (_ :: _) = true => apply kids_cons
  | |- forallb kid_ok (_ ++ _) = true => apply kids_app
  | |- forallb kid_ok (elem_omitempty _ _) = true => apply kids_omitempty; reflexivity
  | |- forallb kid_ok (elem_bool_omitempty _ _) = true => apply kids_bool_omitempty; reflexivity
  | |- forallb kid_ok (elems _ _) = true => apply kids_elems; reflexivity
  | |- forallb kid_ok (xml_fields _) = true => apply fields_ok
  | |- kid_ok (elem _ _) = true => apply kid_elem; reflexivity
  | |- kid_ok (Elem _ _) = true => apply kid_struct; [reflexivity|]
  end.

(** The elements of a struct with a given name, for names that are known. *)
Lemma none_elem name n ks l : String.eqb name n = false -> kids_named name l = [] -> kids_named name (Elem n ks :: l) = [].
Proof. cbn [kids_named]. by intros ->. Qed.

Lemma none_app name l1 l2 : kids_named name l1 = [] -> kids_named name l2 = [] -> kids_named name (l1 ++ l2) = [].
Proof. rewrite named_app. by intros -> ->. Qed.

Lemma none_omitempty name n s : String.eqb name n = false -> kids_named name (elem_omitempty n s) = [].
Proof. rewrite named_omitempty. by intros ->. Qed.

Lemma none_bool_omitempty name n b : String.eqb name n = false -> kids_named name (elem_bool_omitempty n b) = [].
Proof. rewrite named_bool_omitempty. by intros ->. Qed.

Lemma none_elems {A} `{XMLStruct A} name n (l : list A) : String.eqb name n = false -> kids_named name (elems n l) = [].
Proof. rewrite named_elems. by intros ->. Qed.

Lemma skip_elem name n ks l r : String.eqb name n = false -> kids_named name l = r -> kids_named name (Elem n ks :: l) = r.
Proof. cbn [kids_named]. by intros ->. Qed.

Lemma take_elem name ks l : kids_named name l = [] -> kids_named name (Elem name ks :: l) = [ks].
Proof. cbn [kids_named]. rewrite String.eqb_refl. by intros ->. Qed.

Lemma skip_app name l1 l2 r : kids_named name l1 = [] -> kids_named name l2 = r -> kids_named name (l1 ++ l2) = r.
Proof. rewrite named_app. by intros -> ->. Qed.

Lemma take_app_named name l1 l2 r : kids_named name l1 = r -> kids_named name l2 = [] -> kids_named name (l1 ++ l2) = r.
Proof. rewrite named_app. intros -> ->. apply app_nil_r. Qed.

Lemma take_omitempty name s :
  kids_named name (elem_omitempty name s) = if bool_decide (s = ""%string) then [] else [chars s].
Proof. by rewrite named_omitempty, String.eqb_refl. Qed.

Lemma take_bool_omitempty name (b : bool) :
  kids_named name (elem_bool_omitempty name b) = if b then [chars "true"] else [].
Proof. by rewrite named_bool_omitempty, String.eqb_refl. Qed.

Lemma take_elems {A} `{XMLStruct A} name (l : list A) : kids_named name (elems name l) = map xml_fields l.
Proof. by rewrite named_elems, String.eqb_refl. Qed.

Ltac none_tac :=
  lazymatch goal with
  | |- kids_named _ [] = _ => reflexivity
  | |- kids_named _ (_ :: _) = _ => eapply none_elem; [reflexivity|none_tac]
  | |- kids_named _ (_ ++ _) = _ => apply none_app; none_tac
  | |- kids_named _ (elem_omitempty _ _) = _ => apply none_omitempty; reflexivity
  | |- kids_named _ (elem_bool_omitempty _ _) = _ => apply none_bool_omitempty; reflexivity
  | |- kids_named _ (elems _ _) = _ => apply none_elems; reflexivity
  end.

Ltac named_tac :=
  lazymatch goal with
  | |- kids_named _ (_ :: _) = _ =>
      first [eapply skip_elem; [reflexivity|named_tac] | eapply take_elem; none_tac]
  | |- kids_named _ (_ ++ _) = _ =>
      first [eapply skip_app; [none_tac|named_tac] | eapply take_app_named; [named_tac|none_tac]]
  | |- kids_named _ (elem_omitempty _ _) = _ => apply take_omitempty
  | |- kids_named _ (elem_bool_omitempty _ _) = _ => apply take_bool_omitempty
  | |- kids_named _ (elems _ _) = _ => apply take_elems
  end.

Ltac read_fields_tac :=
  match goal with |- @xml_read _ ?X _ = _ => unfold X; cbn [xml_read xml_fields] end;
  repeat match goal with
  | |- context [mbind _ (Some _)] => progress cbn [mbind option_bind]
  | |- context [child ?n ?ks] => rewrite (child_one n ks _ ltac:(named_tac))
  | |- context [get_int ?n ?ks] => rewrite (get_int_child n ks _ ltac:(named_tac)) by first [done|tauto]
  | |- context [get_bool ?n ?ks] =>
      first [rewrite (get_bool_child n ks _ ltac:(named_tac))
            |rewrite (get_bool_omitempty n ks _ ltac:(named_tac))]
  | |- context [@get_struct ?A _ ?n ?ks] => rewrite (get_struct_child (A := A) n ks _ ltac:(named_tac)) by first [done|tauto]
  | |- context [@get_list ?A _ ?n ?ks] => rewrite (get_list_child (A := A) n ks _ ltac:(named_tac)) by first [done|tauto]
  | |- context [get_string ?n ?ks] =>
      first [rewrite (get_string_child n ks _ ltac:(named_tac))
            |rewrite (get_string_omitempty n ks _ ltac:(named_tac))]
  end.

(** The laws of a struct from its fields. *)
Ltac laws :=
  match goal with
  | |- forall a, forallb kid_ok (@xml_fields _ ?X _) = true =>
      intros []; unfold X, elem_int, elem_bool, elem_struct; cbn [xml_fields]; kids_tac
  | |- forall a, _ -> _ = Some a => let a := fresh in intros a Hok; cbn in Hok; read_fields_tac; by destruct a
  end.

#[export, refine] Instance S3ErrorResponse_laws : XMLLaws S3ErrorResponse := { xml_ok _ := True }.
Proof. all: laws. Defined.

#[export, refine] Instance Bucket_laws : XMLLaws Bucket := { xml_ok _ := True }.
Proof. all: laws. Defined.

#[export, refine] Instance Owner_laws : XMLLaws Owner := { xml_ok _ := True }.
Proof. all: laws. Defined.

#[export, refine] Instance ListBucketsResult_laws : XMLLaws ListBucketsResult := { xml_ok r := Forall xml_ok (lb_Buckets r) }.
Proof. all: laws. Defined.

#[export, refine] Instance Object_laws : XMLLaws Object := { xml_ok o := inS 64 (ob_Size o) }.
Proof. all: laws. Defined.

#[export, refine] Instance CommonPrefix_laws : XMLLaws CommonPrefix := { xml_ok _ := True }.
Proof. all: laws. Defined.

#[export, refine] Instance ListObjectsV2Result_laws : XMLLaws ListObjectsV2Result := { xml_ok l := inS 64 (li_KeyCount l) /\ inS 64 (li_MaxKeys l) /\ Forall xml_ok (li_Contents l) /\
  Forall xml_ok (li_CommonPrefixes l) }.
Proof. all: laws. Defined.

#[export, refine] Instance CreateMultipartUploadResult_laws : XMLLaws CreateMultipartUploadResult := { xml_ok _ := True }.
Proof. all: laws. Defined.

#[export, refine] Instance UploadPartResult_laws : XMLLaws UploadPartResult := { xml_ok u := inS 64 (up_PartNumber u) }.
Proof. all: laws. Defined.

#[export, refine] Instance CompleteMultipartUploadResult_laws : XMLLaws CompleteMultipartUploadResult := { xml_ok _ := True }.
Proof. all: laws. Defined.

#[export, refine] Instance Initiator_laws : XMLLaws Initiator := { xml_ok _ := True }.
Proof. all: laws. Defined.

#[export, refine] Instance Part_laws : XMLLaws Part := { xml_ok p := inS 64 (pt_PartNumber p) /\ inS 64 (pt_Size p) }.
Proof. all: laws. Defined.

#[export, refine] Instance ListPartsResult_laws : XMLLaws ListPartsResult := { xml_ok l := inS 64 (lp_PartNumberMarker l) /\ inS 64 (lp_NextPartNumberMarker l) /\
  inS 64 (lp_MaxParts l) /\ Forall xml_ok (lp_Parts l) }.
Proof. all: laws. Defined.

#[export, refine] Instance DeletedObject_laws : XMLLaws DeletedObject := { xml_ok _ := True }.
Proof. all: laws. Defined.

#[export, refine] Instance DeleteError_laws : XMLLaws DeleteError := { xml_ok _ := True }.
Proof. all: laws. Defined.

#[export, refine] Instance DeleteResult_laws : XMLLaws DeleteResult := { xml_ok d := Forall xml_ok (dl_Deleted d) /\ Forall xml_ok (dl_Errors d) }.
Proof. all: laws. Defined.

#[export, refine] Instance ObjectToDelete_laws : XMLLaws ObjectToDelete := { xml_ok _ := True }.
Proof. all: laws. Defined.

#[export, refine] Instance Delete_laws : XMLLaws Delete := { xml_ok d := Forall xml_ok (dq_Objects d) }.
Proof. all: laws. Defined.

#[export, refine] Instance CompleteMultipartPart_laws : XMLLaws CompleteMultipartPart := { xml_ok p := inS 64 (pa_PartNumber p) }.
Proof. all: laws. Defined.

#[export, refine] Instance CompleteMultipartUpload_laws : XMLLaws CompleteMultipartUpload := { xml_ok c := Forall xml_ok (cu_Parts c) }.
Proof. all: laws. Defined.

(** * Documents *)

Lemma root_kid {A} `{XMLLaws A} `{XMLRoot A} (a : A) : kid_ok (Elem root_name (xml_fields a)) = true.
Proof. apply kid_struct; [apply root_ok|apply fields_ok]. Qed.

Lemma roundtrip {A} {X : XMLStruct A} {L : XMLLaws A} {R : XMLRoot A} (a : A) :
  parse (marshal a) = Some (Elem root_name (map clean_tree (xml_fields a))) /\
  (xml_ok a -> forallb tree_text (xml_fields a) = true -> unmarshal (marshal a) = Some a).
Proof.
  pose proof (root_kid a) as [_ Hk]%andb_true_iff.
  destruct (parse_print_tree _ Hk eq_refl) as [H1 H2]. split; [exact H1|].
  intros Hok Ht. unfold unmarshal, marshal. rewrite H1, H2 by done. rewrite String.eqb_refl. by apply read_fields.
Qed.

(** C28. Every document of the interface survives the wire. Whatever its
    strings are, the bytes the encoder writes for it are one well-formed
    element with the name of its type and with its fields in their order, in
    which only characters that XML cannot carry are replaced; and if there are
    none, a client reads exactly the document that was written, with every
    string, number, truth value and list. *)
Theorem unmarshal_marshal {A} {X : XMLStruct A} {L : XMLLaws A} {R : XMLRoot A} (a : A) :
  parse (marshal a) = Some (Elem root_name (map clean_tree (xml_fields a))) /\
  (xml_ok a -> forallb tree_text (xml_fields a) = true -> unmarshal (marshal a) = Some a).
Proof. apply roundtrip. Qed.

(** A listing with markup, quotes and a line end in its names. *)
Definition ex_listing : ListObjectsV2Result :=
  mkList "my-bucket" "<a&b>" 1 1000 "/" true "token]]>"
    [mkObject ("it's a " +:+ String "034" "key") "2024-01-02T03:04:05Z" "d41d8cd9" 9223372036854775807 "STANDARD" (mkOwner "id" "")]
    [mkCommonPrefix ("line" +:+ String "010" "end")].

Lemma unmarshal_marshal_witness :
  xml_ok ex_listing /\ forallb tree_text (xml_fields ex_listing) = true /\
  unmarshal (marshal ex_listing) = Some ex_listing.
Proof.
  assert (xml_ok ex_listing) as Hok.
  { cbn. unfold inS. repeat constructor; cbn; lia. }
  assert (forallb tree_text (xml_fields ex_listing) = true) as Ht by (vm_compute; reflexivity).
  exact (conj Hok (conj Ht (proj2 (unmarshal_marshal ex_listing) Hok Ht))).
Defined.
