(* ===== verification/Api.v ===== *)
(** internal/api: the HTTP server. The handlers are translated one by one, in
    terms of what they call (class [HandlerOps]): the object store and the
    response writer. Here the calls work on the process state and the response
    ([Conn]), over any shard store and any Reed-Solomon engine, which makes a
    handler a computation that runs alone; ApiThreads reads the same handlers
    as programs that can be interleaved. Randomness, the clock and the order of
    map iteration are inputs ([Env]); the decoding of an XML body is the
    parameter [Unmarshal]. *)
From S2P Require Import Prelude Binary Sha256 EC Header ShardStore ObjectStore FileNames Http S3Types.

(** * Responses *)

Record healthResponse := mkHealth { he_Status : string; he_Node : string }.

(** A chunk of a response body. *)
Inductive document :=
  | XMLError (e : S3ErrorResponse)
  | XMLList (l : ListObjectsV2Result)
  | XMLCreate (c : CreateMultipartUploadResult)
  | XMLComplete (c : CompleteMultipartUploadResult)
  | JSONHealth (h : healthResponse)
  | Raw (b : bytes).

(** * The server *)

Record Server := mkServer {
  nodeID : string;
  objectStore : ObjectStore;
  permissiveAuth : bool;
}.

(** One line of the access log. *)
Record log_line := mkLog { lg_RequestID : string; lg_Method : string; lg_Path : string; lg_Status : Z }.

(** What a request finds besides the stores: random bytes ([None] when
    rand.Read fails), the time as text, the order in which Go ranges over a
    map with these keys, how io.Copy and io.ReadAll size their buffers, and
    the bound the model puts on their loops. *)
Record Env := mkEnv {
  e_requestRand : option bytes;
  e_uploadRand : option bytes;
  e_time : string;
  e_range : list string -> list string;
  e_sizes : nat -> nat;
  e_fuel : nat;
}.

(** The state a handler works on: the process, the response writer, and the
    status the statusWriter around it has recorded. *)
Record Conn {RS : ReedSolomon} (S : Type) := mkConn {
  c_world : World S;
  c_rw : ResponseWriter document;
  c_status : Z;
}.
Arguments mkConn {RS S} _ _ _.
Arguments c_world {RS S} _.
Arguments c_rw {RS S} _.
Arguments c_status {RS S} _.

Definition requestIDHeader : string := "X-Request-Id".

(** newRequestID: eight random bytes in hexadecimal, or the time. *)
Definition newRequestID (env : Env) : string :=
  match e_requestRand env with Some b => EncodeToString b | None => e_time env end.

Definition generateUploadID (env : Env) : string :=
  match e_uploadRand env with Some b => EncodeToString b | None => e_time env end.

Definition parsePathValues (p : string) : string * string :=
  let p := TrimPrefix p "/" in
  if bool_decide (p = ""%string) then (""%string, ""%string) else
  match SplitN p "/" 3 with
  | [bucket] => (bucket, ""%string)
  | [bucket; object] => (bucket, object)
  | [bucket; _; object] => (bucket, object)
  | _ => (""%string, ""%string)
  end.

Definition between (lo hi : ascii) (c : ascii) : bool :=
  (N_of_ascii lo <=? N_of_ascii c)%N && (N_of_ascii c <=? N_of_ascii hi)%N.

Definition bucket_char (c : ascii) : bool :=
  between "a" "z" c || between "0" "9" c || bool_decide (c = "-"%char) || bool_decide (c = "."%char).

(** The error is the message. A rune outside ASCII is no bucket character, and
    neither is any byte of it. *)
Definition validateBucketName (name : string) : option string :=
  if bool_decide (name = ""%string) then Some "bucket name cannot be empty"%string
  else if (strlen name <? 3) || (63 <? strlen name) then
    Some "bucket name must be between 3 and 63 characters"%string
  else if negb (all_bytes bucket_char name) then
    Some "bucket name can only contain lowercase letters, numbers, hyphens, and dots"%string
  else if HasPrefix name "-" || ends_with name "-" || HasPrefix name "." || ends_with name "." then
    Some "bucket name cannot start or end with hyphen or dot"%string
  else if Contains name ".." then Some "bucket name cannot contain consecutive periods"%string
  else None.

Definition bucketMarkerID (bucket : string) : string := "__bucket__/" +:+ bucket.
Definition objectIDOf (bucket object : string) : string := bucket +:+ "/" +:+ object.
Definition uploadMarkerID (objectID uploadID : string) : string :=
  "__multipart__/" +:+ objectID +:+ "/" +:+ uploadID.
Definition partMarkerID (objectID uploadID : string) (partNumber : Z) : string :=
  "__multipart__/" +:+ objectID +:+ "/" +:+ uploadID +:+ "/part/" +:+ FormatInt partNumber.

(** fmt.Sprintf("\"%x\"", n): the number between double quotes. *)
Definition etag (n : Z) : string :=
  let quote := String (ascii_of_nat 34) "" in quote +:+ format_x n +:+ quote.

(** * What a handler calls *)

(** [H A]: a handler's computation of an [A]. An error return of the object
    store is a value here ([inl]). *)
Class HandlerOps {RS : ReedSolomon} (H : Type -> Type) := {
  store_PutObject : ObjectStore -> string -> Reader -> Z -> H (error + unit)%type;
  store_GetObject : ObjectStore -> string -> H (error + (reader * Z))%type;
  store_DeleteObject : ObjectStore -> string -> H (error + unit)%type;
  store_ObjectShards : ObjectStore -> string -> H (error + list ShardKey)%type;
  (* io.ReadAll and the reads of io.Copy *)
  reader_ReadAll : nat -> (nat -> nat) -> reader -> H (bytes * option error)%type;
  resp_Set : string -> string -> H unit;
  resp_WriteHeader : Z -> H unit;
  resp_Write : document -> H unit;
}.

(** ** On a connection *)

Section Conn.
Context {RS : ReedSolomon} {S : Type} {SS : ShardStore S}.

(** A call of the object store. *)
Definition call {A} (m : M (World S) A) : M (Conn S) (error + A) := fun c =>
  let '(r, w) := m (c_world c) in
  let c' := mkConn w (c_rw c) (c_status c) in
  match r with
  | OK a => (OK (inr a), c')
  | Err err => (OK (inl err), c')
  | Panicked msg => (Panicked msg, c')
  end.

(** The reads go to the store as it is now. *)
Definition read_all (fuel : nat) (sizes : nat -> nat) (rd : reader) : M (Conn S) (bytes * option error) := fun c =>
  (ReadAll fuel sizes 0 rd (w_store (c_world c)), c).

Definition Set_ (key value : string) : M (Conn S) unit := fun c =>
  (OK tt, mkConn (c_world c) (rw_Set key value (c_rw c)) (c_status c)).

(** statusWriter.WriteHeader *)
Definition WriteHeader (code : Z) : M (Conn S) unit := fun c =>
  (OK tt, mkConn (c_world c) (rw_WriteHeader code (c_rw c)) code).

Definition Write (d : document) : M (Conn S) unit := fun c =>
  (OK tt, mkConn (c_world c) (rw_Write d (c_rw c)) (c_status c)).

#[export] Instance Conn_ops : HandlerOps (M (Conn S)) := {
  store_PutObject o id r size := call (PutObject o id r size);
  store_GetObject o id := call (GetObject o id);
  store_DeleteObject o id := call (DeleteObject o id);
  store_ObjectShards o id := call (fun w => (ObjectShards o (w_store w) id, w));
  reader_ReadAll := read_all;
  resp_Set := Set_;
  resp_WriteHeader := WriteHeader;
  resp_Write := Write;
}.
End Conn.

(** A handler's calls, as calls on a connection. *)
Ltac on_conn := cbn [store_PutObject store_GetObject store_DeleteObject store_ObjectShards reader_ReadAll
  resp_Set resp_WriteHeader resp_Write Conn_ops].

(** * The handlers *)

Section Api.
Context {RS : ReedSolomon} {H : Type -> Type} {HB : MBind H} {HR : MRet H} {OPS : HandlerOps H}.
Context (Unmarshal : bytes -> option CompleteMultipartUpload).
Context (s : Server) (env : Env).

Abbreviation Handler := (H unit).

Definition writeJSON (status : Z) (d : document) : Handler :=
  resp_Set "Content-Type" "application/json";; resp_WriteHeader status;; resp_Write d.

(** [reqID] is logging.RequestID(r.Context()). *)
Definition writeXMLError (reqID : string) (status : Z) (code message : string) (r : Request) : Handler :=
  resp_Set "Content-Type" "application/xml";; resp_WriteHeader status;;
  resp_Write (XMLError (mkS3Error code message (URL_Path r) reqID (nodeID s) "" "")).

Definition writeXML (status : Z) (d : document) : Handler :=
  resp_Set "Content-Type" "application/xml";; resp_WriteHeader status;; resp_Write d.

Definition handleHealth (reqID : string) (r : Request) : Handler :=
  writeJSON 200 (JSONHealth (mkHealth "ok" (nodeID s))).

Definition handleCreateBucket (reqID : string) (r : Request) : Handler :=
  let '(bucket, _) := parsePathValues (URL_Path r) in
  if bool_decide (bucket = ""%string) then
    writeXMLError reqID 400 ErrCodeInvalidArgument "Bucket name cannot be empty" r
  else
  match validateBucketName bucket with
  | Some err => writeXMLError reqID 400 ErrCodeInvalidArgument err r
  | None =>
      x ← store_GetObject (objectStore s) (bucketMarkerID bucket);
      match x with
      | inr _ => writeXMLError reqID 409 ErrCodeBucketAlreadyOwnedByYou "Bucket already exists" r
      | inl err =>
          if negb (errors_Is err ErrObjectNotFound) then
            writeXMLError reqID 500 ErrCodeInternalError "Failed to check bucket" r
          else
            y ← store_PutObject (objectStore s) (bucketMarkerID bucket) (NewReader []) 0;
            match y with
            | inl _ => writeXMLError reqID 500 ErrCodeInternalError "Failed to create bucket" r
            | inr _ => resp_WriteHeader 200
            end
      end
  end.

(** "Check if bucket exists", as all other handlers do it. *)
Definition check_bucket (reqID : string) (bucket : string) (r : Request) (k : Handler) : Handler :=
  x ← store_GetObject (objectStore s) (bucketMarkerID bucket);
  match x with
  | inl err =>
      if errors_Is err ErrObjectNotFound then
        writeXMLError reqID 404 ErrCodeNoSuchBucket "Bucket does not exist" r
      else writeXMLError reqID 500 ErrCodeInternalError "Failed to check bucket" r
  | inr _ => k
  end.

Definition handleDeleteBucket (reqID : string) (r : Request) : Handler :=
  let '(bucket, _) := parsePathValues (URL_Path r) in
  if bool_decide (bucket = ""%string) then
    writeXMLError reqID 400 ErrCodeInvalidArgument "Bucket name cannot be empty" r
  else check_bucket reqID bucket r (
    x ← store_DeleteObject (objectStore s) (bucketMarkerID bucket);
    match x with
    | inl _ => writeXMLError reqID 500 ErrCodeInternalError "Failed to delete bucket" r
    | inr _ => resp_WriteHeader 204
    end).

Definition handleHeadBucket (reqID : string) (r : Request) : Handler :=
  let '(bucket, _) := parsePathValues (URL_Path r) in
  if bool_decide (bucket = ""%string) then
    writeXMLError reqID 400 ErrCodeInvalidArgument "Bucket name cannot be empty" r
  else check_bucket reqID bucket r (resp_WriteHeader 200).

(** ** Listing *)

(** The loop over the shards of all objects; [objectMap] is keyed by object
    key. The computation with the delimiter has no effect. *)
Fixpoint list_loop (bucket prefix : string) (allKeys : list ShardKey) (objectMap : gmap string Object)
    : H (gmap string Object) :=
  match allKeys with
  | [] => mret objectMap
  | key :: allKeys' =>
      let objID := k_ObjectID key in
      if negb (HasPrefix objID (bucket +:+ "/")) then list_loop bucket prefix allKeys' objectMap
      else if HasPrefix objID "__bucket__/" then list_loop bucket prefix allKeys' objectMap
      else if HasPrefix objID "__multipart__/" then list_loop bucket prefix allKeys' objectMap
      else
        let objKey := TrimPrefix objID (bucket +:+ "/") in
        if negb (bool_decide (prefix = ""%string)) && negb (HasPrefix objKey prefix)
        then list_loop bucket prefix allKeys' objectMap
        else
          x ← store_GetObject (objectStore s) objID;
          match x with
          | inl _ => list_loop bucket prefix allKeys' objectMap
          | inr (_, size) =>
              list_loop bucket prefix allKeys'
                match objectMap !! objKey with
                | Some _ => objectMap
                | None => <[objKey := mkObject objKey (e_time env) (etag size) size "STANDARD"
                                        (mkOwner (nodeID s) (nodeID s))]> objectMap
                end
          end
  end.

(** The loop over the map, in the order Go chooses, up to [maxKeys] entries. *)
Definition list_contents (objectMap : gmap string Object) (maxKeys : Z) : list Object :=
  omap (fun k => objectMap !! k) (take (Z.to_nat maxKeys) (e_range env (map fst (map_to_list objectMap)))).

Definition max_keys (maxKeysStr : string) : Z :=
  if bool_decide (maxKeysStr = ""%string) then 1000
  else match Atoi maxKeysStr with Some n => if 0 <? n then n else 1000 | None => 1000 end.

Definition handleListObjectsV2 (reqID : string) (r : Request) : Handler :=
  let '(bucket, _) := parsePathValues (URL_Path r) in
  if bool_decide (bucket = ""%string) then
    writeXMLError reqID 400 ErrCodeInvalidArgument "Bucket name cannot be empty" r
  else check_bucket reqID bucket r (
    let prefix := query_Get r "prefix" in
    let delimiter := query_Get r "delimiter" in
    let maxKeys := max_keys (query_Get r "max-keys") in
    x ← store_ObjectShards (objectStore s) "";
    match x with
    | inl _ => writeXMLError reqID 500 ErrCodeInternalError "Failed to list objects" r
    | inr allKeys =>
        objectMap ← list_loop bucket prefix allKeys ∅;
        let contents := list_contents objectMap maxKeys in
        writeXML 200 (XMLList (mkList bucket prefix (len contents) maxKeys delimiter
          (maxKeys <=? len contents) "" contents []))
    end).

(** ** Objects *)

Definition handlePutObject (reqID : string) (r : Request) : Handler :=
  let '(bucket, _) := parsePathValues (URL_Path r) in
  let '(_, object) := parsePathValues (URL_Path r) in
  if bool_decide (bucket = ""%string) || bool_decide (object = ""%string) then
    writeXMLError reqID 400 ErrCodeInvalidArgument "Bucket and object required" r
  else check_bucket reqID bucket r (
    if rq_ContentLength r <? 0 then
      writeXMLError reqID 411 ErrCodeMissingContentLength "Content-Length required" r
    else
      x ← store_PutObject (objectStore s) (objectIDOf bucket object) (rq_Body r) (rq_ContentLength r);
      match x with
      | inl _ => writeXMLError reqID 500 ErrCodeInternalError "Failed to put object" r
      | inr _ => resp_Set "ETag" (etag (rq_ContentLength r));; resp_WriteHeader 200
      end).

(** io.Copy(w, reader): a read error ends the copy and is dropped, as the
    handler does. *)
Definition copy_body (rd : reader) : Handler :=
  '(data, _) ← reader_ReadAll (e_fuel env) (e_sizes env) rd;
  match data with [] => mret tt | _ => resp_Write (Raw data) end.

Definition handleGetObject (reqID : string) (r : Request) : Handler :=
  let '(bucket, _) := parsePathValues (URL_Path r) in
  let '(_, object) := parsePathValues (URL_Path r) in
  if bool_decide (bucket = ""%string) || bool_decide (object = ""%string) then
    writeXMLError reqID 400 ErrCodeInvalidArgument "Bucket and object required" r
  else check_bucket reqID bucket r (
    x ← store_GetObject (objectStore s) (objectIDOf bucket object);
    match x with
    | inl err =>
        if errors_Is err ErrObjectNotFound then
          writeXMLError reqID 404 ErrCodeNoSuchKey "Object does not exist" r
        else writeXMLError reqID 500 ErrCodeInternalError "Failed to get object" r
    | inr (rd, size) =>
        (if negb (bool_decide (header_Get r "Range" = ""%string)) then
           resp_Set "Content-Range" ("bytes 0-" +:+ FormatInt (i64 (size - 1)) +:+ "/" +:+ FormatInt size);;
           resp_WriteHeader 206
         else resp_WriteHeader 200);;
        resp_Set "Content-Length" (FormatInt size);;
        resp_Set "ETag" (etag size);;
        resp_Set "Content-Type" "application/octet-stream";;
        copy_body rd
    end).

Definition handleHeadObject (reqID : string) (r : Request) : Handler :=
  let '(bucket, _) := parsePathValues (URL_Path r) in
  let '(_, object) := parsePathValues (URL_Path r) in
  if bool_decide (bucket = ""%string) || bool_decide (object = ""%string) then
    writeXMLError reqID 400 ErrCodeInvalidArgument "Bucket and object required" r
  else check_bucket reqID bucket r (
    x ← store_GetObject (objectStore s) (objectIDOf bucket object);
    match x with
    | inl err =>
        if errors_Is err ErrObjectNotFound then
          writeXMLError reqID 404 ErrCodeNoSuchKey "Object does not exist" r
        else writeXMLError reqID 500 ErrCodeInternalError "Failed to get object" r
    | inr (_, size) =>
        resp_Set "Content-Length" (FormatInt size);;
        resp_Set "ETag" (etag size);;
        resp_Set "Content-Type" "application/octet-stream";;
        resp_WriteHeader 200
    end).

Definition handleDeleteObject (reqID : string) (r : Request) : Handler :=
  let '(bucket, _) := parsePathValues (URL_Path r) in
  let '(_, object) := parsePathValues (URL_Path r) in
  if bool_decide (bucket = ""%string) || bool_decide (object = ""%string) then
    writeXMLError reqID 400 ErrCodeInvalidArgument "Bucket and object required" r
  else check_bucket reqID bucket r (
    x ← store_DeleteObject (objectStore s) (objectIDOf bucket object);
    match x with
    | inl err =>
        if errors_Is err ErrObjectNotFound then
          writeXMLError reqID 404 ErrCodeNoSuchKey "Object does not exist" r
        else writeXMLError reqID 500 ErrCodeInternalError "Failed to delete object" r
    | inr _ => resp_WriteHeader 204
    end).

(** ** Multipart uploads *)

Definition createMultipartUpload (reqID bucket object : string) (r : Request) : Handler :=
  let uploadID := generateUploadID env in
  x ← store_PutObject (objectStore s) (uploadMarkerID (objectIDOf bucket object) uploadID) (NewReader []) 0;
  match x with
  | inl _ => writeXMLError reqID 500 ErrCodeInternalError "Failed to initiate multipart upload" r
  | inr _ => writeXML 200 (XMLCreate (mkCreateMultipart bucket object uploadID))
  end.

Definition uploadPart (reqID bucket object uploadID partNumberStr : string) (r : Request) : Handler :=
  match Atoi partNumberStr with
  | None => writeXMLError reqID 400 ErrCodeInvalidArgument "Invalid part number" r
  | Some partNumber =>
      if partNumber <? 1 then writeXMLError reqID 400 ErrCodeInvalidArgument "Invalid part number" r
      else if rq_ContentLength r <? 0 then
        writeXMLError reqID 411 ErrCodeMissingContentLength "Content-Length required" r
      else if rq_ContentLength r <? 5 * 1024 * 1024 then
        writeXMLError reqID 400 ErrCodeEntityTooSmall "Part size must be at least 5 MiB" r
      else
        x ← store_PutObject (objectStore s) (partMarkerID (objectIDOf bucket object) uploadID partNumber)
                    (rq_Body r) (rq_ContentLength r);
        match x with
        | inl _ => writeXMLError reqID 500 ErrCodeInternalError "Failed to upload part" r
        | inr _ => resp_Set "ETag" (etag (rq_ContentLength r));; resp_WriteHeader 200
        end
  end.

(** io.ReadAll of a part; its error is dropped. *)
Definition read_part (rd : reader) : H bytes :=
  '(data, _) ← reader_ReadAll (e_fuel env) (e_sizes env) rd; mret data.

(** The loop over the parts: [None] when a part cannot be opened. *)
Fixpoint read_parts (objectID uploadID : string) (parts : list CompleteMultipartPart) (fullData : bytes)
    : H (option bytes) :=
  match parts with
  | [] => mret (Some fullData)
  | part :: parts' =>
      x ← store_GetObject (objectStore s) (partMarkerID objectID uploadID (pa_PartNumber part));
      match x with
      | inl _ => mret None
      | inr (rd, _) => data ← read_part rd; read_parts objectID uploadID parts' (fullData ++ data)
      end
  end.

(** Clean up part markers; errors are dropped. *)
Fixpoint delete_parts (objectID uploadID : string) (parts : list CompleteMultipartPart) : Handler :=
  match parts with
  | [] => mret tt
  | part :: parts' =>
      _ ← store_DeleteObject (objectStore s) (partMarkerID objectID uploadID (pa_PartNumber part));
      delete_parts objectID uploadID parts'
  end.

(** io.ReadAll(r.Body) *)
Definition read_request_body (r : Request) : error + bytes :=
  if bool_decide (final (rq_Body r) = EOF) then inr (pending (rq_Body r)) else inl (final (rq_Body r)).

(** The call once its body is decoded. *)
Definition completeUpload (reqID bucket object uploadID : string) (completeReq : CompleteMultipartUpload)
    (r : Request) : Handler :=
  let objectID := objectIDOf bucket object in
  x ← read_parts objectID uploadID (cu_Parts completeReq) [];
  match x with
  | None => writeXMLError reqID 500 ErrCodeInternalError "Failed to read part" r
  | Some combinedData =>
      y ← store_PutObject (objectStore s) objectID (NewReader combinedData) (i64 (len combinedData));
      match y with
      | inl _ => writeXMLError reqID 500 ErrCodeInternalError "Failed to complete multipart upload" r
      | inr _ =>
          delete_parts objectID uploadID (cu_Parts completeReq);;
          _ ← store_DeleteObject (objectStore s) (uploadMarkerID objectID uploadID);
          writeXML 200 (XMLComplete (mkCompleteMultipart ("/" +:+ bucket +:+ "/" +:+ object)
            bucket object (etag (len combinedData))))
      end
  end.

Definition completeMultipartUpload (reqID bucket object uploadID : string) (r : Request) : Handler :=
  match read_request_body r with
  | inl _ => writeXMLError reqID 500 ErrCodeInternalError "Failed to read request body" r
  | inr body =>
      match Unmarshal body with
      | None => writeXMLError reqID 400 ErrCodeInvalidArgument "Invalid XML" r
      | Some completeReq => completeUpload reqID bucket object uploadID completeReq r
      end
  end.

Definition abortMultipartUpload (bucket object uploadID : string) : Handler :=
  _ ← store_DeleteObject (objectStore s) (uploadMarkerID (objectIDOf bucket object) uploadID);
  resp_WriteHeader 204.

Definition handleMultipartOperations (reqID : string) (r : Request) : Handler :=
  let '(bucket, _) := parsePathValues (URL_Path r) in
  let '(_, object) := parsePathValues (URL_Path r) in
  if bool_decide (bucket = ""%string) || bool_decide (object = ""%string) then
    writeXMLError reqID 400 ErrCodeInvalidArgument "Bucket and object required" r
  else
  let uploadsParam := query_Get r "uploads" in
  let uploadID := query_Get r "uploadId" in
  let partNumberStr := query_Get r "partNumber" in
  let meth m := bool_decide (rq_Method r = m) in
  let empty (x : string) := bool_decide (x = ""%string) in
  if negb (empty uploadsParam) && meth "GET"%string then
    writeXMLError reqID 501 ErrCodeNotImplemented "ListMultipartUploads not implemented" r
  else if empty uploadID && empty partNumberStr && meth "POST"%string then
    if negb (empty uploadsParam) then
      writeXMLError reqID 501 ErrCodeNotImplemented "ListMultipartUploads not implemented" r
    else createMultipartUpload reqID bucket object r
  else if negb (empty uploadID) && negb (empty partNumberStr) && meth "PUT"%string then
    uploadPart reqID bucket object uploadID partNumberStr r
  else if negb (empty uploadID) && meth "GET"%string then
    writeXMLError reqID 501 ErrCodeNotImplemented "ListParts not implemented" r
  else if negb (empty uploadID) && meth "POST"%string && bool_decide (query_Get r "action" = "complete"%string) then
    completeMultipartUpload reqID bucket object uploadID r
  else if negb (empty uploadID) && meth "POST"%string && bool_decide (query_Get r "action" = "abort"%string) then
    abortMultipartUpload bucket object uploadID
  else writeXMLError reqID 400 ErrCodeInvalidArgument "Invalid multipart operation" r.

(** ** Routing *)

(** http.Error, as the mux calls it: the text and a newline. *)
Definition http_Error (status : Z) (text : string) : Handler :=
  resp_Set "Content-Type" "text/plain; charset=utf-8";; resp_Set "X-Content-Type-Options" "nosniff";;
  resp_WriteHeader status;; resp_Write (Raw (bytes_of_string text ++ [x0a])).

Definition methodNotAllowed (allow : string) : Handler :=
  resp_Set "Allow" allow;; http_Error 405 "Method Not Allowed".

(** A wildcard of a pattern matches one segment, but not the empty one, and
    not an escaped slash alone, which the mux takes for a trailing slash. *)
Definition wildcard (seg : string) : bool :=
  negb (bool_decide (seg = ""%string) || bool_decide (seg = "/"%string)).

(** The patterns registered by New. A GET pattern also matches HEAD where no
    HEAD pattern does. *)
Definition mux (reqID : string) (r : Request) : Handler :=
  let meth m := bool_decide (rq_Method r = m) in
  if bool_decide (rq_segments r = ["_internal"; "health"; "check"]%string) then
    if meth "GET"%string || meth "HEAD"%string then handleHealth reqID r
    else methodNotAllowed "GET, HEAD"
  else
  match rq_segments r with
  | [bucket] =>
      if negb (wildcard bucket) then http_Error 404 "404 page not found"
      else if meth "PUT"%string then handleCreateBucket reqID r
      else if meth "DELETE"%string then handleDeleteBucket reqID r
      else if meth "GET"%string then handleListObjectsV2 reqID r
      else if meth "HEAD"%string then handleHeadBucket reqID r
      else methodNotAllowed "DELETE, GET, HEAD, PUT"
  | [bucket; object] =>
      if negb (wildcard bucket) || negb (wildcard object) then http_Error 404 "404 page not found"
      else if meth "PUT"%string then handlePutObject reqID r
      else if meth "GET"%string then handleGetObject reqID r
      else if meth "HEAD"%string then handleHeadObject reqID r
      else if meth "DELETE"%string then handleDeleteObject reqID r
      else if meth "POST"%string then handleMultipartOperations reqID r
      else methodNotAllowed "DELETE, GET, HEAD, POST, PUT"
  | _ => http_Error 404 "404 page not found"
  end.

(** ** Middleware *)

Definition auth (next : string -> Request -> Handler) (reqID : string) (r : Request) : Handler :=
  if permissiveAuth s then next reqID r
  else if bool_decide (URL_Path r = "/_internal/health/check"%string) then next reqID r
  else
    let authHeader := header_Get r "Authorization" in
    if bool_decide (authHeader = ""%string) then
      writeXMLError reqID 403 ErrCodeAccessDenied "Missing Authorization header" r
    else if negb (HasPrefix authHeader "AWS4-HMAC-SHA256 ") then
      writeXMLError reqID 403 ErrCodeSignatureDoesNotMatch "Invalid Authorization header format" r
    else next reqID r.

End Api.

(** * Serving a request *)

(** A handled request: the response, the line in the access log, the process
    state. [rp_body] is what the handler writes; net/http sends no body to a
    HEAD request, and adds headers of its own. A panic ends the handler: nothing is logged, and net/http closes
    the connection. *)
Record Reply := mkReply {
  rp_status : Z; rp_header : gmap string string; rp_body : list document; rp_log : log_line;
}.

(** s.requestID(s.accessLog(s.auth(s.mux))) *)
Definition ServeHTTP {RS : ReedSolomon} {S} {SS : ShardStore S} (Unmarshal : bytes -> option CompleteMultipartUpload)
    (s : Server) (env : Env) (r : Request) : M (World S) Reply := fun w =>
  let id := header_Get r requestIDHeader in
  let id := if bool_decide (id = ""%string) then newRequestID env else id in
  let rw := rw_Set requestIDHeader id rw_new in
  match auth s (mux Unmarshal s env) id r (mkConn w rw 200) with
  | (OK _, c) =>
      let '(status, hs, body) := rw_finish (c_rw c) in
      (OK (mkReply status hs body (mkLog id (rq_Method r) (URL_Path r) (c_status c))), c_world c)
  | (Err err, c) => (Err err, c_world c)
  | (Panicked msg, c) => (Panicked msg, c_world c)
  end.
