(* ===== verification/ApiLogic.v ===== *)
(** Properties of handlers, in any reading of their calls: what holds of every
    call a handler may make holds of the handler. The class [HandlerLogic]
    lists what has to hold of the calls; [logic_auth] follows the text of the
    handlers once for all of its instances (TypeSafe: no request panics;
    ApiThreads: what a request touches; ThreadSafe: no interleaving panics). *)
From S2P Require Import Prelude Binary Sha256 EC Header ShardStore ObjectStore FileNames Http S3Types Api.

(** [hl_ok Q m]: [m] is fine, and its result satisfies [Q]. The handler may
    change the objects of [hl_W], open those of [hl_R], and list the store if
    [hl_all]; [hl_reader id rd]: [rd] was opened for [id]. *)
Class HandlerLogic {RS : ReedSolomon} (H : Type -> Type) {HB : MBind H} {HR : MRet H} {OPS : HandlerOps H}
    (o : ObjectStore) := {
  hl_ok : forall {A}, (A -> Prop) -> H A -> Prop;
  hl_W : string -> Prop;
  hl_R : string -> Prop;
  hl_all : Prop;
  hl_reader : string -> reader -> Prop;
  hl_ret {A} (Q : A -> Prop) a : Q a -> hl_ok Q (mret a);
  hl_bind {A B} (Q : A -> Prop) (Q' : B -> Prop) (m : H A) k :
    hl_ok Q m -> (forall a, Q a -> hl_ok Q' (k a)) -> hl_ok Q' (a ← m; k a);
  hl_W_R id : hl_W id -> hl_R id;
  hl_all_R id : hl_all -> hl_R id;
  hl_put id r size : hl_W id -> hl_ok (fun _ => True) (store_PutObject o id r size);
  hl_get id : hl_R id ->
    hl_ok (fun x => match x with inl _ => True | inr (rd, _) => hl_reader id rd end) (store_GetObject o id);
  hl_delete id : hl_W id -> hl_ok (fun _ => True) (store_DeleteObject o id);
  hl_shards : hl_all -> hl_ok (fun _ => True) (store_ObjectShards o "");
  hl_read_all id fuel sizes rd : hl_R id -> hl_reader id rd -> hl_ok (fun _ => True) (reader_ReadAll fuel sizes rd);
  hl_set key value : hl_ok (fun _ => True) (resp_Set key value);
  hl_write_header code : hl_ok (fun _ => True) (resp_WriteHeader code);
  hl_write d : hl_ok (fun _ => True) (resp_Write d);
}.

(** The objects of a request are those it may use: of a request for an object
    its bucket's marker and the object, of the calls of an upload the markers
    of the upload and of its parts; a listing looks at everything. *)
Definition covers (W R : string -> Prop) (all : Prop) (Unmarshal : bytes -> option CompleteMultipartUpload)
    (env : Env) (r : Request) : Prop :=
  let '(bucket, object) := parsePathValues (URL_Path r) in
  let oid := objectIDOf bucket object in
  let uid := query_Get r "uploadId" in
  match rq_segments r with
  | [_] =>
      (rq_Method r = "PUT"%string \/ rq_Method r = "DELETE"%string -> W (bucketMarkerID bucket)) /\
      (rq_Method r = "GET"%string -> all) /\
      (rq_Method r = "HEAD"%string -> R (bucketMarkerID bucket))
  | [_; _] =>
      (rq_Method r <> "POST"%string -> R (bucketMarkerID bucket)) /\
      (rq_Method r = "PUT"%string \/ rq_Method r = "DELETE"%string -> W oid) /\
      (rq_Method r = "GET"%string \/ rq_Method r = "HEAD"%string -> R oid) /\
      (rq_Method r = "POST"%string ->
        W (uploadMarkerID oid uid) /\ W (uploadMarkerID oid (generateUploadID env)) /\
        (query_Get r "action" = "complete"%string -> W oid /\
          forall c, Unmarshal (pending (rq_Body r)) = Some c ->
            Forall (fun part => W (partMarkerID oid uid (pa_PartNumber part))) (cu_Parts c)))
  | _ => True
  end.

Lemma covers_True Unmarshal env r : covers (fun _ => True) (fun _ => True) True Unmarshal env r.
Proof.
  unfold covers. destruct (parsePathValues _). destruct (rq_segments r) as [|? [|? [|]]]; split_and?; try done.
  intros _. split_and!; try done. intros _. split; [done|]. intros c _. by apply Forall_true.
Qed.

Section logic.
Context {RS : ReedSolomon} {H : Type -> Type} {HB : MBind H} {HR : MRet H} {OPS : HandlerOps H}.
Context (Unmarshal : bytes -> option CompleteMultipartUpload) (s : Server) (env : Env).
Context {L : HandlerLogic H (objectStore s)}.

Abbreviation good := (hl_ok (A := unit) (fun _ => True)).
Abbreviation fine := (hl_ok (fun _ => True)).

Lemma hl_seq {A B} (m : H A) (k : A -> H B) : fine m -> (forall a, fine (k a)) -> fine (a ← m; k a).
Proof. intros Hm Hk. eapply hl_bind; [exact Hm|auto]. Qed.

Lemma hl_return {A} (a : A) : fine (mret a).
Proof. by apply hl_ret. Qed.

(** A get of which the reader is used, or not. *)
Lemma hl_get_reader {B} id (k : error + (reader * Z) -> H B) : hl_R id ->
  (forall err, fine (k (inl err))) ->
  (forall rd size, hl_reader id rd -> fine (k (inr (rd, size)))) ->
  fine (x ← store_GetObject (objectStore s) id; k x).
Proof. intros Hid H1 H2. eapply hl_bind; [by apply hl_get|]. intros [err|[rd size]] Hx; auto. Qed.

Lemma hl_get_any {B} id (k : error + (reader * Z) -> H B) : hl_R id ->
  (forall x, fine (k x)) -> fine (x ← store_GetObject (objectStore s) id; k x).
Proof. intros Hid Hk. by apply hl_get_reader. Qed.

#[local] Hint Resolve hl_return hl_put hl_delete hl_set hl_write_header hl_write : core.

(** Along the text of a handler. *)
Ltac keep := repeat first
  [ progress intros
  | solve [eauto 3]
  | match goal with
    | |- hl_ok _ (match ?x with _ => _ end) => destruct x eqn:?
    end
  | apply hl_get_any
  | apply hl_seq ].

Section handlers.
Context (reqID : string) (r : Request) (bucket object : string).
Context (Hpath : parsePathValues (URL_Path r) = (bucket, object)).

Abbreviation oid := (objectIDOf bucket object).
Abbreviation uid := (query_Get r "uploadId").

Lemma good_writeXMLError status code msg : good (writeXMLError s reqID status code msg r).
Proof. unfold writeXMLError. keep. Qed.

Lemma good_writeXML status d : good (writeXML status d).
Proof. unfold writeXML. keep. Qed.

Lemma good_http_Error status text : good (http_Error status text).
Proof. unfold http_Error. keep. Qed.
#[local] Hint Resolve good_writeXMLError good_writeXML good_http_Error : core.

Lemma good_methodNotAllowed allow : good (methodNotAllowed allow).
Proof. unfold methodNotAllowed. keep. Qed.

Lemma good_handleHealth : good (handleHealth s reqID r).
Proof. unfold handleHealth, writeJSON. keep. Qed.

Lemma good_check_bucket b k : hl_R (bucketMarkerID b) -> good k -> good (check_bucket s reqID b r k).
Proof. intros Hb Hk. unfold check_bucket. keep. Qed.
#[local] Hint Resolve good_check_bucket : core.

Lemma fine_list_loop prefix keys : hl_all -> forall om, fine (list_loop s env bucket prefix keys om).
Proof.
  intros Hall. assert (forall id, hl_R id) by (intros; by apply hl_all_R).
  induction keys as [|k keys IH]; intros om; cbn [list_loop]; keep.
Qed.

Lemma good_copy_body id rd : hl_R id -> hl_reader id rd -> good (copy_body env rd).
Proof. intros Hr Hrd. unfold copy_body. apply hl_seq; [by eapply hl_read_all|]. keep. Qed.

Lemma fine_read_part id rd : hl_R id -> hl_reader id rd -> fine (read_part env rd).
Proof. intros Hr Hrd. unfold read_part. apply hl_seq; [by eapply hl_read_all|]. keep. Qed.

Lemma fine_read_parts u parts :
  Forall (fun part => hl_W (partMarkerID oid u (pa_PartNumber part))) parts -> forall data,
  fine (read_parts s env oid u parts data).
Proof.
  induction 1 as [|part parts Hw _ IH]; intros data; cbn [read_parts]; [keep|]. apply hl_W_R in Hw.
  apply hl_get_reader; [done|keep|]. intros rd size Hrd. apply hl_seq; [by eapply fine_read_part|auto].
Qed.

Lemma good_delete_parts u parts :
  Forall (fun part => hl_W (partMarkerID oid u (pa_PartNumber part))) parts -> good (delete_parts s oid u parts).
Proof. induction 1 as [|part parts Hw _ IH]; cbn [delete_parts]; keep. Qed.
#[local] Hint Resolve fine_list_loop good_delete_parts hl_shards : core.

(** ** Buckets *)

Lemma good_handleCreateBucket : hl_W (bucketMarkerID bucket) -> good (handleCreateBucket s reqID r).
Proof. intros Hw. pose proof (hl_W_R _ Hw). unfold handleCreateBucket. rewrite Hpath. keep. Qed.

Lemma good_handleDeleteBucket : hl_W (bucketMarkerID bucket) -> good (handleDeleteBucket s reqID r).
Proof. intros Hw. pose proof (hl_W_R _ Hw). unfold handleDeleteBucket. rewrite Hpath. keep. Qed.

Lemma good_handleHeadBucket : hl_R (bucketMarkerID bucket) -> good (handleHeadBucket s reqID r).
Proof. intros Hr. unfold handleHeadBucket. rewrite Hpath. keep. Qed.

Lemma good_handleListObjectsV2 : hl_all -> good (handleListObjectsV2 s env reqID r).
Proof.
  intros Hall. pose proof (hl_all_R (bucketMarkerID bucket) Hall). unfold handleListObjectsV2. rewrite Hpath. keep.
Qed.

(** ** Objects *)

Lemma good_handlePutObject : hl_R (bucketMarkerID bucket) -> hl_W oid -> good (handlePutObject s reqID r).
Proof. intros Hb Ho. unfold handlePutObject. rewrite Hpath. keep. Qed.

Lemma good_handleGetObject : hl_R (bucketMarkerID bucket) -> hl_R oid -> good (handleGetObject s env reqID r).
Proof.
  intros Hb Ho. unfold handleGetObject. rewrite Hpath. destruct (_ || _); [keep|].
  apply good_check_bucket; [done|]. apply hl_get_reader; [done|keep|].
  intros rd size Hrd. pose proof (good_copy_body _ rd Ho Hrd). keep.
Qed.

Lemma good_handleHeadObject : hl_R (bucketMarkerID bucket) -> hl_R oid -> good (handleHeadObject s reqID r).
Proof. intros Hb Ho. unfold handleHeadObject. rewrite Hpath. keep. Qed.

Lemma good_handleDeleteObject : hl_R (bucketMarkerID bucket) -> hl_W oid -> good (handleDeleteObject s reqID r).
Proof. intros Hb Ho. unfold handleDeleteObject. rewrite Hpath. keep. Qed.

(** ** Uploads *)

Definition W_parts : Prop := forall c, Unmarshal (pending (rq_Body r)) = Some c ->
  Forall (fun part => hl_W (partMarkerID oid uid (pa_PartNumber part))) (cu_Parts c).

Lemma good_completeMultipartUpload : hl_W oid -> hl_W (uploadMarkerID oid uid) -> W_parts ->
  good (completeMultipartUpload Unmarshal s env reqID bucket object uid r).
Proof.
  intros Ho Hu Hparts. unfold completeMultipartUpload, read_request_body. case_bool_decide; [|keep].
  destruct (Unmarshal _) as [c|] eqn:E; [|keep]. specialize (Hparts c E).
  pose proof (fine_read_parts uid _ Hparts). unfold completeUpload. cbv zeta. keep.
Qed.

Lemma good_handleMultipartOperations :
  rq_Method r = "POST"%string -> hl_W (uploadMarkerID oid uid) ->
  hl_W (uploadMarkerID oid (generateUploadID env)) ->
  (query_Get r "action" = "complete"%string -> hl_W oid /\ W_parts) ->
  good (handleMultipartOperations Unmarshal s env reqID r).
Proof.
  intros Hm Hu Hg Hc. unfold handleMultipartOperations, createMultipartUpload, abortMultipartUpload.
  rewrite Hpath, Hm, !(bool_decide_eq_false_2 ("POST" = "GET")%string),
    (bool_decide_eq_false_2 ("POST" = "PUT")%string), !andb_false_r by done. cbv zeta.
  destruct (bool_decide_reflect (query_Get r "action" = "complete"%string)) as [Ha|_].
  - destruct (Hc Ha) as [Ho Hparts]. pose proof (good_completeMultipartUpload Ho Hu Hparts). keep.
  - rewrite andb_false_r. keep.
Qed.
End handlers.

(** ** Routing *)

Lemma good_mux reqID r : covers hl_W hl_R hl_all Unmarshal env r -> good (mux Unmarshal s env reqID r).
Proof.
  destruct (parsePathValues (URL_Path r)) as [bucket object] eqn:Hpath. unfold covers. rewrite Hpath. unfold mux.
  case_bool_decide; [destruct (_ || _); intros _; [apply good_handleHealth|apply good_methodNotAllowed]|].
  destruct (rq_segments r) as [|b [|k [|]]]; try (intros; apply good_http_Error).
  - intros (Hw & Hg & Hr). destruct (negb _); [apply good_http_Error|].
    case_bool_decide as Hm1; [eapply good_handleCreateBucket; [done|auto]|].
    case_bool_decide as Hm2; [eapply good_handleDeleteBucket; [done|auto]|].
    case_bool_decide as Hm3; [eapply good_handleListObjectsV2; [done|auto]|].
    case_bool_decide as Hm4; [eapply good_handleHeadBucket; [done|auto]|apply good_methodNotAllowed].
  - intros (Hb & Hw & Hr & Hpost). destruct (_ || _); [apply good_http_Error|].
    case_bool_decide as Hm1; [eapply good_handlePutObject; [done|apply Hb; congruence|auto]|].
    case_bool_decide as Hm2; [eapply good_handleGetObject; [done|apply Hb; congruence|auto]|].
    case_bool_decide as Hm3; [eapply good_handleHeadObject; [done|apply Hb; congruence|auto]|].
    case_bool_decide as Hm4; [eapply good_handleDeleteObject; [done|apply Hb; congruence|auto]|].
    case_bool_decide as Hm5; [|apply good_methodNotAllowed].
    destruct (Hpost Hm5) as (U1 & U2 & U3). by eapply good_handleMultipartOperations.
Qed.

Lemma logic_auth reqID r :
  covers hl_W hl_R hl_all Unmarshal env r -> good (auth s (mux Unmarshal s env) reqID r).
Proof.
  intros Hc. pose proof (good_mux reqID r Hc). unfold auth.
  repeat (case_match; [done || apply good_writeXMLError|]). done.
Qed.
End logic.
