(* ===== verification/ApiServe.v ===== *)
(** The protocol side of internal/api, over any shard store: what every
    response carries, what auth lets through, how a path is parsed, and how a
    request is run in the proofs about the handlers. *)
From S2P Require Import Prelude Binary Sha256 EC Header ShardStore ObjectStore FileNames Http S3Types Api.

(** The object key parsePathValues takes from the second path segment: a
    segment with a slash in it (written %2F) loses the part before the slash. *)
Definition object_of (seg : string) : string :=
  match cut_at "/" seg with (x, None) => x | (_, Some y) => y end.

(** What auth looks at. *)
Definition passes_auth (s : Server) (r : Request) : bool :=
  permissiveAuth s || bool_decide (URL_Path r = "/_internal/health/check"%string)
  || HasPrefix (header_Get r "Authorization") "AWS4-HMAC-SHA256 ".

Definition permissive (s : Server) : Server := mkServer (nodeID s) (objectStore s) true.

(** The id requestID gives a request. *)
Definition request_id (env : Env) (r : Request) : string :=
  if bool_decide (header_Get r requestIDHeader = ""%string) then newRequestID env
  else header_Get r requestIDHeader.

Section serve.
Context {RS : ReedSolomon} {S : Type} {SS : ShardStore S}.
Context (Unmarshal : bytes -> option CompleteMultipartUpload).
Context (s : Server) (env : Env).

Abbreviation Serve := (ServeHTTP Unmarshal s env).

(** * Response discipline

    A handler starts on an unsent response and calls WriteHeader once. *)

Definition unsent (id : string) (c : Conn S) : Prop :=
  rw_sent (c_rw c) = None /\ c_status c = 200 /\ rw_header (c_rw c) !! requestIDHeader = Some id.

Definition sent (id : string) (c : Conn S) : Prop :=
  exists hs, rw_sent (c_rw c) = Some (c_status c, hs) /\ hs !! requestIDHeader = Some id.

(** Total up to panics: from [P] the computation never returns an error, and
    ends in [Q]. *)
Definition triple {A} (P : Conn S -> Prop) (m : M (Conn S) A) (Q : Conn S -> Prop) : Prop :=
  forall c, P c -> match m c with (OK _, c') => Q c' | (Err _, _) => False | (Panicked _, _) => True end.

Lemma triple_bind {A B} (P Q R : Conn S -> Prop) (m : M (Conn S) A) (f : A -> M (Conn S) B) :
  triple P m Q -> (forall a, triple Q (f a) R) -> triple P (a ← m; f a) R.
Proof.
  intros Hm Hf c Hc. unfold mbind, M_bind. specialize (Hm c Hc).
  destruct (m c) as [[a|e|msg] c']; [by apply Hf|done|done].
Qed.

Lemma triple_ret {A} P (a : A) : triple P (mret a : M (Conn S) A) P.
Proof. by intros c. Qed.

Lemma triple_call {A} P (m : M (World S) A) :
  (forall c w, P c -> P (mkConn w (c_rw c) (c_status c))) -> triple P (call m) P.
Proof. intros H c Hc. unfold call. destruct (m (c_world c)) as [[a|e|msg] w]; auto. Qed.

Lemma triple_if {A} P Q (b : bool) (m1 m2 : M (Conn S) A) :
  triple P m1 Q -> triple P m2 Q -> triple P (if b then m1 else m2) Q.
Proof. by destruct b. Qed.

Lemma unsent_call {A} id (m : M (World S) A) : triple (unsent id) (call m) (unsent id).
Proof. by apply triple_call. Qed.

Lemma sent_call {A} id (m : M (World S) A) : triple (sent id) (call m) (sent id).
Proof. by apply triple_call. Qed.

Lemma unsent_Set id key value : key <> requestIDHeader -> triple (unsent id) (Set_ key value) (unsent id).
Proof. intros Hk c (H1 & H2 & H3). split_and!; [done..|]. cbn. by rewrite lookup_insert_ne. Qed.

Lemma sent_Set id key value : triple (sent id) (Set_ key value) (sent id).
Proof. by intros c H. Qed.

Lemma unsent_WriteHeader id code : triple (unsent id) (WriteHeader code) (sent id).
Proof.
  intros c (H1 & H2 & H3). exists (rw_header (c_rw c)). cbn. unfold rw_WriteHeader. by rewrite H1.
Qed.

Lemma sent_Write id d : triple (sent id) (Write d) (sent id).
Proof.
  intros c (hs & H1 & H2). exists hs. cbn. unfold rw_Write, rw_WriteHeader. by rewrite H1.
Qed.

(** Reading never ends in an error return: errors are values of io.ReadAll. *)
Lemma ReadAll_no_err fuel sizes i rd (st : S) err : ReadAll fuel sizes i rd st <> Err err.
Proof.
  revert i rd. induction fuel as [|fuel IH]; intros i rd; [done|]. cbn [ReadAll]. unfold mbind, result_bind.
  assert (forall e, reader_Read (sizes i) rd st <> Err e) as Hr.
  { intros e. destruct rd as [|r]; [done|]. cbn [reader_Read]. unfold mbind, result_bind, Read.
    destruct (r_stripeIdx r >=? r_totalStripes r); [done|].
    destruct (r_off r =? length (r_buf r))%nat; [|by destruct (copy_out _ r) as [[]]].
    destruct (loadStripe r st) as [r1|e1|msg]; [|done|done].
    destruct (len (r_buf r1) =? 0); [done|by destruct (copy_out _ r1) as [[]]]. }
  destruct (reader_Read _ _ _) as [[[p e] rd']|e|msg]; [|by destruct (Hr e)|done].
  destruct e as [e|]; [done|]. specialize (IH (Datatypes.S i) rd').
  destruct (ReadAll fuel _ _ _ _) as [[rest e]|e|msg]; [done| |done].
  intros [= ->]. by apply IH.
Qed.

Lemma triple_read_all P fuel sizes rd : triple P (read_all fuel sizes rd) P.
Proof.
  intros c Hc. unfold read_all. pose proof (ReadAll_no_err fuel sizes 0 rd (w_store (c_world c))) as Hr.
  destruct (ReadAll _ _ _ _ _) as [x|e|msg]; [done|by destruct (Hr e)|done].
Qed.

Lemma sent_copy_body id rd : triple (sent id) (copy_body env rd) (sent id).
Proof.
  unfold copy_body. eapply triple_bind; [apply triple_read_all|]. intros [[|b data] e]; [apply triple_ret|apply sent_Write].
Qed.

Lemma unsent_read_part id rd : triple (unsent id) (read_part env rd) (unsent id).
Proof. unfold read_part. eapply triple_bind; [apply triple_read_all|]. intros [data e]. apply triple_ret. Qed.

#[local] Hint Resolve unsent_call sent_call sent_Set unsent_WriteHeader sent_Write sent_copy_body
  unsent_read_part triple_ret : core.
#[local] Hint Extern 1 (triple _ (Set_ _ _) _) => (apply unsent_Set; done) : core.

(** One rule of the logic at a time, along the text of a handler. *)
Ltac walk := repeat first
  [ progress intros
  | solve [on_conn; eauto 2]
  | match goal with
    | |- triple _ (if _ then _ else _) _ => apply triple_if
    | |- triple _ (match ?x with _ => _ end) _ => destruct x
    end
  | eapply triple_bind ].

Lemma unsent_writeXMLError reqID id status code msg r :
  triple (unsent id) (writeXMLError s reqID status code msg r) (sent id).
Proof. unfold writeXMLError. walk. Qed.

Lemma unsent_writeXML id status d : triple (unsent id) (writeXML status d) (sent id).
Proof. unfold writeXML. walk. Qed.
#[local] Hint Resolve unsent_writeXMLError unsent_writeXML : core.

Lemma unsent_check_bucket reqID id bucket r k :
  triple (unsent id) k (sent id) -> triple (unsent id) (check_bucket s reqID bucket r k) (sent id).
Proof. intros Hk. unfold check_bucket. walk. Qed.

Lemma unsent_list_loop id bucket prefix keys : forall om,
  triple (unsent id) (list_loop s env bucket prefix keys om) (unsent id).
Proof.
  induction keys as [|key keys IH]; intros om; cbn [list_loop]; [auto|].
  repeat (apply triple_if; [by apply IH|]). eapply triple_bind; [on_conn; auto|].
  intros [e|[rd size]]; apply IH.
Qed.

Lemma unsent_read_parts id oid uid parts : forall data,
  triple (unsent id) (read_parts s env oid uid parts data) (unsent id).
Proof.
  induction parts as [|part parts IH]; intros data; cbn [read_parts]; [auto|].
  eapply triple_bind; [on_conn; auto|]. intros [e|[rd size]]; [auto|]. eapply triple_bind; on_conn; auto.
Qed.

Lemma unsent_delete_parts id oid uid parts :
  triple (unsent id) (delete_parts s oid uid parts) (unsent id).
Proof. induction parts as [|part parts IH]; cbn [delete_parts]; [auto|]. eapply triple_bind; on_conn; auto. Qed.
#[local] Hint Resolve unsent_check_bucket unsent_list_loop unsent_read_parts unsent_delete_parts : core.

Lemma unsent_mux id reqID r : triple (unsent id) (mux Unmarshal s env reqID r) (sent id).
Proof.
  unfold mux, methodNotAllowed, http_Error, handleHealth, writeJSON.
  unfold handleCreateBucket, handleDeleteBucket, handleListObjectsV2, handleHeadBucket, handlePutObject,
    handleGetObject, handleHeadObject, handleDeleteObject, handleMultipartOperations,
    createMultipartUpload, uploadPart, completeMultipartUpload, completeUpload, abortMultipartUpload.
  destruct (parsePathValues (URL_Path r)) as [bucket object].
  walk.
Qed.

Lemma unsent_auth id reqID r :
  triple (unsent id) (auth s (mux Unmarshal s env) reqID r) (sent id).
Proof. unfold auth. pose proof (unsent_mux id reqID r). walk. Qed.

Lemma unsent_start w r : unsent (request_id env r)
  (mkConn w (rw_Set requestIDHeader (request_id env r) rw_new) 200).
Proof. split_and!; [done..|]. cbn. apply lookup_insert_eq. Qed.

(** A request whose handler is known to end with the response sent. *)
Lemma Serve_run r w w' rw status hs :
  auth s (mux Unmarshal s env) (request_id env r) r
    (mkConn w (rw_Set requestIDHeader (request_id env r) rw_new) 200) = (OK tt, mkConn w' rw status) ->
  rw_sent rw = Some (status, hs) ->
  Serve r w = (OK (mkReply status hs (rw_body rw)
    (mkLog (request_id env r) (rq_Method r) (URL_Path r) status)), w').
Proof. intros H Hs. unfold ServeHTTP. fold (request_id env r). rewrite H. unfold rw_finish. cbn. by rewrite Hs. Qed.

(** C24. Every request is answered once, whatever the store does: the server
    never drops an error, the status in the access log is the status the
    client gets, and response and log carry the same request id, which is the
    client's when it sent one. (The one way not to answer is a panic.) *)
Theorem ServeHTTP_response r w :
  match ServeHTTP Unmarshal s env r w with
  | (OK reply, _) =>
      lg_Status (rp_log reply) = rp_status reply /\
      rp_header reply !! requestIDHeader = Some (lg_RequestID (rp_log reply)) /\
      lg_RequestID (rp_log reply)
        = (if bool_decide (header_Get r requestIDHeader = ""%string) then newRequestID env
           else header_Get r requestIDHeader) /\
      lg_Method (rp_log reply) = rq_Method r /\ lg_Path (rp_log reply) = URL_Path r
  | (Err _, _) => False
  | (Panicked _, _) => True
  end.
Proof.
  pose proof (unsent_auth (request_id env r) (request_id env r) r _ (unsent_start w r)) as H.
  unfold ServeHTTP. fold (request_id env r).
  destruct (auth (H := M (Conn S)) _ _ _ _ _) as [[[]|e|msg] c]; [|done|done].
  destruct H as (hs & Hs & Hid). unfold rw_finish. rewrite Hs. cbn. by rewrite Hid.
Qed.

(** C23. What auth does, completely. With permissiveAuth, on the health path,
    and for every Authorization header that starts with "AWS4-HMAC-SHA256 ",
    a request is served exactly as a permissive server serves it: no
    signature is verified. Every other request gets 403 with the S3 error for
    a missing or a malformed header, and neither store nor cache changes. *)
Theorem auth_spec r w :
  ServeHTTP Unmarshal s env r w =
    if passes_auth s r then ServeHTTP Unmarshal (permissive s) env r w
    else
      let id := request_id env r in
      let '(code, message) :=
        if bool_decide (header_Get r "Authorization" = ""%string)
        then (ErrCodeAccessDenied, "Missing Authorization header"%string)
        else (ErrCodeSignatureDoesNotMatch, "Invalid Authorization header format"%string) in
      (OK (mkReply 403 (<["Content-Type" := "application/xml"]> {[requestIDHeader := id]})%string
             [XMLError (mkS3Error code message (URL_Path r) id (nodeID s) "" "")]
             (mkLog id (rq_Method r) (URL_Path r) 403)), w).
Proof.
  unfold passes_auth. destruct s as [node store perm]. cbn [permissiveAuth nodeID].
  unfold ServeHTTP, auth. fold (request_id env r). cbn [permissiveAuth nodeID permissive].
  destruct perm; [done|]. case_bool_decide as Hh; [done|]. cbn [orb].
  case_bool_decide as Ha; [by rewrite Ha|].
  by destruct (HasPrefix _ _).
Qed.

(** ** The headers of a GET *)

(** Nothing sent yet, and none of the three headers set; and a response that,
    if it is a success, was sent without them. *)
Definition object_header (key : string) : Prop :=
  key = "Content-Length"%string \/ key = "ETag"%string \/ key = "Content-Type"%string.

Definition bare (c : Conn S) : Prop :=
  rw_sent (c_rw c) = None /\ c_status c = 200 /\
  forall key, object_header key -> rw_header (c_rw c) !! key = None.

Definition sent_bare (c : Conn S) : Prop :=
  exists hs, rw_sent (c_rw c) = Some (c_status c, hs) /\
    (c_status c < 300 -> forall key, object_header key -> hs !! key = None).

Lemma bare_WriteHeader code : triple bare (WriteHeader code) sent_bare.
Proof.
  intros c (H1 & H2 & H3). exists (rw_header (c_rw c)). cbn. unfold rw_WriteHeader. rewrite H1. auto.
Qed.

Lemma bare_Set key value : ~ object_header key -> triple bare (Set_ key value) bare.
Proof.
  intros Hk c (H1 & H2 & H3). split_and!; [done..|]. intros key' Hk'. cbn.
  rewrite lookup_insert_ne; [by apply H3|]. by intros ->.
Qed.

Lemma sent_bare_Set key value : triple sent_bare (Set_ key value) sent_bare.
Proof. by intros c H. Qed.

Lemma sent_bare_copy_body rd : triple sent_bare (copy_body env rd) sent_bare.
Proof.
  unfold copy_body. eapply triple_bind; [apply triple_read_all|]. intros [[|b data] e]; [apply triple_ret|].
  intros c (hs & H1 & H2). exists hs. cbn. unfold rw_Write, rw_WriteHeader. by rewrite H1.
Qed.

Lemma bare_writeXMLError reqID status code msg r :
  300 <= status -> triple bare (writeXMLError s reqID status code msg r) sent_bare.
Proof.
  intros Hst [w rw st] (H1 & H2 & H3). cbn in H1. eexists. split.
  - cbn. unfold rw_Write, rw_WriteHeader. cbn. rewrite H1. reflexivity.
  - cbn. lia.
Qed.

Lemma bare_http_Error status text : 300 <= status -> triple bare (http_Error status text) sent_bare.
Proof.
  intros Hst [w rw st] (H1 & H2 & H3). cbn in H1. eexists. split.
  - cbn. unfold rw_Write, rw_WriteHeader. cbn. rewrite H1. reflexivity.
  - cbn. lia.
Qed.

Lemma bare_call {A} (m : M (World S) A) : triple bare (call m) bare.
Proof. by apply triple_call. Qed.

Lemma bare_handleGetObject reqID r : triple bare (handleGetObject s env reqID r) sent_bare.
Proof.
  unfold handleGetObject, check_bucket. destruct (parsePathValues _) as [bucket object].
  apply triple_if; [by apply bare_writeXMLError|]. eapply triple_bind; [apply bare_call|].
  intros [err|x]; [apply triple_if; by apply bare_writeXMLError|].
  eapply triple_bind; [apply bare_call|].
  intros [err|[rd size]]; [apply triple_if; by apply bare_writeXMLError|].
  eapply triple_bind with (Q := sent_bare).
  { apply triple_if; [|apply bare_WriteHeader]. eapply triple_bind; [|intros; apply bare_WriteHeader].
    apply bare_Set. by intros [?|[?|?]]. }
  intros _. repeat (eapply triple_bind; [apply sent_bare_Set|intros _]). apply sent_bare_copy_body.
Qed.

(** C38. A GET never sends the headers it sets. handleGetObject calls
    WriteHeader before it sets Content-Length, ETag and Content-Type, and
    header changes after WriteHeader do not reach the client: no successful
    GET of an object, on any store, carries one of the three from the
    handler (HEAD, which sets them first, does). *)
Theorem get_headers_lost r bucket object w reply w' :
  rq_Method r = "GET"%string -> rq_segments r = [bucket; object] -> bucket <> ""%string -> object <> ""%string ->
  ServeHTTP Unmarshal s env r w = (OK reply, w') -> rp_status reply < 300 ->
  rp_header reply !! "Content-Length"%string = None /\ rp_header reply !! "ETag"%string = None /\
  rp_header reply !! "Content-Type"%string = None.
Proof.
  intros Hm Hs Hb Ho H Hst. set (c0 := mkConn w (rw_Set requestIDHeader (request_id env r) rw_new) 200).
  assert (forall reqID, triple bare (auth s (mux Unmarshal s env) reqID r) sent_bare) as Ht.
  { intros reqID. assert (triple bare (mux Unmarshal s env reqID r) sent_bare) as Hmux.
    { unfold mux. rewrite Hs, Hm. rewrite bool_decide_eq_false_2 by done.
      apply triple_if; [by apply bare_http_Error|apply bare_handleGetObject]. }
    unfold auth. repeat (apply triple_if; [done || by apply bare_writeXMLError|]). done. }
  assert (bare c0) as Hbare.
  { split_and!; [done..|]. intros key Hk. cbn. rewrite lookup_insert_ne; [apply lookup_empty|].
    intros <-. by destruct Hk as [?|[?|?]]. }
  specialize (Ht (request_id env r) c0 Hbare). unfold ServeHTTP in H. fold (request_id env r) c0 in H.
  destruct (auth (H := M (Conn S)) _ _ _ _ c0) as [[[]|e|msg] c]; [|done|done].
  destruct Ht as (hs & Hsent & Hno). unfold rw_finish in H. rewrite Hsent in H. inversion H; subst. cbn in *.
  unfold object_header in Hno. split_and!; apply Hno; tauto.
Qed.
End serve.

(** * Paths *)

Lemma app_nil_string (a : string) : (a +:+ "")%string = a.
Proof.
  induction a as [|x a IH]; [done|].
  change (String x (a +:+ "") = String x a)%string. by rewrite IH.
Qed.

(** A bucket segment and an object segment, as the handlers see them. *)
Lemma parsePathValues_object b k r :
  rq_segments r = [b; k] -> no_byte "/" b = true -> b <> ""%string ->
  parsePathValues (URL_Path r) = (b, object_of k).
Proof.
  intros Hs Hb Hne. unfold URL_Path. rewrite Hs. cbn [fold_right]. rewrite app_nil_string.
  unfold parsePathValues. change (TrimPrefix ("/" +:+ b +:+ "/" +:+ k) "/") with (b +:+ String "/" k)%string.
  rewrite bool_decide_eq_false_2 by (by destruct b).
  cbn [SplitN]. rewrite cut_at_app by done. unfold object_of.
  destruct (cut_at "/" k) as [x [y|]] eqn:E; [done|].
  assert (x = k) as ->; [|done]. clear -E. revert x E.
  induction k as [|c k IH]; intros x; cbn; [congruence|]. case_bool_decide; [done|].
  destruct (cut_at "/" k) as [x' [y|]]; [done|]. intros [= <-]. f_equal. by apply IH.
Qed.

Lemma parsePathValues_bucket b r :
  rq_segments r = [b] -> no_byte "/" b = true -> b <> ""%string ->
  parsePathValues (URL_Path r) = (b, ""%string).
Proof.
  intros Hs Hb Hne. unfold URL_Path. rewrite Hs. cbn [fold_right]. rewrite app_nil_string.
  unfold parsePathValues. change (TrimPrefix ("/" +:+ b) "/") with b.
  rewrite bool_decide_eq_false_2 by done. cbn [SplitN]. by rewrite cut_at_none.
Qed.

Lemma object_of_plain k : no_byte "/" k = true -> object_of k = k.
Proof. intros H. unfold object_of. by rewrite cut_at_none. Qed.

Lemma object_of_slash x k : no_byte "/" x = true -> object_of (x +:+ "/" +:+ k) = k.
Proof.
  intros H. unfold object_of.
  change (x +:+ "/" +:+ k)%string with (x +:+ String "/" k)%string. by rewrite cut_at_app.
Qed.
