(* ===== verification/ApiContract.v ===== *)
(** The S3 operations of internal/api over an in-memory shard store: what a
    client that puts, gets and deletes buckets, objects and uploads observes. *)
From S2P Require Import Prelude Binary Sha256 EC XorCodec Header ShardStore MemStore ObjectStore ObjectWrite ObjectRead ObjectSpec Contract FileNames Http S3Types Api ApiServe.

(** The bucket's marker object exists, or it does not. *)
Definition has_bucket (m : MemStore) (b : string) : Prop :=
  (forall key, k_ObjectID key = bucketMarkerID b -> shards m !! key = None) /\
  is_Some (markers m !! bucketMarkerID b).

Definition no_bucket (m : MemStore) (b : string) : Prop :=
  (forall key, k_ObjectID key = bucketMarkerID b -> shards m !! key = None) /\
  markers m !! bucketMarkerID b = None.

(** A request auth lets through, for the object that segment [seg] names in
    bucket [b]; and one for the bucket itself. *)
Definition object_request (s : Server) (r : Request) (meth b seg : string) : Prop :=
  passes_auth s r = true /\ rq_Method r = meth /\ rq_segments r = [b; seg] /\
  b <> ""%string /\ no_byte "/" b = true /\ object_of seg <> ""%string.

Definition bucket_request (s : Server) (r : Request) (meth b : string) : Prop :=
  passes_auth s r = true /\ rq_Method r = meth /\ rq_segments r = [b] /\
  b <> ""%string /\ no_byte "/" b = true.

Lemma wildcard_bucket b : b <> ""%string -> no_byte "/" b = true -> wildcard b = true.
Proof. intros H1 H2. unfold wildcard. rewrite !bool_decide_eq_false_2; [done|by intros ->|done]. Qed.

Lemma wildcard_object seg : object_of seg <> ""%string -> wildcard seg = true.
Proof. intros H. unfold wildcard. by rewrite !bool_decide_eq_false_2 by (intros ->; by apply H). Qed.

Lemma objectIDOf_not_marker b k b' :
  no_byte "/" b = true -> b <> "__bucket__"%string -> objectIDOf b k <> bucketMarkerID b'.
Proof.
  intros Hb Hne H. apply (f_equal (fun x => (cut_at "/" x).1)) in H.
  unfold objectIDOf, bucketMarkerID in H.
  change (b +:+ "/" +:+ k)%string with (b +:+ String "/" k)%string in H.
  change ("__bucket__/" +:+ b')%string with ("__bucket__" +:+ String "/" b')%string in H.
  rewrite !cut_at_app in H by done. done.
Qed.

Lemma multipart_not_object b k oid uid n :
  no_byte "/" b = true -> b <> "__multipart__"%string -> partMarkerID oid uid n <> objectIDOf b k.
Proof.
  intros Hb Hne H. apply (f_equal (fun x => (cut_at "/" x).1)) in H.
  unfold objectIDOf, partMarkerID in H.
  change (b +:+ "/" +:+ k)%string with (b +:+ String "/" k)%string in H.
  change ("__multipart__/" +:+ ?x)%string with ("__multipart__" +:+ String "/" x)%string in H.
  rewrite !cut_at_app in H by done. by destruct Hne.
Qed.

Lemma objectIDOf_nonempty b k : objectIDOf b k <> ""%string.
Proof. by destruct b. Qed.

(** * Running a handler *)

Section routes.
Context {RS : ReedSolomon} {S : Type} {SS : ShardStore S} (Unmarshal : bytes -> option CompleteMultipartUpload).
Context (s : Server) (env : Env).

Abbreviation o := (objectStore s).
Abbreviation Serve := (ServeHTTP Unmarshal s env).
Abbreviation start r w := (mkConn w (rw_Set requestIDHeader (request_id env r) rw_new) 200).

(** A handler's next step, when the outcome of its call is known. *)
Lemma call_bind_OK {A B} (m : M (World S) A) (f : error + A -> M (Conn S) B) w rw st a w' :
  m w = (OK a, w') -> (call m ≫= f) (mkConn w rw st) = f (inr a) (mkConn w' rw st).
Proof. intros H. unfold call, mbind, M_bind. cbn. by rewrite H. Qed.

Lemma call_bind_Err {A B} (m : M (World S) A) (f : error + A -> M (Conn S) B) w rw st e w' :
  m w = (Err e, w') -> (call m ≫= f) (mkConn w rw st) = f (inl e) (mkConn w' rw st).
Proof. intros H. unfold call, mbind, M_bind. cbn. by rewrite H. Qed.

(** The handlers mux picks. *)
Definition object_handler (meth : string) : string -> Request -> M (Conn S) unit :=
  if bool_decide (meth = "PUT"%string) then handlePutObject s
  else if bool_decide (meth = "GET"%string) then handleGetObject s env
  else if bool_decide (meth = "HEAD"%string) then handleHeadObject s
  else if bool_decide (meth = "DELETE"%string) then handleDeleteObject s
  else if bool_decide (meth = "POST"%string) then handleMultipartOperations Unmarshal s env
  else fun _ _ => methodNotAllowed "DELETE, GET, HEAD, POST, PUT".

Definition bucket_handler (meth : string) : string -> Request -> M (Conn S) unit :=
  if bool_decide (meth = "PUT"%string) then handleCreateBucket s
  else if bool_decide (meth = "DELETE"%string) then handleDeleteBucket s
  else if bool_decide (meth = "GET"%string) then handleListObjectsV2 s env
  else if bool_decide (meth = "HEAD"%string) then handleHeadBucket s
  else fun _ _ => methodNotAllowed "DELETE, GET, HEAD, PUT".

Lemma auth_passes r next reqID : passes_auth s r = true ->
  auth (H := M (Conn S)) s next reqID r = next reqID r.
Proof.
  intros Ha. unfold auth. unfold passes_auth in Ha. destruct (permissiveAuth s); [done|].
  case_bool_decide; [done|]. cbn [orb] in Ha. rewrite Ha. case_bool_decide as He; [|done].
  by rewrite He in Ha.
Qed.

Lemma route_object r meth b seg reqID : object_request s r meth b seg ->
  auth s (mux Unmarshal s env) reqID r = object_handler meth reqID r.
Proof.
  intros (Ha & Hm & Hs & Hb & Hbb & Hk).
  rewrite auth_passes by done. unfold mux. rewrite Hs, Hm, bool_decide_eq_false_2 by done.
  rewrite wildcard_bucket, wildcard_object by done. cbn [negb orb]. unfold object_handler. by repeat case_bool_decide.
Qed.

Lemma route_bucket r meth b reqID : bucket_request s r meth b ->
  auth s (mux Unmarshal s env) reqID r = bucket_handler meth reqID r.
Proof.
  intros (Ha & Hm & Hs & Hb & Hbb).
  rewrite auth_passes by done. unfold mux. rewrite Hs, Hm, bool_decide_eq_false_2 by done.
  rewrite wildcard_bucket by done. cbn [negb]. unfold bucket_handler. by repeat case_bool_decide.
Qed.

Lemma object_request_path r meth b seg : object_request s r meth b seg ->
  parsePathValues (URL_Path r) = (b, object_of seg) /\ b <> ""%string /\ object_of seg <> ""%string.
Proof. intros (Ha & Hm & Hs & Hb & Hbb & Hk). split; [by apply parsePathValues_object|done]. Qed.

Lemma check_bucket_OK reqID b r k w rw st x w' :
  GetObject o (bucketMarkerID b) w = (OK x, w') -> check_bucket s reqID b r k (mkConn w rw st) = k (mkConn w' rw st).
Proof. intros H. unfold check_bucket. by rewrite (call_bind_OK _ _ _ _ _ _ _ H). Qed.

(** ** One request at a time *)

(** Peel a handler up to its first call of the object store. *)
Ltac enter Hr :=
  destruct (object_request_path _ _ _ _ Hr) as (Hpath & Hbne & Hkne);
  rewrite (route_object _ _ _ _ _ Hr);
  lazymatch goal with
  | |- object_handler "PUT" ?id ?r _ = _ => change (object_handler "PUT" id r) with (handlePutObject (H := M (Conn S)) s id r)
  | |- object_handler "GET" ?id ?r _ = _ => change (object_handler "GET" id r) with (handleGetObject (H := M (Conn S)) s env id r)
  | |- object_handler "POST" ?id ?r _ = _ =>
      change (object_handler "POST" id r) with (handleMultipartOperations (H := M (Conn S)) Unmarshal s env id r)
  end;
  unfold handlePutObject, handleGetObject, handleMultipartOperations;
  rewrite Hpath, (bool_decide_eq_false_2 _ Hbne), (bool_decide_eq_false_2 _ Hkne); cbn [orb].

Lemma Serve_put r b seg w x w0 w' :
  object_request s r "PUT" b seg -> GetObject o (bucketMarkerID b) w = (OK x, w0) -> 0 <= rq_ContentLength r ->
  PutObject o (objectIDOf b (object_of seg)) (rq_Body r) (rq_ContentLength r) w0 = (OK tt, w') ->
  exists reply, Serve r w = (OK reply, w') /\ rp_status reply = 200 /\ rp_body reply = [] /\
    rp_header reply !! "ETag"%string = Some (etag (rq_ContentLength r)).
Proof.
  intros Hr Hb Hl Hput. eexists. split; [eapply Serve_run|].
  - enter Hr. rewrite (check_bucket_OK _ _ _ _ _ _ _ _ _ Hb). destruct (Z.ltb_spec (rq_ContentLength r) 0); [lia|].
    rewrite (call_bind_OK _ _ _ _ _ _ _ Hput). reflexivity.
  - reflexivity.
  - split; [reflexivity|]. split; [done|]. apply lookup_insert_eq.
Qed.

(** The response of handleGetObject, up to its body. *)
Definition get_head (r : Request) (size : Z) (rw : ResponseWriter document) : ResponseWriter document :=
  rw_Set "Content-Type" "application/octet-stream" (rw_Set "ETag" (etag size)
    (rw_Set "Content-Length" (FormatInt size)
      (if bool_decide (header_Get r "Range" = ""%string) then rw_WriteHeader 200 rw
       else rw_WriteHeader 206
         (rw_Set "Content-Range" ("bytes 0-" +:+ FormatInt (i64 (size - 1)) +:+ "/" +:+ FormatInt size) rw)))).

Lemma Serve_get r b seg w x w0 w' rd size data e :
  object_request s r "GET" b seg -> GetObject o (bucketMarkerID b) w = (OK x, w0) ->
  GetObject o (objectIDOf b (object_of seg)) w0 = (OK (rd, size), w') ->
  ReadAll (e_fuel env) (e_sizes env) 0 rd (w_store w') = OK (data, e) ->
  exists reply, Serve r w = (OK reply, w') /\
    rp_status reply = (if bool_decide (header_Get r "Range" = ""%string) then 200 else 206) /\
    rp_body reply = (if decide (data = []) then [] else [Raw data]).
Proof.
  intros Hr Hb Hget Hread.
  set (rw0 := rw_Set requestIDHeader (request_id env r) rw_new : ResponseWriter document).
  set (st := if bool_decide (header_Get r "Range" = ""%string) then 200 else 206).
  set (rw1 := if decide (data = []) then get_head r size rw0 else rw_Write (Raw data) (get_head r size rw0)).
  assert (auth s (mux Unmarshal s env) (request_id env r) r (start r w) = (OK tt, mkConn w' rw1 st)) as Hrun.
  { enter Hr. rewrite (check_bucket_OK _ _ _ _ _ _ _ _ _ Hb).
    rewrite (call_bind_OK _ _ _ _ _ _ _ Hget).
    assert (forall rw, copy_body env rd (mkConn w' rw st)
      = (OK tt, mkConn w' (if decide (data = []) then rw else rw_Write (Raw data) rw) st)) as Hc.
    { intros rw. unfold copy_body, mbind, M_bind. on_conn. unfold read_all. cbn [c_world]. rewrite Hread. by destruct data. }
    unfold rw1, get_head, st in *. case_bool_decide; apply Hc. }
  destruct (rw_sent rw1) as [[st' hs]|] eqn:Hsent.
  - assert (st' = st) as -> by (unfold rw1, get_head, st in *; case_decide; case_bool_decide; by inversion Hsent).
    eexists. split; [by eapply Serve_run|]. split; [done|]. cbn. unfold rw1, get_head.
    by case_decide; case_bool_decide.
  - exfalso. unfold rw1, get_head in Hsent. by case_decide; case_bool_decide.
Qed.

End routes.

Section handlers.
Context {RS : ReedSolomon} (Unmarshal : bytes -> option CompleteMultipartUpload).
Context (s : Server) (env : Env).

Abbreviation o := (objectStore s).
Abbreviation Serve := (ServeHTTP Unmarshal s env).
Abbreviation start r w := (mkConn w (rw_Set requestIDHeader (request_id env r) rw_new) 200).

Lemma GetObject_bucket c m b : has_bucket m b ->
  exists size, GetObject o (bucketMarkerID b) (mkWorld c m) = (OK (emptyReader, size), mkWorld c m).
Proof. intros [Hs [meta Hm]]. exists (m_Size meta). by apply GetObject_marker. Qed.

Lemma GetObject_no_bucket c m b : no_bucket m b ->
  GetObject o (bucketMarkerID b) (mkWorld c m) = (Err ErrObjectNotFound, mkWorld c m).
Proof. intros [Hs Hm]. by apply GetObject_missing. Qed.

Lemma check_bucket_has reqID b r k w rw st :
  has_bucket (w_store w) b -> check_bucket s reqID b r k (mkConn w rw st) = k (mkConn w rw st).
Proof.
  destruct w as [c m]. intros H. destruct (GetObject_bucket c m b H) as [size Hg].
  unfold check_bucket. by rewrite (call_bind_OK _ _ _ _ _ _ _ Hg).
Qed.

Lemma has_bucket_get w b : has_bucket (w_store w) b -> exists x, GetObject o (bucketMarkerID b) w = (OK x, w).
Proof. destruct w as [c m]. intros H. destruct (GetObject_bucket c m b H) as [size Hg]. by eexists. Qed.

Lemma check_bucket_no reqID b r k w rw st :
  no_bucket (w_store w) b ->
  check_bucket s reqID b r k (mkConn w rw st)
  = writeXMLError s reqID 404 ErrCodeNoSuchBucket "Bucket does not exist" r (mkConn w rw st).
Proof.
  destruct w as [c m]. intros H. pose proof (GetObject_no_bucket c m b H) as Hg.
  unfold check_bucket. by rewrite (call_bind_Err _ _ _ _ _ _ _ Hg).
Qed.

(** ** Buckets *)

Lemma bucket_request_path r meth b : bucket_request s r meth b ->
  parsePathValues (URL_Path r) = (b, ""%string) /\ b <> ""%string.
Proof. intros (Ha & Hm & Hs & Hb & Hbb). split; [by apply parsePathValues_bucket|done]. Qed.

(** A bucket request is answered with [status] and leaves the world [w']. *)
Definition answered (r : Request) (w : World MemStore) (status : Z) (w' : World MemStore) : Prop :=
  exists reply, Serve r w = (OK reply, w') /\ rp_status reply = status.

Lemma answered_run r w status w' rw hs :
  auth s (mux Unmarshal s env) (request_id env r) r (start r w) = (OK tt, mkConn w' rw status) ->
  rw_sent rw = Some (status, hs) -> answered r w status w'.
Proof. intros H1 H2. eexists. split; [by eapply Serve_run|done]. Qed.

Ltac enter_bucket Hr :=
  destruct (bucket_request_path _ _ _ Hr) as (Hpath & Hbne);
  rewrite (route_bucket Unmarshal s env _ _ _ _ Hr);
  lazymatch goal with
  | |- bucket_handler s env "PUT" ?id ?r _ = _ => change (bucket_handler s env "PUT" id r) with (handleCreateBucket (H := M (Conn MemStore)) s id r)
  | |- bucket_handler s env "GET" ?id ?r _ = _ => change (bucket_handler s env "GET" id r) with (handleListObjectsV2 (H := M (Conn MemStore)) s env id r)
  | |- bucket_handler s env "HEAD" ?id ?r _ = _ => change (bucket_handler s env "HEAD" id r) with (handleHeadBucket (H := M (Conn MemStore)) s id r)
  | |- bucket_handler s env "DELETE" ?id ?r _ = _ => change (bucket_handler s env "DELETE" id r) with (handleDeleteBucket (H := M (Conn MemStore)) s id r)
  end;
  unfold handleCreateBucket, handleListObjectsV2, handleHeadBucket, handleDeleteBucket;
  rewrite Hpath, (bool_decide_eq_false_2 _ Hbne).

Lemma head_bucket r b w : bucket_request s r "HEAD" b -> has_bucket (w_store w) b -> answered r w 200 w.
Proof.
  intros Hr Hb. eapply answered_run; [enter_bucket Hr; rewrite check_bucket_has by done; reflexivity|reflexivity].
Qed.

Lemma head_no_bucket r b w : bucket_request s r "HEAD" b -> no_bucket (w_store w) b -> answered r w 404 w.
Proof.
  intros Hr Hb. eapply answered_run; [enter_bucket Hr; rewrite check_bucket_no by done; reflexivity|reflexivity].
Qed.

Lemma create_existing r b w :
  bucket_request s r "PUT" b -> validateBucketName b = None -> has_bucket (w_store w) b -> answered r w 409 w.
Proof.
  intros Hr Hv Hb. destruct w as [c m]. destruct (GetObject_bucket c m b Hb) as [size Hg].
  eapply answered_run; [enter_bucket Hr; rewrite Hv, (call_bind_OK _ _ _ _ _ _ _ Hg); reflexivity|reflexivity].
Qed.

Lemma create_invalid r b w msg :
  bucket_request s r "PUT" b -> validateBucketName b = Some msg -> answered r w 400 w.
Proof. intros Hr Hv. eapply answered_run; [enter_bucket Hr; rewrite Hv; reflexivity|reflexivity]. Qed.

Lemma create_new r b w w' :
  bucket_request s r "PUT" b -> validateBucketName b = None -> no_bucket (w_store w) b ->
  PutObject o (bucketMarkerID b) (NewReader []) 0 w = (OK tt, w') -> answered r w 200 w'.
Proof.
  intros Hr Hv Hb Hput. destruct w as [c m]. pose proof (GetObject_no_bucket c m b Hb) as Hg.
  eapply answered_run; [enter_bucket Hr; rewrite Hv, (call_bind_Err _ _ _ _ _ _ _ Hg); cbn beta iota;
    change (negb (errors_Is ErrObjectNotFound ErrObjectNotFound)) with false; cbn beta iota;
    rewrite (call_bind_OK _ _ _ _ _ _ _ Hput); reflexivity|reflexivity].
Qed.

Lemma delete_answered r b w w' :
  bucket_request s r "DELETE" b -> has_bucket (w_store w) b ->
  DeleteObject o (bucketMarkerID b) w = (OK tt, w') -> answered r w 204 w'.
Proof.
  intros Hr Hb Hd. eapply answered_run; [enter_bucket Hr; rewrite check_bucket_has by done;
    rewrite (call_bind_OK _ _ _ _ _ _ _ Hd); reflexivity|reflexivity].
Qed.

(** A server without objects cannot list. While no object of any bucket
    has a shard, listing an existing bucket answers 500: ObjectShards looks
    for the marker of the empty object id instead of returning no keys. *)
Theorem list_without_shards_fails r b w :
  bucket_request s r "GET" b -> has_bucket (w_store w) b ->
  shards (w_store w) = ∅ -> markers (w_store w) !! ""%string = None ->
  answered r w 500 w.
Proof.
  intros Hr Hb Hs Hm. destruct w as [c m]. cbn [w_store] in *.
  assert (ObjectShards o m "" = Err ErrObjectNotFound) as Hl.
  { unfold ObjectShards. cbn [ss_ListObjectShards MemStore_ShardStore ss_ReadMarker].
    unfold ListObjectShards, ListShards. rewrite Hs, map_to_list_empty. cbn. unfold ReadMarker. by rewrite Hm. }
  eapply answered_run; [enter_bucket Hr; rewrite check_bucket_has by done|].
  - cbv zeta. on_conn; erewrite call_bind_Err; [reflexivity|]. cbn [w_store]. by rewrite Hl.
  - reflexivity.
Qed.

(** ** Multipart uploads *)

(** A request that completes upload [uid] of an object with these parts. *)
Definition complete_request (r : Request) (b seg uid : string) (parts : list CompleteMultipartPart) : Prop :=
  object_request s r "POST" b seg /\ query_Get r "uploadId" = uid /\ uid <> ""%string /\
  query_Get r "action" = "complete"%string /\
  exists body, rq_Body r = NewReader body /\ Unmarshal body = Some (mkComplete parts).

Lemma route_complete r b seg uid parts c : complete_request r b seg uid parts ->
  auth s (mux Unmarshal s env) (request_id env r) r c
  = completeUpload s env (request_id env r) b (object_of seg) uid (mkComplete parts) r c.
Proof.
  intros (Hr & Hu & Hne & Hact & body & Hb & Hun).
  destruct (object_request_path s _ _ _ _ Hr) as (Hpath & Hbne & Hkne).
  rewrite (route_object Unmarshal s env _ _ _ _ _ Hr).
  change (object_handler Unmarshal s env "POST" (request_id env r) r) with (handleMultipartOperations (H := M (Conn MemStore)) Unmarshal s env (request_id env r) r).
  unfold handleMultipartOperations. destruct Hr as (_ & Hm & _).
  rewrite Hpath, (bool_decide_eq_false_2 _ Hbne), (bool_decide_eq_false_2 _ Hkne). cbn [orb].
  rewrite Hm, Hu, Hact, (bool_decide_eq_false_2 _ Hne).
  rewrite (bool_decide_eq_false_2 ("POST" = "GET")%string), (bool_decide_eq_false_2 ("POST" = "PUT")%string),
    (bool_decide_eq_true_2 ("POST" = "POST")%string), (bool_decide_eq_true_2 ("complete" = "complete")%string) by done.
  rewrite !andb_false_r. cbn [negb andb]. unfold completeMultipartUpload, read_request_body. rewrite Hb. cbn [final pending NewReader].
  rewrite (bool_decide_eq_true_2 (EOF = EOF)) by done. by rewrite Hun.
Qed.

(** A part that is not in the store. *)
Lemma complete_missing_part r b seg uid part parts w :
  complete_request r b seg uid (part :: parts) ->
  let pid := partMarkerID (objectIDOf b (object_of seg)) uid (pa_PartNumber part) in
  (forall key, k_ObjectID key = pid -> shards (w_store w) !! key = None) ->
  markers (w_store w) !! pid = None ->
  answered r w 500 w.
Proof.
  intros Hr pid Hs Hm. destruct w as [c m].
  pose proof (GetObject_missing o pid c m ltac:(done) Hs Hm) as Hg.
  eapply answered_run; [rewrite (route_complete _ _ _ _ _ _ Hr); unfold completeUpload; cbn [read_parts cu_Parts]|].
  - erewrite M_bind_ok; [|by rewrite (call_bind_Err _ _ _ _ _ _ _ Hg)]. reflexivity.
  - reflexivity.
Qed.

(** ** Objects over HTTP *)

Section contract.
Context {e : rs_enc} {parity : list bytes -> list bytes}.
Context {LAWS : RSLaws RS (toECParams (params o)) e parity}.
Context (Hp : params_ok (toECParams (params o))) (Hss : 0 < stripeSize o).

Lemma has_bucket_put id r size w res w' b :
  PutObject o id r size w = (res, w') -> id <> bucketMarkerID b ->
  has_bucket (w_store w) b -> has_bucket (w_store w') b.
Proof.
  intros Hput Hid [Hs Hm]. apply put_frame in Hput as (H1 & H2 & _). split.
  - intros key Hk. rewrite H1 by congruence. auto.
  - by rewrite H2 by done.
Qed.

(** A put of [data] followed by a get of a segment that names the same object. *)
Lemma put_get_http r1 r2 b seg1 seg2 data w :
  object_request s r1 "PUT" b seg1 -> object_request s r2 "GET" b seg2 -> object_of seg1 = object_of seg2 ->
  b <> "__bucket__"%string -> has_bucket (w_store w) b ->
  rq_Body r1 = NewReader data -> rq_ContentLength r1 = len data ->
  cache_ok (w_cache w) -> len data < 2 ^ 63 -> count_stripes o data < 2 ^ 32 ->
  no_stale (w_store w) (objectIDOf b (object_of seg1)) (count_stripes o data) ->
  (length data < e_fuel env)%nat -> (forall i, 0 < e_sizes env i)%nat ->
  exists w1 w2 reply1 reply2,
    Serve r1 w = (OK reply1, w1) /\ rp_status reply1 = 200 /\
    rp_header reply1 !! "ETag"%string = Some (etag (len data)) /\
    Serve r2 w1 = (OK reply2, w2) /\
    rp_status reply2 = (if bool_decide (header_Get r2 "Range" = ""%string) then 200 else 206) /\
    rp_body reply2 = (if decide (data = []) then [] else [Raw data]).
Proof.
  intros Hr1 Hr2 Hseg Hb Hbk Hbody Hlen Hc Hl63 Hn Hns Hfuel Hsz.
  pose proof (objectIDOf_nonempty b (object_of seg1)) as Hid.
  destruct (put_get o Hp Hss _ data w Hc Hid Hl63 Hn Hns) as ([c1 m1] & Hput & Hget).
  destruct (Hget m1 (degraded_refl _ _)
    (loses_at_most_refl _ _ _ (MaxLoss_nonneg o Hp))) as (rd & w2 & H1 & H2 & H3).
  pose proof (has_bucket_put _ _ _ _ _ _ b Hput
    (objectIDOf_not_marker _ _ _ (proj1 (proj2 (proj2 (proj2 (proj2 Hr1))))) Hb) Hbk) as Hbk1.
  rewrite <- Hbody, <- Hlen in Hput. cbn [w_cache w_store] in *.
  destruct (has_bucket_get w b Hbk) as [x0 Hg0]. destruct (has_bucket_get (mkWorld c1 m1) b Hbk1) as [x1 Hg1].
  destruct (Serve_put Unmarshal s env r1 b seg1 w x0 w _ Hr1 Hg0 ltac:(unfold len in *; lia) Hput) as (p1 & Hs1 & Hst1 & _ & Het).
  rewrite Hseg in H1. pose proof (H3 _ _ Hsz Hfuel) as Hread. rewrite <- H2 in Hread.
  destruct (Serve_get Unmarshal s env r2 b seg2 (mkWorld c1 m1) x1 _ w2 rd _ _ None Hr2 Hg1 H1 Hread) as (p2 & Hs2 & Hst2 & Hbd).
  rewrite Hlen in Het. by exists (mkWorld c1 m1), w2, p1, p2.
Qed.

(** C19. Read after write over HTTP. In an existing bucket (not __bucket__), and
    over no longer version of the object, PUT of a key without a slash answers
    200 with the ETag of its length, and GET then answers 200 with exactly the
    bytes that were put. A GET with a Range header gets 206 and all the bytes
    as well, whatever range it asks for. *)
Theorem http_put_get r1 r2 b k data w :
  object_request s r1 "PUT" b k -> object_request s r2 "GET" b k -> no_byte "/" k = true ->
  b <> "__bucket__"%string -> has_bucket (w_store w) b ->
  rq_Body r1 = NewReader data -> rq_ContentLength r1 = len data ->
  cache_ok (w_cache w) -> len data < 2 ^ 63 -> count_stripes o data < 2 ^ 32 ->
  no_stale (w_store w) (objectIDOf b k) (count_stripes o data) ->
  (length data < e_fuel env)%nat -> (forall i, 0 < e_sizes env i)%nat ->
  exists w1 w2 reply1 reply2,
    ServeHTTP Unmarshal s env r1 w = (OK reply1, w1) /\ rp_status reply1 = 200 /\
    rp_header reply1 !! "ETag"%string = Some (etag (len data)) /\
    ServeHTTP Unmarshal s env r2 w1 = (OK reply2, w2) /\
    rp_status reply2 = (if bool_decide (header_Get r2 "Range" = ""%string) then 200 else 206) /\
    rp_body reply2 = (if decide (data = []) then [] else [Raw data]).
Proof.
  intros Hr1 Hr2 Hk Hb Hbk Hbody Hlen Hc Hl63 Hn Hns. eapply put_get_http; try done.
  by rewrite object_of_plain.
Qed.

(** Keys with a slash lose their first part. parsePathValues cuts the
    unescaped path into at most three pieces and takes the third as the key,
    so x/k and y/k (sent as one segment, x%2Fk and y%2Fk) are the same
    object: what one client puts under x/k, another reads under y/k. *)
Theorem slash_keys_collide r1 r2 b x y k data w :
  object_request s r1 "PUT" b (x +:+ "/" +:+ k) -> object_request s r2 "GET" b (y +:+ "/" +:+ k) ->
  no_byte "/" x = true -> no_byte "/" y = true ->
  b <> "__bucket__"%string -> has_bucket (w_store w) b ->
  rq_Body r1 = NewReader data -> rq_ContentLength r1 = len data ->
  cache_ok (w_cache w) -> len data < 2 ^ 63 -> count_stripes o data < 2 ^ 32 ->
  no_stale (w_store w) (objectIDOf b k) (count_stripes o data) ->
  (length data < e_fuel env)%nat -> (forall i, 0 < e_sizes env i)%nat ->
  exists w1 w2 reply1 reply2,
    ServeHTTP Unmarshal s env r1 w = (OK reply1, w1) /\ rp_status reply1 = 200 /\ ServeHTTP Unmarshal s env r2 w1 = (OK reply2, w2) /\
    rp_body reply2 = (if decide (data = []) then [] else [Raw data]).
Proof.
  intros Hr1 Hr2 Hx Hy Hb Hbk Hbody Hlen Hc Hl63 Hn Hns Hf Hsz.
  destruct (put_get_http r1 r2 b (x +:+ "/" +:+ k) (y +:+ "/" +:+ k) data w) as
    (w1 & w2 & p1 & p2 & H1 & H2 & _ & H3 & _ & H4); try done; [by rewrite !object_of_slash..|].
  by exists w1, w2, p1, p2.
Qed.

(** Putting an empty object writes its marker and no shard. *)
Lemma put_empty id w :
  cache_ok (w_cache w) -> id <> ""%string ->
  exists c' meta, PutObject o id (NewReader []) 0 w
    = (OK tt, mkWorld c' (mkMemStore (shards (w_store w)) (<[id := meta]> (markers (w_store w))))) /\ cache_ok c'.
Proof.
  destruct w as [c m]. cbn [w_cache w_store]. intros Hc Hid.
  destruct (EncoderFor_ok _ c e Hc Hp (law_new (p:=toECParams (params o)))) as (c' & He & Hc').
  exists c', (mkMeta 0 0 (toECParams (params o))). split; [|done].
  unfold PutObject. rewrite bool_decide_eq_false_2 by done. cbn [Z.ltb Z.compare].
  unfold mbind, M_bind, on_cache. cbn [w_cache w_store]. by rewrite He.
Qed.

Lemma has_bucket_marked c m b meta :
  no_bucket m b \/ has_bucket m b ->
  has_bucket (w_store (mkWorld c (mkMemStore (shards m) (<[bucketMarkerID b := meta]> (markers m))))) b.
Proof. intros [[Hs _]|[Hs _]]; (split; [done|]); cbn; rewrite lookup_insert_eq; eauto. Qed.

(** C20. The life of a bucket. Creating a bucket with a valid name answers
    200; then the bucket exists (HEAD answers 200, creating it again 409)
    until it is deleted (204), and then it does not (HEAD answers 404). A
    name validateBucketName rejects is answered with 400 and nothing changes. *)
Theorem bucket_lifecycle rc rh rd b w :
  bucket_request s rc "PUT" b -> bucket_request s rh "HEAD" b -> bucket_request s rd "DELETE" b ->
  cache_ok (w_cache w) -> no_bucket (w_store w) b ->
  match validateBucketName b with
  | Some _ => answered rc w 400 w
  | None =>
      exists w1 w2, answered rc w 200 w1 /\ answered rh w1 200 w1 /\ answered rc w1 409 w1 /\
        answered rd w1 204 w2 /\ answered rh w2 404 w2 /\
        (forall key, k_ObjectID key <> bucketMarkerID b ->
          shards (w_store w2) !! key = shards (w_store w) !! key) /\
        markers (w_store w2) = markers (w_store w)
  end.
Proof.
  intros Hrc Hrh Hrd Hc Hb. destruct (validateBucketName b) as [msg|] eqn:Hv; [by eapply create_invalid|].
  destruct (put_empty (bucketMarkerID b) w Hc ltac:(done)) as (c1 & meta & Hput & Hc1).
  set (w1 := mkWorld c1 _) in Hput.
  assert (has_bucket (w_store w1) b) as Hb1 by (apply has_bucket_marked; by left).
  destruct (delete_object o (bucketMarkerID b) w1 ltac:(done)) as (w2 & Hd & _ & Hs2 & Hm2 & _).
  exists w1, w2. split_and!; [by eapply create_new|by eapply head_bucket|by eapply create_existing| | | |].
  - eapply delete_answered; eauto.
  - apply (head_no_bucket _ b); [done|]. split; [intros key Hk; by rewrite Hs2, decide_True|].
    rewrite Hm2. apply lookup_delete_eq.
  - intros key Hk. by rewrite Hs2, decide_False.
  - rewrite Hm2. cbn. rewrite delete_insert_eq. apply delete_id, Hb.
Qed.

(** C40. Parts cannot be uploaded. The mux sends only POST to
    handleMultipartOperations, so a PUT with uploadId and partNumber, which
    should store part [n] of upload [uid], is served as a PUT of the whole
    object: it answers 200 (also for parts under 5 MiB), a GET of the object
    returns the part, and completing the upload with that part first answers
    500, because the part is not in the store. *)
Theorem upload_part_is_lost r1 r2 r3 b seg uid n rest parts data w :
  object_request s r1 "PUT" b seg -> query_Get r1 "uploadId" = uid -> query_Get r1 "partNumber" = FormatInt n ->
  object_request s r2 "GET" b seg -> header_Get r2 "Range" = ""%string ->
  complete_request r3 b seg uid parts -> parts = mkPart n (etag (len data)) :: rest ->
  b <> "__bucket__"%string -> b <> "__multipart__"%string -> has_bucket (w_store w) b ->
  rq_Body r1 = NewReader data -> rq_ContentLength r1 = len data -> data <> [] ->
  cache_ok (w_cache w) -> len data < 2 ^ 63 -> count_stripes o data < 2 ^ 32 ->
  no_stale (w_store w) (objectIDOf b (object_of seg)) (count_stripes o data) ->
  (length data < e_fuel env)%nat -> (forall i, 0 < e_sizes env i)%nat ->
  let pid := partMarkerID (objectIDOf b (object_of seg)) uid n in
  (forall key, k_ObjectID key = pid -> shards (w_store w) !! key = None) ->
  markers (w_store w) !! pid = None ->
  exists w1 w2 reply, answered r1 w 200 w1 /\ answered r3 w1 500 w1 /\
    ServeHTTP Unmarshal s env r2 w1 = (OK reply, w2) /\ rp_status reply = 200 /\ rp_body reply = [Raw data].
Proof.
  intros Hr1 _ _ Hr2 Hrange Hr3 -> Hb Hb' Hbk Hbody Hlen Hne Hc Hl63 Hn Hns Hf Hsz pid Hs Hm.
  destruct (put_get_http r1 r2 b seg seg data w) as (w1 & w2 & p1 & p2 & H1 & H2 & _ & H3 & H4 & H5); try done.
  rewrite Hrange in H4. rewrite decide_False in H5 by done.
  exists w1, w2, p2. split_and!; [by exists p1| |done..].
  destruct (put_holds o Hp Hss (objectIDOf b (object_of seg)) data w Hc) as (c1 & m1 & Hput & _);
    [by apply objectIDOf_nonempty|done|].
  assert (w1 = mkWorld c1 m1) as ->.
  { rewrite <- Hbody, <- Hlen in Hput.
    destruct (has_bucket_get w b Hbk) as [x0 Hg0].
    destruct (Serve_put Unmarshal s env r1 b seg w x0 w _ Hr1 Hg0 ltac:(unfold len in *; lia) Hput) as (p & Hp' & _). congruence. }
  pose proof (multipart_not_object b (object_of seg) (objectIDOf b (object_of seg)) uid n
    (proj1 (proj2 (proj2 (proj2 (proj2 Hr1))))) Hb') as Hne'. fold pid in Hne'.
  apply put_frame in Hput as (Hfs & Hfm & _).
  eapply complete_missing_part; [exact Hr3| |].
  - intros key Hk. cbn [pa_PartNumber] in Hk. fold pid in Hk. rewrite Hfs by congruence. by apply Hs.
  - cbn [pa_PartNumber]. fold pid. by rewrite Hfm.
Qed.

(** Completing an upload that was never created makes buckets. The
    complete call checks neither the bucket nor the upload, so a POST to
    /__bucket__/X that completes any upload id with an empty list of parts
    writes the marker of bucket X, whatever validateBucketName says about X:
    it answers 200, and the bucket exists. *)
Theorem complete_creates_bucket r1 r2 x seg uid w :
  complete_request r1 "__bucket__" seg uid [] -> object_of seg = x ->
  bucket_request s r2 "HEAD" x -> cache_ok (w_cache w) -> no_bucket (w_store w) x ->
  exists w1, answered r1 w 200 w1 /\ has_bucket (w_store w1) x /\ answered r2 w1 200 w1.
Proof.
  intros Hr1 Hx Hr2 Hc Hb. change (objectIDOf "__bucket__" x) with (bucketMarkerID x).
  destruct (put_empty (bucketMarkerID x) w Hc ltac:(done)) as (c1 & meta & Hput & Hc1).
  set (w1 := mkWorld c1 _) in Hput.
  assert (has_bucket (w_store w1) x) as Hb1 by (apply has_bucket_marked; by left).
  set (mid := uploadMarkerID (bucketMarkerID x) uid).
  destruct (delete_object o mid w1 ltac:(done)) as (w2 & Hd & _ & Hs2 & Hm2 & _).
  assert (has_bucket (w_store w2) x) as Hb2.
  { destruct Hb1 as [Hs Hm]. split.
    - intros key Hk. rewrite Hs2. case_decide; [done|]. by apply Hs.
    - rewrite Hm2, lookup_delete_ne by done. done. }
  exists w2. split_and!; [|done|by eapply head_bucket].
  eapply answered_run; [rewrite (route_complete _ _ _ _ _ _ Hr1), Hx; unfold completeUpload; cbn [read_parts cu_Parts]|].
  - erewrite M_bind_ok by reflexivity. cbn beta iota.
    rewrite (call_bind_OK _ _ _ _ _ _ _ Hput). cbn [delete_parts cu_Parts].
    erewrite M_bind_ok by reflexivity. rewrite (call_bind_OK _ _ _ _ _ _ _ Hd). reflexivity.
  - reflexivity.
Qed.

(** C39. The health exemption of auth is a way around it. It compares the
    unescaped path, while the mux matches escaped segments, so an unsigned
    POST to /_internal/health%2Fcheck passes a server that is not permissive
    and reaches handleMultipartOperations, which asks for no bucket: it answers
    200 and stores the marker of a new upload. *)
Theorem health_path_bypasses_auth r w :
  permissiveAuth s = false -> header_Get r "Authorization" = ""%string -> rq_Method r = "POST"%string ->
  rq_segments r = ["_internal"; "health/check"]%string -> rq_Query r = ∅ -> cache_ok (w_cache w) ->
  let id := uploadMarkerID (objectIDOf "_internal" "check") (generateUploadID env) in
  exists reply w' meta, ServeHTTP Unmarshal s env r w = (OK reply, w') /\ rp_status reply = 200 /\
    shards (w_store w') = shards (w_store w) /\
    markers (w_store w') = <[id := meta]> (markers (w_store w)).
Proof.
  intros Hperm Ha Hm Hseg Hq Hc id. destruct (put_empty id w Hc ltac:(done)) as (c' & meta & Hput & _).
  assert (object_request s r "POST" "_internal" "health/check") as Hr.
  { split; [|by split_and!]. unfold passes_auth, URL_Path. by rewrite Hseg, (bool_decide_eq_true_2 _ eq_refl), orb_true_r. }
  destruct (object_request_path s _ _ _ _ Hr) as (Hpath & _). change (object_of "health/check") with "check"%string in Hpath.
  assert (forall key, query_Get r key = ""%string) as Hquery by (intros key; unfold query_Get, get; by rewrite Hq).
  eexists _, _, meta. split; [eapply Serve_run|].
  - rewrite (route_object Unmarshal s env _ _ _ _ _ Hr).
    change (object_handler Unmarshal s env "POST" (request_id env r) r) with (handleMultipartOperations (H := M (Conn MemStore)) Unmarshal s env (request_id env r) r).
    unfold handleMultipartOperations. rewrite Hpath, !Hquery, Hm. cbn [negb andb orb].
    rewrite !bool_decide_eq_false_2 by done. rewrite !(bool_decide_eq_true_2 (_ = _)) by done. cbn [negb andb orb].
    rewrite (bool_decide_eq_true_2 ("POST" = "POST")%string) by done.
    unfold createMultipartUpload. cbv zeta. fold id. rewrite (call_bind_OK _ _ _ _ _ _ _ Hput). reflexivity.
  - reflexivity.
  - by split_and!.
Qed.
End contract.
End handlers.
