(* ===== verification/ApiExamples.v ===== *)
(** The theorems about the HTTP server at work, on a server with 2+1 shards
    over the XOR engine, stripes of 4 bytes and one bucket. *)
From S2P Require Import Prelude Binary Sha256 EC XorCodec Header ShardStore MemStore ObjectStore ObjectWrite ObjectSpec Contract FileNames Http S3Types Api ApiServe ApiContract.

Definition ex_server : Server := mkServer "node-1" ex_store false.

Definition ex_env : Env := mkEnv (Some [x01; x02]) (Some [x0a]) "20260101T000000.000000Z" (fun l => l) (fun _ => 3%nat) 20.

(** A signed request, with its query. *)
Definition ex_request (meth : string) (segs : list string) (query : gmap string string) (body : bytes) : Request :=
  mkRequest meth segs {["Authorization" := "AWS4-HMAC-SHA256 x"]}%string query (NewReader body) (len body).

Definition ex_world : World (RS := XorRS) MemStore :=
  mkWorld ∅ (mkMemStore ∅ {[bucketMarkerID "pics" := mkMeta 0 0 (mkParams 2 1)]}).

(** An XML decoder that finds one part in every body, and one that finds none. *)
Definition ex_one_part (part : CompleteMultipartPart) : bytes -> option CompleteMultipartUpload :=
  fun _ => Some (mkComplete [part]).
Definition ex_no_parts : bytes -> option CompleteMultipartUpload := fun _ => Some (mkComplete []).

Definition data1 : bytes := bytes_of_string "shards".

Lemma ex_passes_auth meth segs query body : passes_auth ex_server (ex_request meth segs query body) = true.
Proof. unfold passes_auth. apply orb_true_iff. right. reflexivity. Qed.

Lemma ex_object_request meth seg query body : object_of seg <> ""%string ->
  object_request ex_server (ex_request meth ["pics"; seg]%string query body) meth "pics" seg.
Proof. intros H. split; [apply ex_passes_auth|]. by split_and!. Qed.

Lemma ex_bucket_request meth b : b <> ""%string -> no_byte "/" b = true ->
  bucket_request ex_server (ex_request meth [b] ∅ []) meth b.
Proof. intros H1 H2. split; [apply ex_passes_auth|]. by split_and!. Qed.

Lemma ex_has_bucket : has_bucket (w_store ex_world) "pics".
Proof. split; [by intros key _; apply lookup_empty|by vm_compute; eauto]. Qed.

Lemma ex_no_bucket b : b <> "pics"%string -> no_bucket (w_store ex_world) b.
Proof.
  intros Hb. split; [by intros key _; apply lookup_empty|].
  cbn. apply lookup_singleton_None. unfold bucketMarkerID. intros H. by simplify_eq.
Qed.

Lemma ex_world_no_stale id n : no_stale (w_store ex_world) id n.
Proof. intros key _ [x Hx]. cbn in Hx. by rewrite lookup_empty in Hx. Qed.

Lemma http_put_get_witness :
  let r1 := ex_request "PUT" ["pics"; "cat"]%string ∅ data1 in
  let r2 := ex_request "GET" ["pics"; "cat"]%string ∅ [] in
  exists w1 w2 reply1 reply2,
    ServeHTTP ex_no_parts ex_server ex_env r1 ex_world = (OK reply1, w1) /\ rp_status reply1 = 200 /\
    ServeHTTP ex_no_parts ex_server ex_env r2 w1 = (OK reply2, w2) /\ rp_status reply2 = 200 /\
    rp_body reply2 = [Raw data1].
Proof.
  intros r1 r2.
  destruct (http_put_get ex_no_parts ex_server ex_env (LAWS := ex_laws) ex_params eq_refl r1 r2 "pics" "cat" data1 ex_world
    (ex_object_request "PUT" "cat" _ _ ltac:(done)) (ex_object_request "GET" "cat" _ _ ltac:(done)) eq_refl ltac:(done)
    ex_has_bucket eq_refl eq_refl cache_ok_empty ltac:(done) ltac:(done) (ex_world_no_stale _ _)
    ltac:(vm_compute; lia) ltac:(intros ?; vm_compute; lia)) as (w1 & w2 & p1 & p2 & H1 & H2 & _ & H3 & H4 & H5).
  exists w1, w2, p1, p2. repeat (split; [eassumption|]). exact H5.
Defined.

Lemma slash_keys_collide_witness :
  let r1 := ex_request "PUT" ["pics"; "mine/cat"]%string ∅ data1 in
  let r2 := ex_request "GET" ["pics"; "yours/cat"]%string ∅ [] in
  exists w1 w2 reply1 reply2,
    ServeHTTP ex_no_parts ex_server ex_env r1 ex_world = (OK reply1, w1) /\ rp_status reply1 = 200 /\
    ServeHTTP ex_no_parts ex_server ex_env r2 w1 = (OK reply2, w2) /\ rp_body reply2 = [Raw data1].
Proof.
  intros r1 r2.
  destruct (slash_keys_collide ex_no_parts ex_server ex_env (LAWS := ex_laws) ex_params eq_refl r1 r2 "pics" "mine" "yours" "cat"
    data1 ex_world
    (ex_object_request "PUT" "mine/cat" _ _ ltac:(done)) (ex_object_request "GET" "yours/cat" _ _ ltac:(done)) eq_refl eq_refl ltac:(done)
    ex_has_bucket eq_refl eq_refl cache_ok_empty ltac:(done) ltac:(done) (ex_world_no_stale _ _)
    ltac:(vm_compute; lia) ltac:(intros ?; vm_compute; lia)) as (w1 & w2 & p1 & p2 & H1 & H2 & H3 & H4).
  exists w1, w2, p1, p2. repeat (split; [eassumption|]). exact H4.
Defined.

Lemma bucket_lifecycle_witness :
  let create := ex_request "PUT" ["docs"]%string ∅ [] in
  let head := ex_request "HEAD" ["docs"]%string ∅ [] in
  exists w1 w2, answered ex_no_parts ex_server ex_env create ex_world 200 w1 /\
    answered ex_no_parts ex_server ex_env head w1 200 w1 /\
    answered ex_no_parts ex_server ex_env head w2 404 w2.
Proof.
  intros create head.
  destruct (bucket_lifecycle ex_no_parts ex_server ex_env (LAWS := ex_laws) ex_params create head
    (ex_request "DELETE" ["docs"]%string ∅ []) "docs" ex_world
    (ex_bucket_request "PUT" "docs" ltac:(done) eq_refl) (ex_bucket_request "HEAD" "docs" ltac:(done) eq_refl)
    (ex_bucket_request "DELETE" "docs" ltac:(done) eq_refl) cache_ok_empty (ex_no_bucket "docs" ltac:(done)))
    as (w1 & w2 & H1 & H2 & _ & _ & H3 & _).
  by exists w1, w2.
Defined.

Lemma list_without_shards_fails_witness :
  answered ex_no_parts ex_server ex_env (ex_request "GET" ["pics"]%string ∅ []) ex_world 500 ex_world.
Proof.
  apply (list_without_shards_fails ex_no_parts ex_server ex_env _ "pics");
    [by apply (ex_bucket_request "GET" "pics")|apply ex_has_bucket|reflexivity|by vm_compute].
Defined.

Lemma upload_part_is_lost_witness :
  let put := ex_request "PUT" ["pics"; "cat"]%string {["uploadId" := "0a"; "partNumber" := "1"]}%string data1 in
  let complete := ex_request "POST" ["pics"; "cat"]%string {["uploadId" := "0a"; "action" := "complete"]}%string [] in
  let server := ServeHTTP (ex_one_part (mkPart 1 (etag 6))) ex_server ex_env in
  exists w1 w2 reply,
    answered (ex_one_part (mkPart 1 (etag 6))) ex_server ex_env put ex_world 200 w1 /\
    answered (ex_one_part (mkPart 1 (etag 6))) ex_server ex_env complete w1 500 w1 /\
    server (ex_request "GET" ["pics"; "cat"]%string ∅ []) w1 = (OK reply, w2) /\ rp_body reply = [Raw data1].
Proof.
  intros put complete server.
  destruct (upload_part_is_lost (ex_one_part (mkPart 1 (etag 6))) ex_server ex_env (LAWS := ex_laws) ex_params eq_refl
    put (ex_request "GET" ["pics"; "cat"]%string ∅ []) complete "pics" "cat" "0a" 1 [] [mkPart 1 (etag 6)] data1 ex_world
    (ex_object_request "PUT" "cat" _ _ ltac:(done)) eq_refl eq_refl
    (ex_object_request "GET" "cat" _ _ ltac:(done)) eq_refl) as (w1 & w2 & p & H1 & H2 & H3 & _ & H4).
  - split; [by apply (ex_object_request "POST" "cat")|]. split_and!; [done..|]. by exists [].
  - done.
  - done.
  - done.
  - apply ex_has_bucket.
  - done.
  - done.
  - done.
  - apply cache_ok_empty.
  - done.
  - done.
  - apply ex_world_no_stale.
  - vm_compute; lia.
  - intros ?; vm_compute; lia.
  - intros key _. apply lookup_empty.
  - by vm_compute.
  - exists w1, w2, p. repeat (split; [eassumption|]). exact H4.
Defined.

Lemma complete_creates_bucket_witness :
  let complete := ex_request "POST" ["__bucket__"; "Bad_Name"]%string {["uploadId" := "0a"; "action" := "complete"]}%string [] in
  validateBucketName "Bad_Name" <> None /\
  exists w1, answered ex_no_parts ex_server ex_env complete ex_world 200 w1 /\ has_bucket (w_store w1) "Bad_Name".
Proof.
  intros complete. split; [by vm_compute|].
  destruct (complete_creates_bucket ex_no_parts ex_server ex_env (LAWS := ex_laws) ex_params complete
    (ex_request "HEAD" ["Bad_Name"]%string ∅ []) "Bad_Name" "Bad_Name" "0a" ex_world) as (w1 & H1 & H2 & _).
  - split; [split; [apply ex_passes_auth|by split_and!]|]. split_and!; [done..|]. by exists [].
  - done.
  - by apply (ex_bucket_request "HEAD" "Bad_Name").
  - apply cache_ok_empty.
  - by apply ex_no_bucket.
  - by exists w1.
Defined.

Lemma get_headers_lost_witness :
  let w1 := (ServeHTTP ex_no_parts ex_server ex_env (ex_request "PUT" ["pics"; "cat"]%string ∅ data1) ex_world).2 in
  exists reply w2,
    ServeHTTP ex_no_parts ex_server ex_env (ex_request "GET" ["pics"; "cat"]%string ∅ []) w1 = (OK reply, w2) /\
    rp_status reply = 200 /\ rp_header reply !! "ETag"%string = None.
Proof.
  intros w1.
  assert (match (ServeHTTP ex_no_parts ex_server ex_env (ex_request "GET" ["pics"; "cat"]%string ∅ []) w1).1 with
          | OK reply => rp_status reply = 200 | _ => False end) as Hst by (vm_compute; reflexivity).
  destruct (ServeHTTP ex_no_parts ex_server ex_env (ex_request "GET" ["pics"; "cat"]%string ∅ []) w1)
    as [[reply|err|msg] w2] eqn:E; [|destruct Hst..].
  change (rp_status reply = 200) in Hst.
  destruct (get_headers_lost ex_no_parts ex_server ex_env (ex_request "GET" ["pics"; "cat"]%string ∅ []) "pics" "cat"
    w1 reply w2 eq_refl eq_refl ltac:(done) ltac:(done) E ltac:(by rewrite Hst)) as (_ & H & _).
  exists reply, w2. split; [reflexivity|]. split; [exact Hst|exact H].
Defined.

Lemma health_path_bypasses_auth_witness :
  let r := mkRequest "POST" ["_internal"; "health/check"]%string ∅ ∅ (NewReader []) 0 in
  exists reply w' meta,
    ServeHTTP ex_no_parts ex_server ex_env r ex_world = (OK reply, w') /\ rp_status reply = 200 /\
    shards (w_store w') = shards (w_store ex_world) /\
    markers (w_store w') = <["__multipart__/_internal/check/0a"%string := meta]> (markers (w_store ex_world)).
Proof.
  exact (health_path_bypasses_auth ex_no_parts ex_server ex_env (LAWS := ex_laws) ex_params
    (mkRequest "POST" ["_internal"; "health/check"]%string ∅ ∅ (NewReader []) 0) ex_world
    eq_refl eq_refl eq_refl eq_refl eq_refl cache_ok_empty).
Defined.

(** There is no list of buckets: GET / is not routed. Neither is an object
    whose name is an escaped slash alone. *)
Example not_routed :
  Forall (fun segs => exists reply,
    (ServeHTTP ex_no_parts ex_server ex_env (ex_request "GET" segs ∅ []) ex_world).1 = OK reply /\
    rp_status reply = 404 /\ rp_body reply = [Raw (bytes_of_string "404 page not found" ++ [x0a])])
    [[""]; ["pics"; "/"]]%string.
Proof. repeat constructor; eexists; (split; [vm_compute; reflexivity|by split]). Qed.
