(* ===== verification/ApiRefine.v ===== *)
(** The HTTP server over related stores: two servers whose shard stores answer
    every call alike send the same responses. So the server over FileStore,
    on a disk where no call fails, is the server over MemStore. *)
From S2P Require Import Prelude Binary Sha256 EC XorCodec Header ShardStore MemStore FileNames FileStore ObjectStore ObjectWrite ObjectRead ObjectSpec ObjectSim Contract FileRefine FileContract Http S3Types Api ApiServe ApiContract ApiExamples.

(** The object ids a request makes the server touch, the listing aside, which
    only touches ids that are stored. *)
Definition request_ids (Unmarshal : bytes -> option CompleteMultipartUpload) (env : Env) (r : Request) : list string :=
  let '(bucket, object) := parsePathValues (URL_Path r) in
  let oid := objectIDOf bucket object in
  let uid := query_Get r "uploadId" in
  [bucketMarkerID bucket; oid; uploadMarkerID oid uid; uploadMarkerID oid (generateUploadID env)]
  ++ match Atoi (query_Get r "partNumber") with Some n => [partMarkerID oid uid n] | None => [] end
  ++ match Unmarshal (pending (rq_Body r)) with
     | Some c => map (fun part => partMarkerID oid uid (pa_PartNumber part)) (cu_Parts c)
     | None => []
     end.

(** Requests one after the other, each with its own environment. *)
Fixpoint serve_all {RS : ReedSolomon} {S} {SS : ShardStore S} Unmarshal (s : Server)
    (reqs : list (Env * Request)) (w : World S) : list (result Reply) * World S :=
  match reqs with
  | [] => ([], w)
  | (env, r) :: reqs' =>
      let '(x, w1) := ServeHTTP Unmarshal s env r w in
      let '(xs, w2) := serve_all Unmarshal s reqs' w1 in (x :: xs, w2)
  end.

(** * The encoder cache stays good *)

Section cache.
Context {RS : ReedSolomon} {S : Type} {SS : ShardStore S} (o : ObjectStore).
Context {e : rs_enc} {parity : list bytes -> list bytes} {LAWS : RSLaws RS (toECParams (params o)) e parity}.
Context (Hp : params_ok (toECParams (params o))).

Definition keeps_cache {A} (m : M (World S) A) : Prop := forall w, w_cache (m w).2 = w_cache w.

Lemma keeps_on_store {A} (m : M S A) : keeps_cache (on_store m).
Proof. intros w. unfold on_store. by destruct (m (w_store w)). Qed.

Lemma keeps_bind {A B} (m : M (World S) A) (f : A -> M (World S) B) :
  keeps_cache m -> (forall a, keeps_cache (f a)) -> keeps_cache (m ≫= f).
Proof.
  intros Hm Hf w. unfold mbind, M_bind. pose proof (Hm w) as H.
  destruct (m w) as [[a|err|msg] w']; cbn in *; [|done..]. by rewrite Hf.
Qed.

Lemma keeps_wrapM {A} msg (m : M (World S) A) : keeps_cache m -> keeps_cache (wrapM msg m).
Proof. intros Hm w. unfold wrapM. pose proof (Hm w). by destruct (m w). Qed.

Lemma keeps_put_shards id st sl bs : forall i, keeps_cache (put_shards o id st sl i bs).
Proof.
  induction bs as [|b bs IH]; intros i; cbn [put_shards]; [done|].
  apply keeps_bind; [apply keeps_wrapM, keeps_on_store|]. intros _. apply IH.
Qed.

Lemma keeps_put_loop enc id fuel : forall r st rem, keeps_cache (put_loop fuel o enc id r st rem).
Proof.
  induction fuel as [|fuel IH]; intros r st rem; cbn [put_loop]; (destruct (rem <=? 0); [done|]); [done|].
  destruct (ReadFull _ r) as [[chunk|err|msg] r']; [|done..].
  apply keeps_bind; [|intros _; apply IH]. unfold putStripe. apply keeps_bind; [done|].
  intros shards. apply keeps_put_shards.
Qed.

Lemma EncoderFor_cache (w : World S) : cache_ok (w_cache w) ->
  cache_ok (w_cache (on_cache (EncoderFor (toECParams (params o))) w).2).
Proof.
  intros Hc. destruct (EncoderFor_ok _ (w_cache w) e Hc Hp (law_new (p:=toECParams (params o)))) as (c' & He & Hc').
  unfold on_cache. by rewrite He.
Qed.

Lemma PutObject_cache id r size w : cache_ok (w_cache w) -> cache_ok (w_cache (PutObject o id r size w).2).
Proof.
  intros Hc. unfold PutObject. case_bool_decide; [done|]. destruct (size <? 0); [done|].
  pose proof (EncoderFor_cache w Hc) as He. unfold mbind at 1, M_bind at 1.
  destruct (on_cache _ w) as [[enc|err|msg] w1]; [|done..]. cbn [snd] in He.
  rewrite keeps_bind; [done|apply keeps_put_loop|intros n; apply keeps_on_store].
Qed.

Lemma GetObject_cache id w : cache_ok (w_cache w) -> cache_ok (w_cache (GetObject o id w).2).
Proof.
  intros Hc. unfold GetObject. destruct (ss_ListObjectShards _ _) as [[|k keys]|err|msg]; [|..|done|done].
  - by destruct (ss_ReadMarker _ _).
  - destruct (lastStripeLen _ _ _ _); [|done..]. unfold encoder. pose proof (EncoderFor_cache w Hc) as He.
    unfold mbind, M_bind. by destruct (on_cache _ w) as [[enc|err|msg] w1].
Qed.

Lemma DeleteObject_cache id w : w_cache (DeleteObject o id w).2 = w_cache w.
Proof. unfold DeleteObject. destruct (ss_ListObjectShards _ _); [|done..]. apply keeps_on_store. Qed.
End cache.

(** * The handlers over related stores *)

Section sim.
Context {RS : ReedSolomon} {S1 S2 : Type} {SS1 : ShardStore S1} {SS2 : ShardStore S2}.
Context {I : string -> Prop} {R : S1 -> S2 -> Prop} {SIM : StoreSim SS1 SS2 I R}.
Context (Unmarshal : bytes -> option CompleteMultipartUpload) (s : Server) (env : Env).
Context {e : rs_enc} {parity : list bytes -> list bytes}.
Context {LAWS : RSLaws RS (toECParams (params (objectStore s))) e parity}.
Context (Hp : params_ok (toECParams (params (objectStore s)))) (Hss : 0 < stripeSize (objectStore s) < 2 ^ 63).

Abbreviation o := (objectStore s).

(** Process states, and connections. *)
Definition world_rel (w1 : World S1) (w2 : World S2) : Prop := WR (R := R) w1 w2 /\ cache_ok (w_cache w2).

Definition conn_rel (c1 : Conn S1) (c2 : Conn S2) : Prop :=
  world_rel (c_world c1) (c_world c2) /\ c_rw c1 = c_rw c2 /\ c_status c1 = c_status c2.

Abbreviation rel := (rel_M conn_rel).

Lemma rel_call {A} (m1 : M (World S1) A) (m2 : M (World S2) A) :
  rel_M world_rel m1 m2 -> rel (call m1) (call m2).
Proof.
  intros Hm [w1 rw st] [w2 rw2 st2] (Hw & Hrw & Hst). cbn in *. subst.
  destruct (Hm w1 w2 Hw) as [E1 E2]. unfold call. cbn.
  destruct (m1 w1) as [r1 w1'], (m2 w2) as [r2 w2']. cbn in *. subst r2. by destruct r1.
Qed.

Lemma rel_put id r size : I id -> inS 64 size -> rel (call (PutObject o id r size)) (call (PutObject o id r size)).
Proof.
  intros Hid Hsz. apply rel_call. intros w1 w2 [Hw Hc].
  destruct (PutObject_sim o Hp Hss id r size Hid Hsz w1 w2 Hw Hc) as [E1 E2].
  split; [done|]. split; [done|]. by apply (PutObject_cache o Hp).
Qed.

Lemma rel_get id : I id -> rel (call (GetObject o id)) (call (GetObject o id)).
Proof.
  intros Hid. apply rel_call. intros w1 w2 [Hw Hc]. destruct (GetObject_sim o id w1 w2 Hid Hw) as [E1 E2].
  split; [done|]. split; [done|]. by apply (GetObject_cache o Hp).
Qed.

Lemma rel_delete id : I id -> rel (call (DeleteObject o id)) (call (DeleteObject o id)).
Proof.
  intros Hid. apply rel_call. intros w1 w2 [Hw Hc]. destruct (DeleteObject_sim o id w1 w2 Hid Hw) as [E1 E2].
  split; [done|]. split; [done|]. by rewrite DeleteObject_cache.
Qed.

Lemma rel_Set key value : rel (Set_ key value) (Set_ key value).
Proof. intros c1 c2 (H1 & H2 & H3). split; [done|]. split; [done|]. cbn. by rewrite H2. Qed.

Lemma rel_WriteHeader code : rel (WriteHeader code) (WriteHeader code).
Proof. intros c1 c2 (H1 & H2 & H3). split; [done|]. split; [done|]. cbn. by rewrite H2. Qed.

Lemma rel_Write d : rel (Write d) (Write d).
Proof. intros c1 c2 (H1 & H2 & H3). split; [done|]. split; [done|]. cbn. by rewrite H2. Qed.

(** A get of which the reader is used. *)
Lemma rel_get_reader {B} id (f1 : error + (reader * Z) -> M (Conn S1) B) f2 : I id ->
  (forall err, rel (f1 (inl err)) (f2 (inl err))) ->
  (forall rd size, reader_ok (I := I) rd -> rel (f1 (inr (rd, size))) (f2 (inr (rd, size)))) ->
  rel (x ← call (GetObject o id); f1 x) (x ← call (GetObject o id); f2 x).
Proof.
  intros Hid Herr Hok.
  apply (rel_bind_in conn_rel (fun x => match x with inr (rd, _) => reader_ok (I := I) rd | inl _ => True end)).
  - by apply rel_get.
  - intros c1 [w rw st] x c' _ H. unfold call in H. cbn in H.
    destruct (GetObject o id w) as [[[rd size]|err|msg] w'] eqn:E; simplify_eq; [|done].
    by eapply GetObject_reader_ok.
  - intros [err|[rd size]] Hx; auto.
Qed.

Lemma rel_read_all fuel sizes rd : reader_ok (I := I) rd -> rel (read_all fuel sizes rd) (read_all fuel sizes rd).
Proof.
  intros Hrd c1 c2 Hc. unfold read_all. by rewrite (ReadAll_sim _ _ _ _ (proj2 (proj1 (proj1 Hc)))).
Qed.

Lemma rel_copy_body rd : reader_ok (I := I) rd -> rel (copy_body env rd) (copy_body env rd).
Proof.
  intros Hrd. unfold copy_body. apply rel_seq; [by apply rel_read_all|].
  intros [[|b data] err]; [apply rel_ret|apply rel_Write].
Qed.

Lemma rel_read_part rd : reader_ok (I := I) rd -> rel (read_part env rd) (read_part env rd).
Proof.
  intros Hrd. unfold read_part. apply rel_seq; [by apply rel_read_all|]. intros [data err]. apply rel_ret.
Qed.

Lemma rel_if {A} (b : bool) (m1 n1 : M (Conn S1) A) (m2 n2 : M (Conn S2) A) :
  rel m1 m2 -> rel n1 n2 -> rel (if b then m1 else n1) (if b then m2 else n2).
Proof. by destruct b. Qed.

#[local] Hint Resolve rel_ret rel_put rel_get rel_delete rel_Set rel_WriteHeader rel_Write rel_copy_body
  rel_read_part : core.

(** Follow the text of a handler on both sides. *)
Ltac follow := repeat first
  [ progress intros
  | solve [on_conn; eauto 2]
  | match goal with
    | |- rel_M _ (if _ then _ else _) _ => apply rel_if
    | |- rel_M _ (match ?x with _ => _ end) _ => destruct x eqn:?
    end
  | apply rel_seq ].

Lemma rel_writeXMLError reqID status code msg r :
  rel (writeXMLError s reqID status code msg r) (writeXMLError s reqID status code msg r).
Proof. unfold writeXMLError. follow. Qed.

Lemma rel_writeXML status d : rel (writeXML status d) (writeXML status d).
Proof. unfold writeXML. follow. Qed.
#[local] Hint Resolve rel_writeXMLError rel_writeXML : core.

Lemma rel_check_bucket reqID b r k1 k2 : I (bucketMarkerID b) -> rel k1 k2 ->
  rel (check_bucket s reqID b r k1) (check_bucket s reqID b r k2).
Proof. intros Hb Hk. unfold check_bucket. follow. Qed.

Lemma rel_list_loop bucket prefix keys : (forall k, k ∈ keys -> I (k_ObjectID k)) -> forall om,
  rel (list_loop s env bucket prefix keys om) (list_loop s env bucket prefix keys om).
Proof.
  induction keys as [|k keys IH]; intros HI om; cbn [list_loop]; [auto|].
  assert (forall om, rel (list_loop s env bucket prefix keys om) (list_loop s env bucket prefix keys om)) as IH'
    by (apply IH; intros k' Hk'; apply HI; by right).
  repeat (apply rel_if; [apply IH'|]). apply rel_seq; [apply rel_get, HI; left|].
  intros [err|[rd size]]; apply IH'.
Qed.

Lemma rel_read_parts oid uid parts :
  Forall (fun part => I (partMarkerID oid uid (pa_PartNumber part))) parts -> forall data,
  rel (read_parts s env oid uid parts data) (read_parts s env oid uid parts data).
Proof.
  induction 1 as [|part parts Hid _ IH]; intros data; cbn [read_parts]; [auto|].
  apply rel_get_reader; [done|auto|]. intros rd size Hrd. apply rel_seq; auto.
Qed.

Lemma rel_delete_parts oid uid parts :
  Forall (fun part => I (partMarkerID oid uid (pa_PartNumber part))) parts ->
  rel (delete_parts s oid uid parts) (delete_parts s oid uid parts).
Proof. induction 1 as [|part parts Hid _ IH]; cbn [delete_parts]; [auto|]. on_conn. apply rel_seq; auto. Qed.
#[local] Hint Resolve rel_check_bucket rel_list_loop rel_read_parts rel_delete_parts : core.

(** ** The handlers of one request *)

Section request.
Context (r : Request) (bucket object : string) (Hpath : parsePathValues (URL_Path r) = (bucket, object)).
Context (Hids : Forall I (request_ids Unmarshal env r)) (Hlen : inS 64 (rq_ContentLength r)).

Abbreviation oid := (objectIDOf bucket object).
Abbreviation uid := (query_Get r "uploadId").

Lemma request_ids_ok :
  I (bucketMarkerID bucket) /\ I oid /\ I (uploadMarkerID oid uid) /\ I (uploadMarkerID oid (generateUploadID env)) /\
  (forall n, Atoi (query_Get r "partNumber") = Some n -> I (partMarkerID oid uid n)) /\
  (forall c, Unmarshal (pending (rq_Body r)) = Some c ->
     Forall (fun part => I (partMarkerID oid uid (pa_PartNumber part))) (cu_Parts c)).
Proof.
  revert Hids. unfold request_ids. rewrite Hpath. rewrite !Forall_app, !Forall_cons.
  intros ((H1 & H2 & H3 & H4 & _) & H5 & H6). split_and!; [done..| |].
  - intros n E. rewrite E in H5. by apply Forall_cons in H5 as [? _].
  - intros c E. rewrite E in H6. exact (proj1 (List.Forall_map _ _ _) H6).
Qed.

Lemma rel_handleListObjectsV2 reqID : rel (handleListObjectsV2 s env reqID r) (handleListObjectsV2 s env reqID r).
Proof.
  destruct request_ids_ok as (Hb & _). unfold handleListObjectsV2. rewrite Hpath. apply rel_if; [auto|].
  apply rel_check_bucket; [done|]. cbv zeta.
  apply (rel_bind_in conn_rel
    (fun x => match x with inr keys => forall k, k ∈ keys -> I (k_ObjectID k) | inl _ => True end)).
  - apply rel_call. intros w1 w2 Hw. split; [|done]. cbn. unfold ObjectShards.
    destruct Hw as [[_ Hs] _]. rewrite (sim_list_object _ _ _ Hs).
    destruct (ss_ListObjectShards (w_store w2) "") as [[|k keys]|err|msg]; [|done..]. cbn.
    by rewrite (sim_read_marker _ _ _ Hs (or_intror eq_refl)).
  - intros c1 c2 x c' (([_ Hs] & _) & _) H. cbn in H. unfold call, ObjectShards in H. cbn in H.
    destruct (ss_ListObjectShards (w_store (c_world c2)) "") as [keys|err|msg] eqn:E; cbn in H; [|by simplify_eq..].
    assert (forall k, k ∈ keys -> I (k_ObjectID k)) as Hkeys by (intros k Hk; exact (proj1 (sim_listed _ _ _ _ _ Hs E Hk))).
    destruct keys as [|k keys]; cbn in H; [|by injection H as <- _].
    by destruct (ss_ReadMarker _ _); cbn in H; simplify_eq.
  - intros [err|keys] Hkeys; [auto|]. apply rel_seq; auto.
Qed.

Lemma rel_handlePutObject reqID : rel (handlePutObject s reqID r) (handlePutObject s reqID r).
Proof. destruct request_ids_ok as (Hb & Ho & _). unfold handlePutObject. rewrite Hpath. follow. Qed.

Lemma rel_handleGetObject reqID : rel (handleGetObject s env reqID r) (handleGetObject s env reqID r).
Proof.
  destruct request_ids_ok as (Hb & Ho & _). unfold handleGetObject. rewrite Hpath. apply rel_if; [auto|].
  apply rel_check_bucket; [done|]. apply rel_get_reader; [done|follow|]. intros rd size Hrd. follow.
Qed.

Lemma inS_i64_len {A} (l : list A) : inS 64 (i64 (len l)).
Proof. apply wrapS64_range. Qed.
#[local] Hint Resolve inS_i64_len : core.

Lemma rel_completeMultipartUpload reqID :
  rel (completeMultipartUpload Unmarshal s env reqID bucket object uid r)
      (completeMultipartUpload Unmarshal s env reqID bucket object uid r).
Proof.
  destruct request_ids_ok as (_ & Ho & Hu & _ & _ & Hparts). unfold completeMultipartUpload, read_request_body.
  case_bool_decide; [|auto]. destruct (Unmarshal (pending (rq_Body r))) as [c|] eqn:E; [|auto].
  specialize (Hparts c eq_refl). unfold completeUpload. cbv zeta. apply rel_seq; [auto|].
  intros [data|]; [|auto]. apply rel_seq; [by apply rel_put|]. intros [err|u]; [auto|].
  apply rel_seq; [auto|]. intros _. on_conn. apply rel_seq; auto.
Qed.

Lemma rel_handleMultipartOperations reqID :
  rel (handleMultipartOperations Unmarshal s env reqID r) (handleMultipartOperations Unmarshal s env reqID r).
Proof.
  destruct request_ids_ok as (_ & Ho & Hu & Hg & Hn & _).
  unfold handleMultipartOperations, createMultipartUpload, uploadPart, abortMultipartUpload. rewrite Hpath.
  pose proof (rel_completeMultipartUpload reqID).
  assert (inS 64 0) by (unfold inS; lia).
  destruct (Atoi (query_Get r "partNumber")) as [n|]; [specialize (Hn n eq_refl)|]; follow.
Qed.

Lemma rel_mux reqID : rel (mux Unmarshal s env reqID r) (mux Unmarshal s env reqID r).
Proof.
  destruct request_ids_ok as (Hb & Ho & _). assert (inS 64 0) by (unfold inS; lia).
  pose proof (rel_handleListObjectsV2 reqID). pose proof (rel_handlePutObject reqID).
  pose proof (rel_handleGetObject reqID). pose proof (rel_handleMultipartOperations reqID).
  unfold mux, methodNotAllowed, http_Error, handleHealth, writeJSON, handleCreateBucket, handleDeleteBucket,
    handleHeadBucket, handleHeadObject, handleDeleteObject. rewrite Hpath. follow.
Qed.

Lemma ServeHTTP_sim : rel_M world_rel (ServeHTTP Unmarshal s env r) (ServeHTTP Unmarshal s env r).
Proof.
  intros w1 w2 Hw. unfold ServeHTTP. fold (request_id env r).
  set (rw := rw_Set requestIDHeader (request_id env r) rw_new : ResponseWriter document).
  assert (rel (auth s (mux Unmarshal s env) (request_id env r) r) (auth s (mux Unmarshal s env) (request_id env r) r)) as Ha.
  { unfold auth. pose proof (rel_mux (request_id env r)). follow. }
  destruct (Ha (mkConn w1 rw 200) (mkConn w2 rw 200)) as [E1 E2]; [by split|].
  destruct (auth (H := M (Conn S1)) _ _ _ _ (mkConn w1 rw 200)) as [r1 c1], (auth (H := M (Conn S2)) _ _ _ _ (mkConn w2 rw 200)) as [r2 c2].
  cbn [fst snd] in E1, E2. subst r2. destruct E2 as (Hw' & Hrw & Hst).
  destruct r1 as [[]|err|msg]; [|done..]. rewrite Hrw, Hst. by destruct (rw_finish (c_rw c2)) as [[status hs] body].
Qed.
End request.
End sim.

#[local] Existing Instance no_faults.

(** C8. The HTTP server over files is the HTTP server over memory. For any
    sequence of requests, starting from an empty directory and an empty
    MemStore, as long as no system call fails, every id the requests name (of
    markers, objects, uploads and parts) has 1 to 65535 bytes, and the directory
    names of these ids do not collide: the two servers send the same replies
    (status, headers, body and log line, panics included), whatever the random
    upload ids and the orders of map iteration are. (A longer key is answered
    with 500 over files only, since encodeShardHeader refuses it.) *)
Theorem http_file_store {RS : ReedSolomon} Unmarshal (s : Server) (I : string -> Prop) reqs
    {e : rs_enc} {parity : list bytes -> list bytes} {LAWS : RSLaws RS (toECParams (params (objectStore s))) e parity} :
  params_ok (toECParams (params (objectStore s))) -> 0 < stripeSize (objectStore s) < 2 ^ 63 -> ids_ok I ->
  Forall (fun '(env, r) => Forall I (request_ids Unmarshal env r) /\ inS 64 (rq_ContentLength r)) reqs ->
  (serve_all Unmarshal s reqs (mkWorld ∅ empty_disk)).1 = (serve_all Unmarshal s reqs (mkWorld ∅ NewMemStore)).1.
Proof.
  intros Hp Hss [HI Hinj] Hreqs. pose proof (FileStore_sim I HI Hinj) as SIM.
  assert (world_rel (R := disk_rel I) (mkWorld ∅ empty_disk) (mkWorld ∅ NewMemStore)) as Hw.
  { split; [split; [done|apply disk_rel_empty]|apply cache_ok_empty]. }
  revert Hw. generalize (mkWorld ∅ empty_disk) as w1, (mkWorld ∅ NewMemStore) as w2.
  induction Hreqs as [|[env r] reqs [Hids Hlen] _ IH]; intros w1 w2 Hw; [done|]. cbn [serve_all].
  destruct (parsePathValues (URL_Path r)) as [bucket object] eqn:Hpath.
  destruct (ServeHTTP_sim (SIM := SIM) Unmarshal s env Hp Hss r bucket object Hpath Hids Hlen w1 w2 Hw) as [E1 E2].
  destruct (ServeHTTP _ _ _ _ w1) as [x1 w1'], (ServeHTTP _ _ _ _ w2) as [x2 w2']. cbn [fst snd] in E1, E2. subst x2.
  specialize (IH w1' w2' E2). destruct (serve_all _ _ _ w1'), (serve_all _ _ _ w2'). cbn in *. by subst.
Qed.

(** Create a bucket, put an object, get it, list the bucket, delete the object. *)
Definition ex_session : list (Env * Request) :=
  map (fun r => (ex_env, r))
    [ex_request "PUT" ["docs"] ∅ []; ex_request "PUT" ["docs"; "cat"] ∅ data1;
     ex_request "GET" ["docs"; "cat"] ∅ []; ex_request "GET" ["docs"] ∅ [];
     ex_request "DELETE" ["docs"; "cat"] ∅ []]%string.

Definition ex_ids : list string :=
  remove_dups (concat (map (fun '(env, r) => request_ids ex_no_parts env r) ex_session)).

Definition statuses (rs : list (result Reply)) : list Z :=
  map (fun x => match x with OK p => rp_status p | _ => 0 end) rs.

Lemma ex_ids_ok : ids_ok (fun id => id ∈ ex_ids).
Proof.
  apply ids_ok_list; [|apply (bool_decide_unpack _); vm_compute; exact Logic.I].
  apply Forall_forall. intros id Hid. apply list_elem_of_In in Hid. vm_compute in Hid.
  repeat (destruct Hid as [<-|Hid]; [unfold id_ok; vm_compute; split; congruence|]). destruct Hid.
Qed.

Lemma ex_session_ids env r : (env, r) ∈ ex_session -> Forall (fun id => id ∈ ex_ids) (request_ids ex_no_parts env r).
Proof.
  intros Hr. apply Forall_forall. intros id Hid. apply elem_of_remove_dups, list_elem_of_In, in_concat.
  exists (request_ids ex_no_parts env r). split; [|by apply list_elem_of_In].
  apply in_map_iff. exists (env, r). split; [done|]. by apply list_elem_of_In.
Qed.

Lemma http_file_store_witness :
  statuses (serve_all ex_no_parts ex_server ex_session (mkWorld (RS := XorRS) ∅ empty_disk)).1
  = [200; 200; 200; 200; 204].
Proof.
  rewrite (http_file_store (LAWS := ex_laws) ex_no_parts ex_server (fun id => id ∈ ex_ids) ex_session ex_params
    ltac:(done) ex_ids_ok).
  - vm_compute. reflexivity.
  - apply Forall_forall. intros [env r] Hr. split; [by apply ex_session_ids|].
    apply list_elem_of_In in Hr. cbn in Hr.
    repeat (destruct Hr as [[= <- <-]|Hr]; [vm_compute; split; congruence|]). destruct Hr.
Defined.
