(* ===== verification/Config.v ===== *)
(** internal/config: defaults, environment variables, command-line flags and
    validation. The environment is a function (os.Getenv gives the empty
    string for a variable that is not set); the flag package's parser is
    translated for the flags RegisterFlags registers. *)
From S2P Require Import Prelude Binary Sha256 EC Header ShardStore ObjectStore FileNames Http.

(** slog.Level *)
Definition LevelDebug : Z := -4.
Definition LevelInfo : Z := 0.
Definition LevelWarn : Z := 4.
Definition LevelError : Z := 8.

Record Config := mkConfig {
  NodeID : string; ListenAddr : string; DataDir : string; LogLevel : Z; LogJSON : bool;
  ECDataShards : Z; ECParityShards : Z; StripeSize : Z; PermissiveAuth : bool; levelName : string;
}.

(** Assignments to one field. *)
Definition set_NodeID (v : string) (c : Config) : Config :=
  mkConfig v (ListenAddr c) (DataDir c) (LogLevel c) (LogJSON c) (ECDataShards c) (ECParityShards c)
    (StripeSize c) (PermissiveAuth c) (levelName c).
Definition set_ListenAddr (v : string) (c : Config) : Config :=
  mkConfig (NodeID c) v (DataDir c) (LogLevel c) (LogJSON c) (ECDataShards c) (ECParityShards c)
    (StripeSize c) (PermissiveAuth c) (levelName c).
Definition set_DataDir (v : string) (c : Config) : Config :=
  mkConfig (NodeID c) (ListenAddr c) v (LogLevel c) (LogJSON c) (ECDataShards c) (ECParityShards c)
    (StripeSize c) (PermissiveAuth c) (levelName c).
Definition set_LogLevel (v : Z) (c : Config) : Config :=
  mkConfig (NodeID c) (ListenAddr c) (DataDir c) v (LogJSON c) (ECDataShards c) (ECParityShards c)
    (StripeSize c) (PermissiveAuth c) (levelName c).
Definition set_LogJSON (v : bool) (c : Config) : Config :=
  mkConfig (NodeID c) (ListenAddr c) (DataDir c) (LogLevel c) v (ECDataShards c) (ECParityShards c)
    (StripeSize c) (PermissiveAuth c) (levelName c).
Definition set_ECDataShards (v : Z) (c : Config) : Config :=
  mkConfig (NodeID c) (ListenAddr c) (DataDir c) (LogLevel c) (LogJSON c) v (ECParityShards c)
    (StripeSize c) (PermissiveAuth c) (levelName c).
Definition set_ECParityShards (v : Z) (c : Config) : Config :=
  mkConfig (NodeID c) (ListenAddr c) (DataDir c) (LogLevel c) (LogJSON c) (ECDataShards c) v
    (StripeSize c) (PermissiveAuth c) (levelName c).
Definition set_StripeSize (v : Z) (c : Config) : Config :=
  mkConfig (NodeID c) (ListenAddr c) (DataDir c) (LogLevel c) (LogJSON c) (ECDataShards c) (ECParityShards c)
    v (PermissiveAuth c) (levelName c).
Definition set_PermissiveAuth (v : bool) (c : Config) : Config :=
  mkConfig (NodeID c) (ListenAddr c) (DataDir c) (LogLevel c) (LogJSON c) (ECDataShards c) (ECParityShards c)
    (StripeSize c) v (levelName c).
Definition set_levelName (v : string) (c : Config) : Config :=
  mkConfig (NodeID c) (ListenAddr c) (DataDir c) (LogLevel c) (LogJSON c) (ECDataShards c) (ECParityShards c)
    (StripeSize c) (PermissiveAuth c) v.

(** * strings.ToLower

    Two letters outside ASCII have an ASCII lower case: U+0130 (i) and U+212A
    (k). Other bytes outside ASCII are kept, which is enough to compare the
    result with ASCII words. *)
Fixpoint to_lower (l : bytes) : bytes :=
  match l with
  | xc4 :: (xb0 :: l') => x69 :: to_lower l'
  | xe2 :: (x84 :: (xaa :: l')) => x6b :: to_lower l'
  | b :: l' =>
      let n := Z.of_N (Byte.to_N b) in
      (if (65 <=? n) && (n <=? 90) then byte_of_Z (n + 32) else b) :: to_lower l'
  | [] => []
  end.
Definition ToLower (s : string) : string := string_of_bytes (to_lower (bytes_of_string s)).

Definition parseLevel (s : string) : result Z :=
  if bool_decide (ToLower s = "debug"%string) then OK LevelDebug
  else if bool_decide (ToLower s = "info"%string) then OK LevelInfo
  else if bool_decide (ToLower s = "warn"%string) then OK LevelWarn
  else if bool_decide (ToLower s = "error"%string) then OK LevelError
  else Err (Errorf "invalid log level %q (want debug|info|warn|error)").

(** * Defaults and environment *)

Section env.
Context (Getenv : string -> string) (Hostname : result string).

(** [if v := os.Getenv(name); v != "" { set }] *)
Definition with_env (name : string) (set : string -> Config -> Config) (c : Config) : Config :=
  if bool_decide (Getenv name = ""%string) then c else set (Getenv name) c.

(** A set that is skipped when the value does not parse. *)
Definition set_int (set : Z -> Config -> Config) (v : string) (c : Config) : Config :=
  match Atoi v with Some n => set n c | None => c end.

Definition set_level (v : string) (c : Config) : Config :=
  match parseLevel v with OK lv => set_levelName v (set_LogLevel lv c) | _ => c end.

Definition env_LogJSON (c : Config) : Config :=
  if bool_decide (Getenv "SHARDSTORE_LOG_FORMAT" = "json"%string) then set_LogJSON true c else c.

Definition env_PermissiveAuth (c : Config) : Config :=
  let v := Getenv "SHARDSTORE_PERMISSIVE_AUTH" in
  if bool_decide (v = "true"%string) || bool_decide (v = "1"%string) then set_PermissiveAuth true c else c.

Definition applyEnv (c : Config) : Config :=
  let c := with_env "SHARDSTORE_NODE_ID" set_NodeID c in
  let c := with_env "SHARDSTORE_ADDR" set_ListenAddr c in
  let c := with_env "SHARDSTORE_DATA_DIR" set_DataDir c in
  let c := with_env "SHARDSTORE_LOG_LEVEL" set_level c in
  let c := env_LogJSON c in
  let c := with_env "SHARDSTORE_EC_DATA_SHARDS" (set_int set_ECDataShards) c in
  let c := with_env "SHARDSTORE_EC_PARITY_SHARDS" (set_int set_ECParityShards) c in
  let c := with_env "SHARDSTORE_STRIPE_SIZE" (set_int set_StripeSize) c in
  env_PermissiveAuth c.

Definition hostname : string :=
  match Hostname with
  | OK h => if bool_decide (h = ""%string) then "node" else h
  | _ => "node"
  end.

Definition Default : Config :=
  applyEnv (mkConfig hostname ":9000" "data" LevelInfo false 4 2 (Z.shiftl 8 20) false "info").
End env.

(** * strconv, for flag values *)

Definition lower_byte (b : byte) : byte :=
  let n := byte_val b in if (65 <=? n) && (n <=? 90) then byte_of_Z (n + 32) else b.

(** underscoreOK: underscores only between digits, where a base prefix counts
    as a digit. [saw] is the class of the last byte: a digit, an underscore,
    or something else. *)
Inductive seen := Digit | Underscore | Other.

Fixpoint underscores_ok (hex : bool) (saw : seen) (l : bytes) : bool :=
  match l with
  | [] => match saw with Underscore => false | _ => true end
  | b :: l' =>
      if is_digit 10 b || (hex && is_digit 16 b) then underscores_ok hex Digit l'
      else if bool_decide (b = x5f) then
        match saw with Digit => underscores_ok hex Underscore l' | _ => false end
      else match saw with Underscore => false | _ => underscores_ok hex Other l' end
  end.

(** The base prefix of an unsigned number: the base, whether there is an
    explicit prefix letter, and the rest. *)
Definition base_prefix (l : bytes) : Z * bool * bytes :=
  match l with
  | x30 :: rest =>
      match rest with
      | p :: ((_ :: _) as ds) =>
          if bool_decide (lower_byte p = x62) then (2, true, ds)
          else if bool_decide (lower_byte p = x6f) then (8, true, ds)
          else if bool_decide (lower_byte p = x78) then (16, true, ds)
          else (8, false, rest)
      | _ => (8, false, rest)
      end
  | _ => (10, false, l)
  end.

(** strconv.ParseUint(s, 0, 64) up to the range check. *)
Definition ParseUint0 (l : bytes) : option Z :=
  match l with
  | [] => None
  | _ =>
      let '(base, prefixed, rest) := base_prefix l in
      let ds := filter (fun b => b <> x5f) rest in
      if forallb (is_digit base) ds
         && (bool_decide (ds = rest)
             || underscores_ok (base =? 16) (if prefixed then Digit else Other) (if prefixed then rest else l))
      then Some (number base ds) else None
  end.

(** strconv.ParseInt(s, 0, 64). *)
Definition ParseInt0 (s : string) : option Z :=
  let in_range z := if (- 2 ^ 63 <=? z) && (z <? 2 ^ 63) then Some z else None in
  match bytes_of_string s with
  | x2b :: l => n ← ParseUint0 l; in_range n
  | x2d :: l => n ← ParseUint0 l; in_range (- n)
  | l => n ← ParseUint0 l; in_range n
  end.

Definition ParseBool (s : string) : option bool :=
  if bool_decide (s ∈ ["1"; "t"; "T"; "true"; "TRUE"; "True"]%string) then Some true
  else if bool_decide (s ∈ ["0"; "f"; "F"; "false"; "FALSE"; "False"]%string) then Some false
  else None.

(** * Flags *)

(** A registered flag: how its Value.Set changes the configuration, [None]
    for a value that does not parse. *)
Inductive flag :=
  | BoolFlag (set : bool -> Config -> Config)
  | ValueFlag (set : string -> Config -> option Config).

Definition StringVar (set : string -> Config -> Config) : flag := ValueFlag (fun v c => Some (set v c)).
Definition IntVar (set : Z -> Config -> Config) : flag :=
  ValueFlag (fun v c => n ← ParseInt0 v; Some (set n c)).

Definition RegisterFlags (name : string) : option flag :=
  if bool_decide (name = "node-id"%string) then Some (StringVar set_NodeID)
  else if bool_decide (name = "addr"%string) then Some (StringVar set_ListenAddr)
  else if bool_decide (name = "data-dir"%string) then Some (StringVar set_DataDir)
  else if bool_decide (name = "log-level"%string) then Some (StringVar set_levelName)
  else if bool_decide (name = "log-json"%string) then Some (BoolFlag set_LogJSON)
  else if bool_decide (name = "ec-data-shards"%string) then Some (IntVar set_ECDataShards)
  else if bool_decide (name = "ec-parity-shards"%string) then Some (IntVar set_ECParityShards)
  else if bool_decide (name = "stripe-size"%string) then Some (IntVar set_StripeSize)
  else if bool_decide (name = "permissive-auth"%string) then Some (BoolFlag set_PermissiveAuth)
  else None.

(** The name and value of an argument that starts with a minus. [None] stops
    the parsing: the argument is no flag, or the terminator --. *)
Inductive argument := NotAFlag | Terminator | BadSyntax | AFlag (name : string) (value : option string).

Definition split_flag (s : string) : argument :=
  let named name :=
    match name with
    | EmptyString => BadSyntax
    | String "-" _ | String "=" _ => BadSyntax
    | _ => let '(n, v) := cut_at "=" name in AFlag n v
    end in
  match s with
  | String "-" EmptyString => NotAFlag
  | String "-" (String "-" EmptyString) => Terminator
  | String "-" (String "-" name) => named name
  | String "-" name => named name
  | _ => NotAFlag
  end.

Definition set_flag (f : flag) (value : option string) (next : list string) (c : Config)
    : result (Config * list string) :=
  match f, value with
  | BoolFlag set, None => OK (set true c, next)
  | BoolFlag set, Some v =>
      match ParseBool v with
      | Some b => OK (set b c, next)
      | None => Err (Errorf "invalid boolean value %q for -%s: %v")
      end
  | ValueFlag set, Some v =>
      match set v c with
      | Some c' => OK (c', next)
      | None => Err (Errorf "invalid value %q for flag -%s: %v")
      end
  | ValueFlag set, None =>
      match next with
      | [] => Err (Errorf "flag needs an argument: -%s")
      | v :: next' =>
          match set v c with
          | Some c' => OK (c', next')
          | None => Err (Errorf "invalid value %q for flag -%s: %v")
          end
      end
  end.

(** FlagSet.Parse: one argument per step, or two; a bound of the number of
    arguments is enough. *)
Fixpoint parse_flags (fuel : nat) (args : list string) (c : Config) : result Config :=
  match fuel, args with
  | _, [] => OK c
  | O, _ => Err OutOfFuel
  | S fuel', arg :: next =>
      match split_flag arg with
      | NotAFlag | Terminator => OK c
      | BadSyntax => Err (Errorf "bad flag syntax: %s")
      | AFlag name value =>
          match RegisterFlags name with
          | None =>
              if bool_decide (name = "help"%string) || bool_decide (name = "h"%string)
              then Err (Errorf "flag: help requested")
              else Err (Errorf "flag provided but not defined: -%s")
          | Some f => '(c', next') ← set_flag f value next c; parse_flags fuel' next' c'
          end
      end
  end.

(** * Validation *)

(** [None] is the nil error. *)
Definition validate (c : Config) : option error :=
  if bool_decide (NodeID c = ""%string) then Some (Errorf "node-id must not be empty")
  else if bool_decide (DataDir c = ""%string) then Some (Errorf "data-dir must not be empty")
  else if ECDataShards c <? 1 then Some (Errorf "ec-data-shards must be >= 1, got %d")
  else if ECParityShards c <? 1 then Some (Errorf "ec-parity-shards must be >= 1, got %d")
  else if i64 (ECDataShards c + ECParityShards c) >? 256 then
    Some (Errorf "total shards %d exceeds the 256-shard limit of Reed-Solomon")
  else if StripeSize c <=? 0 then Some (Errorf "stripe-size must be > 0, got %d")
  else None.

Definition Parse (Getenv : string -> string) (Hostname : result string) (args : list string) : result Config :=
  c ← parse_flags (length args) args (Default Getenv Hostname);
  lv ← parseLevel (levelName c);
  let c := set_LogLevel lv c in
  match validate c with
  | Some err => Err err
  | None => OK c
  end.

(** The object store runServer makes of a configuration. *)
Definition server_store (c : Config) : ObjectStore :=
  NewObjectStore (mkECParams (ECDataShards c) (ECParityShards c)) (StripeSize c).

(** * Properties *)

Lemma set_flag_next f value next c c' next' :
  set_flag f value next c = OK (c', next') -> (length next' <= length next)%nat.
Proof.
  unfold set_flag. destruct f, value as [v|]; repeat case_match; intros ?; simplify_eq; simpl; lia.
Qed.

Lemma parse_flags_fuel fuel : forall args c,
  (length args <= fuel)%nat -> parse_flags fuel args c <> Err OutOfFuel.
Proof.
  induction fuel as [|fuel IH]; intros [|arg next] c Hl; cbn [length] in Hl; [done|lia|done|].
  cbn [parse_flags]. destruct (split_flag arg) as [| | |name value]; [done..|].
  destruct (RegisterFlags name) as [f|]; [|by repeat case_bool_decide].
  unfold mbind, result_bind. destruct (set_flag f value next c) as [[c' next']|err|msg] eqn:E; [| |done].
  - apply set_flag_next in E. apply IH. lia.
  - intros [= ->]. unfold set_flag in E. repeat case_match; congruence.
Qed.

Lemma parse_flags_nil fuel c : parse_flags fuel [] c = OK c.
Proof. by destruct fuel. Qed.

(** A step of applyEnv and a field it does not set. *)
Lemma with_env_other {A} (f : Config -> A) Getenv name set c :
  (forall v c, f (set v c) = f c) -> f (with_env Getenv name set c) = f c.
Proof. intros H. unfold with_env. by case_bool_decide. Qed.

Lemma set_int_other {A} (f : Config -> A) set v c :
  (forall n c, f (set n c) = f c) -> f (set_int set v c) = f c.
Proof. intros H. unfold set_int. by destruct (Atoi v). Qed.

Lemma set_level_other {A} (f : Config -> A) v c :
  (forall n c, f (set_LogLevel n c) = f c) -> (forall n c, f (set_levelName n c) = f c) ->
  f (set_level v c) = f c.
Proof. intros H1 H2. unfold set_level. destruct (parseLevel v); by rewrite ?H2, ?H1. Qed.

(** The steps for a string field and an integer field. *)
Lemma with_env_string (f : Config -> string) Getenv name set c :
  (forall v c, f (set v c) = v) ->
  f (with_env Getenv name set c) = if bool_decide (Getenv name = ""%string) then f c else Getenv name.
Proof. intros H. unfold with_env. by case_bool_decide. Qed.

Lemma with_env_int (f : Config -> Z) Getenv name set c :
  (forall n c, f (set n c) = n) ->
  f (with_env Getenv name (set_int set) c)
  = if bool_decide (Getenv name = ""%string) then f c
    else match Atoi (Getenv name) with Some n => n | None => f c end.
Proof. intros H. unfold with_env, set_int. case_bool_decide; [done|]. by destruct (Atoi _). Qed.

Lemma env_LogJSON_other {A} (f : Config -> A) Getenv c :
  (forall b c, f (set_LogJSON b c) = f c) -> f (env_LogJSON Getenv c) = f c.
Proof. intros H. unfold env_LogJSON. by case_bool_decide. Qed.

Lemma env_PermissiveAuth_other {A} (f : Config -> A) Getenv c :
  (forall b c, f (set_PermissiveAuth b c) = f c) -> f (env_PermissiveAuth Getenv c) = f c.
Proof. intros H. unfold env_PermissiveAuth. by case_match. Qed.

(** Strip the steps of applyEnv that leave field [f] alone. *)
Ltac other_fields f :=
  repeat first
    [ rewrite (env_PermissiveAuth_other f) by done
    | rewrite (env_LogJSON_other f) by done
    | rewrite (with_env_other f)
        by (intros; solve [done | by apply (set_int_other f) | by apply (set_level_other f)]) ].

(** The last step of Parse does not look at the listen address. *)
Lemma validate_ListenAddr v c : validate (set_ListenAddr v c) = validate c.
Proof. done. Qed.

(** What a configuration that Parse accepts is good for. *)
Lemma Parse_accepts Getenv Hostname args c :
  Parse Getenv Hostname args = OK c ->
  NodeID c <> ""%string /\ DataDir c <> ""%string /\
  0 < stripeSize (server_store c) /\ stripeSize (server_store c) = StripeSize c /\
  Validate (toECParams (params (server_store c))) = None /\
  parseLevel (levelName c) = OK (LogLevel c).
Proof.
  unfold Parse, mbind, result_bind.
  destruct (parse_flags _ _ _) as [c0|err|msg]; [|done..].
  destruct (parseLevel (levelName c0)) as [lv|err|msg] eqn:Hlv; [|done..].
  destruct (validate (set_LogLevel lv c0)) eqn:Hv; [done|]. intros [= <-]. revert Hv.
  unfold validate. destruct c0 as [node addr dir level json k m size perm name]. cbn [set_LogLevel NodeID DataDir
    ECDataShards ECParityShards StripeSize LogLevel levelName] in *.
  do 2 (case_bool_decide; [done|]). unfold server_store, NewObjectStore, Validate, ShardCount. cbn.
  destruct (Z.ltb_spec k 1); [done|]. destruct (Z.ltb_spec m 1); [done|].
  destruct (i64 (k + m) >? 256); [done|]. destruct (Z.leb_spec size 0); [done|].
  intros _. split_and!; done.
Qed.

(** Parse does not panic. *)
Lemma set_flag_no_panic f value next c msg : set_flag f value next c <> Panicked msg.
Proof. unfold set_flag. by repeat case_match. Qed.

Lemma parse_flags_no_panic fuel msg : forall args c, parse_flags fuel args c <> Panicked msg.
Proof.
  induction fuel as [|fuel IH]; intros [|arg next] c; [done..|]. cbn [parse_flags].
  destruct (split_flag arg) as [| | |name value]; [done..|].
  destruct (RegisterFlags name) as [f|]; [|by case_match].
  pose proof (set_flag_no_panic f value next c msg) as Hf. unfold mbind, result_bind.
  destruct (set_flag f value next c) as [[c' next']|err|msg']; [apply IH|done|congruence].
Qed.

Lemma Parse_no_panic Getenv Hostname args msg : Parse Getenv Hostname args <> Panicked msg.
Proof.
  unfold Parse, mbind, result_bind. pose proof (parse_flags_no_panic (length args) msg args (Default Getenv Hostname)) as H.
  destruct (parse_flags _ _ _) as [c|err|msg']; [|done|congruence].
  unfold parseLevel. do 4 (case_bool_decide; [by case_match|]). done.
Qed.

(** A configuration that Parse accepts is one the server can run with:
    the node id and the data directory are set, the stripe size is positive,
    the object store uses it as it is, the log level is the one named, and
    ec.Params.Validate accepts the erasure scheme, so EncoderFor will not
    reject on the first request what Parse let through. *)
Theorem Parse_valid Getenv Hostname args c :
  Parse Getenv Hostname args = OK c ->
  NodeID c <> ""%string /\ DataDir c <> ""%string /\
  0 < stripeSize (server_store c) /\ stripeSize (server_store c) = StripeSize c /\
  Validate (toECParams (params (server_store c))) = None /\
  parseLevel (levelName c) = OK (LogLevel c).
Proof. apply Parse_accepts. Qed.

Lemma Parse_addr Getenv Hostname args v :
  (forall c, parse_flags (length args) args c = OK (set_ListenAddr v c)) ->
  Parse Getenv Hostname args = (c ← Parse Getenv Hostname []; OK (set_ListenAddr v c)).
Proof.
  intros H. unfold Parse. rewrite H. cbn [length parse_flags]. unfold mbind, result_bind.
  cbn [levelName set_ListenAddr].
  destruct (parseLevel _) as [lv|err|msg]; [|done..]. rewrite <- (validate_ListenAddr v).
  change (set_ListenAddr v (set_LogLevel lv ?c)) with (set_LogLevel lv (set_ListenAddr v c)).
  by destruct (validate _).
Qed.

(** Flags override the environment, the environment overrides the
    defaults. A setting without flag and environment variable has its
    default; a variable that is set wins over it, where an integer or a level
    that does not parse is ignored; and a flag changes its own field only,
    whatever the environment says. Parse always ends. *)
Theorem Parse_precedence Getenv Hostname :
  let env name default := if bool_decide (Getenv name = ""%string) then default else Getenv name in
  let env_int name (default : Z) :=
    if bool_decide (Getenv name = ""%string) then default
    else match Atoi (Getenv name) with Some n => n | None => default end in
  let d := Default Getenv Hostname in
  NodeID d = env "SHARDSTORE_NODE_ID"%string (hostname Hostname) /\
  ListenAddr d = env "SHARDSTORE_ADDR"%string ":9000"%string /\
  DataDir d = env "SHARDSTORE_DATA_DIR"%string "data"%string /\
  ECDataShards d = env_int "SHARDSTORE_EC_DATA_SHARDS"%string 4 /\
  ECParityShards d = env_int "SHARDSTORE_EC_PARITY_SHARDS"%string 2 /\
  StripeSize d = env_int "SHARDSTORE_STRIPE_SIZE"%string (8 * 2 ^ 20) /\
  (forall v, Parse Getenv Hostname ["-addr=" +:+ v]%string
     = (c ← Parse Getenv Hostname []; OK (set_ListenAddr v c))) /\
  (forall v, Parse Getenv Hostname ["-addr"; v]%string
     = (c ← Parse Getenv Hostname []; OK (set_ListenAddr v c))) /\
  (forall args, Parse Getenv Hostname args <> Err OutOfFuel).
Proof.
  intros env env_int d. subst d. unfold Default, applyEnv. cbv zeta. split_and!.
  - other_fields NodeID. rewrite (with_env_string NodeID) by done. unfold env. by other_fields NodeID.
  - other_fields ListenAddr. rewrite (with_env_string ListenAddr) by done. unfold env. by other_fields ListenAddr.
  - other_fields DataDir. rewrite (with_env_string DataDir) by done. unfold env. by other_fields DataDir.
  - other_fields ECDataShards. rewrite (with_env_int ECDataShards) by done. unfold env_int. by other_fields ECDataShards.
  - other_fields ECParityShards. rewrite (with_env_int ECParityShards) by done. unfold env_int. by other_fields ECParityShards.
  - other_fields StripeSize. rewrite (with_env_int StripeSize) by done. unfold env_int. by other_fields StripeSize.
  - intros v. by apply Parse_addr.
  - intros v. by apply Parse_addr.
  - intros args. unfold Parse, mbind, result_bind.
    pose proof (parse_flags_fuel (length args) args (Default Getenv Hostname) ltac:(done)) as H.
    destruct (parse_flags _ _ _) as [c|err|msg]; [|congruence|done].
    destruct (parseLevel _) as [lv|err|msg] eqn:E; [|unfold parseLevel in E; by repeat case_bool_decide; simplify_eq|done].
    destruct (validate _) as [err|] eqn:Ev; [|done]. unfold validate in Ev. intros [= ->]. by repeat case_match; simplify_eq.
Qed.

(** * At work *)

Definition ex_args : list string := ["-ec-data-shards=0x0A"; "-stripe-size"; "1_024"; "--permissive-auth"]%string.

Lemma Parse_valid_witness :
  exists c, Parse (fun _ => ""%string) (OK "node-1"%string) ex_args = OK c /\
    ECDataShards c = 10 /\ StripeSize c = 1024 /\ PermissiveAuth c = true /\
    Validate (toECParams (params (server_store c))) = None.
Proof.
  assert (Parse (fun _ => ""%string) (OK "node-1"%string) ex_args
    = OK (mkConfig "node-1" ":9000" "data" 0 false 10 2 1024 true "info")) as H by (vm_compute; reflexivity).
  eexists. split; [exact H|]. split_and!; [done..|].
  by destruct (Parse_valid _ _ _ _ H) as (_ & _ & _ & _ & Hv & _).
Defined.

(** The base prefixes and underscores of flag values. *)
Example flag_integers :
  map ParseInt0 ["0x1F"; "0b101"; "017"; "0o17"; "-0"; "1_000"; "0x_1"; "1__0"; "_1"; "08"; ""; "+7"; "0"]%string
  = [Some 31; Some 5; Some 15; Some 15; Some 0; Some 1000; Some 1; None; None; None; None; Some 7; Some 0].
Proof. reflexivity. Qed.
