(* ===== verification/Threads.v ===== *)
(** Concurrent requests on one store. Every call of the shard store is one
    atomic step (MemStore holds its lock during a call), so an operation of
    ObjectStore is a tree of calls: the operations of object.go again, as
    programs that can be interleaved call by call. *)
From stdpp Require Import relations.
From S2P Require Import Prelude Binary Sha256 EC Header ShardStore ObjectStore.

(** * Calls and programs *)

(** The atomic steps: a call of the shard store, or EncoderFor, which other
    goroutines cannot tell from one step (see EncoderCache). The type is the
    type of the response. *)
Inductive op {RS : ReedSolomon} : Type -> Type :=
  | PutShardOp (key : ShardKey) (h : ShardHeader) (data : bytes) : op (result unit)
  | GetShardOp (key : ShardKey) : op (slice * ShardHeader * option error)
  | VerifyShardOp (key : ShardKey) : op (ShardHeader * option error)
  | DeleteShardOp (key : ShardKey) : op (result unit)
  | ListObjectShardsOp (id : string) : op (result (list ShardKey))
  | WriteMarkerOp (id : string) (meta : ObjectMeta) : op (result unit)
  | ReadMarkerOp (id : string) : op (result ObjectMeta)
  | RemoveMarkerOp (id : string) : op (result unit)
  | EncoderForOp (p : Params) : op (result Encoder).

Definition do_op {RS : ReedSolomon} {S} {SS : ShardStore S} {X} (c : op X) (w : World S) : X * World S :=
  match c in op X return X * World S with
  | PutShardOp key h data => on_store (ss_PutShard key h data) w
  | GetShardOp key => (ss_GetShard (w_store w) key, w)
  | VerifyShardOp key => (ss_VerifyShard (w_store w) key, w)
  | DeleteShardOp key => on_store (ss_DeleteShard key) w
  | ListObjectShardsOp id => (ss_ListObjectShards (w_store w) id, w)
  | WriteMarkerOp id meta => on_store (ss_WriteMarker id meta) w
  | ReadMarkerOp id => (ss_ReadMarker (w_store w) id, w)
  | RemoveMarkerOp id => on_store (ss_RemoveMarker id) w
  | EncoderForOp p => on_cache (EncoderFor p) w
  end.

Section prog.
Context {RS : ReedSolomon}.

Inductive prog (A : Type) : Type :=
  | Done (r : result A)
  | Do {X : Type} (c : op X) (k : X -> prog A).
Arguments Done {A} r.
Arguments Do {A X} c k.

#[global] Instance prog_ret : MRet prog := fun A a => Done (OK a).

#[global] Instance prog_bind : MBind prog := fun A B f =>
  fix bind (p : prog A) : prog B :=
    match p with
    | Done (OK a) => f a
    | Done (Err e) => Done (Err e)
    | Done (Panicked msg) => Done (Panicked msg)
    | Do c k => Do c (fun x => bind (k x))
    end.

(** One call, of which the error is the program's, or a plain value. *)
Definition run_op {A} (c : op (result A)) : prog A := Do c Done.
Definition ask {X} (c : op X) : prog X := Do c (fun x => Done (OK x)).

(** The final result, transformed: for %w around an error and for errors that
    are handled. *)
Fixpoint pmap_result {A B} (f : result A -> result B) (p : prog A) : prog B :=
  match p with
  | Done r => Done (f r)
  | Do c k => Do c (fun x => pmap_result f (k x))
  end.

Definition wrapP {A} (msg : string) (p : prog A) : prog A := pmap_result (wrap_err msg) p.

Definition catch {A} (p : prog A) : prog (error + A) :=
  pmap_result (fun r => match r with
                        | OK a => OK (inr a) | Err e => OK (inl e) | Panicked msg => Panicked msg end) p.

(** * The operations of object.go *)

Fixpoint put_shardsP (o : ObjectStore) (objectID : string) (stripeIdx stripeLen i : Z)
    (shards : list slice) : prog unit :=
  match shards with
  | [] => mret tt
  | s :: shards' =>
      wrapP "storage: put shard %d of stripe %d"
        (run_op (PutShardOp (mkKey objectID stripeIdx (u32 i))
          (shard_header o objectID stripeIdx i stripeLen (slice_len s)) (default [] s)));;
      put_shardsP o objectID stripeIdx stripeLen (i + 1) shards'
  end.

Definition putStripeP (o : ObjectStore) (enc : Encoder) (objectID : string) (stripeIdx : Z)
    (stripe : bytes) : prog unit :=
  shards ← Done (Encode enc stripe);
  put_shardsP o objectID stripeIdx (len stripe) 0 shards.

Fixpoint put_loopP (fuel : nat) (o : ObjectStore) (enc : Encoder) (objectID : string)
    (r : Reader) (stripeIdx remaining : Z) : prog Z :=
  if remaining <=? 0 then mret stripeIdx else
  match fuel with
  | O => Done (Err OutOfFuel)
  | S fuel' =>
      let n := if remaining <? stripeSize o then remaining else stripeSize o in
      match ReadFull (Z.to_nat n) r with
      | (Err e, _) => Done (Err (Wrapf "storage: read input" e))
      | (Panicked msg, _) => Done (Panicked msg)
      | (OK chunk, r') =>
          putStripeP o enc objectID stripeIdx chunk;;
          put_loopP fuel' o enc objectID r' (u32 (stripeIdx + 1)) (remaining - len chunk)
      end
  end.

Definition PutObjectP (o : ObjectStore) (objectID : string) (r : Reader) (size : Z) : prog unit :=
  if bool_decide (objectID = ""%string) then Done (Err (Errorf "storage: empty object id")) else
  if size <? 0 then Done (Err (Errorf "storage: negative size %d")) else
  enc ← run_op (EncoderForOp (toECParams (params o)));
  stripes ← put_loopP (put_fuel o size) o enc objectID r 0 size;
  run_op (WriteMarkerOp objectID (mkMeta size stripes (toECParams (params o)))).

Fixpoint first_valid_lenP (objectID : string) (stripeIdx : Z) (idxs : list Z) : prog Z :=
  match idxs with
  | [] => Done (Err (Wrapf "storage: no valid shards for last stripe %d" ErrUnrecoverable))
  | i :: idxs' =>
      Do (VerifyShardOp (mkKey objectID stripeIdx (u32 i))) (fun '(h, err) =>
        match err with
        | Some err =>
            if errors_Is err ErrCorruptShard || errors_Is err ErrShardNotFound
            then first_valid_lenP objectID stripeIdx idxs'
            else Done (Err err)
        | None => Done (OK (h_StripeLen h))
        end)
  end.

Definition encoderP (o : ObjectStore) : prog Encoder :=
  pmap_result (fun r => match r with Err _ => Panicked "encoder" | r => r end)
    (run_op (EncoderForOp (toECParams (params o)))).

Definition GetObjectP (o : ObjectStore) (objectID : string) : prog (reader * Z) :=
  keys ← run_op (ListObjectShardsOp objectID);
  match keys with
  | [] =>
      pmap_result (fun r => match r with
                            | OK meta => OK (emptyReader, m_Size meta)
                            | Err err => Err (if errors_Is err ErrObjectNotFound then ErrObjectNotFound else err)
                            | Panicked msg => Panicked msg
                            end) (run_op (ReadMarkerOp objectID))
  | _ =>
      let maxStripe := max_stripe keys in
      let stripes := u32 (maxStripe + 1) in
      let size := i64 (u32 (stripes - 1) * stripeSize o) in
      lastLen ← first_valid_lenP objectID maxStripe (seqZ 0 (ec_ShardCount (params o)));
      enc ← encoderP o;
      mret (stripeReader (mkObjectReader enc objectID (params o) (stripeSize o) stripes 0 [] 0),
            i64 (size + lastLen))
  end.

Fixpoint load_shardsP (objectID : string) (stripeIdx : Z) (idxs : list Z) (l : loading) : prog loading :=
  match idxs with
  | [] => mret l
  | i :: idxs' =>
      Do (GetShardOp (mkKey objectID stripeIdx (u32 i))) (fun '(data, h, err) =>
        match err with
        | None =>
            load_shardsP objectID stripeIdx idxs'
              (mkLoading (<[Z.to_nat i := data]> (l_shards l)) (h_StripeLen h) (l_valid l + 1) (l_lost l))
        | Some err =>
            if errors_Is err ErrCorruptShard || errors_Is err ErrShardNotFound
            then load_shardsP objectID stripeIdx idxs'
                   (mkLoading (l_shards l) (l_stripeLen l) (l_valid l) (l_lost l + 1))
            else Done (Err err)
        end)
  end.

(** loadStripe once the shards are loaded. *)
Definition join_stripe (r : objectReader) (l : loading) : result objectReader :=
  if l_valid l <? ec_DataShards (r_params r) then
    Err (Wrapf "storage: stripe %d: %w: %d of %d shards valid" ErrUnrecoverable)
  else
    shards ← (if l_lost l >? 0 then wrap_err "storage: stripe %d" (Reconstruct (r_enc r) (l_shards l))
              else OK (l_shards l));
    out ← make_slice (l_stripeLen l) x00;
    match Join (r_enc r) out shards (l_stripeLen l) with
    | (_, Some err) => Err (Wrapf "storage: stripe %d" err)
    | (out', None) =>
        OK (mkObjectReader (r_enc r) (r_objectID r) (r_params r) (r_stripeSize r)
              (r_totalStripes r) (r_stripeIdx r) out' 0)
    end.

Definition loadStripeP (r : objectReader) : prog objectReader :=
  let total := ec_ShardCount (r_params r) in
  shards0 ← Done (make_slice total (@None bytes));
  l ← load_shardsP (r_objectID r) (r_stripeIdx r) (seqZ 0 total) (mkLoading shards0 0 0 0);
  Done (join_stripe r l).

Definition ReadP (n : nat) (r : objectReader) : prog (bytes * option error * objectReader) :=
  if r_stripeIdx r >=? r_totalStripes r then mret ([], Some EOF, r)
  else if (r_off r =? length (r_buf r))%nat then
    x ← catch (loadStripeP r);
    match x with
    | inl err => mret ([], Some err, r)
    | inr r1 =>
        if len (r_buf r1) =? 0 then mret ([], Some EOF, next_stripe r1 (r_buf r1) (r_off r1))
        else mret (copy_out n r1)
    end
  else mret (copy_out n r).

Definition reader_ReadP (n : nat) (r : reader) : prog (bytes * option error * reader) :=
  match r with
  | emptyReader => mret ([], Some EOF, emptyReader)
  | stripeReader r0 => '(p, err, r1) ← ReadP n r0; mret (p, err, stripeReader r1)
  end.

Fixpoint ReadAllP (fuel : nat) (sizes : nat -> nat) (i : nat) (r : reader) : prog (bytes * option error) :=
  match fuel with
  | O => mret ([], Some OutOfFuel)
  | S fuel' =>
      '(p, err, r') ← reader_ReadP (sizes i) r;
      match err with
      | Some e => mret (p, if decide (e = EOF) then None else Some e)
      | None => '(rest, e) ← ReadAllP fuel' sizes (S i) r'; mret (p ++ rest, e)
      end
  end.

Fixpoint delete_shardsP (keys : list ShardKey) : prog unit :=
  match keys with
  | [] => mret tt
  | k :: keys' => run_op (DeleteShardOp k);; delete_shardsP keys'
  end.

Definition DeleteObjectP (o : ObjectStore) (objectID : string) : prog unit :=
  keys ← run_op (ListObjectShardsOp objectID);
  delete_shardsP keys;;
  run_op (RemoveMarkerOp objectID).

End prog.
Arguments Done {RS A} r.
Arguments Do {RS A X} c k.

(** * Running a program alone *)

Section run.
Context {RS : ReedSolomon} {S : Type} {SS : ShardStore S}.

Fixpoint run_prog {A} (p : prog A) : M (World S) A :=
  match p with
  | Done r => fun w => (r, w)
  | Do c k => fun w => let '(x, w') := do_op c w in run_prog (k x) w'
  end.

Lemma run_bind {A B} (p : prog A) (f : A -> prog B) w :
  run_prog (p ≫= f) w = (run_prog p ≫= fun a => run_prog (f a)) w.
Proof.
  revert w. induction p as [r|X c k IH]; intros w; [by destruct r|].
  unfold mbind, M_bind in *. cbn. destruct (do_op c w) as [x w']. apply IH.
Qed.

Lemma run_map {A B} (f : result A -> result B) (p : prog A) w :
  run_prog (pmap_result f p) w = (f (run_prog p w).1, (run_prog p w).2).
Proof.
  revert w. induction p as [r|X c k IH]; intros w; [done|]. cbn.
  destruct (do_op c w) as [x w']. apply IH.
Qed.

Lemma run_wrap {A} msg (p : prog A) w : run_prog (wrapP msg p) w = wrapM msg (run_prog p) w.
Proof. unfold wrapP, wrapM. rewrite run_map. by destruct (run_prog p w). Qed.

(** One call. *)
Lemma run_run_op {A} (c : op (result A)) w : run_prog (run_op c) w = do_op c w.
Proof. cbn. by destruct (do_op c w). Qed.

Lemma run_ret {A} (a : A) w : run_prog (mret a) w = (OK a, w).
Proof. done. Qed.

(** After a program that changes nothing. *)
Lemma run_bind_pure {A B} (p : prog A) (f : A -> prog B) w r : run_prog p w = (r, w) ->
  run_prog (p ≫= f) w
  = match r with OK a => run_prog (f a) w | Err e => (Err e, w) | Panicked msg => (Panicked msg, w) end.
Proof. intros H. rewrite run_bind. unfold mbind, M_bind. rewrite H. by destruct r. Qed.

Lemma run_put_shards o id st sl shards : forall i w,
  run_prog (put_shardsP o id st sl i shards) w = put_shards o id st sl i shards w.
Proof.
  induction shards as [|s shards IH]; intros i w; [done|]. cbn [put_shardsP put_shards].
  rewrite run_bind. apply bind_ext; [|intros _; apply IH]. rewrite run_wrap.
  unfold wrapM. by rewrite run_run_op.
Qed.

Lemma run_putStripe o enc id st stripe w :
  run_prog (putStripeP o enc id st stripe) w = putStripe o enc id st stripe w.
Proof.
  unfold putStripeP, putStripe. rewrite run_bind. apply bind_ext; [done|]. intros. apply run_put_shards.
Qed.

Lemma run_put_loop fuel : forall o enc id r st rem w,
  run_prog (put_loopP fuel o enc id r st rem) w = put_loop fuel o enc id r st rem w.
Proof.
  induction fuel as [|fuel IH]; intros; cbn [put_loopP put_loop]; destruct (rem <=? 0); try done.
  destruct (ReadFull _ r) as [[chunk|e|msg] r']; [|done..].
  rewrite run_bind. apply bind_ext; [apply run_putStripe|]. intros _ w'. apply IH.
Qed.

Lemma run_PutObject o id r size w : run_prog (PutObjectP o id r size) w = PutObject o id r size w.
Proof.
  unfold PutObjectP, PutObject. case_bool_decide; [done|]. destruct (size <? 0); [done|].
  rewrite run_bind. apply bind_ext; [apply run_run_op|]. intros enc w'.
  rewrite run_bind. apply bind_ext; [apply run_put_loop|]. intros n w2. apply run_run_op.
Qed.

Lemma run_first_valid_len id st idxs w :
  run_prog (first_valid_lenP id st idxs) w = (first_valid_len (w_store w) id st idxs, w).
Proof.
  induction idxs as [|i idxs IH]; [done|]. cbn.
  destruct (ss_VerifyShard (w_store w) (mkKey id st (u32 i))) as [h [err|]]; [|done].
  destruct (errors_Is err ErrCorruptShard || errors_Is err ErrShardNotFound); [apply IH|done].
Qed.

Lemma run_encoder o w : run_prog (encoderP o) w = encoder o w.
Proof.
  unfold encoderP, encoder. rewrite run_map, run_run_op. cbn [do_op].
  by destruct (on_cache (EncoderFor (toECParams (params o))) w) as [[] ?].
Qed.

Lemma run_GetObject o id w : run_prog (GetObjectP o id) w = GetObject o id w.
Proof.
  unfold GetObjectP, GetObject. rewrite run_bind. unfold mbind at 1, M_bind at 1.
  rewrite run_run_op. cbn [do_op].
  destruct (ss_ListObjectShards (w_store w) id) as [[|k keys]| |]; [| |done..].
  - rewrite run_map, run_run_op. cbn. by destruct (ss_ReadMarker (w_store w) id).
  - rewrite run_bind. unfold mbind at 1, M_bind at 1. rewrite run_first_valid_len.
    unfold lastStripeLen. destruct (first_valid_len _ _ _ _); [|done..].
    rewrite run_bind. apply bind_ext; [apply run_encoder|done].
Qed.

Lemma run_load_shards id st idxs : forall l w,
  run_prog (load_shardsP id st idxs l) w = (load_shards (w_store w) id st idxs l, w).
Proof.
  induction idxs as [|i idxs IH]; intros l w; [done|]. cbn.
  destruct (ss_GetShard (w_store w) (mkKey id st (u32 i))) as [[data h] [err|]]; [|apply IH].
  destruct (errors_Is err ErrCorruptShard || errors_Is err ErrShardNotFound); [apply IH|done].
Qed.

Lemma run_loadStripe r w : run_prog (loadStripeP r) w = (loadStripe r (w_store w), w).
Proof.
  unfold loadStripeP, loadStripe. rewrite (run_bind_pure (Done _) _ _ _ eq_refl).
  destruct (make_slice _ _) as [shards0| |]; [|done..].
  rewrite (run_bind_pure _ _ _ _ (run_load_shards _ _ _ _ _)). cbn [mbind result_bind].
  by destruct (load_shards _ _ _ _ _).
Qed.

Lemma run_Read n r w : run_prog (ReadP n r) w = (Read n r (w_store w), w).
Proof.
  unfold ReadP, Read. destruct (_ >=? _); [done|]. destruct (_ =? _)%nat; [|done].
  assert (run_prog (catch (loadStripeP r)) w
    = (match loadStripe r (w_store w) with
       | OK a => OK (inr a) | Err e => OK (inl e) | Panicked msg => Panicked msg end, w)) as H.
  { unfold catch. by rewrite run_map, run_loadStripe. }
  rewrite (run_bind_pure _ _ _ _ H). destruct (loadStripe r (w_store w)) as [r1| |]; [|done..].
  by destruct (_ =? 0).
Qed.

Lemma run_reader_Read n r w : run_prog (reader_ReadP n r) w = (reader_Read n r (w_store w), w).
Proof.
  destruct r as [|r]; [done|]. unfold reader_ReadP, reader_Read.
  rewrite (run_bind_pure _ _ _ _ (run_Read n r w)). by destruct (Read n r _) as [[[p err] r1]| |].
Qed.

Lemma run_ReadAll fuel sizes : forall i r w,
  run_prog (ReadAllP fuel sizes i r) w = (ReadAll fuel sizes i r (w_store w), w).
Proof.
  induction fuel as [|fuel IH]; intros i r w; [done|]. cbn [ReadAllP ReadAll].
  rewrite (run_bind_pure _ _ _ _ (run_reader_Read _ _ _)).
  destruct (reader_Read (sizes i) r (w_store w)) as [[[p [e|]] r']| |]; [done| |done..].
  rewrite (run_bind_pure _ _ _ _ (IH _ _ _)). cbn [mbind result_bind].
  by destruct (ReadAll fuel sizes _ r' _) as [[rest e]| |].
Qed.

Lemma run_delete_shards keys : forall w,
  run_prog (delete_shardsP keys) w = on_store (delete_shards keys) w.
Proof.
  induction keys as [|k keys IH]; intros w; [by destruct w|]. cbn [delete_shardsP delete_shards].
  rewrite run_bind. unfold mbind, M_bind. rewrite run_run_op. cbn [do_op]. unfold on_store.
  destruct (ss_DeleteShard k (w_store w)) as [[[]|e|msg] s']; [|done..]. by rewrite IH.
Qed.

Lemma run_DeleteObject o id w : run_prog (DeleteObjectP o id) w = DeleteObject o id w.
Proof.
  unfold DeleteObjectP, DeleteObject. rewrite run_bind. unfold mbind at 1, M_bind at 1.
  rewrite run_run_op. cbn [do_op]. destruct (ss_ListObjectShards (w_store w) id) as [keys| |]; [|done..].
  rewrite run_bind. unfold mbind, M_bind. rewrite run_delete_shards. unfold on_store.
  destruct (delete_shards keys (w_store w)) as [[[]|e|msg] s']; [|done..]. by rewrite run_run_op.
Qed.
End run.
