(* ===== verification/Pool.v ===== *)
(** Programs that run at once on one store: any of them makes its next call.
    Over MemStore, programs that keep to footprints without
    conflicts cannot tell that they are not alone, and any schedule comes to
    what running them one after the other comes to. *)
From S2P Require Import Prelude Binary EC Header ShardStore MemStore ObjectStore Contract Threads.

(** * Pools *)

Section pools.
Context {RS : ReedSolomon} {S : Type} {SS : ShardStore S} {A : Type}.

(** One call of a program. *)
Definition pstep (p : prog A) (w : World S) : option (prog A * World S) :=
  match p with
  | Done _ => None
  | Do c k => let '(x, w') := do_op c w in Some (k x, w')
  end.

(** The programs in flight, and the process state they share. *)
Definition pool : Type := list (prog A) * World S.

(** Any of them makes its next call. *)
Inductive pool_step : pool -> pool -> Prop :=
  | pool_step_at t ps p w p' w' :
      ps !! t = Some p -> pstep p w = Some (p', w') ->
      pool_step (ps, w) (<[t := p']> ps, w').

(** A schedule: who makes the next call, and the next. *)
Fixpoint run_schedule (ts : list nat) (c : pool) : pool :=
  match ts with
  | [] => c
  | t :: ts' =>
      match c.1 !! t ≫= fun p => pstep p c.2 with
      | Some (p', w') => run_schedule ts' (<[t := p']> c.1, w')
      | None => run_schedule ts' c
      end
  end.

(** One after the other. *)
Fixpoint run_all (ps : list (prog A)) (w : World S) : list (result A) * World S :=
  match ps with
  | [] => ([], w)
  | p :: ps' =>
      let '(r, w1) := run_prog p w in
      let '(rs, w2) := run_all ps' w1 in (r :: rs, w2)
  end.

Definition answered (p : prog A) : Prop := exists r, p = Done r.

Lemma run_schedule_steps ts : forall c : pool, rtc pool_step c (run_schedule ts c).
Proof.
  induction ts as [|t ts IH]; intros c; [apply rtc_refl|]. cbn [run_schedule].
  destruct (c.1 !! t ≫= _) as [[p' w']|] eqn:E; [|apply IH].
  apply bind_Some in E as (p & Hp & Hs). eapply rtc_l; [|apply IH].
  destruct c as [ps w]. by eapply pool_step_at.
Qed.

Lemma schedule_reaches ts (c : pool) ps :
  (run_schedule ts c).1 = ps -> rtc pool_step c (ps, (run_schedule ts c).2).
Proof. intros <-. rewrite <- surjective_pairing. apply run_schedule_steps. Qed.

Lemma run_one_steps pre p ps w :
  rtc pool_step (pre ++ p :: ps, w) (pre ++ Done (run_prog p w).1 :: ps, (run_prog p w).2).
Proof.
  revert w. induction p as [r|X c k IH]; intros w; [apply rtc_refl|]. cbn [run_prog].
  destruct (do_op c w) as [x w'] eqn:E. eapply rtc_l; [|apply IH].
  replace (pre ++ k x :: ps) with (<[length pre := k x]> (pre ++ Do c k :: ps))
    by (rewrite insert_app_r_alt, Nat.sub_diag by done; done).
  apply (pool_step_at _ _ (Do c k)); [|cbn [pstep]; by rewrite E].
  rewrite lookup_app_r, Nat.sub_diag by done. done.
Qed.

(** Running one after the other is a schedule. *)
Lemma run_all_steps ps : forall pre w,
  rtc pool_step (pre ++ ps, w) (pre ++ map Done (run_all ps w).1, (run_all ps w).2).
Proof.
  induction ps as [|p ps IH]; intros pre w; [apply rtc_refl|]. cbn [run_all].
  etrans; [apply run_one_steps|]. destruct (run_prog p w) as [r w1]. cbn [fst snd].
  specialize (IH (pre ++ [Done r]) w1). destruct (run_all ps w1) as [rs w2]. cbn [fst snd map] in *.
  by rewrite <- !(assoc_L (++)) in IH.
Qed.
End pools.
Arguments pool {RS} S A.

(** * Disciplines *)

Abbreviation anything := (fun _ => True).

(** What calls a program may make, what their responses are known to be, and
    whether it may end in an error or a panic. *)
Record discipline {RS : ReedSolomon} := mkDiscipline {
  d_call : forall {X}, op X -> Prop;
  d_response : forall {X}, op X -> X -> Prop;
  d_error : Prop;
  d_panic : Prop;
}.

Section obeys.
Context {RS : ReedSolomon} (d : discipline).

(** The program keeps to the discipline, and every result satisfies [Q]. *)
Fixpoint obeys {A} (Q : A -> Prop) (p : prog A) : Prop :=
  match p with
  | Done r => match r with OK a => Q a | Err _ => d_error d | Panicked _ => d_panic d end
  | Do c k => d_call d c /\ forall x, d_response d c x -> obeys Q (k x)
  end.

Lemma obeys_bind {A B} Q Q' (p : prog A) (k : A -> prog B) :
  obeys Q p -> (forall a, Q a -> obeys Q' (k a)) -> obeys Q' (p ≫= k).
Proof.
  intros Hp Hk. induction p as [[a|e|msg]|X c k' IH]; [by apply Hk|done..|].
  destruct Hp as [Hc Hp]. split; [done|]. intros x Hx. by apply IH, Hp.
Qed.

Lemma obeys_map {A B} Q Q' (g : result A -> result B) (p : prog A) :
  obeys Q p ->
  (forall r, match r with OK a => Q a | Err _ => d_error d | Panicked _ => d_panic d end ->
    match g r with OK b => Q' b | Err _ => d_error d | Panicked _ => d_panic d end) ->
  obeys Q' (pmap_result g p).
Proof.
  intros Hp Hg. induction p as [r|X c k IH]; [by apply Hg|].
  destruct Hp as [Hc Hp]. split; [done|]. intros x Hx. by apply IH, Hp.
Qed.

Lemma obeys_wrap {A} (Q : A -> Prop) msg (p : prog A) : obeys Q p -> obeys Q (wrapP msg p).
Proof. intros Hp. eapply obeys_map; [exact Hp|]. by intros [a|e|m]. Qed.

Lemma obeys_weaken {A} (Q Q' : A -> Prop) (p : prog A) :
  obeys Q p -> (forall a, Q a -> Q' a) -> obeys Q' p.
Proof.
  intros Hp HQ. induction p as [[a|e|msg]|X c k IH]; [by apply HQ|done..|].
  destruct Hp as [Hc Hp]. split; [done|]. intros x Hx. by apply IH, Hp.
Qed.

Lemma obeys_run {A} (Q : A -> Prop) (c : op (result A)) : d_call d c ->
  (forall x, d_response d c x -> match x with OK a => Q a | Err _ => d_error d | Panicked _ => d_panic d end) ->
  obeys Q (run_op c).
Proof. intros Hc Hx. by split. Qed.
End obeys.

(** A program whose errors are handled ends in none. *)
Lemma obeys_catch {RS : ReedSolomon} {A} d err (Q : A -> Prop) (p : prog A) : obeys d Q p ->
  obeys (mkDiscipline RS (@d_call _ d) (@d_response _ d) err (d_panic d))
    (fun x => match x with inl _ => True | inr a => Q a end) (catch p).
Proof.
  intros Hp. induction p as [[a|e|msg]|X c k IH]; [exact Hp|done|exact Hp|].
  destruct Hp as [Hc Hp]. split; [done|]. intros x Hx. by apply IH, Hp.
Qed.

(** * Footprints *)

(** The objects a program looks at and those it changes; [fp_all]: it looks at
    all of them. *)
Record footprint := mkFp { fp_all : bool; fp_reads : list string; fp_writes : list string }.

Definition writes (f : footprint) (id : string) : Prop := id ∈ fp_writes f.
Definition reads (f : footprint) (id : string) : Prop :=
  fp_all f = true \/ id ∈ fp_reads f \/ id ∈ fp_writes f.

#[export] Instance writes_dec f id : Decision (writes f id) := _ : Decision (id ∈ _).
#[export] Instance reads_dec f id : Decision (reads f id).
Proof. unfold reads. apply _. Defined.

Lemma writes_reads f id : writes f id -> reads f id.
Proof. unfold reads, writes. auto. Qed.

(** One changes an object that the other looks at. *)
Definition conflict (f g : footprint) : Prop :=
  Exists (reads g) (fp_writes f) \/ Exists (reads f) (fp_writes g).

#[export] Instance conflict_dec f g : Decision (conflict f g) := _ : Decision (_ \/ _).

Fixpoint no_conflicts (fs : list footprint) : Prop :=
  match fs with [] => True | f :: fs' => Forall (fun g => ~ conflict f g) fs' /\ no_conflicts fs' end.

#[export] Instance no_conflicts_dec fs : Decision (no_conflicts fs).
Proof. induction fs; cbn [no_conflicts]; apply _. Defined.

Lemma no_conflict f g id : ~ conflict f g -> writes f id -> ~ reads g id.
Proof. intros Hn Hw Hr. apply Hn. left. apply Exists_exists. eauto. Qed.

Lemma no_conflicts_lookup fs t u f g :
  no_conflicts fs -> fs !! t = Some f -> fs !! u = Some g -> t <> u -> ~ conflict f g.
Proof.
  revert t u. induction fs as [|h fs IH]; intros t u Hn Hf Hg Hne; [done|].
  destruct Hn as [Hh Hfs].
  rewrite Forall_lookup in Hh. destruct t as [|t], u as [|u]; cbn in Hf, Hg; [done| | |].
  - injection Hf as ->. by eapply Hh.
  - injection Hg as ->. intros Hc. eapply (Hh t f Hf). unfold conflict in *. tauto.
  - eapply (IH t u); auto.
Qed.

Section local.
Context {RS : ReedSolomon}.

(** A call within a footprint. *)
Definition op_in (f : footprint) {X} (c : op X) : Prop :=
  match c with
  | PutShardOp key _ _ | DeleteShardOp key => writes f (k_ObjectID key)
  | GetShardOp key | VerifyShardOp key => reads f (k_ObjectID key)
  | ListObjectShardsOp id => if bool_decide (id = ""%string) then fp_all f = true else reads f id
  | ReadMarkerOp id => reads f id
  | WriteMarkerOp id _ | RemoveMarkerOp id => writes f id
  | EncoderForOp _ => True
  end.

(** A listing of one object has keys of that object only. *)
Definition plausible {X} (c : op X) : X -> Prop :=
  match c in op X return X -> Prop with
  | ListObjectShardsOp id => fun x =>
      match x with OK keys => id <> ""%string -> Forall (fun k => k_ObjectID k = id) keys | _ => True end
  | _ => fun _ => True
  end.

Definition within (f : footprint) : discipline := mkDiscipline RS (@op_in f) (@plausible) True True.
End local.

Abbreviation local f := (obeys (within f)).

Lemma local_run {RS : ReedSolomon} {A} f (c : op (result A)) : op_in f c -> local f anything (run_op c).
Proof. intros Hc. apply obeys_run; [exact Hc|]. by intros [] _. Qed.

(** * Programs without conflicts do not meet *)

Section isolation.
Context {RS : ReedSolomon} {A : Type}.
Implicit Types w : World MemStore.

(** The two states hold the same of the objects in [F]. *)
Definition agree_on (F : string -> Prop) (w1 w2 : World MemStore) : Prop :=
  cache_ok (w_cache w1) /\ cache_ok (w_cache w2) /\
  (forall key, F (k_ObjectID key) -> shards (w_store w1) !! key = shards (w_store w2) !! key) /\
  (forall id, F id -> markers (w_store w1) !! id = markers (w_store w2) !! id).

Definition agree (id : string) (w1 w2 : World MemStore) : Prop := agree_on (eq id) w1 w2.

Lemma agree_on_refl F w : cache_ok (w_cache w) -> agree_on F w w.
Proof. intros. unfold agree_on. by split_and!. Qed.

Lemma agree_on_trans F w1 w2 w3 : agree_on F w1 w2 -> agree_on F w2 w3 -> agree_on F w1 w3.
Proof.
  intros (H1 & H2 & H3 & H4) (_ & H6 & H7 & H8). unfold agree_on. split_and!; [done..| |].
  - intros key Hk. by rewrite H3, H7.
  - intros id Hid. by rewrite H4, H8.
Qed.

Lemma agree_on_sym F w1 w2 : agree_on F w1 w2 -> agree_on F w2 w1.
Proof. intros (H1 & H2 & H3 & H4). unfold agree_on. split_and!; [done..| |]; intros; symmetry; auto. Qed.

Lemma agree_on_sub (F G : string -> Prop) w1 w2 : (forall id, G id -> F id) -> agree_on F w1 w2 -> agree_on G w1 w2.
Proof. intros HG (H1 & H2 & H3 & H4). unfold agree_on. split_and!; auto. Qed.

(** States that agree on every object hold the same. *)
Lemma agree_all w1 w2 : (forall id, agree id w1 w2) -> w_store w1 = w_store w2.
Proof.
  intros H. assert (forall key, shards (w_store w1) !! key = shards (w_store w2) !! key) as H1
    by (intros key; by apply (H (k_ObjectID key))).
  assert (forall id, markers (w_store w1) !! id = markers (w_store w2) !! id) as H2 by (intros id; by apply (H id)).
  apply map_eq in H1, H2. destruct (w_store w1), (w_store w2). cbn in *. by subst.
Qed.

(** Listings are sorted, so they depend on the keys only. *)
Lemma ListObjectShards_agree m1 m2 id : id <> ""%string ->
  (forall key, k_ObjectID key = id -> shards m1 !! key = shards m2 !! key) ->
  ListObjectShards m1 id = ListObjectShards m2 id.
Proof.
  intros Hid H. destruct (elem_of_ListObjectShards m1 id Hid) as (l1 & E1 & H1).
  destruct (elem_of_ListObjectShards m2 id Hid) as (l2 & E2 & H2).
  assert (forall m l, ListObjectShards m id = OK l -> Sorted key_le l) as Hs.
  { intros m l [= <-]. apply Sorted_filter; [apply _|]. apply Sorted_merge_sort, _. }
  rewrite E1, E2. f_equal. apply (Sorted_unique key_le); [by eapply Hs..|].
  apply NoDup_Permutation; [by eapply NoDup_ListObjectShards..|].
  intros key. rewrite H1, H2. split; intros [Hk ?]; (split; [done|]); [by rewrite <- H|by rewrite H].
Qed.

Lemma ListObjectShards_same m1 m2 id : shards m1 = shards m2 -> ListObjectShards m1 id = ListObjectShards m2 id.
Proof. intros H. unfold ListObjectShards, ListShards. by rewrite H. Qed.

(** Changes of one object. *)
Lemma agree_insert (F : string -> Prop) c1 c2 m1 m2 key x :
  agree_on F (mkWorld c1 m1) (mkWorld c2 m2) ->
  agree_on F (mkWorld c1 (mkMemStore (<[key := x]> (shards m1)) (markers m1)))
             (mkWorld c2 (mkMemStore (<[key := x]> (shards m2)) (markers m2))).
Proof.
  intros (H1 & H2 & H3 & H4). unfold agree_on. cbn in *. split_and!; [done..| |done]. intros key' Hk.
  destruct (decide (key = key')) as [->|]; [by rewrite !lookup_insert_eq|].
  rewrite !lookup_insert_ne by done. by apply H3.
Qed.

Lemma agree_delete (F : string -> Prop) c1 c2 m1 m2 key :
  agree_on F (mkWorld c1 m1) (mkWorld c2 m2) ->
  agree_on F (mkWorld c1 (mkMemStore (delete key (shards m1)) (markers m1)))
             (mkWorld c2 (mkMemStore (delete key (shards m2)) (markers m2))).
Proof.
  intros (H1 & H2 & H3 & H4). unfold agree_on. cbn in *. split_and!; [done..| |done]. intros key' Hk.
  destruct (decide (key = key')) as [->|]; [by rewrite !lookup_delete_eq|].
  rewrite !lookup_delete_ne by done. by apply H3.
Qed.

(** A call within a footprint gets the same response from states that agree
    there, and they still agree afterwards. *)
Lemma do_op_agree {X} f (c : op X) w1 w2 :
  op_in f c -> agree_on (reads f) w1 w2 ->
  (do_op c w1).1 = (do_op c w2).1 /\ agree_on (reads f) (do_op c w1).2 (do_op c w2).2 /\
  plausible c (do_op c w1).1.
Proof.
  destruct w1 as [c1 m1], w2 as [c2 m2]. intros Hc Ha. pose proof Ha as (H1 & H2 & H3 & H4).
  destruct c as [key h data|key|key|key|id'|id' meta|id'|id'|p];
    cbn [do_op op_in plausible ss_PutShard ss_GetShard ss_VerifyShard ss_DeleteShard ss_ListObjectShards
      ss_WriteMarker ss_ReadMarker ss_RemoveMarker MemStore_ShardStore w_store w_cache fst snd] in *.
  - unfold on_store, PutShard. cbn [w_store w_cache].
    destruct (bool_decide (k_ObjectID key ≠ h_ObjectID h)); [done|].
    destruct (negb (len data =? h_DataLen h)); [done|]. split_and!; [done| |done]. by apply agree_insert.
  - unfold GetShard. rewrite (H3 key Hc). by split_and!.
  - unfold VerifyShard. rewrite (H3 key Hc). by split_and!.
  - unfold on_store, DeleteShard. cbn [w_store w_cache]. rewrite (H3 key (writes_reads _ _ Hc)).
    destruct (shards m2 !! key); [|done]. split_and!; [done| |done]. by apply agree_delete.
  - case_bool_decide as Hid.
    + assert (shards m1 = shards m2) as E.
      { apply map_eq. intros key. apply H3. by left. }
      rewrite (ListObjectShards_same m1 m2 id' E). split_and!; [done..|]. by destruct (ListObjectShards m2 id').
    + rewrite (ListObjectShards_agree m1 m2 id' Hid) by (intros key <-; by apply H3).
      split_and!; [done..|].
      destruct (elem_of_ListObjectShards m2 id' Hid) as (keys & -> & Hkeys). intros _.
      apply Forall_forall. by intros k [? _]%Hkeys.
  - unfold on_store, WriteMarker. cbn. split_and!; [done| |done].
    unfold agree_on. cbn. split_and!; [done..|]. intros id Hid.
    destruct (decide (id' = id)) as [->|]; [by rewrite !lookup_insert_eq|].
    rewrite !lookup_insert_ne by done. by apply H4.
  - unfold ReadMarker. rewrite (H4 _ Hc). by split_and!.
  - unfold on_store, RemoveMarker. cbn. split_and!; [done| |done].
    unfold agree_on. cbn. split_and!; [done..|]. intros id Hid.
    destruct (decide (id' = id)) as [->|]; [by rewrite !lookup_delete_eq|].
    rewrite !lookup_delete_ne by done. by apply H4.
  - unfold on_cache. cbn [w_cache w_store].
    pose proof (EncoderFor_cases p c1 H1) as E1. pose proof (EncoderFor_cases p c2 H2) as E2.
    destruct (EncoderFor p c1) as [r1 c1'], (EncoderFor p c2) as [r2 c2'].
    destruct E1 as (-> & E1 & _), E2 as (-> & E2 & _). by split_and!.
Qed.

(** A call is not seen where its footprint has no writes. *)
Lemma do_op_frame {X} f (F : string -> Prop) (c : op X) w :
  op_in f c -> (forall id, writes f id -> ~ F id) -> cache_ok (w_cache w) -> agree_on F w (do_op c w).2.
Proof.
  destruct w as [c1 m]. cbn [w_cache]. intros Hc Hne H1.
  destruct c as [key h data|key|key|key|id1|id1 meta|id1|id1|p];
    cbn [do_op op_in ss_PutShard ss_GetShard ss_VerifyShard ss_DeleteShard ss_ListObjectShards
      ss_WriteMarker ss_ReadMarker ss_RemoveMarker MemStore_ShardStore w_store w_cache fst snd] in *;
    try by apply agree_on_refl.
  - specialize (Hne _ Hc). unfold on_store, PutShard. cbn [w_store w_cache].
    destruct (bool_decide (k_ObjectID key ≠ h_ObjectID h)); [by apply agree_on_refl|].
    destruct (negb (len data =? h_DataLen h)); [by apply agree_on_refl|].
    unfold agree_on. cbn. split_and!; [done..| |done]. intros key' Hk'. rewrite lookup_insert_ne; [done|congruence].
  - specialize (Hne _ Hc). unfold on_store, DeleteShard. cbn [w_store w_cache].
    destruct (shards m !! key); [|by apply agree_on_refl].
    unfold agree_on. cbn. split_and!; [done..| |done]. intros key' Hk'. rewrite lookup_delete_ne; [done|congruence].
  - specialize (Hne _ Hc). unfold on_store, WriteMarker, agree_on. cbn.
    split_and!; [done..|]. intros id Hid. rewrite lookup_insert_ne; [done|congruence].
  - specialize (Hne _ Hc). unfold on_store, RemoveMarker, agree_on. cbn.
    split_and!; [done..|]. intros id Hid. rewrite lookup_delete_ne; [done|congruence].
  - unfold on_cache. cbn [w_cache w_store]. pose proof (EncoderFor_cases p c1 H1) as E1.
    destruct (EncoderFor p c1) as [r1 c1']. destruct E1 as (_ & E1 & _). by split_and!.
Qed.

(** ** Any schedule *)

(** Programs with their footprints. *)
Abbreviation task := (prog A * footprint)%type.
Definition task_ok (q : task) : Prop := local q.2 anything q.1.

(** What holds of a task in the middle of a schedule: what is left of it is
    what would be left had it run alone up to here. *)
Definition as_if_alone (w0 w : World MemStore) (q : task) (p : prog A) : Prop :=
  exists wq, run_prog p wq = run_prog q.1 w0 /\ agree_on (reads q.2) wq w /\ local q.2 anything p.

Definition untouched (qs : list task) (id : string) : Prop := Forall (fun q => ~ writes q.2 id) qs.

Definition pool_inv (qs : list task) (w0 : World MemStore) (c : pool MemStore A) : Prop :=
  Forall2 (as_if_alone w0 c.2) qs c.1 /\ agree_on (untouched qs) w0 c.2.

Lemma as_if_alone_own w0 w q p p' w' :
  as_if_alone w0 w q p -> pstep p w = Some (p', w') -> as_if_alone w0 w' q p'.
Proof.
  intros (wq & H1 & H2 & H3) Hs. destruct p as [r|X c k]; [done|]. destruct H3 as [Hc Hk].
  destruct (do_op_agree _ c wq w Hc H2) as (E1 & E2 & E3). cbn [pstep run_prog] in Hs, H1.
  destruct (do_op c wq) as [x wq'], (do_op c w) as [x2 w2]. cbn in *. simplify_eq.
  exists wq'. split_and!; [done..|]. by apply Hk.
Qed.

Lemma pstep_frame f (F : string -> Prop) (p p' : prog A) w w' :
  local f anything p -> pstep p w = Some (p', w') ->
  (forall id, writes f id -> ~ F id) -> cache_ok (w_cache w) -> agree_on F w w'.
Proof.
  intros Hl Hs Hne Hc. destruct p as [r|X c k]; [done|]. destruct Hl as [Ho _].
  pose proof (do_op_frame f F c w Ho Hne Hc) as H. cbn [pstep] in Hs.
  destruct (do_op c w) as [x w2]. by simplify_eq.
Qed.

Lemma tasks_conflict (qs : list task) t u q1 q2 :
  no_conflicts (map snd qs) -> qs !! t = Some q1 -> qs !! u = Some q2 -> t <> u -> ~ conflict q1.2 q2.2.
Proof.
  intros Hn H1 H2 Hne. apply (no_conflicts_lookup _ t u q1.2 q2.2 Hn); [| |done];
    change (map snd qs) with (snd <$> qs); rewrite list_lookup_fmap; [by rewrite H1|by rewrite H2].
Qed.

Lemma pool_inv_step qs w0 c c' :
  no_conflicts (map snd qs) -> pool_inv qs w0 c -> pool_step c c' -> pool_inv qs w0 c'.
Proof.
  intros Hn [Ha Hf] Hs. destruct Hs as [t ps p w p' w' Ht Hs]. cbn in Ha, Hf.
  destruct (Forall2_lookup_r _ _ _ _ _ Ha Ht) as (q & Hq & Hal).
  pose proof Hal as (wq & H1 & H2 & H3).
  assert (cache_ok (w_cache w)) as Hc by apply H2. split; cbn.
  - apply Forall2_same_length_lookup. split.
    { rewrite length_insert. by eapply Forall2_length. }
    intros u qu pu Hqu Hpu. destruct (decide (t = u)) as [<-|Hne].
    + rewrite list_lookup_insert_eq in Hpu by (by eapply lookup_lt_Some). simplify_eq.
      by eapply as_if_alone_own.
    + rewrite list_lookup_insert_ne in Hpu by done.
      destruct (Forall2_lookup_lr _ _ _ _ _ _ Ha Hqu Hpu) as (wu & U1 & U2 & U3).
      exists wu. split_and!; [done| |done]. eapply agree_on_trans; [done|].
      eapply (pstep_frame q.2); [exact H3|exact Hs| |done]. intros id. apply no_conflict.
      by eapply (tasks_conflict qs t u).
  - eapply agree_on_trans; [done|]. eapply (pstep_frame q.2); [exact H3|exact Hs| |done].
    intros id Hw Hu. unfold untouched in Hu. rewrite Forall_lookup in Hu. by eapply Hu.
Qed.

(** In any schedule, a task that is answered has the result it would have had
    alone, and what it looks at is as it would have left it alone. *)
Lemma tasks_isolated qs w ps w' :
  no_conflicts (map snd qs) -> Forall task_ok qs -> cache_ok (w_cache w) ->
  rtc pool_step (map fst qs, w) (ps, w') ->
  (forall t q r, qs !! t = Some q -> ps !! t = Some (Done r) ->
    r = (run_prog q.1 w).1 /\ agree_on (reads q.2) (run_prog q.1 w).2 w') /\
  agree_on (untouched qs) w w'.
Proof.
  intros Hn Hok Hc Hsteps.
  assert (pool_inv qs w (map fst qs, w)) as Hi.
  { split; [|by apply agree_on_refl]. cbn. apply Forall2_fmap_r.
    apply Forall_Forall2_diag. eapply Forall_impl; [exact Hok|]. intros q Hq. exists w.
    split_and!; [done|by apply agree_on_refl|done]. }
  assert (forall c c', rtc pool_step c c' -> pool_inv qs w c -> pool_inv qs w c') as Hrtc.
  { induction 1; eauto using pool_inv_step. }
  destruct (Hrtc _ _ Hsteps Hi) as [Ha Hf]. split; [|done]. cbn in Ha.
  intros t q r Hq Hp. destruct (Forall2_lookup_lr _ _ _ _ _ _ Ha Hq Hp) as (wq & H1 & H2 & _).
  rewrite <- H1. by split.
Qed.

(** ** As one after the other *)

Lemma answered_map ps : Forall answered ps -> exists rs : list (result A), ps = map Done rs.
Proof. induction 1 as [|p ps [r ->] _ [rs ->]]; [by exists []|by exists (r :: rs)]. Qed.

Lemma steps_length (c c' : pool MemStore A) : rtc pool_step c c' -> length c'.1 = length c.1.
Proof. induction 1 as [|c1 c2 c3 Hs _ IH]; [done|]. rewrite IH. destruct Hs. cbn. apply length_insert. Qed.

(** All schedules that answer everything agree: on the results, and on what
    the store holds. *)
Lemma schedules_agree qs w rs1 w1 rs2 w2 :
  no_conflicts (map snd qs) -> Forall task_ok qs -> cache_ok (w_cache w) ->
  rtc pool_step (map fst qs, w) (map Done rs1, w1) -> rtc pool_step (map fst qs, w) (map Done rs2, w2) ->
  rs1 = rs2 /\ w_store w1 = w_store w2.
Proof.
  intros Hn Hok Hc S1 S2.
  destruct (tasks_isolated _ _ _ _ Hn Hok Hc S1) as [A1 F1], (tasks_isolated _ _ _ _ Hn Hok Hc S2) as [A2 F2].
  pose proof (steps_length _ _ S1) as L1. pose proof (steps_length _ _ S2) as L2. cbn in L1, L2.
  rewrite !length_map in L1, L2.
  assert (forall (rs : list (result A)) t, map Done rs !! t = (Done <$> (rs !! t) : option (prog A))) as Hmap.
  { intros rs t. apply list_lookup_fmap. }
  split.
  - apply list_eq_same_length with (n := length qs); [lia..|]. intros t r1 r2 _ R1 R2.
    destruct (lookup_lt_is_Some_2 qs t) as [q Hq]; [apply lookup_lt_Some in R1; lia|].
    destruct (A1 t q r1 Hq ltac:(by rewrite Hmap, R1)) as [-> _].
    by destruct (A2 t q r2 Hq ltac:(by rewrite Hmap, R2)) as [-> _].
  - apply agree_all. intros id. destruct (decide (untouched qs id)) as [Hu|Hu].
    + eapply (agree_on_sub (untouched qs)); [by intros ? <-|].
      eapply agree_on_trans; [apply agree_on_sym, F1|exact F2].
    + apply not_Forall_Exists, Exists_exists in Hu as (q & Hin & Hw); [|apply _].
      apply dec_stable in Hw. apply list_elem_of_lookup in Hin as [t Hq].
      pose proof (lookup_lt_Some _ _ _ Hq) as Hlt.
      destruct (lookup_lt_is_Some_2 rs1 t) as [r1 R1]; [lia|]. destruct (lookup_lt_is_Some_2 rs2 t) as [r2 R2]; [lia|].
      eapply (agree_on_sub (reads q.2)); [intros ? <-; by apply writes_reads|].
      eapply agree_on_trans; [apply agree_on_sym|].
      * apply (A1 t q r1 Hq). by rewrite Hmap, R1.
      * apply (A2 t q r2 Hq). by rewrite Hmap, R2.
Qed.

(** So every schedule comes to what one after the other comes to. *)
Lemma tasks_serialize qs w ps w' :
  no_conflicts (map snd qs) -> Forall task_ok qs -> cache_ok (w_cache w) ->
  rtc pool_step (map fst qs, w) (ps, w') -> Forall answered ps ->
  ps = map Done (run_all (map fst qs) w).1 /\ w_store w' = w_store (run_all (map fst qs) w).2.
Proof.
  intros Hn Hok Hc Hs [rs ->]%answered_map.
  destruct (schedules_agree qs w rs w' _ _ Hn Hok Hc Hs (run_all_steps _ [] w)) as [-> ?]. by split.
Qed.
End isolation.
