(* ===== verification/Interleave.v ===== *)
(** Requests to ObjectStore that run concurrently on one MemStore, interleaved
    call by call: the footprints of its operations, the isolation of requests
    that do not conflict, and what can become of an object that two requests
    write at once. *)
From S2P Require Import Prelude Binary Sha256 EC XorCodec Header ShardStore MemStore ObjectStore Contract Threads Pool.

(** * What the operations of object.go touch *)

(** GetObject hands out readers of its own object. *)
Definition reader_of {RS : ReedSolomon} (id : string) (r : reader) : Prop :=
  match r with emptyReader => True | stripeReader r => r_objectID r = id end.

Section footprints.
Context {RS : ReedSolomon} (f : footprint).

(** An object whose shards can be listed. *)
Definition opens (id : string) : Prop := reads f id /\ (id = ""%string -> fp_all f = true).

Lemma opens_reads id : id <> ""%string -> reads f id -> opens id.
Proof. by split. Qed.

Lemma opens_listing id : opens id -> op_in f (ListObjectShardsOp id).
Proof. intros [H1 H2]. cbn. case_bool_decide; auto. Qed.

Lemma put_shardsP_local o id st sl shards : writes f id -> forall i,
  local f anything (put_shardsP o id st sl i shards).
Proof.
  intros Hw. induction shards; intros; [done|]. eapply obeys_bind with (Q := anything); [|auto].
  by apply obeys_wrap, local_run.
Qed.

Lemma put_loopP_local fuel o enc id : writes f id -> forall r st rem,
  local f anything (put_loopP fuel o enc id r st rem).
Proof.
  intros Hw. induction fuel as [|fuel IH]; intros; cbn [put_loopP]; destruct (rem <=? 0); try done.
  destruct (ReadFull _ r) as [[chunk| |] r']; try done.
  eapply obeys_bind with (Q := anything); [|intros; apply IH].
  unfold putStripeP. eapply obeys_bind with (Q := anything); [by case (Encode enc chunk)|].
  intros. by apply put_shardsP_local.
Qed.

Lemma PutObjectP_local o id r size : writes f id -> local f anything (PutObjectP o id r size).
Proof.
  intros Hw. unfold PutObjectP. case_bool_decide; [done|]. destruct (size <? 0); [done|].
  eapply obeys_bind; [by apply local_run|]. intros enc _.
  eapply obeys_bind; [by apply put_loopP_local|]. intros n _. by apply local_run.
Qed.

Lemma first_valid_lenP_local id st idxs : reads f id -> local f anything (first_valid_lenP id st idxs).
Proof.
  intros Hr. induction idxs as [|i idxs IH]; [done|]. split; [done|]. intros [h [err|]] _; [|done].
  by destruct (errors_Is err ErrCorruptShard || errors_Is err ErrShardNotFound).
Qed.

Lemma GetObjectP_local o id : opens id -> local f (fun x => reader_of id x.1) (GetObjectP o id).
Proof.
  intros Ho. unfold GetObjectP. eapply obeys_bind; [by apply local_run, opens_listing|].
  destruct Ho as [Hr _]. intros [|k keys] _.
  - eapply obeys_map; [by apply local_run|]. by intros [].
  - eapply obeys_bind; [by apply first_valid_lenP_local|]. intros n _.
    eapply obeys_bind with (Q := anything); [|done]. eapply obeys_map; [by apply local_run|]. by intros [].
Qed.

Lemma load_shardsP_local id st idxs : reads f id -> forall l, local f anything (load_shardsP id st idxs l).
Proof.
  intros Hr. induction idxs as [|i idxs IH]; intros l; [done|]. split; [done|]. intros [[data h] [err|]] _; [|apply IH].
  by destruct (errors_Is err ErrCorruptShard || errors_Is err ErrShardNotFound); [apply IH|].
Qed.

Lemma join_stripe_id r l r' : join_stripe r l = OK r' -> r_objectID r' = r_objectID r.
Proof.
  unfold join_stripe. intros H. destruct (l_valid l <? _); [done|].
  destruct (if l_lost l >? 0 then _ else _) as [sh| |]; [|done..]. cbn [mbind result_bind] in H.
  destruct (make_slice _ _) as [out| |]; [|done..]. cbn [mbind result_bind] in H.
  destruct (Join _ _ _ _) as [out' [err|]]; by simplify_eq.
Qed.

Lemma loadStripeP_local r : reads f (r_objectID r) ->
  local f (fun r' => r_objectID r' = r_objectID r) (loadStripeP r).
Proof.
  intros Hr. unfold loadStripeP. eapply obeys_bind with (Q := anything); [by destruct (make_slice _ _)|].
  intros shards0 _. eapply obeys_bind; [by apply load_shardsP_local|]. intros l _. cbn.
  destruct (join_stripe r l) eqn:E; [by apply join_stripe_id in E|done..].
Qed.

Lemma ReadP_local n r : reads f (r_objectID r) ->
  local f (fun x => r_objectID x.2 = r_objectID r) (ReadP n r).
Proof.
  intros Hr. assert (forall r1, r_objectID (copy_out n r1).2 = r_objectID r1) as Hcopy.
  { intros r1. unfold copy_out. cbn. by case_match. }
  unfold ReadP. destruct (_ >=? _); [done|]. destruct (_ =? _)%nat; [|cbn; apply Hcopy].
  apply obeys_bind with (Q := fun x => match x with inl _ => True | inr r1 => r_objectID r1 = r_objectID r end).
  - unfold catch. eapply obeys_map; [by apply loadStripeP_local|]. by intros [].
  - intros [err|r1] Hr1; [done|]. destruct (_ =? 0); [done|].
    by etrans; [apply Hcopy|].
Qed.

Lemma reader_ReadP_local id n r : reads f id -> reader_of id r ->
  local f (fun x => reader_of id x.2) (reader_ReadP n r).
Proof.
  intros Hid. destruct r as [|r]; [done|]. cbn [reader_of]. intros Hr. subst id. unfold reader_ReadP.
  eapply obeys_bind; [by apply ReadP_local|]. intros [[p err] r1] Hr1. exact Hr1.
Qed.

Lemma ReadAllP_local id fuel sizes : reads f id -> forall i r, reader_of id r ->
  local f anything (ReadAllP fuel sizes i r).
Proof.
  intros Hid. induction fuel as [|fuel IH]; intros i r Hr; [done|]. cbn [ReadAllP].
  eapply obeys_bind; [by eapply reader_ReadP_local|]. intros [[p [e|]] r'] H; [done|].
  eapply obeys_bind; [by apply IH|]. by intros [rest e] _.
Qed.

Lemma delete_shardsP_local id keys : writes f id -> Forall (fun k => k_ObjectID k = id) keys ->
  local f anything (delete_shardsP keys).
Proof.
  intros Hw. induction 1 as [|k keys Hk _ IH]; [done|]. eapply obeys_bind; [apply local_run|auto].
  cbn. by rewrite Hk.
Qed.

Lemma DeleteObjectP_local o id : id <> ""%string -> writes f id -> local f anything (DeleteObjectP o id).
Proof.
  intros Hid Hw. split; [by apply opens_listing, opens_reads, writes_reads|].
  intros [keys| |] Hk; [|done..]. specialize (Hk Hid).
  change (local f anything (delete_shardsP keys;; run_op (RemoveMarkerOp id))).
  eapply obeys_bind; [by eapply delete_shardsP_local|]. intros _ _. by apply local_run.
Qed.
End footprints.

(** * Requests *)

Inductive request :=
  | PutReq (id : string) (r : Reader) (size : Z)
  | GetReq (id : string) (fuel : nat) (sizes : nat -> nat)   (* GetObject, then read to the end *)
  | DeleteReq (id : string).

Definition req_id (q : request) : string :=
  match q with PutReq id _ _ | GetReq id _ _ | DeleteReq id => id end.

Definition is_write (q : request) : bool := match q with GetReq _ _ _ => false | _ => true end.

Definition req_footprint (q : request) : footprint :=
  if is_write q then mkFp false [] [req_id q] else mkFp false [req_id q] [].

Inductive answer :=
  | Stored
  | Content (size : Z) (body : bytes) (err : option error)
  | Removed.

Section requests.
Context {RS : ReedSolomon}.

Definition req_prog (o : ObjectStore) (q : request) : prog answer :=
  match q with
  | PutReq id r size => PutObjectP o id r size;; mret Stored
  | GetReq id fuel sizes =>
      '(rd, size) ← GetObjectP o id;
      '(body, err) ← ReadAllP fuel sizes 0 rd;
      mret (Content size body err)
  | DeleteReq id => DeleteObjectP o id;; mret Removed
  end.

(** The request served alone, by the operations of object.go. *)
Definition serve {S} {SS : ShardStore S} (o : ObjectStore) (q : request) : M (World S) answer :=
  match q with
  | PutReq id r size => PutObject o id r size;; mret Stored
  | GetReq id fuel sizes =>
      '(rd, size) ← GetObject o id;
      '(body, err) ← ((fun w => (ReadAll fuel sizes 0 rd (w_store w), w)) : M (World S) _);
      mret (Content size body err)
  | DeleteReq id => DeleteObject o id;; mret Removed
  end.

Lemma run_req {S} {SS : ShardStore S} o q (w : World S) : run_prog (req_prog o q) w = serve o q w.
Proof.
  destruct q as [id r size|id fuel sizes|id]; unfold req_prog, serve; rewrite run_bind; apply bind_ext;
    auto using run_PutObject, run_GetObject, run_DeleteObject.
  intros [rd size] w'. rewrite run_bind. apply bind_ext; [apply run_ReadAll|]. by intros [body err].
Qed.

(** All of them at once. *)
Definition start (o : ObjectStore) (qs : list request) : list (prog answer) := map (req_prog o) qs.

Lemma req_local o q : req_id q <> ""%string -> task_ok (req_prog o q, req_footprint q).
Proof.
  intros Hid. unfold task_ok. cbn [fst snd].
  assert (reads (req_footprint q) (req_id q)) as Hr.
  { unfold reads, req_footprint. destruct (is_write q); cbn; rewrite list_elem_of_singleton; auto. }
  assert (is_write q = true -> writes (req_footprint q) (req_id q)) as Hw.
  { intros H. unfold writes, req_footprint. rewrite H. cbn. by apply list_elem_of_singleton. }
  destruct q as [id r size|id fuel sizes|id]; cbn [req_id is_write] in *; unfold req_prog.
  - eapply obeys_bind; [apply PutObjectP_local; auto|done].
  - eapply obeys_bind; [by apply GetObjectP_local, opens_reads|]. intros [rd size] Hrd.
    eapply obeys_bind; [by eapply ReadAllP_local|]. by intros [body err] _.
  - eapply obeys_bind; [apply DeleteObjectP_local; auto|done].
Qed.
End requests.

(** * Requests that do not conflict *)

Section isolation.
Context {RS : ReedSolomon}.
Implicit Types w : World MemStore.

Definition tasks (o : ObjectStore) (qs : list request) : list (prog answer * footprint) :=
  map (fun q => (req_prog o q, req_footprint q)) qs.

Lemma distinct_no_conflicts qs : NoDup (map req_id qs) -> no_conflicts (map req_footprint qs).
Proof.
  induction qs as [|q qs IH]; [done|]. cbn [map]. intros [Hn Hd]%NoDup_cons. split; [|by apply IH].
  apply Forall_forall. intros g (q' & -> & Hq')%list_elem_of_fmap.
  assert (req_id q <> req_id q') as Hne.
  { intros E. apply Hn. rewrite E. apply list_elem_of_fmap. eauto. }
  unfold conflict, reads, req_footprint. rewrite !Exists_exists.
  intros [(x & Hx & Hr)|(x & Hx & Hr)]; destruct (is_write q), (is_write q'); cbn in *;
    rewrite ?list_elem_of_singleton, ?elem_of_nil in *; intuition congruence.
Qed.

Lemma tasks_ok o qs : Forall (fun q => req_id q <> ""%string) qs -> Forall task_ok (tasks o qs).
Proof. intros H. apply Forall_fmap. eapply Forall_impl; [exact H|]. intros q Hq. by apply req_local. Qed.

Lemma tasks_progs o qs : map fst (tasks o qs) = start o qs /\ map snd (tasks o qs) = map req_footprint qs.
Proof. unfold tasks, start. by rewrite !map_map. Qed.

(** Requests that do not conflict are isolated. In any interleaving of
    their store calls, a request that is answered gets the answer it would have
    got alone from the state at the start, and, once answered, a writer leaves
    of its object exactly what it would have left alone; objects that nobody
    writes stay as they were. So "Concurrent writes to the same object ID are
    not safe" is the only restriction. *)
Theorem concurrent_requests_isolated o qs w ps w' :
  no_conflicts (map req_footprint qs) -> Forall (fun q => req_id q <> ""%string) qs -> cache_ok (w_cache w) ->
  rtc pool_step (start o qs, w) (ps, w') ->
  (forall t q r, qs !! t = Some q -> ps !! t = Some (Done r) ->
    r = (serve o q w).1 /\ agree (req_id q) (serve o q w).2 w') /\
  (forall id, (forall q, q ∈ qs -> is_write q = true -> req_id q <> id) -> agree id w w').
Proof.
  intros Hn Hids Hc Hsteps. destruct (tasks_progs o qs) as [E1 E2]. rewrite <- E1 in Hsteps. rewrite <- E2 in Hn.
  destruct (tasks_isolated _ _ _ _ Hn (tasks_ok o qs Hids) Hc Hsteps) as [Ha Hf]. split.
  - intros t q r Hq Hr. destruct (Ha t (req_prog o q, req_footprint q) r) as [-> Hag]; [|done|].
    { unfold tasks. change (map ?g qs) with (g <$> qs). by rewrite list_lookup_fmap, Hq. }
    cbn [fst snd] in *. rewrite run_req in *. split; [done|]. eapply agree_on_sub; [|exact Hag].
    intros id <-. unfold reads, req_footprint. destruct (is_write q); cbn; rewrite list_elem_of_singleton; auto.
  - intros id Hw. eapply agree_on_sub; [|exact Hf]. intros ? <-. apply Forall_fmap, Forall_forall. intros q Hq Hwr.
    cbn in Hwr. unfold writes, req_footprint in Hwr. destruct (is_write q) eqn:E; cbn in Hwr; [|by apply elem_of_nil in Hwr].
    apply list_elem_of_singleton in Hwr. by apply (Hw q Hq E).
Qed.
End isolation.

(** * At work *)

Definition ex_put (id data : string) : request :=
  PutReq id (NewReader (bytes_of_string data)) (len (bytes_of_string data)).
Definition ex_get (id : string) : request := GetReq id 10 (fun _ => 10%nat).
Definition ex_empty : World MemStore := mkWorld ∅ NewMemStore.

Lemma concurrent_requests_isolated_witness :
  let qs := [ex_put "a" "shards"; ex_put "b" "other"; ex_get "c"] in
  let c := run_schedule [0; 1; 2; 1; 0; 2; 1; 0; 1; 1; 0; 1; 0; 1; 1; 0; 0]%nat (start ex_store qs, ex_empty) in
  c.1 !! 1%nat = Some (Done (OK Stored)) /\
  (serve ex_store (ex_put "b" "other") ex_empty).1 = OK Stored /\
  agree "b" (serve ex_store (ex_put "b" "other") ex_empty).2 c.2 /\ agree "x" ex_empty c.2.
Proof.
  intros qs c.
  assert (c.1 !! 1%nat = Some (Done (OK Stored))) as H1 by (vm_compute; reflexivity).
  destruct (concurrent_requests_isolated ex_store qs ex_empty c.1 c.2) as [Ha Hf].
  - apply distinct_no_conflicts. apply (bool_decide_unpack _). reflexivity.
  - repeat constructor; discriminate.
  - apply cache_ok_empty.
  - by apply schedule_reaches.
  - destruct (Ha 1%nat (ex_put "b" "other") _ eq_refl H1) as [<- Hb].
    split_and!; [exact H1|reflexivity|exact Hb|]. apply Hf.
    intros q Hq Hw He. unfold qs in Hq. rewrite !elem_of_cons, elem_of_nil in Hq.
    destruct Hq as [->|[->|[->|[]]]]; done.
Defined.

(** What the restriction guards against, and what it does not mention. Two
    overlapping PUTs of one object can both succeed and leave an object that is
    neither, which GetObject serves without error; and one PUT is enough for an
    overlapping GET to return the first stripe of the old object and the second
    of the new one, again without error. *)
Theorem overlapping_requests_mix :
  (exists w,
    rtc pool_step (start ex_store [ex_put "a" "ABCD"; ex_put "a" "wxyz"], ex_empty)
      ([Done (OK Stored); Done (OK Stored)], w) /\
    (serve ex_store (ex_get "a") w).1 = OK (Content 4 (bytes_of_string "wxCD") None)) /\
  (exists w0 w,
    serve ex_store (ex_put "a" "AAAABBBB") ex_empty = (OK Stored, w0) /\
    rtc pool_step (start ex_store [ex_put "a" "ccccdddd"; ex_get "a"], w0)
      ([Done (OK Stored); Done (OK (Content 8 (bytes_of_string "AAAAdddd") None))], w)).
Proof.
  split; [eexists; split|exists (serve ex_store (ex_put "a" "AAAABBBB") ex_empty).2; eexists; split].
  - eapply (schedule_reaches [0; 1; 0; 1; 1; 0; 0; 1; 0; 1]%nat). vm_compute. reflexivity.
  - vm_compute. reflexivity.
  - vm_compute. reflexivity.
  - eapply (schedule_reaches ([1; 1; 1; 1; 1; 1] ++ replicate 8 0 ++ replicate 4 1)%nat).
    vm_compute. reflexivity.
Qed.
