(* ===== verification/FileSteps.v ===== *)
(** FileStore under concurrency (internal/storage/store.go). FileStore has no
    lock, so the system calls of concurrent calls interleave: the calls that
    change the disk, cut into their system calls, and what other goroutines
    can see in between. *)
From stdpp Require Import relations.
From S2P Require Import Prelude Binary Sha256 EC XorCodec Header ShardStore ObjectStore ObjectRead Contract FileNames FileStore FileRefine FileContract.

(** * Calls as sequences of system calls *)

Inductive disk_call :=
  | PutCall (key : ShardKey) (h : ShardHeader) (data : bytes)
  | DeleteCall (key : ShardKey)
  | WriteMarkerCall (id : string) (meta : ObjectMeta)
  | RemoveMarkerCall (id : string).

(** The only file a call touches. *)
Definition call_file (c : disk_call) : string * string :=
  match c with
  | PutCall key _ _ | DeleteCall key => (objectDir (k_ObjectID key), shardFileName key)
  | WriteMarkerCall id _ | RemoveMarkerCall id => (objectDir id, markerFileName)
  end.

Section steps.
Context {ENV : Environment}.

Definition run_call (c : disk_call) : M Disk unit :=
  match c with
  | PutCall key h data => PutShard key h data
  | DeleteCall key => DeleteShard key
  | WriteMarkerCall id meta => WriteMarker id meta
  | RemoveMarkerCall id => RemoveMarker id
  end.

(** PutShard up to its first system call. *)
Definition check_put (key : ShardKey) (h : ShardHeader) (data : bytes) : M Disk unit :=
  sys CtxErr;;
  if bool_decide (k_ObjectID key <> h_ObjectID h) then
    throw (Errorf "storage: key/header object id mismatch")
  else if negb (len data =? h_DataLen h) then
    throw (Errorf "storage: payload len %d != header DataLen %d")
  else mret tt.

(** What PutShard does once its directory exists. *)
Definition write_steps (dir name : string) (hdrBytes : result bytes) (data : bytes) : list (M Disk unit) :=
  match hdrBytes with
  | OK b => [wrapM "storage: create shard" (os_Create dir name);
             wrapM "storage: write header" (fh_Write dir name b);
             wrapM "storage: write payload" (fh_Write dir name data);
             wrapM "storage: fsync shard" (fh_Sync dir name)]
  | r => [lift (_ ← r; OK tt)]
  end.

(** PutShard, system call by system call; what the code does between two
    system calls is part of a step. *)
Definition put_steps (key : ShardKey) (h : ShardHeader) (data : bytes) : list (M Disk unit) :=
  let dir := objectDir (k_ObjectID key) in
  [check_put key h data; wrapM "storage: mkdir" (os_MkdirAll dir)] ++
  write_steps dir (shardFileName key) (encodeShardHeader (with_checksum h (Sum256 data))) data.

(** WriteMarker; os.WriteFile creates the file and writes it. *)
Definition marker_steps (id : string) (meta : ObjectMeta) : list (M Disk unit) :=
  let dir := objectDir id in
  match encodeObjectMeta meta with
  | OK b => [wrapM "storage: mkdir marker" (os_MkdirAll dir);
             wrapM "storage: write marker" (os_Create dir markerFileName);
             wrapM "storage: write marker" (fh_Write dir markerFileName b);
             wrapM "storage: reopen marker" (fun d => (_ ← os_Open d dir markerFileName; OK tt, d));
             wrapM "storage: fsync marker" (fh_Sync dir markerFileName)]
  | r => [lift (_ ← r; OK tt)]
  end.

(** Removing a file is one system call. *)
Definition call_steps (c : disk_call) : list (M Disk unit) :=
  match c with
  | PutCall key h data => put_steps key h data
  | DeleteCall key => [DeleteShard key]
  | WriteMarkerCall id meta => marker_steps id meta
  | RemoveMarkerCall id => [RemoveMarker id]
  end.

Fixpoint run_steps (ss : list (M Disk unit)) : M Disk unit :=
  match ss with [] => mret tt | s :: ss' => s;; run_steps ss' end.

(** A call in flight: the steps it has left, or its result. *)
Inductive writer := Running (ss : list (M Disk unit)) | Finished (r : result unit).

Definition writer_step (t : writer) (d : Disk) : option (writer * Disk) :=
  match t with
  | Running (s :: ss) =>
      let '(r, d') := s d in
      Some (match r with OK _ => Running ss | r => Finished r end, d')
  | Running [] => Some (Finished (OK tt), d)
  | Finished _ => None
  end.

(** Any of the calls in flight makes its next system call. *)
Inductive disk_step : list writer * Disk -> list writer * Disk -> Prop :=
  | disk_step_at i t ts d t' d' :
      ts !! i = Some t -> writer_step t d = Some (t', d') ->
      disk_step (ts, d) (<[i := t']> ts, d').

Definition start_calls (cs : list disk_call) : list writer := map (fun c => Running (call_steps c)) cs.

(** A schedule: whose system call is next, and next. *)
Fixpoint run_disk (js : list nat) (c : list writer * Disk) : list writer * Disk :=
  match js with
  | [] => c
  | i :: js' =>
      match c.1 !! i ≫= fun t => writer_step t c.2 with
      | Some (t', d') => run_disk js' (<[i := t']> c.1, d')
      | None => run_disk js' c
      end
  end.

Lemma run_disk_steps js : forall c, rtc disk_step c (run_disk js c).
Proof.
  induction js as [|i js IH]; intros c; [apply rtc_refl|]. cbn [run_disk].
  destruct (c.1 !! i ≫= _) as [[t' d']|] eqn:E; [|apply IH].
  apply bind_Some in E as (t & Ht & Hs). eapply rtc_l; [|apply IH].
  destruct c as [ts d]. by eapply disk_step_at.
Qed.

(** ** The steps are the call *)

Lemma write_steps_run dir name r data d :
  run_steps (write_steps dir name r data) d
  = (hdrBytes ← lift r;
     wrapM "storage: create shard" (os_Create dir name);;
     wrapM "storage: write header" (fh_Write dir name hdrBytes);;
     wrapM "storage: write payload" (fh_Write dir name data);;
     wrapM "storage: fsync shard" (fh_Sync dir name)) d.
Proof.
  destruct r as [b|e|q]; [|done..]. cbn [write_steps run_steps]. etrans; [|symmetry; by apply M_bind_ok].
  do 3 (apply bind_ext; [done|]; intros _ ?). apply bind_mret.
Qed.

Lemma call_steps_run c d : run_steps (call_steps c) d = run_call c d.
Proof.
  destruct c as [key h data|key|id meta|id]; cbn [call_steps run_call put_steps app run_steps]; try apply bind_mret.
  - unfold check_put, PutShard. rewrite M_bind_assoc. apply bind_ext; [done|]. intros _ d1.
    case_bool_decide; [done|]. destruct (negb _); [done|]. erewrite M_bind_ok by done. cbv zeta.
    apply bind_ext; [done|]. intros _ d2. apply write_steps_run.
  - unfold marker_steps, WriteMarker. destruct (encodeObjectMeta meta) as [b|e|q]; [|done..].
    cbn [run_steps]. etrans; [|symmetry; by apply M_bind_ok].
    cbv zeta. apply bind_ext; [done|]. intros _ d1.
    etrans; [|symmetry; apply bind_ext; [apply wrapM_bind|done]]. rewrite M_bind_assoc.
    do 3 (apply bind_ext; [done|]; intros _ ?). apply bind_mret.
Qed.
End steps.

(** * What a call depends on *)

(** The two disks agree on the file; and both have its directory, if [has]. *)
Definition view (has : bool) (dir name : string) (d1 d2 : Disk) : Prop :=
  file d1 dir name = file d2 dir name /\
  (has = true -> is_Some (dirs d1 !! dir) /\ is_Some (dirs d2 !! dir)).

(** No directory ever goes away. *)
Definition grows {A} (m : M Disk A) : Prop :=
  forall d dir, is_Some (dirs d !! dir) -> is_Some (dirs (m d).2 !! dir).

(** A computation that runs the same on disks that agree, and leaves them so. *)
Definition same_run {A} (dir name : string) (has has' : bool) (m : M Disk A) : Prop :=
  forall d1 d2, view has dir name d1 d2 ->
    (m d1).1 = (m d2).1 /\
    view (match (m d1).1 with OK _ => has' | _ => false end) dir name (m d1).2 (m d2).2.

Definition step_ok {A} (dir name : string) (has has' : bool) (m : M Disk A) : Prop :=
  same_run dir name has has' m /\ only dir name m /\ grows m.

Fixpoint steps_ok (dir name : string) (has : bool) (ss : list (M Disk unit)) : Prop :=
  match ss with
  | [] => True
  | s :: ss' => exists has', step_ok dir name has has' s /\ steps_ok dir name has' ss'
  end.

Lemma view_weaken has dir name d1 d2 : view has dir name d1 d2 -> view false dir name d1 d2.
Proof. by intros [H _]. Qed.

Lemma grows_set dir name c d dir' :
  is_Some (dirs d !! dir') -> is_Some (dirs (set_file dir name c d) !! dir').
Proof. intros [fs H]. cbn. rewrite lookup_alter_is_Some. by eexists. Qed.

Section steps_ok.
Context {ENV : Environment}.

(** Which calls fail, and how, does not depend on the rest of the disk. *)
Context (static : forall d d' c, env d c = env d' c).

Lemma bind_same_run {A B} dir name h1 h2 h3 (m : M Disk A) (f : A -> M Disk B) :
  step_ok dir name h1 h2 m -> (forall a, same_run dir name h2 h3 (f a)) -> same_run dir name h1 h3 (m ≫= f).
Proof.
  intros (R1 & _) H d1 d2 V. destruct (R1 d1 d2 V) as [E V1]. unfold mbind, M_bind.
  destruct (m d1) as [r1 d1'], (m d2) as [r2 d2']. cbn in E, V1. subst r2.
  destruct r1 as [a|e|q]; [apply H, V1|done..].
Qed.

Lemma bind_grows {A B} (m : M Disk A) (f : A -> M Disk B) :
  grows m -> (forall a, grows (f a)) -> grows (m ≫= f).
Proof.
  intros G1 H d dir' Hd. specialize (G1 d dir' Hd). unfold mbind, M_bind.
  destruct (m d) as [[a|e|q] d']; [by apply H|done..].
Qed.

Lemma bind_ok {A B} dir name h1 h2 h3 (m : M Disk A) (f : A -> M Disk B) :
  step_ok dir name h1 h2 m -> (forall a, step_ok dir name h2 h3 (f a)) -> step_ok dir name h1 h3 (m ≫= f).
Proof.
  intros Hm H. split_and!.
  - eapply bind_same_run; [done|]. apply H.
  - apply only_bind; [apply Hm|]. apply H.
  - apply bind_grows; [apply Hm|]. apply H.
Qed.

Lemma wrapM_step_ok {A} dir name h1 h2 msg (m : M Disk A) :
  step_ok dir name h1 h2 m -> step_ok dir name h1 h2 (wrapM msg m).
Proof.
  intros (R1 & O1 & G1). split_and!; [|by apply only_wrapM|].
  - intros d1 d2 V. destruct (R1 d1 d2 V) as [E V1]. unfold wrapM.
    destruct (m d1) as [r1 d1'], (m d2) as [r2 d2']. cbn in E, V1. subst r2. split; [done|].
    by destruct r1.
  - intros d dir' Hd. specialize (G1 d dir' Hd). unfold wrapM. by destruct (m d).
Qed.

(** A computation that leaves the disk and looks at the file at most. *)
Lemma look_ok {A} dir name has (m : M Disk A) :
  (forall d, (m d).2 = d) -> (forall d1 d2, file d1 dir name = file d2 dir name -> (m d1).1 = (m d2).1) ->
  step_ok dir name has has m.
Proof.
  intros Hd Hr. split_and!.
  - intros d1 d2 V. rewrite !Hd. split; [by apply Hr, V|]. destruct (m d1).1; done || by eapply view_weaken.
  - intros d. by rewrite Hd.
  - intros d dir' H. by rewrite Hd.
Qed.

Lemma sys_ok dir name has c : step_ok dir name has has (sys c).
Proof.
  apply look_ok; unfold sys; [intros d; by destruct (env d c)|].
  intros d1 d2 _. rewrite (static d1 d2). by destruct (env d2 c).
Qed.

Lemma lift_ok {A} dir name has (r : result A) : step_ok dir name has has (lift r).
Proof. by apply look_ok. Qed.

Lemma open_ok dir name has :
  step_ok dir name has has ((fun d => (_ ← os_Open d dir name; OK tt, d)) : M Disk unit).
Proof.
  apply look_ok; [done|]. intros d1 d2 H. cbn [fst]. unfold os_Open.
  by rewrite (static d1 d2 (SysOpen _ _)), (static d1 d2 (SysRead _ _)), H.
Qed.

Lemma mkdir_file dir d name :
  file match dirs d !! dir with Some _ => d | None => mkDisk (<[dir:=∅]> (dirs d)) end dir name = file d dir name.
Proof.
  destruct (dirs d !! dir) eqn:E; [done|]. unfold file. cbn. rewrite lookup_insert_eq, E. apply lookup_empty.
Qed.

Lemma mkdir_grows dir d dir' : is_Some (dirs d !! dir') \/ dir' = dir ->
  is_Some (dirs match dirs d !! dir with Some _ => d | None => mkDisk (<[dir:=∅]> (dirs d)) end !! dir').
Proof.
  destruct (dirs d !! dir) eqn:E; [intros [H| ->]; [done|by eexists]|]. cbn.
  intros H. apply lookup_insert_is_Some'. intuition.
Qed.

Lemma mkdir_ok dir name has : step_ok dir name has true (os_MkdirAll dir).
Proof.
  split_and!; [|apply only_mkdir|].
  - apply bind_same_run with has; [apply sys_ok|]. intros [] d1 d2 [Hf _].
    split; [done|]. split; [cbn [fst snd]; by rewrite !mkdir_file|].
    intros _. split; apply mkdir_grows; by right.
  - apply bind_grows; [apply (sys_ok dir name has)|]. intros [] d dir' H. apply mkdir_grows. by left.
Qed.

Lemma set_file_view has dir name c d1 d2 : is_Some (dirs d1 !! dir) -> is_Some (dirs d2 !! dir) ->
  view has dir name (set_file dir name c d1) (set_file dir name c d2).
Proof.
  intros H1 H2. split; [|intros _; split; by apply grows_set].
  rewrite !file_set, !decide_True by done. by destruct H1 as [? ->], H2 as [? ->].
Qed.

Lemma create_ok dir name : step_ok dir name true true (os_Create dir name).
Proof.
  split_and!; [|apply only_create|].
  - apply bind_same_run with true; [apply sys_ok|]. intros [] d1 d2 [Hf Hd].
    destruct (Hd eq_refl) as [[f1 H1] [f2 H2]]. rewrite H1, H2. split; [done|].
    apply set_file_view; by eexists.
  - apply bind_grows; [apply (sys_ok dir name true)|]. intros [] d dir' H.
    destruct (dirs d !! dir); [by apply grows_set|done].
Qed.

Lemma file_dir d dir name c : file d dir name = Some c -> is_Some (dirs d !! dir).
Proof. unfold file. destruct (dirs d !! dir); [by eexists|done]. Qed.

Lemma write_ok_step dir name has data : step_ok dir name has has (fh_Write dir name data).
Proof.
  split_and!; [|apply only_write|].
  - intros d1 d2 V. pose proof V as [Hf _]. unfold fh_Write. rewrite (static d1 d2), Hf.
    assert (forall b has', (has' = true -> has = true) ->
      view has' dir name
        match file d2 dir name with Some c => set_file dir name (c ++ b) d1 | None => d1 end
        match file d2 dir name with Some c => set_file dir name (c ++ b) d2 | None => d2 end) as H.
    { intros b has' Hh. destruct (file d2 dir name) as [c|] eqn:E.
      - apply set_file_view; by eapply file_dir.
      - split; [congruence|]. intros Ht. by apply V, Hh. }
    destruct (env d2 _); cbn [fst snd]; split; done || by apply H.
  - intros d dir' H. unfold fh_Write.
    destruct (env d _), (file d dir name); done || by apply grows_set.
Qed.

Lemma remove_ok dir name has : step_ok dir name has has (os_Remove dir name).
Proof.
  assert (forall d dir', is_Some (dirs d !! dir') ->
    is_Some (dirs (mkDisk (alter (fun fs => delete name fs) dir (dirs d))) !! dir')) as Hg.
  { intros d dir' H. cbn. by rewrite lookup_alter_is_Some. }
  split_and!.
  - apply bind_same_run with has; [apply sys_ok|]. intros [] d1 d2 V. pose proof V as [Hf Hd].
    rewrite Hf. destruct (file d2 dir name) as [c|] eqn:E; [|by split; [|eapply view_weaken]].
    split; [done|]. split; [|intros Ht; destruct (Hd Ht); split; by apply Hg].
    unfold file in *. cbn [dirs snd]. rewrite !lookup_alter_eq.
    destruct (dirs d1 !! dir), (dirs d2 !! dir); cbn; try done. by rewrite !lookup_delete_eq.
  - apply only_bind; [apply only_sys|]. intros [] d dir' name' Hne. cbn.
    destruct (file d dir name); [|done]. unfold file. cbn. destruct (decide (dir' = dir)) as [->|].
    + rewrite lookup_alter_eq. destruct (dirs d !! dir); [cbn|done]. apply lookup_delete_ne. congruence.
    + by rewrite lookup_alter_ne.
  - apply bind_grows; [apply (sys_ok dir name has)|]. intros [] d dir' H.
    destruct (file d dir name); [by apply Hg|done].
Qed.

Lemma mapped_ok dir name (g : result unit -> result unit) (m m' : M Disk unit) :
  step_ok dir name false false m -> (forall d, m' d = (g (m d).1, (m d).2)) -> step_ok dir name false false m'.
Proof.
  intros (R & O & G) E. split_and!; [intros d1 d2 V|intros d|intros d dir' H]; rewrite !E; cbn [fst snd].
  - destruct (R d1 d2 V) as [Hr [Hf _]]. rewrite Hr. split; [done|]. split; [done|]. by destruct (g _).
  - apply O.
  - by apply G.
Qed.

Lemma delete_ok dir name key : (dir, name) = call_file (DeleteCall key) ->
  step_ok dir name false false (DeleteShard key).
Proof.
  intros [= -> ->]. eapply mapped_ok with (g := fun r => match r with Err e => Err _ | r => r end); [apply remove_ok|].
  intros d. unfold DeleteShard, map_err. by destruct (os_Remove _ _ d) as [[[]|e|q] d'].
Qed.

Lemma remove_marker_ok dir name id : (dir, name) = call_file (RemoveMarkerCall id) ->
  step_ok dir name false false (RemoveMarker id).
Proof.
  intros [= -> ->].
  eapply mapped_ok with (g := fun r => match r with
    Err e => if os_IsNotExist e then OK tt else Err _ | r => r end); [apply remove_ok|].
  intros d. unfold RemoveMarker. destruct (os_Remove _ _ d) as [[[]|e|q] d']; [done| |done].
  cbn [fst snd]. by destruct (os_IsNotExist e).
Qed.

Lemma steps_cons dir name has has' s ss :
  step_ok dir name has has' s -> steps_ok dir name has' ss -> steps_ok dir name has (s :: ss).
Proof. by exists has'. Qed.

Create HintDb disk_steps.
#[local] Hint Resolve steps_cons wrapM_step_ok sys_ok lift_ok open_ok mkdir_ok create_ok write_ok_step
  delete_ok remove_marker_ok : disk_steps.
#[local] Hint Extern 1 (steps_ok _ _ _ []) => exact Logic.I : disk_steps.

Lemma check_put_ok dir name has key h data : step_ok dir name has has (check_put key h data).
Proof.
  apply bind_ok with has; [apply sys_ok|]. intros _. case_bool_decide; [apply (lift_ok _ _ _ (Err _))|].
  destruct (negb _); [apply (lift_ok _ _ _ (Err _))|apply (lift_ok _ _ _ (OK tt))].
Qed.

Lemma call_steps_ok c : steps_ok (call_file c).1 (call_file c).2 false (call_steps c).
Proof.
  destruct c as [key h data|key|id meta|id]; cbn [call_steps call_file put_steps fst snd app];
    unfold write_steps, marker_steps; try case_match;
    repeat first [exact Logic.I | eapply steps_cons; [eauto using check_put_ok with disk_steps|]].
Qed.

(** * Interleaving *)

(** What is left of a call, run on. *)
Definition run_rest (t : writer) (d : Disk) : result unit * Disk :=
  match t with Running ss => run_steps ss d | Finished r => (r, d) end.

(** Call [c], of which [t] is left on disk [d], cannot tell that it did not run
    alone on [d0]: alone it would now have left a disk that agrees with [d] on
    its file. *)
Definition as_alone (d0 d : Disk) (c : disk_call) (t : writer) : Prop :=
  let '(dir, name) := call_file c in
  exists d1 has, run_rest t d1 = run_call c d0 /\ view has dir name d1 d /\
    match t with Running ss => steps_ok dir name has ss | Finished _ => True end.

Lemma as_alone_start d c : as_alone d d c (Running (call_steps c)).
Proof.
  unfold as_alone. pose proof (call_steps_ok c) as H. destruct (call_file c) as [dir name].
  exists d, false. split; [apply call_steps_run|]. by split.
Qed.

(** A step of a call touches its own file only, and keeps every directory. *)
Lemma writer_step_only d0 d c t t' d' :
  as_alone d0 d c t -> writer_step t d = Some (t', d') ->
  same_but d d' (call_file c).1 (call_file c).2 /\
  forall dir, is_Some (dirs d !! dir) -> is_Some (dirs d' !! dir).
Proof.
  unfold as_alone. destruct (call_file c) as [dir name]. intros (d1 & has & _ & _ & Hs) H.
  destruct t as [[|s ss]|r]; cbn in H; [by simplify_eq| |done].
  destruct Hs as (has' & (_ & Ho & Hg) & _). specialize (Ho d). specialize (Hg d).
  destruct (s d) as [r d2]. by simplify_eq.
Qed.

Lemma as_alone_step d0 d c t t' d' :
  as_alone d0 d c t -> writer_step t d = Some (t', d') -> as_alone d0 d' c t'.
Proof.
  unfold as_alone. destruct (call_file c) as [dir name]. intros (d1 & has & Hr & V & Hs) H.
  destruct t as [[|s ss]|r]; cbn in H; [simplify_eq; by exists d1, has| |done].
  destruct Hs as (has' & (Hs & _) & Hss). destruct (Hs d1 d V) as [E V'].
  cbn in Hr. unfold mbind, M_bind in Hr. exists (s d1).2.
  destruct (s d1) as [r1 d1'], (s d) as [r d2]. cbn in E, V', Hr |- *. simplify_eq.
  destruct r as [[]|e|q]; eexists; split_and!; done.
Qed.

(** A step of another call. *)
Lemma as_alone_other d0 d c t d' dir name :
  as_alone d0 d c t -> same_but d d' dir name -> (dir, name) <> call_file c ->
  (forall x, is_Some (dirs d !! x) -> is_Some (dirs d' !! x)) -> as_alone d0 d' c t.
Proof.
  unfold as_alone. destruct (call_file c) as [dir1 name1]. intros (d1 & has & Hr & [Hf Hd] & Hs) Hb Hne Hg.
  exists d1, has. split; [done|]. split; [|done]. split; [rewrite Hf; symmetry; by apply Hb|].
  intros Ht. destruct (Hd Ht). by split; [|apply Hg].
Qed.
End steps_ok.

Section interleave.
Context {ENV : Environment}.

(** ** Every schedule ends *)

Definition steps_left (t : writer) : nat :=
  match t with Running ss => S (length ss) | Finished _ => 0 end.

Lemma sum_insert {A} (f : A -> nat) l i x y :
  l !! i = Some x -> (f y < f x)%nat -> (sum_list_with f (<[i := y]> l) < sum_list_with f l)%nat.
Proof.
  revert i. induction l as [|z l IH]; intros [|i] Hi Hf; [done..| |].
  - injection Hi as ->. cbn. lia.
  - specialize (IH i Hi Hf). change (f z + sum_list_with f (<[i:=y]> l) < f z + sum_list_with f l)%nat. lia.
Qed.

Lemma disk_step_less c c' :
  disk_step c c' -> (sum_list_with steps_left c'.1 < sum_list_with steps_left c.1)%nat.
Proof.
  intros H. inversion H as [i t ts d t' d' Ht Hs]; subst. apply (sum_insert _ _ _ t); [done|].
  destruct t as [[|s ss]|r]; cbn in Hs; [by simplify_eq; cbn; lia| |done].
  destruct (s d) as [[a|e|q] d2]; simplify_eq; cbn [steps_left length]; lia.
Qed.

Lemma disk_step_wf c : Acc (fun c' c => disk_step c c') c.
Proof.
  induction c as [c IH] using (Nat.measure_induction _ (fun c => sum_list_with steps_left c.1)).
  constructor. intros c' H. by apply IH, disk_step_less.
Qed.

Lemma disk_step_stuck ts d :
  (forall c', ~ disk_step (ts, d) c') -> Forall (fun t => exists r, t = Finished r) ts.
Proof.
  intros H. apply Forall_lookup. intros i t Ht.
  destruct (writer_step t d) as [[t' d']|] eqn:E; [by edestruct H; eapply disk_step_at|].
  destruct t as [[|s ss]|r]; [done| |by eexists]. cbn in E. by destruct (s d).
Qed.

(** ** Calls on different files *)

Lemma disk_step_as_alone d0 cs ts d ts' d' :
  (forall d d' c, env d c = env d' c) -> NoDup (map call_file cs) -> disk_step (ts, d) (ts', d') ->
  Forall2 (as_alone d0 d) cs ts ->
  Forall2 (as_alone d0 d') cs ts' /\
  exists c, c ∈ cs /\ same_but d d' (call_file c).1 (call_file c).2.
Proof.
  intros Hst Hnd H F. inversion H as [i t ts1 d1 t' d2 Ht Hs]; subst.
  destruct (Forall2_lookup_r _ _ _ _ _ F Ht) as (c & Hc & Ha).
  destruct (writer_step_only _ _ _ _ _ _ Ha Hs) as [Hb Hg].
  split; [|exists c; split; [by eapply list_elem_of_lookup_2|done]].
  apply Forall2_same_length_lookup. pose proof (Forall2_length _ _ _ F) as Hlen.
  split; [by rewrite length_insert|]. intros j c' t'' Hc' Ht''.
  destruct (decide (i = j)) as [<-|Hne].
  - rewrite list_lookup_insert_eq in Ht'' by (by eapply lookup_lt_Some). simplify_eq.
    by eapply as_alone_step.
  - rewrite list_lookup_insert_ne in Ht'' by done.
    pose proof (Forall2_lookup_lr _ _ _ _ _ _ F Hc' Ht'') as Ha'.
    eapply as_alone_other; [exact Ha'|exact Hb| |exact Hg].
    rewrite <- surjective_pairing. intros E. apply Hne.
    eapply (NoDup_lookup (map call_file cs)); [done|..]; rewrite list_lookup_fmap; [by rewrite Hc|by rewrite Hc', E].
Qed.

Lemma disk_steps_as_alone cs d ts d' :
  (forall d d' c, env d c = env d' c) -> NoDup (map call_file cs) ->
  rtc disk_step (start_calls cs, d) (ts, d') ->
  Forall2 (as_alone d d') cs ts /\
  forall dir name, (dir, name) ∉ map call_file cs -> file d' dir name = file d dir name.
Proof.
  intros Hst Hnd H.
  apply (rtc_ind_r (fun c => Forall2 (as_alone d c.2) cs c.1 /\
    forall dir name, (dir, name) ∉ map call_file cs -> file c.2 dir name = file d dir name)
    (start_calls cs, d)) in H; [done|..].
  - split; [|done]. cbn [fst snd]. unfold start_calls. clear H Hnd.
    induction cs; constructor; [by apply as_alone_start|done].
  - clear H. intros [ts1 d1] [ts2 d2] _ Hs [F Hf]. cbn [fst snd] in *.
    destruct (disk_step_as_alone d cs ts1 d1 ts2 d2 Hst Hnd Hs F) as [F' (c & Hc & Hb)].
    split; [done|]. intros dir name Hn. rewrite <- Hf by done. apply Hb.
    intros E. apply Hn. rewrite E, <- surjective_pairing. by apply list_elem_of_fmap_2.
Qed.
End interleave.

(** C13. Calls of FileStore that change different files do not need a lock. As
    long as which system calls fail depends on the call alone, in any
    interleaving of their system calls, and at every moment of it: a call that
    has returned has returned what it returns when it runs alone, and has left
    its file as it leaves it alone; files of no call are as they were; and no
    schedule goes on for ever or gets stuck before every call has returned. *)
Theorem interleaved_calls_agree {ENV : Environment} cs d ts d' :
  (forall d d' c, env d c = env d' c) -> NoDup (map call_file cs) ->
  rtc disk_step (start_calls cs, d) (ts, d') ->
  (forall i c, cs !! i = Some c -> exists t, ts !! i = Some t /\
     forall r, t = Finished r -> (run_call c d).1 = r /\
       let '(dir, name) := call_file c in file d' dir name = file (run_call c d).2 dir name) /\
  (forall dir name, (dir, name) ∉ map call_file cs -> file d' dir name = file d dir name) /\
  Acc (fun c' c => disk_step c c') (ts, d') /\
  ((forall c', ~ disk_step (ts, d') c') -> Forall (fun t => exists r, t = Finished r) ts).
Proof.
  intros Hst Hnd H. destruct (disk_steps_as_alone cs d ts d' Hst Hnd H) as [F Hf].
  split_and!; [|done|apply disk_step_wf|apply disk_step_stuck].
  intros i c Hc. destruct (Forall2_lookup_l _ _ _ _ _ F Hc) as (t & Ht & Ha). exists t. split; [done|].
  intros r ->. unfold as_alone in Ha. destruct (call_file c) as [dir name].
  destruct Ha as (d1 & has & Hr & [Hv _] & _). cbn in Hr. rewrite <- Hr. by split.
Qed.

(** * What others see *)

#[local] Existing Instance no_faults.

Lemma step_first s ss d d' : s d = (OK tt, d') -> disk_step ([Running (s :: ss)], d) ([Running ss], d').
Proof.
  intros H. change [Running ss] with (<[0%nat := Running ss]> [Running (s :: ss)]).
  apply disk_step_at with (Running (s :: ss)); [done|]. cbn. by rewrite H.
Qed.

Lemma steps_first ss d d' : run_steps ss d = (OK tt, d') -> rtc disk_step ([Running ss], d) ([Finished (OK tt)], d').
Proof.
  revert d. induction ss as [|s ss IH]; intros d H.
  - injection H as <-. apply rtc_once.
    change [Finished (OK tt)] with (<[0%nat := Finished (OK tt)]> [Running []]). by eapply disk_step_at.
  - cbn in H. unfold mbind, M_bind in H. destruct (s d) as [[[]|e|q] d1] eqn:E; [|done..].
    eapply rtc_l; [by apply step_first|]. by apply IH.
Qed.

Lemma check_put_passes key h data d :
  k_ObjectID key = h_ObjectID h -> h_DataLen h = len data -> check_put key h data d = (OK tt, d).
Proof.
  intros Hid Hl. unfold check_put. erewrite M_bind_ok by reflexivity.
  rewrite bool_decide_eq_false_2 by (intros Hn; by apply Hn).
  by rewrite (proj2 (Z.eqb_eq _ _)) by congruence.
Qed.

Lemma decode_empty : exists err, (decodeShardHeader (NewReader [])).1 = Err err /\
  lost_error (Wrapf "storage: decode header" err) = false.
Proof. eexists. split; vm_compute; reflexivity. Qed.

(** C36. A put that is under way blocks the whole store. While any PutShard that
    will succeed has created its file and not yet written the header, with no
    system call failing, GetObject and DeleteObject fail for every object of
    the store, whatever its own shards are, since listing decodes every header;
    and reading the shard that is being written, also one that was there
    before, fails with an error that no read tolerates. *)
Theorem put_in_progress_blocks_store key h data b d :
  header_wf h -> k_ObjectID key = h_ObjectID h -> h_DataLen h = len data ->
  encodeShardHeader (with_checksum h (Sum256 data)) = OK b ->
  exists rest dw d',
    rtc disk_step (start_calls [PutCall key h data], d) ([Running rest], dw) /\
    rtc disk_step ([Running rest], dw) ([Finished (OK tt)], d') /\
    GetShard d' key = (Some data, with_checksum h (Sum256 data), None) /\
    same_but d dw (objectDir (k_ObjectID key)) (shardFileName key) /\
    (forall (RS : ReedSolomon) o id (c : encCache),
      (exists err, GetObject o id (mkWorld c dw) = (Err err, mkWorld c dw)) /\
      (exists err, DeleteObject o id (mkWorld c dw) = (Err err, mkWorld c dw))) /\
    exists err, GetShard dw key = (None, emptyHeader, Some err) /\ lost_error err = false.
Proof.
  intros W Hid Hl He. set (dir := objectDir _). set (name := shardFileName _).
  destruct (mkdir_create dir name d) as (d1 & d2 & H1 & H2 & H3 & H4).
  destruct (write_ok dir name [] b d2 H3) as (d3 & H5 & H6 & _).
  destruct (write_ok dir name b data d3 H6) as (d4 & H7 & H8 & _).
  set (rest := [wrapM "storage: write header" (fh_Write dir name b);
                wrapM "storage: write payload" (fh_Write dir name data);
                wrapM "storage: fsync shard" (fh_Sync dir name)]).
  exists rest, d2, d4. split_and!.
  - cbn [start_calls map call_steps]. unfold put_steps. rewrite He. cbn [write_steps app]. fold dir name.
    eapply rtc_l; [apply step_first; by apply check_put_passes|].
    eapply rtc_l; [apply step_first; apply wrapM_ok; exact H1|].
    apply rtc_once, step_first, wrapM_ok, H2.
  - apply steps_first. unfold rest. cbn [run_steps].
    do 2 (erewrite M_bind_ok by (apply wrapM_ok; eassumption)). done.
  - by apply (GetShard_whole d4 key h data b).
  - exact H4.
  - destruct decode_empty as (err & Hd & _). apply (bad_file_blocks d2 dir name). exists [], err.
    split; [exact H3|]. split; [apply shardFileName_suffix|exact Hd].
  - destruct decode_empty as (err & Hd & Hl'). exists (Wrapf "storage: decode header" err). split; [|exact Hl'].
    unfold GetShard, os_Open. change (env d2 _) with (@None fault). cbn match. fold dir name. rewrite H3.
    cbn [outcome]. destruct (decodeShardHeader (NewReader [])) as [r fh']. cbn [fst] in Hd. by rewrite Hd.
Qed.

(** * At work *)

(** A put of a shard of "a", a marker of "b", and the deletion of a shard that
    is not there, one system call each in turn. *)
Definition ex_calls : list disk_call :=
  [PutCall ex_key ex_header (bytes_of_string "hi"); WriteMarkerCall "b" (mkMeta 0 0 (mkParams 2 1));
   DeleteCall (mkKey "a" 0 1)].

Definition ex_pool : list writer * Disk :=
  run_disk (concat (replicate 7 [0; 1; 2]%nat)) (start_calls ex_calls, empty_disk).

Lemma ex_pool_done :
  (fun t => match t with Finished r => Some r | _ => None end) <$> ex_pool.1
  = [Some (OK tt); Some (OK tt); Some (Err ErrShardNotFound)].
Proof. vm_compute. reflexivity. Qed.

Lemma ex_calls_apart : NoDup (map call_file ex_calls).
Proof. apply (bool_decide_unpack _). vm_compute. exact Logic.I. Qed.

Lemma interleaved_calls_agree_witness :
  (run_call (PutCall ex_key ex_header (bytes_of_string "hi")) empty_disk).1 = OK tt /\
  (run_call (DeleteCall (mkKey "a" 0 1)) empty_disk).1 = Err ErrShardNotFound.
Proof.
  destruct (interleaved_calls_agree ex_calls empty_disk ex_pool.1 ex_pool.2 ltac:(done) ex_calls_apart)
    as (H & _).
  { rewrite <- surjective_pairing. apply run_disk_steps. }
  pose proof ex_pool_done as E.
  destruct (H 0%nat _ eq_refl) as (t & Ht & Hr). destruct (H 2%nat _ eq_refl) as (t' & Ht' & Hr').
  apply (f_equal (fun l => (l !! 0%nat, l !! 2%nat))) in E. rewrite !list_lookup_fmap, Ht, Ht' in E.
  destruct t as [|r], t' as [|r']; try discriminate E. injection E as -> ->.
  split; [apply (Hr _ eq_refl)|apply (Hr' _ eq_refl)].
Defined.

Lemma put_in_progress_blocks_store_witness :
  exists rest dw, rtc disk_step (start_calls [PutCall ex_key ex_header (bytes_of_string "hi")], empty_disk)
      ([Running rest], dw) /\
    exists err, GetObject (RS := XorRS) ex_store "b" (mkWorld ∅ dw) = (Err err, mkWorld ∅ dw).
Proof.
  destruct (put_in_progress_blocks_store ex_key ex_header (bytes_of_string "hi") _ empty_disk ex_header_wf
    eq_refl eq_refl eq_refl) as (rest & dw & d' & H1 & _ & _ & _ & H2 & _).
  exists rest, dw. split; [exact H1|]. apply (H2 XorRS ex_store "b"%string ∅).
Defined.
