(* ===== verification/FileRaces.v ===== *)
(** Calls of FileStore on one shard file at once (internal/storage/store.go,
    header.go). FileStore has no lock: every call opens the file by itself and
    then reads or writes through its own handle, at its own offset. Here the
    calls are programs of system calls on the file of one key, in a directory
    that exists and on a disk that does not fail. *)
From stdpp Require Import relations.
From S2P Require Import Prelude Binary Sha256 EC XorCodec Header ShardStore ObjectStore Contract FileNames FileStore FileRefine FileContract.

(** * One path *)

(** Removing a file leaves its contents to the handles that are open on it;
    creating it again makes new contents. [link] is what the name stands for. *)
Record path := mkPath { inodes : list bytes; link : option nat }.

Definition no_file : path := mkPath [] None.

(** os.Create: truncates what is there. *)
Definition path_Create (f : path) : nat * path :=
  match link f with
  | Some i => (i, mkPath (<[i := []]> (inodes f)) (Some i))
  | None => (length (inodes f), mkPath (inodes f ++ [[]]) (Some (length (inodes f))))
  end.

(** A write at an offset; a gap before it reads as zeros. *)
Definition write_at (c : bytes) (off : nat) (data : bytes) : bytes :=
  match data with
  | [] => c
  | _ => resize off x00 c ++ data ++ drop (off + length data) c
  end.

(** ** Programs of system calls, each with one file handle *)

Inductive fprog :=
  | FRet (r : response)
  | FCreate (k : fprog)
  | FWrite (data : bytes) (k : fprog)
  | FSync (k : fprog)
  | FOpen (k : bool -> fprog)
  | FRead (n : nat) (k : bytes -> fprog)
  | FRemove (k : bool -> fprog).

(** A call in flight: what its handle is open on, its offset, and what it has
    left to do. *)
Record proc := mkProc { p_inode : nat; p_off : nat; p_todo : fprog }.

Definition fstep (p : proc) (f : path) : option (proc * path) :=
  let '(mkProc i off todo) := p in
  match todo with
  | FRet _ => None
  | FCreate k => let '(i', f') := path_Create f in Some (mkProc i' 0 k, f')
  | FWrite data k =>
      Some (mkProc i (off + length data) k, mkPath (alter (fun c => write_at c off data) i (inodes f)) (link f))
  | FSync k => Some (mkProc i off k, f)
  | FOpen k =>
      match link f with
      | Some i' => Some (mkProc i' 0 (k true), f)
      | None => Some (mkProc i off (k false), f)
      end
  | FRead n k =>
      let b := take n (drop off (default [] (inodes f !! i))) in Some (mkProc i (off + length b) (k b), f)
  | FRemove k =>
      match link f with
      | Some _ => Some (mkProc i off (k true), mkPath (inodes f) None)
      | None => Some (mkProc i off (k false), f)
      end
  end.

(** Any call in flight makes its next system call. *)
Inductive race_step : list proc * path -> list proc * path -> Prop :=
  | race_step_at t ps f p p' f' :
      ps !! t = Some p -> fstep p f = Some (p', f') -> race_step (ps, f) (<[t := p']> ps, f').

(** A schedule: whose system call is next, and next. *)
Fixpoint run_race (ts : list nat) (c : list proc * path) : list proc * path :=
  match ts with
  | [] => c
  | t :: ts' =>
      match c.1 !! t ≫= fun p => fstep p c.2 with
      | Some (p', f') => run_race ts' (<[t := p']> c.1, f')
      | None => run_race ts' c
      end
  end.

Definition start_proc (p : fprog) : proc := mkProc 0 0 p.

(** * The calls *)

(** A computation that reads through the handle, given what to do with what it
    read. *)
Definition RM (A : Type) : Type := (result A -> fprog) -> fprog.
#[global] Instance RM_ret : MRet RM := fun A a k => k (OK a).
#[global] Instance RM_bind : MBind RM := fun A B f m k =>
  m (fun r => match r with OK a => f a k | Err err => k (Err err) | Panicked msg => k (Panicked msg) end).
Definition wrapR {A} (msg : string) (m : RM A) : RM A := fun k => m (fun r => k (wrap_err msg r)).
Definition throwR {A} (err : error) : RM A := fun k => k (Err err).

(** io.ReadFull on the file: reads until it has [n] bytes or the file ends. *)
Fixpoint read_fullF (fuel n : nat) (got : bytes) : RM bytes := fun k =>
  match fuel, n with
  | Datatypes.S fuel', Datatypes.S _ =>
      FRead n (fun b =>
        match b with
        | [] => k (Err (if bool_decide (got = []) then EOF else ErrUnexpectedEOF))
        | _ => read_fullF fuel' (n - length b) (got ++ b) k
        end)
  | _, _ => k (OK got)
  end.
Definition ReadFullF (n : nat) : RM bytes := read_fullF n n [].
Definition ReadUintF (n : nat) : RM Z := b ← ReadFullF n; mret (le_val b).

Definition decodeShardHeaderF : RM ShardHeader :=
  magic ← wrapR "storage: read magic" (ReadFullF 8);
  if bool_decide (magic <> shardMagic) then throwR (Errorf "storage: bad shard magic %q") else
  ver ← wrapR "storage: read version" (ReadUintF 2);
  if bool_decide (ver <> shardVer) then throwR (Errorf "storage: unsupported shard version %d") else
  objLen ← wrapR "storage: read object id length" (ReadUintF 2);
  objID ← wrapR "storage: read object id" (ReadFullF (Z.to_nat objLen));
  stripeIdx ← wrapR "storage: read header field" (ReadUintF 4);
  shardIdx ← wrapR "storage: read header field" (ReadUintF 4);
  k ← wrapR "storage: read header field" (ReadUintF 2);
  m ← wrapR "storage: read header field" (ReadUintF 2);
  stripeLen ← wrapR "storage: read length field" (ReadUintF 8);
  dataLen ← wrapR "storage: read length field" (ReadUintF 8);
  checksum ← wrapR "storage: read checksum" (ReadFullF 32);
  mret (mkHeader (string_of_bytes objID) stripeIdx shardIdx k m
          (i64 stripeLen) (i64 dataLen) checksum).

Section calls.
(** The buffers of io.ReadAll and io.Copy: the n-th read asks for at most
    [1 + sizes n] bytes. *)
Context (sizes : nat -> nat).

(** io.ReadAll(io.LimitReader(fh, rem)), and io.Copy from it. *)
Fixpoint read_limitedF (fuel i rem : nat) (got : bytes) : RM bytes := fun k =>
  match fuel, rem with
  | Datatypes.S fuel', Datatypes.S _ =>
      FRead (Nat.min (Datatypes.S (sizes i)) rem) (fun b =>
        match b with
        | [] => k (OK got)
        | _ => read_limitedF fuel' (Datatypes.S i) (rem - length b) (got ++ b) k
        end)
  | _, _ => k (OK got)
  end.
Definition ReadLimitedF (n : Z) : RM bytes := read_limitedF (Z.to_nat n) 0 (Z.to_nat n) [].

Definition PutShardF (key : ShardKey) (h : ShardHeader) (data : bytes) : fprog :=
  if bool_decide (k_ObjectID key <> h_ObjectID h) then
    FRet (RDone (Err (Errorf "storage: key/header object id mismatch")))
  else if negb (len data =? h_DataLen h) then
    FRet (RDone (Err (Errorf "storage: payload len %d != header DataLen %d")))
  else
    match encodeShardHeader (with_checksum h (Sum256 data)) with
    | OK hdrBytes => FCreate (FWrite hdrBytes (FWrite data (FSync (FRet (RDone (OK tt))))))
    | Err err => FRet (RDone (Err err))
    | Panicked msg => FRet (RDone (Panicked msg))
    end.

Definition GetShardF : fprog :=
  FOpen (fun found => if found then
    decodeShardHeaderF (fun r =>
      match outcome r with
      | inl err => FRet (RShard (None, emptyHeader, Some (Wrapf "storage: decode header" err)))
      | inr h =>
          ReadLimitedF (h_DataLen h) (fun r =>
            match outcome r with
            | inl err => FRet (RShard (None, emptyHeader, Some (Wrapf "storage: read payload" err)))
            | inr data =>
                FRet (RShard
                  (if negb (len data =? h_DataLen h) then
                     (None, emptyHeader, Some (Errorf "storage: short payload: got %d, want %d"))
                   else if bool_decide (Sum256 data <> h_Checksum h) then (None, h, Some ErrCorruptShard)
                   else (Some data, h, None)))
            end)
      end)
    else FRet (RShard (None, emptyHeader, Some ErrShardNotFound))).

Definition VerifyShardF : fprog :=
  FOpen (fun found => if found then
    decodeShardHeaderF (fun r =>
      match outcome r with
      | inl err => FRet (RHeader (emptyHeader, Some (Wrapf "storage: decode header" err)))
      | inr h =>
          ReadLimitedF (h_DataLen h) (fun r =>
            match outcome r with
            | inl err => FRet (RHeader (emptyHeader, Some (Wrapf "storage: hash payload" err)))
            | inr data =>
                FRet (RHeader (if bool_decide (Sum256 data <> h_Checksum h) then (h, Some ErrCorruptShard)
                               else (h, None)))
            end)
      end)
    else FRet (RHeader (emptyHeader, Some ErrShardNotFound))).

Definition DeleteShardF : fprog :=
  FRemove (fun found => FRet (RDone (if found then OK tt else Err ErrShardNotFound))).
End calls.

(** * Alone, the programs are the calls *)

(** A call with nobody else at work. *)
Fixpoint run_fprog (i off : nat) (p : fprog) (f : path) : response * path :=
  match p with
  | FRet r => (r, f)
  | FCreate k => let '(i', f') := path_Create f in run_fprog i' 0 k f'
  | FWrite data k =>
      run_fprog i (off + length data) k (mkPath (alter (fun c => write_at c off data) i (inodes f)) (link f))
  | FSync k => run_fprog i off k f
  | FOpen k =>
      match link f with
      | Some i' => run_fprog i' 0 (k true) f
      | None => run_fprog i off (k false) f
      end
  | FRead n k =>
      let b := take n (drop off (default [] (inodes f !! i))) in run_fprog i (off + length b) (k b) f
  | FRemove k =>
      match link f with
      | Some _ => run_fprog i off (k true) (mkPath (inodes f) None)
      | None => run_fprog i off (k false) f
      end
  end.

Lemma fstep_run p f p' f' : fstep p f = Some (p', f') ->
  run_fprog (p_inode p) (p_off p) (p_todo p) f = run_fprog (p_inode p') (p_off p') (p_todo p') f'.
Proof.
  destruct p as [i off [r|k|data k|k|k|n k|k]]; cbn; try (by intros [= <- <-]).
  - destruct (path_Create f) as [i' f1]. by intros [= <- <-].
  - destruct (link f); by intros [= <- <-].
  - destruct (link f); by intros [= <- <-].
Qed.

Section alone.
Context (sizes : nat -> nat).

(** Reading a file that does not change is reading its contents. *)
Definition reads_as {A} (m : RM A) (m0 : M Reader A) : Prop := forall i off f c, inodes f !! i = Some c ->
  exists off', (m0 (NewReader (drop off c))).2 = NewReader (drop off' c) /\
    forall k, run_fprog i off (m k) f = run_fprog i off' (k (m0 (NewReader (drop off c))).1) f.

Lemma reads_as_ret {A} (a : A) : reads_as (mret a) (mret a).
Proof. intros i off f c Hc. by exists off. Qed.

Lemma reads_as_throw {A} err : reads_as (throwR (A := A) err) (throw err).
Proof. intros i off f c Hc. by exists off. Qed.

Lemma reads_as_bind {A B} (m : RM A) (g : A -> RM B) m0 g0 :
  reads_as m m0 -> (forall a, reads_as (g a) (g0 a)) -> reads_as (m ≫= g) (m0 ≫= g0).
Proof.
  intros Hm Hg i off f c Hc. destruct (Hm i off f c Hc) as (off1 & E1 & H1).
  unfold mbind, M_bind, RM_bind. destruct (m0 (NewReader (drop off c))) as [[a|err|msg] rd]; cbn [fst snd] in *; subst rd.
  - destruct (Hg a i off1 f c Hc) as (off2 & E2 & H2). exists off2. split; [done|]. intros k. by rewrite H1, <- H2.
  - exists off1. split; [done|]. intros k. by rewrite H1.
  - exists off1. split; [done|]. intros k. by rewrite H1.
Qed.

Lemma reads_as_wrapR {A} msg (m : RM A) m0 : reads_as m m0 -> reads_as (wrapR msg m) (wrapM msg m0).
Proof.
  intros Hm i off f c Hc. destruct (Hm i off f c Hc) as (off1 & E1 & H1). exists off1. unfold wrapM, wrapR.
  destruct (m0 (NewReader (drop off c))) as [r rd]; cbn [fst snd] in *. split; [done|]. intros k. by rewrite H1.
Qed.

Lemma reads_as_if {A} (b : bool) (m1 m2 : RM A) n1 n2 : reads_as m1 n1 -> reads_as m2 n2 ->
  reads_as (if b then m1 else m2) (if b then n1 else n2).
Proof. by destruct b. Qed.

Lemma drop_past {A} n (l : list A) : (length l <= n)%nat -> drop n l = [].
Proof. intros H. apply length_zero_iff_nil. rewrite length_drop. lia. Qed.

Lemma reads_as_ReadFullF n : reads_as (ReadFullF n) (ReadFull n).
Proof.
  intros i off f c Hc. unfold ReadFullF, ReadFull, NewReader. cbn [pending final].
  set (rest := drop off c). destruct (Nat.leb_spec n (length rest)) as [Hn|Hn]; cbn [fst snd].
  - exists (off + n)%nat. split; [unfold rest; by rewrite drop_drop|]. intros k. destruct n as [|n]; [by rewrite Nat.add_0_r|].
    cbn [read_fullF run_fprog]. rewrite Hc. cbn [default from_option id]. fold rest.
    assert (length (take (S n) rest) = S n) as Hl by (rewrite length_take; lia).
    destruct (take (S n) rest) as [|x b] eqn:E; [done|]. cbn [length app] in *. rewrite Hl.
    replace (S n - S n)%nat with 0%nat by lia. by destruct n.
  - exists (off + length rest)%nat. split; [by rewrite drop_past by (unfold rest; rewrite length_drop; lia)|].
    intros k. destruct n as [|n]; [lia|]. cbn [read_fullF run_fprog]. rewrite Hc. cbn [default from_option id]. fold rest.
    rewrite (take_ge rest) by lia. rewrite (bool_decide_eq_true_2 (EOF = EOF)) by done.
    destruct rest as [|x b] eqn:E; [by rewrite (bool_decide_eq_true_2 ([] = [])) by done|].
    rewrite (bool_decide_eq_false_2 (x :: b = [])) by done. cbn [length] in *.
    destruct n as [|n]; [lia|]. replace (S (S n) - S (length b))%nat with (S (n - length b)) by lia.
    cbn [read_fullF run_fprog]. rewrite Hc. cbn [default from_option id].
    rewrite drop_past by (apply (f_equal length) in E; unfold rest in E; rewrite length_drop in E; cbn in E; lia).
    rewrite take_nil. cbn. by rewrite Nat.add_0_r.
Qed.

Create HintDb reads_as.
#[local] Hint Resolve reads_as_ret reads_as_throw reads_as_bind reads_as_wrapR reads_as_if reads_as_ReadFullF : reads_as.

Lemma reads_as_ReadUintF n : reads_as (ReadUintF n) (ReadUint n).
Proof. unfold ReadUintF, ReadUint. auto with reads_as. Qed.
#[local] Hint Resolve reads_as_ReadUintF : reads_as.

Lemma reads_as_decode : reads_as decodeShardHeaderF decodeShardHeader.
Proof. unfold decodeShardHeaderF, decodeShardHeader. auto 40 with reads_as. Qed.

(** Reading up to [rem] bytes of a file, in whatever pieces. *)
Lemma run_read_limited fuel : forall i0 i off f c rem got k, inodes f !! i = Some c -> (rem <= fuel)%nat ->
  exists off', run_fprog i off (read_limitedF sizes fuel i0 rem got k) f
    = run_fprog i off' (k (OK (got ++ take rem (drop off c)))) f.
Proof.
  induction fuel as [|fuel IH]; intros i0 i off f c rem got k Hc Hf.
  { assert (rem = 0%nat) as -> by lia. exists off. cbn. by rewrite take_0, app_nil_r. }
  destruct rem as [|rem]; [exists off; cbn; by rewrite app_nil_r|]. cbn [read_limitedF run_fprog].
  rewrite Hc. cbn [default from_option id]. set (n := Nat.min (S (sizes i0)) (S rem)).
  destruct (take n (drop off c)) as [|x b] eqn:E.
  - exists (off + 0)%nat. cbn [length].
    assert (drop off c = []) as -> by (destruct (drop off c); [done|unfold n in E; cbn in E; discriminate]).
    by rewrite take_nil, app_nil_r.
  - rewrite <- E. assert (length (take n (drop off c)) <= n)%nat as Hl by (rewrite length_take; lia).
    assert (0 < length (take n (drop off c)))%nat as Hpos by (rewrite E; cbn; lia).
    destruct (IH (S i0) i (off + length (take n (drop off c)))%nat f c (S rem - length (take n (drop off c)))%nat
      (got ++ take n (drop off c)) k Hc ltac:(lia)) as [off' H].
    exists off'. rewrite H, <- (assoc_L (++)), <- drop_drop. do 5 f_equal.
    rewrite length_take. set (l := drop off c) in *.
    destruct (Nat.le_ge_cases n (length l)) as [Hn|Hn].
    + rewrite Nat.min_l by lia. rewrite <- (take_drop n l) at 3. rewrite take_app, length_take, Nat.min_l by lia.
      rewrite (take_ge (take n l)) by (rewrite length_take; unfold n in *; lia). done.
    + rewrite Nat.min_r, drop_past, take_nil, app_nil_r by lia.
      rewrite !take_ge by (unfold n in *; lia). done.
Qed.

(** ** The calls on one shard *)

Inductive shard_call := SPut (h : ShardHeader) (data : bytes) | SGet | SVerify | SDelete.

Definition call_of (key : ShardKey) (c : shard_call) : call :=
  match c with SPut h data => CPut key h data | SGet => CGet key | SVerify => CVerify key | SDelete => CDelete key end.

Definition prog_of (key : ShardKey) (c : shard_call) : fprog :=
  match c with
  | SPut h data => PutShardF key h data
  | SGet => GetShardF sizes
  | SVerify => VerifyShardF sizes
  | SDelete => DeleteShardF
  end.

(** The path as a file of a disk, in a directory that exists. *)
Definition on_disk (f : path) (d : Disk) (dir name : string) : Prop :=
  is_Some (dirs d !! dir) /\ (forall i, link f = Some i -> is_Some (inodes f !! i)) /\
  file d dir name = link f ≫= fun i => inodes f !! i.

Lemma write_at_end c data : write_at c (length c) data = c ++ data.
Proof.
  unfold write_at. destruct data as [|x data]; [by rewrite app_nil_r|].
  by rewrite resize_all, drop_past, app_nil_r by lia.
Qed.

Lemma path_Create_spec f i f' : (forall i, link f = Some i -> is_Some (inodes f !! i)) -> path_Create f = (i, f') ->
  link f' = Some i /\ inodes f' !! i = Some [].
Proof.
  intros Hl. unfold path_Create. destruct (link f) as [j|] eqn:E; intros [= <- <-]; (split; [done|]); cbn.
  - apply list_lookup_insert_eq. by eapply lookup_lt_is_Some, Hl.
  - by rewrite lookup_app_r, Nat.sub_diag by done.
Qed.

Lemma file_dirs d dir name c : file d dir name = Some c -> is_Some (dirs d !! dir).
Proof. unfold file. destruct (dirs d !! dir); [by eexists|done]. Qed.

Lemma put_on_disk key h data f d dir name :
  dir = objectDir (k_ObjectID key) -> name = shardFileName key -> on_disk f d dir name ->
  exists f', run_fprog 0 0 (PutShardF key h data) f = (RDone (PutShard (ENV := no_faults) key h data d).1, f') /\
    on_disk f' (PutShard (ENV := no_faults) key h data d).2 dir name.
Proof.
  intros -> -> Hf. set (dir := objectDir _) in *. set (name := shardFileName _) in *.
  pose proof Hf as (Hdir & Hlink & Hfile). unfold PutShardF, PutShard. erewrite M_bind_ok by reflexivity.
  destruct (bool_decide _); [by exists f|]. destruct (negb _); [by exists f|]. cbv zeta. fold dir name.
  assert (os_MkdirAll (ENV := no_faults) dir d = (OK tt, d)) as Hmk.
  { unfold os_MkdirAll, sys, mbind, M_bind. cbn. destruct Hdir as [fs ->]. done. }
  erewrite M_bind_ok by (apply wrapM_ok; exact Hmk).
  destruct (encodeShardHeader _) as [b|err|msg]; [|by exists f..]. cbn [run_fprog].
  destruct (mkdir_create dir name d) as (d1 & d2 & H1 & H2 & H3 & _). rewrite Hmk in H1. injection H1 as <-.
  destruct (write_ok dir name [] b d2 H3) as (d3 & H4 & H5 & _).
  destruct (write_ok dir name _ data d3 H5) as (d4 & H6 & H7 & _).
  erewrite M_bind_ok by reflexivity. erewrite M_bind_ok by (apply wrapM_ok; exact H2).
  erewrite M_bind_ok by (apply wrapM_ok; exact H4). erewrite M_bind_ok by (apply wrapM_ok; exact H6).
  destruct (path_Create f) as [i f1] eqn:Ec. apply path_Create_spec in Ec as [El Ei]; [|done].
  eexists. split; [reflexivity|]. cbn [snd]. unfold wrapM, fh_Sync, sys. cbn. split; [by eapply file_dirs|].
  rewrite El. cbn. rewrite !list_lookup_alter_eq, Ei. cbn.
  assert (write_at [] 0 b = b) as -> by apply (write_at_end [] b). rewrite H7, write_at_end. split; [|done]. by intros j [= <-]; rewrite !list_lookup_alter_eq, Ei.
Qed.

Lemma open_on_disk f d dir name : on_disk f d dir name ->
  match link f with
  | Some i => exists c, inodes f !! i = Some c /\ os_Open (ENV := no_faults) d dir name = OK (NewReader c)
  | None => os_Open (ENV := no_faults) d dir name = Err errNotExist
  end.
Proof.
  intros (_ & Hl & Hf). unfold os_Open. change (@env no_faults d _) with (@None fault). cbn match. rewrite Hf.
  destruct (link f) as [i|]; [|done]. destruct (Hl i eq_refl) as [c Hc]. exists c. cbn. by rewrite Hc.
Qed.

Lemma run_ReadLimited n i off f c k : inodes f !! i = Some c ->
  exists off', run_fprog i off (ReadLimitedF sizes n k) f = run_fprog i off' (k (read_limited n (NewReader (drop off c)))) f.
Proof.
  intros Hc. destruct (run_read_limited (Z.to_nat n) 0 i off f c (Z.to_nat n) [] k Hc ltac:(lia)) as [off' H].
  exists off'. unfold ReadLimitedF. rewrite H. do 2 f_equal. unfold read_limited, NewReader. cbn [pending final app].
  destruct (Z.leb_spec n (len (drop off c))) as [Hn|Hn]; [done|].
  rewrite (bool_decide_eq_true_2 (EOF = EOF)) by done. rewrite take_ge by (unfold len in Hn; lia). done.
Qed.

Lemma remove_dirs dir name d : is_Some (dirs d !! dir) -> is_Some (dirs (os_Remove (ENV := no_faults) dir name d).2 !! dir).
Proof.
  intros H. unfold os_Remove, sys, mbind, M_bind. cbn. destruct (file d dir name); [|done]. cbn. by rewrite lookup_alter_is_Some.
Qed.

(** The programs are the calls of FileStore. *)
Lemma programs_are_calls key c f d : on_disk f d (objectDir (k_ObjectID key)) (shardFileName key) ->
  exists f', run_fprog 0 0 (prog_of key c) f
      = ((do_call (SS := @FileStore_ShardStore no_faults) (call_of key c) d).1, f') /\
    on_disk f' (do_call (SS := @FileStore_ShardStore no_faults) (call_of key c) d).2
      (objectDir (k_ObjectID key)) (shardFileName key).
Proof.
  intros Hf. pose proof (open_on_disk _ _ _ _ Hf) as Ho.
  destruct c as [h data| | |]; cbn [prog_of call_of do_call fst snd ss_PutShard ss_GetShard ss_VerifyShard ss_DeleteShard FileStore_ShardStore].
  - by apply put_on_disk.
  - exists f. split; [|done]. unfold GetShardF, GetShard. cbn [run_fprog]. destruct (link f) as [i|].
    2: { by rewrite Ho. }
    destruct Ho as (c & Hc & ->). cbn [outcome]. destruct (reads_as_decode i 0%nat f c Hc) as (off' & E & H).
    rewrite H. rewrite drop_0 in *. destruct (decodeShardHeader (NewReader c)) as [[h|err|msg] rd]; cbn [fst snd outcome] in *; [|done..].
    subst rd. match goal with |- context [ReadLimitedF sizes _ ?k] =>
      destruct (run_ReadLimited (h_DataLen h) i off' f c k Hc) as [off2 ->] end.
    cbn [run_fprog]. by destruct (outcome _).
  - exists f. split; [|done]. unfold VerifyShardF, VerifyShard. cbn [run_fprog]. destruct (link f) as [i|].
    2: { by rewrite Ho. }
    destruct Ho as (c & Hc & ->). cbn [outcome]. destruct (reads_as_decode i 0%nat f c Hc) as (off' & E & H).
    rewrite H. rewrite drop_0 in *. destruct (decodeShardHeader (NewReader c)) as [[h|err|msg] rd]; cbn [fst snd outcome] in *; [|done..].
    subst rd. match goal with |- context [ReadLimitedF sizes _ ?k] =>
      destruct (run_ReadLimited (h_DataLen h) i off' f c k Hc) as [off2 ->] end.
    cbn [run_fprog]. by destruct (outcome _).
  - unfold DeleteShardF, DeleteShard, map_err. cbn [run_fprog].
    pose proof (remove_dirs (objectDir (k_ObjectID key)) (shardFileName key) d (proj1 Hf)) as Hd.
    destruct (remove_spec (objectDir (k_ObjectID key)) (shardFileName key) d) as (d' & E & H1 & H2).
    rewrite E in Hd |- *. destruct Hf as (Hdir & Hl & Hfile). rewrite Hfile. destruct (link f) as [i|] eqn:El.
    + destruct (Hl i eq_refl) as [c Hc]. cbn [mbind option_bind]. rewrite Hc. eexists. split; [reflexivity|].
      split; [exact Hd|]. by split.
    + eexists. split; [reflexivity|]. split; [exact Hd|]. rewrite El. by split.
Qed.
End alone.

(** * Calls at once *)

Section races.
Context (sizes : nat -> nat) (key : ShardKey).

(** The shards that were or will be put under the key: [b] is the header of one
    of them, with its checksum, and [data] its payload. *)
Context (all : list (ShardHeader * bytes)).

Definition is_put (b data : bytes) : Prop :=
  exists h, (h, data) ∈ all /\ h_ObjectID h = k_ObjectID key /\
    encodeShardHeader (with_checksum h (Sum256 data)) = OK b.

Definition id_len : nat := length (bytes_of_string (k_ObjectID key)).
Definition header_len : nat := 72 + id_len.

Abbreviation zeros n := (replicate n x00).

Lemma is_put_parts b data : is_put b data ->
  exists fields, b = shardMagic ++ le_bytes 2 shardVer ++ le_bytes 2 (Z.of_nat id_len) ++ fields ++ Sum256 data /\
    length fields = (id_len + 28)%nat /\ Z.of_nat id_len < 65536.
Proof.
  intros (h & _ & Hid & He). apply encode_header_inv in He as (-> & Hl & _). unfold header_bytes.
  cbn [h_ObjectID with_checksum h_Checksum h_StripeIdx h_ShardIdx h_DataShards h_ParityShards h_StripeLen h_DataLen] in *.
  rewrite Hid in *. change (len (bytes_of_string (k_ObjectID key))) with (Z.of_nat id_len) in *.
  exists (bytes_of_string (k_ObjectID key) ++ le_bytes 4 (h_StripeIdx h) ++ le_bytes 4 (h_ShardIdx h) ++
    le_bytes 2 (h_DataShards h) ++ le_bytes 2 (h_ParityShards h) ++ le_bytes 8 (u64 (h_StripeLen h)) ++ le_bytes 8 (u64 (h_DataLen h))).
  split; [|split; [|lia]].
  - rewrite wrapU_id by (unfold inU; lia). by rewrite <- !app_assoc.
  - rewrite !length_app, !length_le_bytes. unfold id_len. lia.
Qed.

Lemma is_put_length b data : is_put b data -> length b = header_len.
Proof.
  intros (fields & -> & Hf & _)%is_put_parts. rewrite !length_app, !length_le_bytes, Hf, length_Sum256.
  unfold header_len. change (length shardMagic) with 8%nat. lia.
Qed.

(** What a file may hold: nothing, or a header of [header_len] bytes that one of
    the puts wrote at once, or a gap in its place, left by a put whose file was
    created again before it wrote its payload. *)
Definition content_ok (c : bytes) : Prop :=
  c = [] \/ (header_len <= length c)%nat /\
    (take header_len c = zeros header_len \/ exists data, is_put (take header_len c) data).

Lemma content_write_header c b data : is_put b data -> content_ok (write_at c 0 b).
Proof.
  intros Hb. pose proof (is_put_length _ _ Hb) as Hl. unfold write_at. destruct b as [|x b]; [by unfold header_len in Hl; cbn in Hl|].
  rewrite resize_0. cbn [app Nat.add]. set (y := x :: b) in *. change (x :: ?l) with ([x] ++ l).
  right. replace ([x] ++ b ++ drop (length y) c) with (y ++ drop (length y) c) by done.
  split; [rewrite length_app; lia|]. right. exists data. by rewrite take_app_length' by done.
Qed.

Lemma content_write_payload c data : content_ok c -> content_ok (write_at c header_len data).
Proof.
  intros Hc. unfold write_at. destruct data as [|x data]; [done|]. right.
  assert (length (resize header_len x00 c) = header_len) as Hl by apply length_resize.
  split; [rewrite length_app; lia|]. rewrite take_app_length' by done.
  destruct Hc as [->|[Hlen [Hz|Hp]]].
  - left. by rewrite resize_nil.
  - left. by rewrite resize_le.
  - right. by rewrite resize_le.
Qed.

(** Bytes a read can find in the place of the header. *)
Definition window (off n : nat) (b : bytes) : Prop :=
  b = zeros n \/ exists hb data, is_put hb data /\ b = take n (drop off hb).

Lemma window_of_content c off n : content_ok c -> (off + n <= header_len)%nat ->
  take n (drop off c) = [] \/ window off n (take n (drop off c)) /\ length (take n (drop off c)) = n.
Proof.
  intros [->|[Hl Hc]] Hn; [left; by rewrite drop_nil, take_nil|]. right.
  assert (take n (drop off c) = take n (drop off (take header_len c))) as ->.
  { rewrite !take_drop_commute, take_take. do 2 f_equal. lia. }
  split; [|rewrite length_take, length_drop, length_take; lia].
  destruct Hc as [->|[data Hd]]; [left|right; by exists (take header_len c), data].
  rewrite drop_replicate, take_replicate. f_equal. lia.
Qed.

(** ** What a call may answer *)

(** A checksum that is not one of a payload: read from a gap, or from the wrong
    place because the length of the object id was read from a gap. *)
Definition torn_checksum (x : bytes) : Prop :=
  x = zeros 32 \/ exists hb data, is_put hb data /\ x = take 32 (drop 40 hb).

Definition checksum_ok (x : bytes) : Prop :=
  (exists hb data, is_put hb data /\ x = Sum256 data) \/ torn_checksum x.

Definition good (r : response) : Prop :=
  match r with
  | RShard (Some data, h, None) => checksum_ok (Sum256 data) /\ len data = h_DataLen h
  | _ => True
  end.

(** A program that writes headers at the start of a file and payloads behind
    them, and answers well whatever it reads of contents like these. *)
Fixpoint sound (off : nat) (p : fprog) : Prop :=
  match p with
  | FRet r => good r
  | FCreate k => sound 0 k
  | FWrite data k => (off = 0%nat /\ (exists x, is_put data x) \/ off = header_len) /\ sound (off + length data) k
  | FSync k => sound off k
  | FOpen k => forall found, sound 0 (k found) /\ sound off (k found)
  | FRead n k => forall c, content_ok c -> sound (off + length (take n (drop off c))) (k (take n (drop off c)))
  | FRemove k => forall found, sound off (k found)
  end.

(** The rule for computations that read: any error, or a value in [Q]. *)
Definition reads {A} (off : nat) (m : RM A) (Q : A -> nat -> Prop) : Prop := forall k,
  (forall a off', Q a off' -> sound off' (k (OK a))) -> (forall err off', sound off' (k (Err err))) ->
  sound off (m k).

Lemma reads_ret {A} off (a : A) (Q : A -> nat -> Prop) : Q a off -> reads off (mret a) Q.
Proof. intros HQ k Hk _. by apply Hk. Qed.

Lemma reads_throw {A} off err (Q : A -> nat -> Prop) : reads off (throwR err) Q.
Proof. intros k _ He. apply He. Qed.

Lemma reads_bind {A B} off (m : RM A) (f : A -> RM B) Q Q' :
  reads off m Q -> (forall a off', Q a off' -> reads off' (f a) Q') -> reads off (m ≫= f) Q'.
Proof. intros Hm Hf k Hk He. apply Hm; [|done]. intros a off' Ha. by apply (Hf a off' Ha). Qed.

Lemma reads_wrapR {A} off msg (m : RM A) Q : reads off m Q -> reads off (wrapR msg m) Q.
Proof. intros Hm k Hk He. apply Hm; [done|]. intros err off'. apply He. Qed.

Lemma reads_weaken {A} off (m : RM A) (Q Q' : A -> nat -> Prop) : reads off m Q ->
  (forall a off', Q a off' -> Q' a off') -> reads off m Q'.
Proof. intros Hm HQ k Hk He. apply Hm; auto. Qed.

Lemma reads_ReadFull off n : (off + n <= header_len)%nat ->
  reads off (ReadFullF n) (fun b off' => off' = (off + n)%nat /\ window off n b).
Proof.
  intros Hn k Hk He. unfold ReadFullF. destruct n as [|n].
  { cbn. apply Hk. split; [lia|]. by left. }
  cbn [read_fullF sound]. intros c Hc. destruct (window_of_content c off (S n) Hc Hn) as [->|[Hw Hl]]; [apply He|].
  rewrite Hl. destruct (take (S n) (drop off c)) as [|x b]; [done|].
  rewrite Nat.sub_diag. cbn [app]. destruct n; apply Hk; (split; [done|exact Hw]).
Qed.

Lemma reads_ReadUint off n : (off + n <= header_len)%nat ->
  reads off (ReadUintF n) (fun z off' => off' = (off + n)%nat /\ exists b, window off n b /\ z = le_val b).
Proof.
  intros Hn. eapply reads_bind; [by apply reads_ReadFull|]. intros b off' [-> Hb]. apply reads_ret. eauto.
Qed.

#[local] Hint Resolve reads_ReadFull reads_ReadUint : core.

(** The length of the object id: right, or zero from a gap. *)
Lemma window_id_len b : window 10 2 b -> le_val b = 0 \/ le_val b = Z.of_nat id_len.
Proof.
  intros [->|(hb & data & Hp & ->)]; [by left|right].
  apply is_put_parts in Hp as (fields & -> & _ & Hl). rewrite (assoc_L (++) shardMagic).
  rewrite drop_app_length' by (by rewrite length_app, length_le_bytes).
  rewrite take_app_length' by (by rewrite length_le_bytes). rewrite le_val_le_bytes.
  change (256 ^ Z.of_nat 2) with 65536. apply Z.mod_small. lia.
Qed.

Lemma window_checksum off x : off = (header_len - 32)%nat \/ off = 40%nat -> window off 32 x -> checksum_ok x.
Proof.
  intros Hoff [->|(hb & data & Hp & ->)]; [right; by left|]. destruct Hoff as [->| ->].
  - left. exists hb, data. split; [done|]. pose proof (is_put_length _ _ Hp) as Hl.
    apply is_put_parts in Hp as (fields & -> & Hf & _).
    rewrite !(assoc_L (++)), drop_app_length'; [by rewrite take_ge by (by rewrite length_Sum256)|].
    rewrite !length_app, !length_le_bytes, Hf. unfold header_len. change (length shardMagic) with 8%nat. lia.
  - right. right. by exists hb, data.
Qed.

Lemma reads_decode : reads 0 decodeShardHeaderF (fun h _ => checksum_ok (h_Checksum h)).
Proof.
  assert (header_len = 72 + id_len)%nat as HL by done.
  unfold decodeShardHeaderF.
  eapply reads_bind; [apply reads_wrapR, reads_ReadFull; lia|]. intros magic off [-> _].
  case_bool_decide; [apply reads_throw|].
  eapply reads_bind; [apply reads_wrapR, reads_ReadUint; lia|]. intros ver off [-> _].
  case_bool_decide; [apply reads_throw|].
  eapply reads_bind; [apply reads_wrapR, reads_ReadUint; lia|]. intros n off [-> (b & Hb & ->)].
  apply window_id_len in Hb. assert (Z.to_nat (le_val b) = 0 \/ Z.to_nat (le_val b) = id_len)%nat as Hn by lia.
  set (n := Z.to_nat (le_val b)) in *.
  eapply reads_bind; [apply reads_wrapR, reads_ReadFull; lia|]. intros objID off [-> _].
  do 6 (eapply reads_bind; [apply reads_wrapR, reads_ReadUint; lia|]; intros ? ? [-> _]).
  eapply reads_bind; [apply reads_wrapR, reads_ReadFull; lia|]. intros ck off [-> Hck].
  apply reads_ret. cbn. eapply window_checksum; [|exact Hck]. lia.
Qed.

Lemma reads_limited fuel : forall i rem got off, reads off (read_limitedF sizes fuel i rem got) (fun _ _ => True).
Proof.
  induction fuel as [|fuel IH]; intros i rem got off k Hk He; [by apply Hk|]. cbn [read_limitedF].
  destruct rem as [|rem]; [by apply Hk|]. intros c Hc. destruct (take _ _) as [|x b]; [by apply Hk|]. by apply IH.
Qed.

(** ** The calls are sound *)

Definition put_listed (c : shard_call) : Prop :=
  match c with SPut h data => (h, data) ∈ all | _ => True end.

Lemma sound_get : sound 0 (GetShardF sizes).
Proof.
  intros [|]; [|done].
  assert (forall k, (forall a off', checksum_ok (h_Checksum a) -> sound off' (k (OK a))) ->
    (forall err off', sound off' (k (Err err))) -> sound 0 (decodeShardHeaderF k)) as Hd by (intros k Hk; by apply reads_decode).
  split; apply Hd; try done; intros h off Hh; (apply reads_limited; [|done]); intros data off' _; cbn;
    (destruct (Z.eqb_spec (len data) (h_DataLen h)); [|done]); cbn; (case_bool_decide as Hs; [done|]); cbn;
    (split; [|done]); (destruct (decide (Sum256 data = h_Checksum h)) as [->|]; [done|by destruct Hs]).
Qed.

Lemma sound_verify : sound 0 (VerifyShardF sizes).
Proof.
  intros [|]; [|done]. split; apply reads_decode; try done; intros h off Hh; by apply reads_limited.
Qed.

Lemma sound_prog c : put_listed c -> sound 0 (prog_of sizes key c).
Proof.
  destruct c as [h data| | |]; cbn [put_listed prog_of]; intros Hc; [|apply sound_get|apply sound_verify|by intros []].
  unfold PutShardF. case_bool_decide as Hid; [done|]. destruct (negb _); [done|].
  destruct (encodeShardHeader _) as [b|err|msg] eqn:He; [|done..].
  assert (is_put b data) as Hp.
  { exists h. split; [done|]. split; [|done]. destruct (decide (k_ObjectID key = h_ObjectID h)); [done|by destruct Hid]. }
  cbn. split; [left; split; [done|by exists data]|]. split; [right; by apply is_put_length in Hp|done].
Qed.

(** ** Any interleaving *)

Definition race_inv (c : list proc * path) : Prop :=
  Forall (fun p => sound (p_off p) (p_todo p)) c.1 /\ Forall content_ok (inodes c.2).

Lemma contents_lookup f i : Forall content_ok (inodes f) -> content_ok (default [] (inodes f !! i)).
Proof. intros Hf. destruct (inodes f !! i) eqn:E; [by eapply Forall_lookup_1|by left]. Qed.

Lemma fstep_inv p f p' f' : fstep p f = Some (p', f') -> sound (p_off p) (p_todo p) -> Forall content_ok (inodes f) ->
  sound (p_off p') (p_todo p') /\ Forall content_ok (inodes f').
Proof.
  destruct p as [i off [r|k|data k|k|k|n k|k]]; cbn [fstep p_off p_todo sound]; intros Hs Hp Hf.
  - done.
  - destruct (path_Create f) as [i' f1] eqn:Ec. injection Hs as <- <-. split; [done|].
    unfold path_Create in Ec. destruct (link f); injection Ec as <- <-; cbn.
    + apply Forall_insert; [done|by left].
    + apply Forall_app. split; [done|]. apply Forall_singleton. by left.
  - injection Hs as <- <-. destruct Hp as [Hw Hk]. split; [done|]. cbn. apply Forall_alter; [done|].
    intros c _ Hc. destruct Hw as [[-> [x Hx]]| ->]; [by eapply content_write_header|by apply content_write_payload].
  - by injection Hs as <- <-.
  - destruct (link f); injection Hs as <- <-; (split; [apply Hp|done]).
  - injection Hs as <- <-. split; [by apply Hp, contents_lookup|done].
  - destruct (link f); injection Hs as <- <-; (split; [apply Hp|done]).
Qed.

Lemma race_inv_step c c' : race_step c c' -> race_inv c -> race_inv c'.
Proof.
  intros [t ps f p p' f' Ht Hs] [Hps Hf]. cbn [fst snd] in *.
  destruct (fstep_inv p f p' f' Hs (Forall_lookup_1 _ _ _ _ Hps Ht) Hf) as [H1 H2].
  split; [by apply Forall_insert|done].
Qed.
End races.

(** * What races do and do not do *)

(** The puts among some calls. *)
Definition puts_of (calls : list shard_call) : list (ShardHeader * bytes) :=
  omap (fun c => match c with SPut h data => Some (h, data) | _ => None end) calls.

(** A path without a file, or with the file of a put that is over. *)
Definition path_after (earlier : option (ShardHeader * bytes)) : path :=
  match earlier with
  | Some (h, data) =>
      match encodeShardHeader (with_checksum h (Sum256 data)) with
      | OK b => mkPath [b ++ data] (Some 0%nat)
      | _ => no_file
      end
  | None => no_file
  end.

Definition puts_to (earlier : option (ShardHeader * bytes)) (calls : list shard_call) : list (ShardHeader * bytes) :=
  option_list earlier ++ puts_of calls.

Lemma puts_of_listed earlier calls c : c ∈ calls -> put_listed (puts_to earlier calls) c.
Proof.
  destruct c as [h data| | |]; [|done..]. intros Hc. apply elem_of_app. right.
  apply list_elem_of_omap. by exists (SPut h data).
Qed.

Lemma race_inv_start sizes key earlier calls :
  (forall x, earlier = Some x -> h_ObjectID x.1 = k_ObjectID key) ->
  race_inv key (puts_to earlier calls) (map (fun c => start_proc (prog_of sizes key c)) calls, path_after earlier).
Proof.
  intros He. split; cbn [fst snd].
  - apply Forall_fmap, Forall_forall. intros c Hc. cbn. by apply sound_prog, puts_of_listed.
  - destruct earlier as [[h data]|]; [|constructor]. cbn. destruct (encodeShardHeader _) as [b|err|msg] eqn:Hb; [|constructor..].
    assert (is_put key (puts_to (Some (h, data)) calls) b data) as Hp.
    { exists h. split; [by left|]. split; [by apply (He (h, data))|done]. }
    pose proof (is_put_length _ _ _ _ Hp) as Hl. apply Forall_singleton. right. split; [rewrite length_app; lia|].
    right. exists data. by rewrite take_app_length' by done.
Qed.

(** C14. GetShard returns no mixture, whoever else is at work. However the system
    calls of any GetShard, VerifyShard, PutShard and DeleteShard calls on one
    file of a FileStore interleave (no lock is held and every read may see
    another version of the file, also between two fields of a header): a payload
    that a GetShard returns without an error has the length its header says
    and is the payload of one of the puts or of the file that was there, up to
    the strength of SHA-256. (A different payload would need the checksum of
    one of these, or a checksum of 32 bytes read from a gap or from other
    fields of a header.) *)
Theorem racing_get_integrity sizes key earlier calls ps f t data h :
  (forall x, earlier = Some x -> h_ObjectID x.1 = k_ObjectID key) ->
  rtc race_step (map (fun c => start_proc (prog_of sizes key c)) calls, path_after earlier) (ps, f) ->
  p_todo <$> ps !! t = Some (FRet (RShard (Some data, h, None))) ->
  len data = h_DataLen h /\
  ((exists h' data', (h', data') ∈ puts_to earlier calls /\ Sum256 data = Sum256 data') \/
   torn_checksum key (puts_to earlier calls) (Sum256 data)).
Proof.
  intros He Hr Ht. pose proof (race_inv_start sizes key earlier calls He) as H0.
  assert (race_inv key (puts_to earlier calls) (ps, f)) as [Hps _].
  { revert H0. induction Hr; eauto using race_inv_step. }
  apply fmap_Some in Ht as (p & Ht & Hp). apply (Forall_lookup_1 _ _ _ _ Hps) in Ht. rewrite <- Hp in Ht.
  destruct Ht as [Hck Hl]. split; [exact Hl|]. destruct Hck as [(hb & data' & (h' & Hin & _) & ->)|Hck]; [left|by right].
  by exists h', data'.
Qed.

Lemma run_race_steps ts : forall c, rtc race_step c (run_race ts c).
Proof.
  induction ts as [|t ts IH]; intros c; [apply rtc_refl|]. cbn [run_race].
  destruct (c.1 !! t ≫= _) as [[p' f']|] eqn:E; [|apply IH].
  apply bind_Some in E as (p & Ht & Hs). eapply rtc_l; [|apply IH].
  destruct c as [ps f]. by eapply race_step_at.
Qed.

(** But the put that returns nil last may not be the one that is stored, nor any
    other: of two puts to one key, both can return nil and leave the header of
    one with the payload of the other, which every later GetShard reports as
    corrupt. *)
Theorem racing_puts_corrupt sizes key h1 h2 data1 data2 b1 b2 :
  h_ObjectID h1 = k_ObjectID key -> h_ObjectID h2 = k_ObjectID key ->
  len data1 = h_DataLen h1 -> len data2 = h_DataLen h2 -> length data1 = length data2 -> header_wf h2 ->
  encodeShardHeader (with_checksum h1 (Sum256 data1)) = OK b1 ->
  encodeShardHeader (with_checksum h2 (Sum256 data2)) = OK b2 ->
  Sum256 data1 <> Sum256 data2 ->
  exists ps f, rtc race_step (map (fun c => start_proc (prog_of sizes key c)) [SPut h1 data1; SPut h2 data2], no_file) (ps, f) /\
    map p_todo ps = [FRet (RDone (OK tt)); FRet (RDone (OK tt))] /\
    run_fprog 0 0 (GetShardF sizes) f = (RShard (None, with_checksum h2 (Sum256 data2), Some ErrCorruptShard), f).
Proof.
  intros Hid1 Hid2 Hl1 Hl2 Hlen Hwf He1 He2 Hsum.
  pose (all := [(h1, data1); (h2, data2)]).
  assert (is_put key all b1 data1) as Hp1 by (exists h1; split; [by left|done]).
  assert (is_put key all b2 data2) as Hp2 by (exists h2; split; [by right; left|done]).
  apply is_put_length in Hp1, Hp2. assert (length b1 = length b2) as Hb by congruence.
  pose (c := run_race [0; 0; 1; 1; 1; 0; 0; 1]%nat
    (map (fun c => start_proc (prog_of sizes key c)) [SPut h1 data1; SPut h2 data2], no_file)).
  assert (c = ([mkProc 0 (length b1 + length data1) (FRet (RDone (OK tt)));
    mkProc 0 (length b2 + length data2) (FRet (RDone (OK tt)))], mkPath [b2 ++ data1] (Some 0%nat))) as Ec.
  { unfold c. cbn [map prog_of start_proc]. unfold PutShardF.
    rewrite !bool_decide_eq_false_2 by congruence. rewrite Hl1, Hl2, !Z.eqb_refl. cbn [negb]. rewrite He1, He2. cbn.
    assert (write_at [] 0 b2 = b2) as -> by apply (write_at_end [] b2). rewrite write_at_end. do 3 f_equal.
    unfold write_at. destruct data1 as [|x data1]; [by destruct data2|].
    rewrite Hb, resize_app by done. rewrite drop_past by (rewrite length_app; lia). by rewrite app_nil_r. }
  exists c.1, c.2. split; [rewrite <- surjective_pairing; apply run_race_steps|]. rewrite Ec. split; [done|].
  unfold GetShardF. cbn [run_fprog link snd].
  destruct (reads_as_decode 0%nat 0%nat (mkPath [b2 ++ data1] (Some 0%nat)) (b2 ++ data1) eq_refl) as (off & E & H).
  rewrite H. rewrite drop_0 in *. unfold NewReader in E |- *.
  rewrite (decode_encoded _ data1 EOF b2 (with_checksum_wf h2 data2 Hwf) He2) in E |- *. cbn [fst snd outcome] in *.
  match goal with |- context [ReadLimitedF sizes ?n ?k] =>
    destruct (run_ReadLimited sizes n 0%nat off (mkPath [b2 ++ data1] (Some 0%nat)) (b2 ++ data1) k eq_refl) as [off2 ->] end.
  unfold NewReader. rewrite <- E. unfold read_limited. cbn [pending h_DataLen h_Checksum with_checksum]. rewrite <- Hl2.
  replace (len data2) with (len data1) by (unfold len; lia). rewrite Z.leb_refl. cbn [outcome run_fprog].
  rewrite take_ge by (unfold len; lia). rewrite Z.eqb_refl. cbn [negb]. by rewrite bool_decide_eq_true_2.
Qed.

(** * At work *)

(** GetShard opens the file of an earlier put, which another put replaces
    before GetShard reads it. *)
Definition ex_race : list proc * path :=
  run_race (1 :: replicate 4 0 ++ replicate 20 1)%nat
    (map (fun c => start_proc (prog_of (fun _ => 0%nat) ex_key c)) [SPut ex_header (bytes_of_string "hi"); SGet],
     path_after (Some (ex_header, bytes_of_string "yo"))).

Lemma ex_race_answer : p_todo <$> ex_race.1 !! 1%nat
  = Some (FRet (RShard (Some (bytes_of_string "hi"), with_checksum ex_header (Sum256 (bytes_of_string "hi")), None))).
Proof. vm_compute. reflexivity. Qed.

Lemma racing_get_integrity_witness :
  len (bytes_of_string "hi") = h_DataLen ex_header /\
  ((exists h' data', (h', data') ∈ [(ex_header, bytes_of_string "yo"); (ex_header, bytes_of_string "hi")] /\
      Sum256 (bytes_of_string "hi") = Sum256 data') \/
   torn_checksum ex_key [(ex_header, bytes_of_string "yo"); (ex_header, bytes_of_string "hi")] (Sum256 (bytes_of_string "hi"))).
Proof.
  refine (racing_get_integrity (fun _ => 0%nat) ex_key (Some (ex_header, bytes_of_string "yo"))
    [SPut ex_header (bytes_of_string "hi"); SGet] ex_race.1 ex_race.2 1%nat (bytes_of_string "hi")
    (with_checksum ex_header (Sum256 (bytes_of_string "hi"))) _ _ ex_race_answer).
  - by intros x [= <-].
  - rewrite <- surjective_pairing. apply run_race_steps.
Defined.

Lemma racing_puts_corrupt_witness : exists ps f h,
  rtc race_step (map (fun c => start_proc (prog_of (fun _ => 0%nat) ex_key c))
    [SPut ex_header (bytes_of_string "hi"); SPut ex_header (bytes_of_string "yo")], no_file) (ps, f) /\
  map p_todo ps = [FRet (RDone (OK tt)); FRet (RDone (OK tt))] /\
  run_fprog 0 0 (GetShardF (fun _ => 0%nat)) f = (RShard (None, h, Some ErrCorruptShard), f).
Proof.
  destruct (racing_puts_corrupt (fun _ => 0%nat) ex_key ex_header ex_header (bytes_of_string "hi") (bytes_of_string "yo") _ _
    eq_refl eq_refl eq_refl eq_refl eq_refl ex_header_wf eq_refl eq_refl) as (ps & f & H1 & H2 & H3).
  - intros H. vm_compute in H. discriminate.
  - by eexists ps, f, _.
Defined.
