(* ===== verification/HeaderRot.v ===== *)
(** Damage to a shard's header. The checksum covers the payload only, so a
    store returns a shard with a changed header as valid; loadStripe takes the
    length of a stripe from the header of the last valid shard. *)
From S2P Require Import Prelude Binary Sha256 EC XorCodec Header ShardStore MemStore ObjectStore ObjectWrite ObjectRead ObjectSpec Contract.

Definition with_stripeLen (h : ShardHeader) (n : Z) : ShardHeader :=
  mkHeader (h_ObjectID h) (h_StripeIdx h) (h_ShardIdx h) (h_DataShards h) (h_ParityShards h)
    n (h_DataLen h) (h_Checksum h).

(** The StripeLen of the shard under [key] reads as [n]. *)
Definition rot_stripeLen (m : MemStore) (key : ShardKey) (n : Z) : MemStore :=
  mkMemStore (alter (fun s => mkMemShard (with_stripeLen (ms_h s) n) (ms_data s)) key (shards m)) (markers m).

(** No read or verification of a shard notices. *)
Lemma rot_undetected m key n k : (VerifyShard (rot_stripeLen m key n) k).2 = (VerifyShard m k).2.
Proof.
  unfold VerifyShard, rot_stripeLen. cbn [shards]. destruct (decide (key = k)) as [->|].
  - rewrite lookup_alter_eq. destruct (shards m !! k) as [x|]; [|done]. cbn. by case_bool_decide.
  - by rewrite lookup_alter_ne.
Qed.

Section rot.
Context {RS : ReedSolomon} (o : ObjectStore) {e : rs_enc} {parity : list bytes -> list bytes}.
Context {LAWS : RSLaws RS (toECParams (params o)) e parity}.
Context (Hp : params_ok (toECParams (params o))) (Hss : 0 < stripeSize o).

Abbreviation C stripe := (codeword (p:=toECParams (params o)) (parity:=parity) stripe).

(** All shards of a stripe are valid; [f] is what their headers say about its length. *)
Lemma load_shards_all {S} {SS : ShardStore S} (s : S) id st (f : nat -> Z) bs : forall i done sl v l,
  (i + length bs <= Z.to_nat (2 ^ 32))%nat -> length done = i ->
  (forall j b, bs !! j = Some b -> exists h,
    ss_GetShard s (mkKey id st (Z.of_nat (i + j))) = (Some b, h, None) /\ h_StripeLen h = f (i + j)%nat) ->
  load_shards s id st (seqZ (Z.of_nat i) (len bs)) (mkLoading (done ++ replicate (length bs) None) sl v l)
  = OK (mkLoading (done ++ map Some bs)
         (if decide (bs = []) then sl else f (i + length bs - 1)%nat) (v + len bs) l).
Proof.
  induction bs as [|b bs IH]; intros i dn sl v l Hi Hd Hs.
  { simpl. by rewrite Z.add_0_r. }
  unfold len in *. cbn [length] in *. rewrite seqZ_cons by lia. cbn [load_shards].
  rewrite wrapU_id by (unfold inU; lia).
  destruct (Hs 0%nat b eq_refl) as (h & Hg & Hh). rewrite Nat.add_0_r in Hg, Hh. rewrite Hg.
  replace (Z.pred (Z.of_nat (Datatypes.S (length bs)))) with (Z.of_nat (length bs)) by lia.
  cbn [l_shards l_stripeLen l_valid l_lost].
  rewrite Nat2Z.id, insert_app_r_alt, Hd, Nat.sub_diag by lia. cbn [replicate].
  change (<[0%nat:=Some b]> (None :: replicate (length bs) None))
    with ([Some b] ++ replicate (length bs) (@None bytes)).
  rewrite app_assoc. replace (Z.succ (Z.of_nat i)) with (Z.of_nat (Datatypes.S i)) by lia.
  rewrite (IH (Datatypes.S i)); [|lia|len_lia|].
  - f_equal. rewrite <- app_assoc. cbn [app map]. f_equal; [|lia].
    rewrite (decide_False (P := b :: bs = [])) by done. destruct bs; cbn [length].
    + rewrite decide_True by done. rewrite Hh. f_equal. lia.
    + rewrite decide_False by done. f_equal. lia.
  - intros j b' Hj. destruct (Hs (Datatypes.S j) b' Hj) as (h' & Hg' & Hh').
    exists h'. by replace (Datatypes.S i + j)%nat with (i + Datatypes.S j)%nat by lia.
Qed.

(** With all shards valid, loadStripe believes the last header. *)
Lemma loadStripe_last_header {S} {SS : ShardStore S} (s : S) id T idx stripe buf off (f : nat -> Z) n :
  stripe <> [] -> f (total o - 1)%nat = n -> n <= len stripe ->
  (forall j b, C stripe !! j = Some b -> exists h,
    ss_GetShard s (mkKey id idx (Z.of_nat j)) = (Some b, h, None) /\ h_StripeLen h = f j) ->
  loadStripe (reader_at (e:=e) o id T idx buf off) s
  = (if n <? 0 then Panicked "makeslice: len out of range"
     else OK (reader_at (e:=e) o id T idx (take (Z.to_nat n) stripe) 0)).
Proof.
  intros Hne Hf Hn Hs. pose proof (total_spec o Hp) as (Hk & Hkt & Ht & _).
  assert (length (C stripe) = total o) as HC by apply (length_C o Hp).
  unfold loadStripe. cbn [r_params r_objectID r_stripeIdx reader_at]. rewrite Ht, make_slice_ok.
  cbn [mbind result_bind].
  pose proof (load_shards_all s id idx f (C stripe) 0 [] 0 0 0 ltac:(lia) eq_refl Hs) as Hl.
  unfold len in Hl. rewrite HC in Hl. cbn [app] in Hl. change (Z.of_nat 0) with 0 in Hl. rewrite Hl.
  cbn [mbind result_bind l_valid l_lost l_shards l_stripeLen].
  destruct (Z.ltb_spec (0 + Z.of_nat (total o)) (ec_DataShards (params o))); [lia|].
  cbn [mbind result_bind]. rewrite decide_False by (intros E; rewrite E in HC; simpl in HC; lia).
  rewrite Nat.add_0_l, Hf. destruct (Z.ltb_spec n 0) as [Hneg|Hpos].
  - unfold make_slice. by rewrite (proj2 (Z.ltb_lt _ _) Hneg).
  - pose proof (Join_prefix Hp (e:=e) (parity:=parity) stripe (replicate (Z.to_nat n) x00) (Z.to_nat n)
      (length_replicate _ _) ltac:(len_lia)) as Hj.
    pose proof (make_slice_ok (Z.to_nat n) x00) as Hm. rewrite Z2Nat.id in Hj, Hm by done.
    rewrite Hm. cbn [mbind result_bind r_enc reader_at]. cbn [Z.gtb Z.compare mbind result_bind].
    by rewrite Hj.
Qed.

Lemma rot_shard m key n k st i sl b :
  shards m !! key = Some (entry o k st i sl b) ->
  GetShard (rot_stripeLen m key n) key
  = (Some b, with_stripeLen (ms_h (entry o k st i sl b)) n, None).
Proof.
  intros H. unfold GetShard, rot_stripeLen. cbn [shards]. rewrite lookup_alter_eq, H. cbn.
  by rewrite bool_decide_eq_false_2 by auto.
Qed.

(** What a put of one stripe leaves, once the last header is changed: valid
    shards, of which only the last one has the wrong length. *)
Lemma rot_shards id data m0 s1 n :
  holds o (parity:=parity) m0 s1 id data -> stripes_of (stripeSize o) data = [data] ->
  forall j b, C data !! j = Some b -> exists h,
    ss_GetShard (rot_stripeLen s1 (mkKey id 0 (ec_ShardCount (params o) - 1)) n) (mkKey id 0 (Z.of_nat j)) = (Some b, h, None) /\
    h_StripeLen h = if decide (j = total o - 1)%nat then n else len data.
Proof.
  intros Hh Hst j b Hj. pose proof (total_spec o Hp) as (Hk & Hkt & Ht & _). set (key := mkKey id 0 _).
  pose proof (holds_shard o _ _ _ _ 0 data j b Hh ltac:(by rewrite Hst) Hj) as Hs. change (Z.of_nat 0) with 0 in Hs.
  cbn [ss_GetShard MemStore_ShardStore]. case_decide as Hd.
  - assert (mkKey id 0 (Z.of_nat j) = key) as Ek by (unfold key; f_equal; lia). rewrite Ek in Hs |- *.
    eexists. split; [by eapply rot_shard|done].
  - eexists. split.
    + eapply (GetShard_entry o (mkMemStore _ _)). cbn [shards]. rewrite lookup_alter_ne; [exact Hs|].
      unfold key. intros [= E]. apply Hd. lia.
    + done.
Qed.

(** Reading an object of one stripe that loadStripe believes to be [n] bytes. *)
Lemma read_one_stripe {S} {SS : ShardStore S} (s : S) id data n sizes fuel :
  n <= len data -> (forall i, 0 < sizes i)%nat -> (length data < fuel)%nat ->
  (forall buf off, loadStripe (reader_at (e:=e) o id 1 0 buf off) s
    = if n <? 0 then Panicked "makeslice: len out of range"
      else OK (reader_at (e:=e) o id 1 0 (take (Z.to_nat n) data) 0)) ->
  ReadAll fuel sizes 0 (stripeReader (reader_at (e:=e) o id 1 0 [] 0)) s
  = if n <? 0 then Panicked "makeslice: len out of range" else OK (take (Z.to_nat n) data, None).
Proof.
  intros Hn Hsz Hf Hload. destruct (decide (n <= 0)) as [Hn0|Hn0].
  - destruct fuel as [|fuel]; [lia|]. cbn [ReadAll reader_Read]. unfold Read at 1.
    change (r_stripeIdx (reader_at o id 1 0 [] 0) >=? r_totalStripes (reader_at o id 1 0 [] 0)) with false.
    cbn match. cbn [r_off r_buf reader_at length Nat.eqb]. rewrite Hload.
    destruct (Z.ltb_spec n 0); [done|]. by assert (n = 0) as -> by lia.
  - destruct (Z.ltb_spec n 0); [lia|]. assert (length (take (Z.to_nat n) data) = Z.to_nat n) as Hlt by len_lia.
    erewrite (ReadAll_start o s id 1 [take (Z.to_nat n) data]) with (err := EOF);
      [cbn [concat]; by rewrite app_nil_r| | |by unfold len|done|intros; apply Read_EOF|].
    + intros i stripe Hi. apply list_elem_of_lookup_2, list_elem_of_singleton in Hi. subst.
      intros E. rewrite E in Hlt. simpl in Hlt. lia.
    + intros [|i] stripe buf off Hi; [|done]. by simplify_eq/=.
    + cbn [concat]. rewrite app_nil_r. len_lia.
Qed.

(** C34. Headers are not covered by the checksum. One changed StripeLen, in the
    header of the last shard of an object of one stripe, leaves every shard
    valid for VerifyShard and is not noticed by GetObject, which announces the
    right size; but a client that reads to the end receives only the first [n]
    bytes, without an error, although k+m-1 intact shards contradict the one
    header, and the process panics when the top bit of the field is set. *)
Theorem header_rot_is_silent id data w n :
  cache_ok (w_cache w) -> id <> ""%string -> 0 < len data <= stripeSize o -> len data < 2 ^ 63 ->
  no_stale (w_store w) id 1 -> - 2 ^ 63 <= n <= len data ->
  exists w1, PutObject o id (NewReader data) (len data) w = (OK tt, w1) /\
    let m2 := rot_stripeLen (w_store w1) (mkKey id 0 (ec_ShardCount (params o) - 1)) n in
    (forall key, (VerifyShard m2 key).2 = (VerifyShard (w_store w1) key).2) /\
    exists rd w2, GetObject o id (mkWorld (w_cache w1) m2) = (OK (rd, len data), w2) /\
      forall sizes fuel, (forall i, 0 < sizes i)%nat -> (length data < fuel)%nat ->
        ReadAll fuel sizes 0 rd m2
        = (if n <? 0 then Panicked "makeslice: len out of range" else OK (take (Z.to_nat n) data, None)).
Proof.
  intros Hc Hid Hlen Hl63 Hns Hn. assert (data <> []) as Hne by (intros ->; unfold len in *; simpl in *; lia).
  assert (stripes_of (stripeSize o) data = [data]) as Hst.
  { rewrite stripes_of_cons, drop_ge, take_ge, stripes_of_nil by (done || len_lia). done. }
  assert (count_stripes o data = 1) as Hcount by (unfold count_stripes; by rewrite Hst).
  destruct (put_holds o Hp Hss id data w Hc Hid ltac:(lia)) as (c1 & s1 & Hput & Hc1 & Hh & _).
  exists (mkWorld c1 s1). split; [exact Hput|]. cbn [w_store w_cache]. cbv zeta.
  split; [intros; apply rot_undetected|].
  pose proof (total_spec o Hp) as (Hk & Hkt & Ht & Htot). pose proof Hp as (_ & Hm & _). cbn in Hm.
  pose proof (rot_shards id data _ s1 n Hh Hst) as Hall. set (m2 := rot_stripeLen s1 _ n) in *.
  assert (length (C data) = total o) as HC by apply (length_C o Hp).
  destruct (lookup_lt_is_Some_2 (C data) 0) as [b0 Hb0]; [lia|]. destruct (Hall 0%nat b0 Hb0) as (h0 & Hg0 & Hl0).
  rewrite decide_False in Hl0 by lia.
  destruct (GetObject_listed o Hp id c1 m2 0 (len data) Hc1 Hid ltac:(lia)) as (c2 & Hc2 & Hget).
  - intros k Hkid Hks. eapply (holds_max o (w_store w) s1 s1 id data 0);
      [exact Hh|apply degraded_refl|exact Hns|exact Hcount|exact Hkid|]. unfold m2, rot_stripeLen in Hks. cbn [shards] in Hks. by apply lookup_alter_is_Some in Hks.
  - exists 0. apply shard_good_stored. apply bool_decide_eq_true.
    change (mkKey id 0 0) with (mkKey id 0 (Z.of_nat 0)). by rewrite Hg0.
  - unfold lastStripeLen. rewrite Ht, seqZ_cons by lia. cbn [first_valid_len].
    change (mkKey id 0 (u32 0)) with (mkKey id 0 (Z.of_nat 0)).
    cbn [ss_VerifyShard ss_GetShard MemStore_ShardStore] in *. rewrite VerifyShard_GetShard, Hg0. cbn. by rewrite Hl0.
  - rewrite Hget. eexists _, _. split; [|].
    { do 2 f_equal. rewrite (wrapS64_id (0 * stripeSize o)) by (unfold inS; lia).
      rewrite wrapS64_id by (unfold inS; lia). reflexivity. }
    intros sizes fuel Hsz Hf. apply read_one_stripe; [lia|done..|]. intros buf off.
    apply (loadStripe_last_header m2 id 1 0 data buf off (fun j => if decide (j = total o - 1)%nat then n else len data) n);
      [done|by rewrite decide_True|lia|exact Hall].
Qed.
End rot.

Lemma header_rot_is_silent_witness :
  let data := bytes_of_string "abcd" in
  exists w1, PutObject ex_store "a" (NewReader data) 4 (mkWorld ∅ NewMemStore) = (OK tt, w1) /\
    let m2 := rot_stripeLen (w_store w1) (mkKey "a" 0 2) 1 in
    (VerifyShard m2 (mkKey "a" 0 2)).2 = None /\
    exists rd w2, GetObject ex_store "a" (mkWorld (w_cache w1) m2) = (OK (rd, 4), w2) /\
      ReadAll 5 (fun _ => 3%nat) 0 rd m2 = OK (bytes_of_string "a", None).
Proof.
  destruct (header_rot_is_silent (LAWS := ex_laws) ex_store ex_params eq_refl "a" (bytes_of_string "abcd")
    (mkWorld ∅ NewMemStore) 1 cache_ok_empty ltac:(done) ltac:(vm_compute; done) ltac:(done)
    (ex_no_stale _) ltac:(vm_compute; split; discriminate)) as (w1 & Hput & Hv & rd & w2 & Hget & Hread).
  exists w1. split; [exact Hput|]. split.
  - etrans; [exact (Hv (mkKey "a" 0 2))|]. apply run_state in Hput. rewrite Hput. vm_compute. reflexivity.
  - exists rd, w2. split; [exact Hget|]. apply Hread; [intros _; lia|vm_compute; lia].
Defined.
