(* ===== verification/TypeSafe.v ===== *)
(** Type safety of the server over MemStore: what a well-formed store is, that
    every request and every loss or corruption of payloads keeps it well-formed,
    and that over a well-formed store no request panics. *)
From stdpp Require Import relations.
From S2P Require Import Prelude Binary Sha256 EC XorCodec Header ShardStore MemStore ObjectStore ObjectWrite ObjectRead ObjectSpec Contract FileNames Http S3Types Api ApiLogic ApiServe ApiContract ApiExamples.

(** * Computations that keep an invariant and do not panic *)

(** From a state in [I] the computation does not panic and ends in [I]; a
    result satisfies [Q]. *)
Definition safe {St A} (I : St -> Prop) (Q : A -> Prop) (m : M St A) : Prop :=
  forall s, I s -> match m s with (OK a, s') => I s' /\ Q a | (Err _, s') => I s' | (Panicked _, _) => False end.

Section safe.
Context {St : Type} (I : St -> Prop).

Lemma safe_bind {A B} Q Q' (m : M St A) (f : A -> M St B) :
  safe I Q m -> (forall a, Q a -> safe I Q' (f a)) -> safe I Q' (m ≫= f).
Proof.
  intros Hm Hf s Hs. unfold mbind, M_bind. specialize (Hm s Hs).
  destruct (m s) as [[a|err|msg] s']; [|done..]. destruct Hm as [Hs' Ha]. by apply Hf.
Qed.

Lemma safe_ret {A} (Q : A -> Prop) a : Q a -> safe I Q (mret a).
Proof. by intros Ha s Hs. Qed.

Lemma safe_throw {A} (Q : A -> Prop) err : safe I Q (throw err).
Proof. by intros s Hs. Qed.

Lemma safe_wrapM {A} (Q : A -> Prop) msg (m : M St A) : safe I Q m -> safe I Q (wrapM msg m).
Proof. intros Hm s Hs. unfold wrapM. specialize (Hm s Hs). by destruct (m s) as [[a|err|p] s']. Qed.

Lemma safe_if {A} (Q : A -> Prop) (b : bool) (m1 m2 : M St A) :
  safe I Q m1 -> safe I Q m2 -> safe I Q (if b then m1 else m2).
Proof. by destruct b. Qed.

Lemma safe_weaken {A} (Q Q' : A -> Prop) (m : M St A) :
  safe I Q m -> (forall a, Q a -> Q' a) -> safe I Q' m.
Proof.
  intros Hm HQ s Hs. specialize (Hm s Hs). destruct (m s) as [[a|err|p] s']; [|done..].
  destruct Hm. eauto.
Qed.
End safe.

Abbreviation any := (fun _ => True).

(** * Well-formed stores *)

Section wf.
Context {RS : ReedSolomon} (o : ObjectStore) {e : rs_enc} {parity : list bytes -> list bytes}.
Context {LAWS : RSLaws RS (toECParams (params o)) e parity}.
Context (Hp : params_ok (toECParams (params o))) (Hss : 0 < stripeSize o).

Abbreviation C stripe := (codeword (p:=toECParams (params o)) (parity:=parity) stripe).
Abbreviation E := (mkEncoder e (toECParams (params o))).

(** The header belongs under its key, and to the scheme of the store. *)
Definition header_typed (key : ShardKey) (h : ShardHeader) : Prop :=
  h_ObjectID h = k_ObjectID key /\ h_StripeIdx h = k_StripeIdx key /\ h_ShardIdx h = k_ShardIdx key /\
  inU 32 (k_StripeIdx key) /\ 0 <= k_ShardIdx key < ec_ShardCount (params o) /\
  h_DataShards h = ec_DataShards (params o) /\ h_ParityShards h = ec_ParityShards (params o) /\
  0 < h_StripeLen h <= stripeSize o.

(** The shards under the keys of one stripe are those of one stripe of at most
    [stripeSize] bytes, or lost. *)
Definition stripe_typed (m : MemStore) (id : string) (st : Z) : Prop :=
  exists stripe, 0 < len stripe <= stripeSize o /\ stripe_state o (parity:=parity) m id st stripe.

Definition well_formed (m : MemStore) : Prop :=
  (forall key s, shards m !! key = Some s -> header_typed key (ms_h s)) /\
  (forall id st, stripe_typed m id st).

Definition world_wf (w : World MemStore) : Prop := cache_ok (w_cache w) /\ well_formed (w_store w).

(** No shard under any key of a stripe is good: any stripe will do. *)
Lemma stripe_typed_lost m id st :
  (forall i, shard_lost m (mkKey id st i)) -> stripe_typed m id st.
Proof.
  intros Hl. exists [x00]. split; [unfold len; cbn; lia|].
  apply shards_state_intro. intros i b _. right. apply Hl.
Qed.

Lemma missing_lost m key : shards m !! key = None -> shard_lost m key.
Proof. intros H. eexists _, _, _. unfold GetShard. by rewrite H. Qed.

Lemma well_formed_empty : well_formed NewMemStore.
Proof.
  split; [intros key s; cbn; by rewrite lookup_empty|]. intros id st. apply stripe_typed_lost.
  intros i. apply missing_lost. apply lookup_empty.
Qed.

(** Markers do not matter. *)
Lemma well_formed_shards m m' : shards m' = shards m -> well_formed m -> well_formed m'.
Proof.
  intros Hs [H1 H2]. split; [by rewrite Hs|]. intros id st. destruct (H2 id st) as (stripe & Hl & Hst).
  exists stripe. split; [done|]. eapply shards_state_same; [|exact Hst]. intros i. by rewrite Hs.
Qed.

(** A shard is lost, or its payload changes without matching its checksum. *)
Inductive damage (m : MemStore) : MemStore -> Prop :=
  | damage_lose key : damage m (mkMemStore (delete key (shards m)) (markers m))
  | damage_rot key s raw :
      shards m !! key = Some s -> raw = ms_data s \/ Sum256 raw <> h_Checksum (ms_h s) ->
      damage m (mkMemStore (<[key := mkMemShard (ms_h s) raw]> (shards m)) (markers m)).

(** What damage does to one shard. *)
Lemma damage_shard m m' key : damage m m' ->
  (shards m' !! key = shards m !! key \/ shard_lost m' key) /\
  forall s', shards m' !! key = Some s' -> exists s, shards m !! key = Some s /\ ms_h s = ms_h s'.
Proof.
  intros [key0|key0 s raw Hs Hraw]; cbn [shards].
  - destruct (decide (key0 = key)) as [->|Hne].
    + split; [right; apply missing_lost, lookup_delete_eq|]. intros s'. by rewrite lookup_delete_eq.
    + rewrite lookup_delete_ne by done. eauto.
  - destruct (decide (key0 = key)) as [->|Hne].
    + rewrite lookup_insert_eq. split; [|by intros s' [= <-]; eauto]. destruct Hraw as [->|Hraw].
      * left. by destruct s.
      * right. eexists _, _, _. unfold GetShard. cbn [shards]. rewrite lookup_insert_eq. cbn.
        by rewrite bool_decide_eq_true_2.
    + rewrite lookup_insert_ne by done. eauto.
Qed.

Lemma well_formed_damage m m' : damage m m' -> well_formed m -> well_formed m'.
Proof.
  intros Hd [H1 H2]. split.
  - intros key s' Hs'. destruct (proj2 (damage_shard m m' key Hd) s' Hs') as (s & Hs & <-). by apply H1.
  - intros id st. destruct (H2 id st) as (stripe & Hl & Hst). exists stripe. split; [done|].
    unfold stripe_state in *. revert Hst. generalize 0. induction (C stripe) as [|b bs IH]; intros i; [done|].
    intros [Hb Hbs]. split; [|by apply IH].
    destruct (proj1 (damage_shard m m' (mkKey id st i) Hd)) as [Heq|Hlost]; [|by right].
    revert Hb. unfold shard_state. cbn [ss_GetShard MemStore_ShardStore]. unfold GetShard. by rewrite Heq.
Qed.

(** ** PutObject *)

Lemma well_formed_putStripe id st stripe s s' :
  inU 32 st -> 0 < len stripe <= stripeSize o ->
  (forall key, shards s' !! key = shards_entry o id st 0 (len stripe) (C stripe) key ∪ shards s !! key) ->
  well_formed s -> well_formed s'.
Proof.
  intros Hst Hlen Hs' [H1 H2]. pose proof (total_spec o Hp) as (Hk & Hkt & Ht & _).
  assert (length (C stripe) = total o) as HC by apply (length_C o Hp). split.
  - intros key x Hx. rewrite Hs' in Hx. unfold shards_entry in Hx.
    case_decide as Hd; [|rewrite None_union in Hx; by apply H1].
    destruct Hd as (<- & <- & Hi). rewrite Z.sub_0_r in Hx.
    destruct (C stripe !! Z.to_nat (k_ShardIdx key)) as [b|] eqn:Eb; cbn in Hx;
      [|rewrite None_union in Hx; by apply H1].
    apply lookup_lt_Some in Eb. rewrite Some_union in Hx. simplify_eq. unfold header_typed. cbn.
    split_and!; (done || lia).
  - intros id' st'. destruct (decide (id' = id /\ st' = st)) as [[-> ->]|Hne].
    + exists stripe. split; [done|]. apply shards_state_intro. intros i b Hi. left. eexists. split.
      * cbn [ss_GetShard MemStore_ShardStore]. apply (GetShard_entry o).
        rewrite Hs'. unfold shards_entry. cbn. rewrite decide_True by (split_and!; done || lia).
        rewrite Z.sub_0_r, Z.add_0_l, Nat2Z.id, Hi. apply Some_union.
      * done.
    + destruct (H2 id' st') as (x & Hl & Hx). exists x. split; [done|].
      eapply shards_state_same; [|exact Hx]. intros i. rewrite Hs'. unfold shards_entry. cbn.
      rewrite decide_False by tauto. apply None_union.
Qed.

Lemma safe_put_loop id fuel : forall r st rem, inU 32 st ->
  safe world_wf any (put_loop fuel o E id r st rem).
Proof.
  induction fuel as [|fuel IH]; intros r st rem Hst; cbn [put_loop];
    (destruct (Z.leb_spec rem 0); [by apply safe_ret|]); [apply safe_throw|].
  set (n := if rem <? stripeSize o then rem else stripeSize o).
  assert (0 < n <= stripeSize o) by (unfold n; destruct (Z.ltb_spec rem (stripeSize o)); lia).
  destruct (ReadFull (Z.to_nat n) r) as [[chunk|err|msg] r'] eqn:ER; [|apply safe_throw|].
  2: { by apply no_panic_ReadFull in ER. }
  apply ReadFull_ok in ER as (_ & Hlc & _).
  eapply safe_bind with (Q := any); [|intros _ _; apply IH, wrapU_range; lia].
  intros [c s] [Hc Hwf]. cbn [w_cache w_store] in *.
  destruct (putStripe_ok o Hp id st chunk c s) as (s' & H1 & H2 & H3).
  { intros ->. simpl in Hlc. lia. }
  rewrite H1. split; [|done]. split; [done|]. cbn [w_store].
  eapply well_formed_putStripe; [exact Hst| |exact H3|exact Hwf]. unfold len. lia.
Qed.

Lemma safe_EncoderFor : safe world_wf (fun enc => enc = E) (on_cache (EncoderFor (toECParams (params o)))).
Proof.
  intros [c s] [Hc Hwf]. destruct (EncoderFor_ok _ c e Hc Hp (law_new (p:=toECParams (params o)))) as (c' & He & Hc').
  unfold on_cache. cbn [w_cache w_store]. by rewrite He.
Qed.

Lemma safe_PutObject id r size : safe world_wf any (PutObject o id r size).
Proof.
  unfold PutObject. repeat (apply safe_if; [apply safe_throw|]).
  eapply safe_bind; [apply safe_EncoderFor|]. intros enc ->.
  eapply safe_bind; [by apply safe_put_loop|]. intros n _ [c s] [Hc Hwf].
  unfold on_store. cbn. split; [|done]. split; [done|]. by apply (well_formed_shards s).
Qed.

(** ** GetObject, and reading *)

(** The readers GetObject hands out. *)
Definition reader_typed (rd : reader) : Prop :=
  match rd with
  | emptyReader => True
  | stripeReader r => exists id T idx buf off, r = reader_at (e:=e) o id T idx buf off
  end.

Lemma first_valid_len_no_panic {St} {SS : ShardStore St} (m : St) id st idxs msg : first_valid_len m id st idxs <> Panicked msg.
Proof.
  induction idxs as [|i idxs IH]; [done|]. cbn [first_valid_len].
  destruct (ss_VerifyShard m _) as [h [err|]]; [|done]. by case_match.
Qed.

Lemma safe_GetObject id : safe world_wf (fun x => reader_typed x.1) (GetObject o id).
Proof.
  intros [c s] Hw. unfold GetObject. cbn [w_store ss_ListObjectShards MemStore_ShardStore].
  unfold ListObjectShards, ListShards. cbn [mbind result_bind].
  destruct (object_keys id _) as [|k keys].
  - cbn [ss_ReadMarker MemStore_ShardStore]. unfold ReadMarker. by destruct (markers s !! id).
  - unfold lastStripeLen. pose proof (first_valid_len_no_panic s id (max_stripe (k :: keys))
      (seqZ 0 (ec_ShardCount (params o)))) as Hnp.
    destruct (first_valid_len _ _ _ _) as [lastLen|err|msg]; [|done|by apply (Hnp msg)].
    destruct Hw as [Hc Hwf].
    destruct (EncoderFor_ok _ c e Hc Hp (law_new (p:=toECParams (params o)))) as (c' & He & Hc').
    unfold encoder, mbind, M_bind, on_cache. cbn [w_cache w_store]. rewrite He. cbn.
    split; [done|]. by repeat eexists.
Qed.

Lemma loadStripe_typed m id T idx buf off : well_formed m ->
  match loadStripe (reader_at (e:=e) o id T idx buf off) m with
  | OK r => exists buf', r = reader_at (e:=e) o id T idx buf' 0
  | Err _ => True
  | Panicked _ => False
  end.
Proof.
  intros [_ Hwf]. destruct (Hwf id idx) as (stripe & Hl & Hst).
  assert (stripe <> []) as Hne by (intros ->; change (len []) with 0 in Hl; lia).
  destruct (decide (ec_DataShards (params o) <= good_count m id idx 0 (total o))).
  - rewrite (loadStripe_ok o Hp m id T idx stripe) by done. eauto.
  - by rewrite (loadStripe_lost o Hp m id T idx stripe) by (done || lia).
Qed.

Lemma Read_typed m n r : well_formed m -> reader_typed (stripeReader r) ->
  match Read n r m with OK (_, _, r') => reader_typed (stripeReader r') | Err _ => False | Panicked _ => False end.
Proof.
  intros Hwf (id & T & idx & buf & off & ->).
  assert (forall buf off, reader_typed (stripeReader (copy_out n (reader_at (e:=e) o id T idx buf off)).2)) as Hcopy.
  { intros buf' off'. unfold copy_out. cbn. case_match; repeat eexists. }
  assert (forall T idx buf off, reader_typed (stripeReader (reader_at (e:=e) o id T idx buf off))) as Hself
    by (intros; by repeat eexists).
  unfold Read. destruct (_ >=? _); [apply Hself|]. destruct (_ =? _)%nat.
  - pose proof (loadStripe_typed m id T idx buf off Hwf) as Hl.
    destruct (loadStripe _ m) as [r1|err|msg]; [|apply Hself|done].
    destruct Hl as [buf' ->]. destruct (_ =? 0); [apply Hself|].
    specialize (Hcopy buf' 0%nat). by destruct (copy_out _ _) as [[p err] r'].
  - specialize (Hcopy buf off). by destruct (copy_out _ _) as [[p err] r'].
Qed.

Lemma ReadAll_typed m fuel sizes : well_formed m -> forall i rd, reader_typed rd ->
  exists x, ReadAll fuel sizes i rd m = OK x.
Proof.
  intros Hwf. induction fuel as [|fuel IH]; intros i rd Hrd; [by eexists|]. cbn [ReadAll].
  destruct rd as [|r]; [by eexists|]. cbn [reader_Read]. pose proof (Read_typed m (sizes i) r Hwf Hrd) as Hr.
  destruct (Read (sizes i) r m) as [[[p err] r']|err|msg]; [|done..]. cbn [mbind result_bind].
  destruct err as [err|]; [by eexists|]. destruct (IH (Datatypes.S i) _ Hr) as [[rest err] ->]. by eexists.
Qed.

(** ** DeleteObject *)

Lemma safe_delete_shards keys : safe well_formed any (delete_shards keys).
Proof.
  induction keys as [|k keys IH]; cbn [delete_shards]; [by apply safe_ret|].
  eapply safe_bind with (Q := any); [|auto]. intros m Hm. cbn [ss_DeleteShard MemStore_ShardStore].
  unfold DeleteShard. destruct (shards m !! k); [|done]. split; [|done].
  eapply well_formed_damage; [|exact Hm]. constructor.
Qed.

Lemma safe_DeleteObject id : safe world_wf any (DeleteObject o id).
Proof.
  intros [c s] [Hc Hwf]. unfold DeleteObject. cbn [w_store ss_ListObjectShards MemStore_ShardStore].
  unfold ListObjectShards, ListShards. cbn [mbind result_bind].
  set (del := (delete_shards (object_keys id (sort_keys (map fst (map_to_list (shards s)))));;
    ss_RemoveMarker id) : M MemStore unit).
  assert (safe well_formed any del) as Hs.
  { eapply safe_bind; [apply safe_delete_shards|]. intros _ _ m Hm. cbn. split; [|done].
    by apply (well_formed_shards m). }
  specialize (Hs s Hwf). unfold on_store. cbn [w_store w_cache].
  destruct (del s) as [[u|err|msg] s']; [|done..]. by destruct Hs.
Qed.

Lemma ObjectShards_no_panic m id msg : ObjectShards o m id <> Panicked msg.
Proof.
  unfold ObjectShards. cbn [ss_ListObjectShards MemStore_ShardStore].
  unfold ListObjectShards, ListShards. cbn [mbind result_bind].
  destruct (object_keys id _); [|done]. cbn [ss_ReadMarker MemStore_ShardStore]. unfold ReadMarker.
  by destruct (markers m !! id).
Qed.
End wf.

(** * The handlers *)

Section handlers.
Context {RS : ReedSolomon} (Unmarshal : bytes -> option CompleteMultipartUpload) (s : Server) (env : Env).
Context {e : rs_enc} {parity : list bytes -> list bytes}.
Context {LAWS : RSLaws RS (toECParams (params (objectStore s))) e parity}.
Context (Hp : params_ok (toECParams (params (objectStore s)))) (Hss : 0 < stripeSize (objectStore s)).

Abbreviation o := (objectStore s).

Definition conn_wf (c : Conn MemStore) : Prop := world_wf o (parity:=parity) (c_world c).

Abbreviation safeH := (safe conn_wf).

Lemma safe_call {A} (Q : A -> Prop) (m : M (World MemStore) A) : safe (world_wf o (parity:=parity)) Q m ->
  safeH (fun x => match x with inl _ => True | inr a => Q a end) (call m).
Proof.
  intros Hm [w rw st] Hc. specialize (Hm w Hc). unfold call. cbn.
  by destruct (m w) as [[a|err|msg] w'].
Qed.

Lemma safe_ObjectShards id : safeH any (call (fun w => (ObjectShards o (w_store w) id, w))).
Proof.
  eapply safe_weaken; [apply (safe_call any)|done]. intros [c m] Hw. cbn [w_store].
  pose proof (ObjectShards_no_panic o m id) as Hn.
  destruct (ObjectShards o m id) as [keys|err|msg]; [by split|exact Hw|by apply (Hn msg)].
Qed.

Lemma safe_read_all fuel sizes rd : reader_typed (e:=e) o rd -> safeH any (read_all fuel sizes rd).
Proof.
  intros Hrd [w rw st] Hc. unfold read_all. cbn [c_world].
  by destruct (ReadAll_typed o Hp (w_store w) fuel sizes (proj2 Hc) 0 rd Hrd) as [[data err] ->].
Qed.

(** So are the handlers: any request may use any object. *)
#[refine] Instance safe_logic : HandlerLogic (M (Conn MemStore)) o := {
  hl_ok A Q m := safeH Q m;
  hl_W _ := True; hl_R _ := True; hl_all := True;
  hl_reader _ rd := reader_typed (e:=e) o rd;
}.
Proof.
  all: on_conn; try done.
  - intros A B Q Q' m k Hm Hk. exact (safe_bind conn_wf Q Q' m k Hm Hk).
  - intros. eapply safe_weaken; [apply safe_call, (safe_PutObject o Hp Hss)|done].
  - intros. eapply safe_weaken; [apply safe_call, (safe_GetObject o Hp)|]. by intros [err|[rd size]].
  - intros. eapply safe_weaken; [apply safe_call, (safe_DeleteObject o)|done].
  - intros. apply safe_ObjectShards.
  - intros. by apply safe_read_all.
Defined.

Lemma safe_auth reqID r : safeH any (auth s (mux Unmarshal s env) reqID r).
Proof. apply (logic_auth Unmarshal s env (L := safe_logic)), covers_True. Qed.

(** Progress and preservation, for one request. *)
Lemma ServeHTTP_safe r w : world_wf o (parity:=parity) w ->
  exists reply w', ServeHTTP Unmarshal s env r w = (OK reply, w') /\ world_wf o (parity:=parity) w'.
Proof.
  intros Hw.
  pose proof (safe_auth (request_id env r) r (mkConn w (rw_Set requestIDHeader (request_id env r) rw_new) 200) Hw) as Hs.
  pose proof (unsent_auth Unmarshal s env (request_id env r) (request_id env r) r _ (unsent_start env w r)) as Ht.
  unfold ServeHTTP. fold (request_id env r).
  destruct (auth (H := M (Conn MemStore)) _ _ _ _ _) as [[[]|err|msg] c]; [|done|done]. destruct Hs as [Hc _].
  destruct (rw_finish (c_rw c)) as [[status hs] body]. by eexists _, _.
Qed.
End handlers.

(** * The server over time *)

Section server.
Context {RS : ReedSolomon} (Unmarshal : bytes -> option CompleteMultipartUpload) (s : Server).

(** What happens to the server: requests, and damage to the payloads of its
    shards between them. *)
Inductive server_step (w : World MemStore) : World MemStore -> Prop :=
  | step_request env r res w' : ServeHTTP Unmarshal s env r w = (res, w') -> server_step w w'
  | step_damage m' : damage (w_store w) m' -> server_step w (mkWorld (w_cache w) m').

Context {e : rs_enc} {parity : list bytes -> list bytes}.
Context {LAWS : RSLaws RS (toECParams (params (objectStore s))) e parity}.
Context (Hp : params_ok (toECParams (params (objectStore s)))) (Hss : 0 < stripeSize (objectStore s)).

Abbreviation Typed := (world_wf (objectStore s) (parity:=parity)).

Lemma server_step_wf w w' : server_step w w' -> Typed w -> Typed w'.
Proof.
  intros [env r res w2 H|m' Hd] Hw.
  - destruct (ServeHTTP_safe Unmarshal s env Hp Hss r w Hw) as (reply & w3 & H3 & Hw3). congruence.
  - destruct Hw as [Hc Hwf]. split; [done|]. by eapply well_formed_damage.
Qed.

(** C9. The server is type safe. Over any sequence of requests, valid or not,
    with every outcome, and any loss or rot of shard payloads in between, the
    store stays well-formed: every header belongs under its key and to the
    scheme of the server, and the shards of a stripe are those of one stripe or
    lost; and over a well-formed store no request panics: each one gets its
    response, and leaves a well-formed store. *)
Theorem server_type_safe w :
  rtc server_step (mkWorld ∅ NewMemStore) w ->
  well_formed (objectStore s) (parity:=parity) (w_store w) /\
  forall env r, exists reply w', ServeHTTP Unmarshal s env r w = (OK reply, w') /\
    well_formed (objectStore s) (parity:=parity) (w_store w').
Proof.
  intros Hr. assert (Typed w) as Hw.
  { assert (Typed (mkWorld ∅ NewMemStore)) as H0 by (split; [apply cache_ok_empty|by apply well_formed_empty]).
    revert H0. induction Hr; eauto using server_step_wf. }
  split; [apply Hw|]. intros env r.
  destruct (ServeHTTP_safe Unmarshal s env Hp Hss r w Hw) as (reply & w' & H & Hw').
  exists reply, w'. split; [done|apply Hw'].
Qed.
End server.

(** * At work *)

Lemma server_type_safe_witness :
  let serve r w := (ServeHTTP ex_no_parts ex_server ex_env r w).2 in
  let w1 := serve (ex_request "PUT" ["pics"]%string ∅ []) (mkWorld (RS := XorRS) ∅ NewMemStore) in
  let w2 := serve (ex_request "PUT" ["pics"; "cat"]%string ∅ data1) w1 in
  let w3 := mkWorld (w_cache w2) (lose_shard (w_store w2) (mkKey "pics/cat" 0 1)) in
  size (shards (w_store w3)) = 5%nat /\
  exists reply w4, ServeHTTP ex_no_parts ex_server ex_env (ex_request "GET" ["pics"; "cat"]%string ∅ []) w3
    = (OK reply, w4).
Proof.
  intros serve w1 w2 w3.
  assert (rtc (server_step ex_no_parts ex_server) (mkWorld (RS := XorRS) ∅ NewMemStore) w3) as Hr.
  { eapply rtc_l; [eapply (step_request _ _ _ ex_env), surjective_pairing|].
    eapply rtc_l; [eapply (step_request _ _ _ ex_env), surjective_pairing|].
    eapply rtc_l; [eapply step_damage, damage_lose|]. apply rtc_refl. }
  split; [vm_compute; reflexivity|].
  destruct (server_type_safe ex_no_parts ex_server (LAWS := ex_laws) ex_params eq_refl w3 Hr) as [_ H].
  destruct (H ex_env (ex_request "GET" ["pics"; "cat"]%string ∅ [])) as (reply & w4 & E & _).
  by exists reply, w4.
Defined.
