(* ===== verification/ApiList.v ===== *)
(** What handleListObjectsV2 answers over an in-memory store: which objects a
    listing shows, with which sizes, and when it says it is truncated. *)
From S2P Require Import Prelude Binary Sha256 EC XorCodec Header ShardStore MemStore ObjectStore ObjectWrite ObjectRead ObjectSpec Contract FileNames Http S3Types Api ApiServe ApiContract ApiExamples TypeSafe.

Lemma HasPrefix_iff s pre : HasPrefix s pre = true <-> exists r, s = pre +:+ r.
Proof.
  split; [|intros [r ->]; apply HasPrefix_app]. unfold HasPrefix.
  destruct (cut_prefix pre s) as [r|] eqn:E; [|done]. intros _. exists r. by apply cut_prefix_Some.
Qed.

Lemma TrimPrefix_app pre r : TrimPrefix (pre +:+ r) pre = r.
Proof. unfold TrimPrefix. by rewrite cut_prefix_app. Qed.

Lemma app_string_assoc (a b c : string) : ((a +:+ b) +:+ c = a +:+ (b +:+ c))%string.
Proof.
  induction a as [|x a IH]; [done|].
  change (String x ((a +:+ b) +:+ c) = String x (a +:+ (b +:+ c)))%string. by f_equal.
Qed.

Lemma app_string_inj (a b c : string) : (a +:+ b = a +:+ c)%string -> b = c.
Proof. apply (inj (String.append a)). Qed.

Lemma objectIDOf_prefix b k : objectIDOf b k = ((b +:+ "/") +:+ k)%string.
Proof. unfold objectIDOf. by rewrite app_string_assoc. Qed.

Lemma objectIDOf_inj b k1 k2 : objectIDOf b k1 = objectIDOf b k2 -> k1 = k2.
Proof. rewrite !objectIDOf_prefix. apply app_string_inj. Qed.

Section list.
Context {RS : ReedSolomon} (Unmarshal : bytes -> option CompleteMultipartUpload).
Context (s : Server) (env : Env).
Context {e : rs_enc} {parity : list bytes -> list bytes}.
Context {LAWS : RSLaws RS (toECParams (params (objectStore s))) e parity}.
Context (Hp : params_ok (toECParams (params (objectStore s)))).

Abbreviation o := (objectStore s).

(** The size GetObject announces for an object of [m], if it can be opened. *)
Definition object_size (m : MemStore) (id : string) : option Z :=
  match (GetObject o id (mkWorld ∅ m)).1 with OK (_, size) => Some size | _ => None end.

(** Keys the listing of [b] shows, by their name. *)
Definition shown (b prefix k : string) : bool :=
  negb (HasPrefix (objectIDOf b k) "__bucket__/") && negb (HasPrefix (objectIDOf b k) "__multipart__/")
  && (bool_decide (prefix = ""%string) || HasPrefix k prefix).

(** The entry of key [k], if it is shown and can be opened. *)
Definition list_entry (m : MemStore) (b prefix k : string) : option Object :=
  if shown b prefix k then
    size ← object_size m (objectIDOf b k);
    Some (mkObject k (e_time env) (etag size) size "STANDARD" (mkOwner (nodeID s) (nodeID s)))
  else None.

(** The object has a shard in [m]. *)
Definition has_shard (m : MemStore) (id : string) : Prop :=
  exists key, k_ObjectID key = id /\ is_Some (shards m !! key).

(** GetObject leaves the store alone, and what it returns does not depend on
    the encoder cache. *)
Lemma GetObject_pure id c m : cache_ok c ->
  exists c', cache_ok c' /\ GetObject o id (mkWorld c m) = ((GetObject o id (mkWorld ∅ m)).1, mkWorld c' m) /\
    forall msg, (GetObject o id (mkWorld ∅ m)).1 <> Panicked msg.
Proof.
  intros Hc. unfold GetObject. cbn [w_store ss_ListObjectShards MemStore_ShardStore].
  unfold ListObjectShards, ListShards. cbn [mbind result_bind].
  destruct (object_keys id _) as [|k keys].
  - cbn [ss_ReadMarker MemStore_ShardStore]. unfold ReadMarker. destruct (markers m !! id); by exists c.
  - unfold lastStripeLen. pose proof (first_valid_len_no_panic m id (max_stripe (k :: keys))
      (seqZ 0 (ec_ShardCount (params o)))) as Hnp.
    destruct (first_valid_len _ _ _ _) as [lastLen|err|msg]; [|by exists c|by destruct (Hnp msg)].
    destruct (EncoderFor_ok _ c e Hc Hp (law_new (p:=toECParams (params o)))) as (c' & He & Hc').
    destruct (EncoderFor_ok _ ∅ e cache_ok_empty Hp (law_new (p:=toECParams (params o)))) as (c0 & He0 & _).
    exists c'. unfold encoder, mbind, M_bind, on_cache. cbn [w_cache w_store]. by rewrite He, He0.
Qed.

(** The map the loop ends with, from [om], over objects [ids]. *)
Definition listed (m : MemStore) (b prefix : string) (ids : list string) (om : gmap string Object) (k : string)
    : option Object :=
  match om !! k with
  | Some x => Some x
  | None => if decide (objectIDOf b k ∈ ids) then list_entry m b prefix k else None
  end.

Lemma listed_skip m b prefix id ids om k :
  (forall k, objectIDOf b k = id -> list_entry m b prefix k = None) ->
  listed m b prefix (id :: ids) om k = listed m b prefix ids om k.
Proof.
  intros Hn. unfold listed. destruct (om !! k); [done|]. destruct (decide (objectIDOf b k = id)) as [E|E].
  - rewrite (Hn k E). by repeat case_decide.
  - destruct (decide (objectIDOf b k ∈ ids)).
    + by rewrite decide_True by (by right).
    + rewrite decide_False; [done|]. by intros [?|?]%elem_of_cons.
Qed.

Lemma listed_add m b prefix k0 ids om k x :
  list_entry m b prefix k0 = Some x ->
  listed m b prefix (objectIDOf b k0 :: ids) om k
  = listed m b prefix ids (match om !! k0 with Some _ => om | None => <[k0 := x]> om end) k.
Proof.
  intros Hx. unfold listed. destruct (decide (k = k0)) as [->|Hne].
  - destruct (om !! k0) eqn:E; [by rewrite E|]. rewrite lookup_insert_eq.
    by rewrite decide_True by (by left).
  - assert ((match om !! k0 with Some _ => om | None => <[k0 := x]> om end) !! k = om !! k) as ->.
    { destruct (om !! k0); [done|]. by rewrite lookup_insert_ne. }
    destruct (om !! k); [done|]. destruct (decide (objectIDOf b k ∈ ids)).
    + by rewrite decide_True by (by right).
    + rewrite decide_False; [done|]. intros [E|?]%elem_of_cons; [by apply objectIDOf_inj in E|done].
Qed.

(** Which keys the loop passes over before it asks for the object. *)
Lemma shown_negb b prefix k :
  shown b prefix k = negb (HasPrefix (objectIDOf b k) "__bucket__/" || HasPrefix (objectIDOf b k) "__multipart__/"
    || (negb (bool_decide (prefix = ""%string)) && negb (HasPrefix k prefix))).
Proof.
  unfold shown. by destruct (HasPrefix _ "__bucket__/"), (HasPrefix _ "__multipart__/"),
    (bool_decide _), (HasPrefix k prefix).
Qed.

Lemma list_loop_spec m b prefix keys : forall om c rw st, cache_ok c ->
  exists om' c', cache_ok c' /\
    list_loop s env b prefix keys om (mkConn (mkWorld c m) rw st) = (OK om', mkConn (mkWorld c' m) rw st) /\
    forall k, om' !! k = listed m b prefix (map k_ObjectID keys) om k.
Proof.
  induction keys as [|key keys IH]; intros om c rw st Hc.
  { exists om, c. split_and!; [done..|]. intros k. unfold listed. cbn.
    rewrite decide_False by set_solver. by destruct (om !! k). }
  cbn [list_loop map]. set (id := k_ObjectID key).
  assert (forall c1, cache_ok c1 -> (forall k, objectIDOf b k = id -> list_entry m b prefix k = None) ->
    exists om' c', cache_ok c' /\
      list_loop s env b prefix keys om (mkConn (mkWorld c1 m) rw st) = (OK om', mkConn (mkWorld c' m) rw st) /\
      forall k, om' !! k = listed m b prefix (id :: map k_ObjectID keys) om k) as Hskip.
  { intros c1 Hc1 Hn. destruct (IH om c1 rw st Hc1) as (om' & c' & H1 & H2 & H3).
    exists om', c'. split_and!; [done..|]. intros k. by rewrite listed_skip. }
  destruct (HasPrefix id (b +:+ "/")) eqn:Hpre; cbn [negb].
  2: { apply Hskip; [done|]. intros k E. assert (HasPrefix id (b +:+ "/") = true); [|congruence].
       apply HasPrefix_iff. exists k. by rewrite <- objectIDOf_prefix. }
  apply HasPrefix_iff in Hpre as [k0 Hk0]. rewrite <- objectIDOf_prefix in Hk0.
  assert (TrimPrefix id (b +:+ "/") = k0) as -> by (by rewrite Hk0, objectIDOf_prefix, TrimPrefix_app).
  assert (list_entry m b prefix k0 = None -> forall k, objectIDOf b k = id -> list_entry m b prefix k = None) as Honly.
  { intros Hn k E. rewrite Hk0 in E. by apply objectIDOf_inj in E as ->. }
  pose proof (shown_negb b prefix k0) as Hs0. rewrite <- Hk0 in Hs0.
  assert (shown b prefix k0 = false -> list_entry m b prefix k0 = None) as Hhide
    by (unfold list_entry; by intros ->).
  destruct (HasPrefix id "__bucket__/"); [by apply Hskip; auto|].
  destruct (HasPrefix id "__multipart__/"); [by apply Hskip; auto|].
  destruct (negb (bool_decide (prefix = ""%string)) && negb (HasPrefix k0 prefix)); [by apply Hskip; auto|].
  cbn in Hs0. clear Hhide. destruct (GetObject_pure id c m Hc) as (c1 & Hc1 & Hg & Hnp).
  assert (list_entry m b prefix k0 = (size ← object_size m id;
    Some (mkObject k0 (e_time env) (etag size) size "STANDARD" (mkOwner (nodeID s) (nodeID s))))) as Hentry.
  { unfold list_entry. by rewrite Hs0, <- Hk0. }
  unfold object_size in Hentry.
  destruct (GetObject o id (mkWorld ∅ m)).1 as [[rd size]|err|msg]; [| |by destruct (Hnp msg)].
  - rewrite (call_bind_OK _ _ _ _ _ _ _ Hg).
    destruct (IH (match om !! k0 with Some _ => om | None => <[k0 := mkObject k0 (e_time env) (etag size) size
      "STANDARD" (mkOwner (nodeID s) (nodeID s))]> om end) c1 rw st Hc1) as (om' & c' & H1 & H2 & H3).
    exists om', c'. split_and!; [done..|]. intros k. rewrite H3, Hk0. symmetry. by apply listed_add.
  - rewrite (call_bind_Err _ _ _ _ _ _ _ Hg). by apply Hskip; auto.
Qed.

(** Up to [n] entries of a map, in the order Go chooses. *)
Lemma list_contents_spec (om : gmap string Object) n :
  (forall l, e_range env l ≡ₚ l) -> (forall k ob, om !! k = Some ob -> ob_Key ob = k) -> 0 <= n ->
  let contents := list_contents env om n in
  NoDup (map ob_Key contents) /\ len contents <= n /\
  (forall ob, ob ∈ contents -> om !! ob_Key ob = Some ob) /\
  (len contents < n -> forall k ob, om !! k = Some ob -> ob ∈ contents).
Proof.
  intros Hrange Hkey Hn. unfold list_contents. cbv zeta.
  set (ks := e_range env (map fst (map_to_list om))).
  assert (forall k, k ∈ ks <-> is_Some (om !! k)) as Hks.
  { intros k. unfold ks. rewrite Hrange. change (map fst (map_to_list om)) with (fst <$> map_to_list om).
    rewrite list_elem_of_fmap. split.
    - intros ([k' ob] & -> & H%elem_of_map_to_list). eauto.
    - intros [ob Hob]. exists (k, ob). split; [done|]. by apply elem_of_map_to_list. }
  assert (NoDup ks) as Hnd by (unfold ks; rewrite Hrange; apply NoDup_fst_map_to_list).
  assert (forall l, (forall k, k ∈ l -> is_Some (om !! k)) ->
    map ob_Key (omap (fun k => om !! k) l) = l) as Hmap.
  { induction l as [|k l IH]; intros Hl; [done|]. destruct (Hl k ltac:(left)) as [ob Hob].
    cbn. rewrite Hob. cbn. f_equal; [by apply Hkey|]. apply IH. intros k' Hk'. apply Hl. by right. }
  assert (map ob_Key (omap (fun k => om !! k) (take (Z.to_nat n) ks)) = take (Z.to_nat n) ks) as Htake.
  { apply Hmap. intros k Hk. apply Hks. by eapply elem_of_take in Hk as (i & Hi & _); apply list_elem_of_lookup_2 in Hi. }
  assert (len (omap (fun k => om !! k) (take (Z.to_nat n) ks)) = Z.of_nat (Z.to_nat n `min` length ks)) as Hlen.
  { pose proof (f_equal length Htake) as Hl. rewrite length_map, length_take in Hl. unfold len. lia. }
  split_and!.
  - rewrite Htake. apply (NoDup_app _ (drop (Z.to_nat n) ks)). by rewrite take_drop.
  - rewrite Hlen. lia.
  - intros ob (k & _ & Hob)%list_elem_of_omap. by rewrite (Hkey _ _ Hob).
  - rewrite Hlen. intros Hlt k ob Hob. rewrite take_ge by lia.
    apply list_elem_of_omap. exists k. split; [|done]. apply Hks. eauto.
Qed.

Lemma max_keys_pos v : 0 < max_keys v.
Proof. unfold max_keys. case_bool_decide; [done|]. destruct (Atoi v); [|done]. by destruct (Z.ltb_spec 0 z). Qed.

(** What the listing of bucket [b] shows under key [k]: the object has a shard
    in the store, its key passes the prefix, and GetObject opens it. *)
Definition visible (m : MemStore) (b prefix k : string) (ob : Object) : Prop :=
  has_shard m (objectIDOf b k) /\ list_entry m b prefix k = Some ob.

(** A store ObjectShards can list: one with a shard, or with a marker of the
    empty id, which ObjectShards looks for when there is no shard. *)
Definition listable (m : MemStore) : Prop := shards m <> ∅ \/ is_Some (markers m !! ""%string).

(** Shared by the theorems about listings. *)
Lemma listing_reply r b w :
  bucket_request s r "GET" b -> has_bucket (w_store w) b -> cache_ok (w_cache w) ->
  listable (w_store w) -> (forall l, e_range env l ≡ₚ l) ->
  let m := w_store w in
  let prefix := query_Get r "prefix" in
  let n := max_keys (query_Get r "max-keys") in
  exists reply w' l, (ServeHTTP Unmarshal s env r w = (OK reply, w') /\ w_store w' = m /\
    rp_status reply = 200 /\ rp_body reply = [XMLList l] /\
    li_Name l = b /\ li_Prefix l = prefix /\ li_MaxKeys l = n /\
    li_KeyCount l = len (li_Contents l) /\ li_KeyCount l <= n /\
    li_IsTruncated l = bool_decide (li_KeyCount l = n) /\
    NoDup (map ob_Key (li_Contents l)) /\
    (forall ob, ob ∈ li_Contents l -> visible m b prefix (ob_Key ob) ob) /\
    (li_KeyCount l < n -> forall k ob, visible m b prefix k ob -> ob ∈ li_Contents l)) /\
    li_Delimiter l = query_Get r "delimiter" /\ li_NextContinuationToken l = ""%string /\ li_CommonPrefixes l = [].
Proof.
  destruct w as [c m]. cbn [w_store w_cache]. intros Hr Hb Hc Hne Hrange. cbv zeta.
  set (prefix := query_Get r "prefix"). set (n := max_keys (query_Get r "max-keys")).
  pose proof (max_keys_pos (query_Get r "max-keys")) as Hn. fold n in Hn.
  destruct (ListObjectShards_all m) as (keys & Hl & Hkeys & _).
  assert (ObjectShards o m "" = OK keys) as Hsh.
  { unfold ObjectShards. cbn [ss_ListObjectShards MemStore_ShardStore]. rewrite Hl. cbn [mbind result_bind].
    destruct keys as [|k keys]; [|done]. destruct Hne as [Hne|[meta Hm]].
    - destruct Hne. apply map_eq. intros k. rewrite lookup_empty.
      destruct (shards m !! k) eqn:E; [|done]. exfalso. apply (not_elem_of_nil k), Hkeys. by eexists.
    - cbn [ss_ReadMarker MemStore_ShardStore]. unfold ReadMarker. by rewrite Hm. }
  destruct (list_loop_spec m b prefix keys ∅ c
    (rw_Set requestIDHeader (request_id env r) rw_new) 200 Hc) as (om & c' & _ & Hloop & Hom).
  assert (forall k ob, om !! k = Some ob <-> visible m b prefix k ob) as Hvis.
  { intros k ob. rewrite Hom. unfold listed, visible, has_shard. rewrite lookup_empty. case_decide as Hd.
    - split; [|by intros [_ ?]]. intros H. split; [|done].
      apply list_elem_of_fmap in Hd as (key & Hid & Hk). exists key. split; [done|]. by apply Hkeys.
    - split; [done|]. intros [(key & Hid & Hk) _]. destruct Hd. apply list_elem_of_fmap.
      exists key. split; [done|]. by apply Hkeys. }
  assert (forall k ob, om !! k = Some ob -> ob_Key ob = k) as Hkey.
  { intros k ob [_ H]%Hvis. unfold list_entry in H. destruct (shown b prefix k); [|done].
    destruct (object_size m _); [|done]. by simplify_eq/=. }
  destruct (list_contents_spec om n Hrange Hkey ltac:(lia)) as (H1 & H2 & H3 & H4).
  eexists _, _, _. split; [|shelve]. split; [eapply Serve_run|].
  - destruct (bucket_request_path s r _ _ Hr) as (Hpath & Hbne). rewrite (route_bucket _ _ _ _ _ _ _ Hr).
    change (bucket_handler (S := MemStore) s env "GET" (request_id env r) r) with (handleListObjectsV2 (H := M (Conn MemStore)) s env (request_id env r) r).
    unfold handleListObjectsV2. rewrite Hpath, (bool_decide_eq_false_2 _ Hbne), check_bucket_has by done.
    cbv zeta. on_conn; erewrite call_bind_OK by (cbn [w_store]; by rewrite Hsh).
    fold prefix n. erewrite M_bind_ok by exact Hloop. reflexivity.
  - reflexivity.
  - cbn [rp_status rp_body]. split; [reflexivity|]. split; [reflexivity|]. split; [reflexivity|].
    cbn [li_Name li_Prefix li_MaxKeys li_KeyCount li_Contents li_IsTruncated].
    split_and!; [done..| | | |].
    + rewrite (bool_decide_ext _ (n <= len (list_contents env om n))) by lia.
      destruct (Z.leb_spec n (len (list_contents env om n))); [by rewrite bool_decide_eq_true_2|].
      by rewrite bool_decide_eq_false_2 by lia.
    + done.
    + intros ob Hob. apply Hvis. by apply H3.
    + intros Hlt k ob Hv. by apply (H4 Hlt k), Hvis.
  Unshelve. done.
Qed.

(** C21. The listing of a bucket that exists, for every content of the store. When
    the store has no shard of any object, nor a marker of the empty id, the
    answer is 500 (ObjectShards takes the empty id for that of an object).
    Otherwise the answer is 200; each key occurs once; every entry is a visible
    object of the bucket, with the size GetObject announces; there are at most
    max-keys of them, and if there are fewer, all visible objects are there.
    The store is left alone. Objects without shards, that is empty objects,
    and objects GetObject cannot open are never shown, and IsTruncated is
    set also when nothing was left out. *)
Theorem list_objects_spec r b w :
  bucket_request s r "GET" b -> has_bucket (w_store w) b -> cache_ok (w_cache w) ->
  (forall l, e_range env l ≡ₚ l) ->
  let m := w_store w in
  let prefix := query_Get r "prefix" in
  let n := max_keys (query_Get r "max-keys") in
  (shards m = ∅ -> markers m !! ""%string = None -> answered Unmarshal s env r w 500 w) /\
  (listable m ->
   exists reply w' l, ServeHTTP Unmarshal s env r w = (OK reply, w') /\ w_store w' = m /\
    rp_status reply = 200 /\ rp_body reply = [XMLList l] /\
    li_Name l = b /\ li_Prefix l = prefix /\ li_MaxKeys l = n /\
    li_KeyCount l = len (li_Contents l) /\ li_KeyCount l <= n /\
    li_IsTruncated l = bool_decide (li_KeyCount l = n) /\
    NoDup (map ob_Key (li_Contents l)) /\
    (forall ob, ob ∈ li_Contents l -> visible m b prefix (ob_Key ob) ob) /\
    (li_KeyCount l < n -> forall k ob, visible m b prefix k ob -> ob ∈ li_Contents l)).
Proof.
  intros Hr Hb Hc Hrange. split; [intros Hs Hm; by eapply list_without_shards_fails|]. intros Hne.
  destruct (listing_reply r b w Hr Hb Hc Hne Hrange) as (reply & w' & l & H & _). by exists reply, w', l.
Qed.
End list.

(** * At work *)

Definition ex_list : Request := ex_request "GET" ["pics"]%string {["prefix" := "c"]}%string [].

(** A bucket with a small and an empty object. *)
Definition ex_pics : World (RS := XorRS) MemStore :=
  let put k data w := (ServeHTTP ex_no_parts ex_server ex_env (ex_request "PUT" ["pics"; k]%string ∅ data) w).2 in
  put "crow"%string [] (put "cat"%string data1 ex_world).

(** The empty object "crow" is stored, but not shown. *)
Example ex_listing :
  exists reply, (ServeHTTP ex_no_parts ex_server ex_env ex_list ex_pics).1 = OK reply /\
    rp_body reply = [XMLList (mkList "pics" "c" 1 1000 "" false ""
      [mkObject "cat" (e_time ex_env) (etag 6) 6 "STANDARD" (mkOwner "node-1" "node-1")] [])] /\
    is_Some (markers (w_store ex_pics) !! objectIDOf "pics" "crow").
Proof. eexists. split; [vm_compute; reflexivity|]. split; [reflexivity|]. vm_compute. by eexists. Qed.

Lemma ex_bucket_list b : b <> ""%string -> no_byte "/" b = true ->
  bucket_request ex_server (ex_request "GET" [b] {["prefix" := "c"]}%string []) "GET" b.
Proof. intros H1 H2. split; [apply ex_passes_auth|]. by split_and!. Qed.

Lemma ex_pics_bucket : has_bucket (w_store ex_pics) "pics".
Proof.
  split; [|vm_compute; by eexists]. intros key Hk.
  destruct (shards (w_store ex_pics) !! key) as [x|] eqn:E; [|reflexivity]. exfalso.
  assert (Forall (fun k => k_ObjectID k <> bucketMarkerID "pics") (map fst (map_to_list (shards (w_store ex_pics)))))
    as Hall by (apply (bool_decide_unpack _); vm_compute; exact Logic.I).
  rewrite Forall_forall in Hall. refine (Hall key _ Hk).
  apply list_elem_of_fmap. exists (key, x). split; [reflexivity|]. by apply elem_of_map_to_list.
Qed.

Lemma list_objects_spec_witness :
  (exists reply w' l,
    ServeHTTP ex_no_parts ex_server ex_env ex_list (mkWorld ∅ (w_store ex_pics)) = (OK reply, w') /\
    rp_body reply = [XMLList l] /\ li_KeyCount l = len (li_Contents l) /\ li_KeyCount l <= 1000) /\
  answered ex_no_parts ex_server ex_env ex_list ex_world 500 ex_world.
Proof.
  split.
  - destruct (list_objects_spec ex_no_parts ex_server ex_env (LAWS := ex_laws) ex_params ex_list "pics"
      (mkWorld ∅ (w_store ex_pics))
      (ex_bucket_list "pics" ltac:(discriminate) eq_refl) ex_pics_bucket cache_ok_empty
      ltac:(intros ks; reflexivity)) as [_ H].
    destruct H as (reply & w' & l & H1 & _ & _ & H2 & _ & _ & _ & H3 & H4 & _).
    + left. intros E. apply (f_equal size) in E. revert E. vm_compute. discriminate.
    + exists reply, w', l. split; [exact H1|]. split; [exact H2|]. split; [exact H3|exact H4].
  - apply (list_objects_spec ex_no_parts ex_server ex_env (LAWS := ex_laws) ex_params ex_list "pics" ex_world
      (ex_bucket_list "pics" ltac:(discriminate) eq_refl) ex_has_bucket cache_ok_empty
      ltac:(intros ks; reflexivity)); vm_compute; reflexivity.
Defined.
