(* ===== verification/ApiText.v ===== *)
(** The bytes of a response body (writeXML, writeXMLError, writeJSON and
    io.Copy of api.go), and what a client can read from them. *)
From S2P Require Import Prelude Binary Sha256 EC XorCodec Header ShardStore MemStore ObjectStore ObjectWrite ObjectRead ObjectSpec Contract FileNames Utf8 Xml Json Http S3Types Api ApiServe ApiContract ApiExamples TypeSafe ApiList.

(** * The bytes of a response *)

(** A name in quotes and a colon. *)
Definition json_key (name : string) : bytes := json_string (bytes_of_string name) ++ [":"%byte].

(** json.NewEncoder(w).Encode(v): the fields in order, and a newline. *)
Definition health_text (h : healthResponse) : bytes :=
  "{"%byte :: json_key "status" ++ json_string (bytes_of_string (he_Status h)) ++
  ","%byte :: json_key "node" ++ json_string (bytes_of_string (he_Node h)) ++ ["}"%byte; x0a].

Definition document_text (d : document) : bytes :=
  match d with
  | XMLError e => marshal e
  | XMLList l => marshal l
  | XMLCreate c => marshal c
  | XMLComplete c => marshal c
  | JSONHealth h => health_text h
  | Raw b => b
  end.

Definition body_text (body : list document) : bytes := concat (map document_text body).

(** * Printable documents *)

Definition printable (s : string) : bool := xml_text (bytes_of_string s).

Lemma elem_text name s : tree_text (elem name s) = true <-> printable s = true.
Proof.
  unfold elem, chars, printable. cbn [tree_text]. case_bool_decide as E; [by subst|].
  cbn [forallb tree_text]. by rewrite andb_true_r.
Qed.

Lemma omitempty_text name s : printable s = true -> forallb tree_text (elem_omitempty name s) = true.
Proof.
  intros Hs. unfold elem_omitempty. case_bool_decide; [done|]. cbn [forallb].
  by rewrite (proj2 (elem_text name s) Hs).
Qed.

Lemma printable_FormatInt z : inS 64 z -> printable (FormatInt z) = true.
Proof. intros Hz. apply ascii_text, format_ascii; [by left|done]. Qed.

Lemma bytes_of_app s1 s2 : bytes_of_string (s1 +:+ s2) = bytes_of_string s1 ++ bytes_of_string s2.
Proof.
  induction s1 as [|c s1 IH]; [done|].
  change (byte_of_ascii c :: bytes_of_string (s1 +:+ s2)
    = byte_of_ascii c :: bytes_of_string s1 ++ bytes_of_string s2). by rewrite IH.
Qed.

Lemma printable_etag z : inS 64 z -> printable (etag z) = true.
Proof.
  intros Hz. apply ascii_text. unfold etag. rewrite !bytes_of_app. repeat apply Forall_app_2;
    [|apply format_ascii; [by right|done]|]; (constructor; [vm_compute; split; congruence|done]).
Qed.

Lemma printable_FormatBool b : printable (FormatBool b) = true.
Proof. by destruct b. Qed.

Lemma texts_cons t l : tree_text t = true -> forallb tree_text l = true -> forallb tree_text (t :: l) = true.
Proof. intros H1 H2. cbn [forallb]. by rewrite H1, H2. Qed.

Lemma texts_app l1 l2 : forallb tree_text l1 = true -> forallb tree_text l2 = true ->
  forallb tree_text (l1 ++ l2) = true.
Proof. intros H1 H2. by rewrite forallb_app, H1, H2. Qed.

(** ** Listings *)

(** What a client can read from an entry of a listing, and from the listing. *)
Definition object_printable (ob : Object) : Prop :=
  inS 64 (ob_Size ob) /\
  Forall (fun s => printable s = true)
    [ob_Key ob; ob_LastModified ob; ob_ETag ob; ob_StorageClass ob;
     ow_ID (ob_Owner ob); ow_DisplayName (ob_Owner ob)].

Lemma object_text ob : object_printable ob -> forallb tree_text (xml_fields ob) = true.
Proof.
  intros [Hz H]. repeat (apply Forall_cons in H as [? H]). unfold xml_fields, Object_xml, elem_int, elem_struct.
  do 3 (apply texts_cons; [apply elem_text; assumption|]).
  apply texts_cons; [by apply elem_text, printable_FormatInt|].
  apply texts_cons; [apply elem_text; assumption|]. apply texts_cons; [|done].
  cbn [tree_text]. unfold xml_fields, Owner_xml. do 2 (apply texts_cons; [apply elem_text; assumption|]). done.
Qed.

Lemma elems_text {A} `{XMLStruct A} name (l : list A) :
  Forall (fun a => forallb tree_text (xml_fields a) = true) l -> forallb tree_text (elems name l) = true.
Proof. induction 1 as [|a l Ha _ IH]; [done|]. cbn [elems map forallb elem_struct tree_text]. by rewrite Ha. Qed.

Lemma list_text l :
  Forall (fun s => printable s = true) [li_Name l; li_Prefix l; li_Delimiter l; li_NextContinuationToken l] ->
  inS 64 (li_KeyCount l) -> inS 64 (li_MaxKeys l) -> Forall object_printable (li_Contents l) ->
  li_CommonPrefixes l = [] ->
  unmarshal (marshal l) = Some l.
Proof.
  intros H Hk Hm Hc Hp. repeat (apply Forall_cons in H as [? H]).
  destruct (roundtrip l) as [_ Hr]. apply Hr.
  - cbn. rewrite Hp. split_and!; [done..| |done]. eapply Forall_impl; [exact Hc|]. by intros ob [Hz _].
  - unfold xml_fields, ListObjectsV2Result_xml, elem_int, elem_bool. rewrite Hp.
    repeat apply texts_app; [|by apply omitempty_text| |done].
    + do 2 (apply texts_cons; [apply elem_text; assumption|]).
      do 2 (apply texts_cons; [by apply elem_text, printable_FormatInt|]).
      apply texts_cons; [apply elem_text; assumption|].
      apply texts_cons; [apply elem_text, printable_FormatBool|done].
    + apply elems_text. eapply Forall_impl; [exact Hc|]. apply object_text.
Qed.

Section wire.
Context {RS : ReedSolomon} (Unmarshal : bytes -> option CompleteMultipartUpload).
Context (s : Server) (env : Env).
Context {e : rs_enc} {parity : list bytes -> list bytes}.
Context {LAWS : RSLaws RS (toECParams (params (objectStore s))) e parity}.
Context (Hp : params_ok (toECParams (params (objectStore s)))).

(** The size of an object with a shard is an int64. *)
Lemma object_size_range m id size : id <> ""%string -> has_shard m id ->
  object_size s m id = Some size -> inS 64 size.
Proof.
  intros Hne (key & Hid & Hk). unfold object_size, GetObject.
  cbn [w_store ss_ListObjectShards MemStore_ShardStore].
  destruct (elem_of_ListObjectShards m id Hne) as (keys & -> & Hkeys).
  destruct keys as [|k keys]; [by destruct (not_elem_of_nil key); apply Hkeys|]. cbv zeta.
  destruct (lastStripeLen _ _ _ _) as [n| |]; [|done..].
  unfold mbind, M_bind. destruct (encoder _ _) as [[enc| |] w']; [|done..].
  intros [= <-]. apply wrapS64_range.
Qed.

Lemma visible_printable m b prefix k ob : printable (e_time env) = true -> printable (nodeID s) = true ->
  b <> ""%string -> printable k = true -> visible s env m b prefix k ob -> object_printable ob.
Proof.
  intros Ht Hn Hb Hk [Hs H]. unfold list_entry in H. destruct (shown b prefix k); [|done].
  destruct (object_size s m (objectIDOf b k)) as [size|] eqn:E; [|done]. cbn in H. injection H as <-.
  apply object_size_range in E; [|by apply objectIDOf_nonempty|done].
  split; [done|]. cbn. repeat constructor; try done. by apply printable_etag.
Qed.

Lemma max_keys_range v : inS 64 (max_keys v).
Proof.
  unfold max_keys. assert (inS 64 1000) by (unfold inS; lia). case_bool_decide; [done|].
  destruct (Atoi v) as [n|] eqn:E; [|done]. apply Atoi_range in E. by destruct (0 <? n).
Qed.

(** C22. A client reads the listing that was made. If the store can be listed (it
    has a shard of some object, or a marker of the empty id; otherwise the
    answer is an error document with 500), and if the names that go into it are
    text that XML carries (the bucket, the prefix and the delimiter of the
    request, the node id, the time, the keys), then from the bytes of the
    response body a client recovers the listing: every visible object of the
    bucket with its exact key and size, each key once, up to max-keys of them,
    whatever markup the keys contain. *)
Theorem listing_on_the_wire r b w :
  bucket_request s r "GET" b -> has_bucket (w_store w) b -> cache_ok (w_cache w) ->
  listable (w_store w) -> (forall l, e_range env l ≡ₚ l) ->
  let m := w_store w in
  let prefix := query_Get r "prefix" in
  let n := max_keys (query_Get r "max-keys") in
  Forall (fun t => printable t = true) [b; prefix; query_Get r "delimiter"; e_time env; nodeID s] ->
  (forall k ob, visible s env m b prefix k ob -> printable k = true) ->
  exists reply w' l, ServeHTTP Unmarshal s env r w = (OK reply, w') /\ rp_status reply = 200 /\
    unmarshal (body_text (rp_body reply)) = Some l /\ li_Name l = b /\
    NoDup (map ob_Key (li_Contents l)) /\
    (forall ob, ob ∈ li_Contents l -> visible s env m b prefix (ob_Key ob) ob) /\
    (len (li_Contents l) < n -> forall k ob, visible s env m b prefix k ob -> ob ∈ li_Contents l).
Proof.
  intros Hr Hb Hc Hne Hrange m prefix n Ht Hk.
  destruct (listing_reply Unmarshal s env Hp r b w Hr Hb Hc Hne Hrange)
    as (reply & w' & l & (H1 & _ & H2 & H3 & H4 & H5 & H6 & H7 & H8 & _ & H9 & H10 & H11) & H12 & H13 & H14).
  fold m prefix n in H5, H6, H8, H10, H11.
  exists reply, w', l. split_and!; try done; [|by rewrite <- H7].
  rewrite H3. unfold body_text. cbn [map concat document_text]. rewrite app_nil_r.
  do 5 (apply Forall_cons in Ht as [? Ht]). pose proof (max_keys_range (query_Get r "max-keys")) as Hn. fold n in Hn.
  apply list_text; [|rewrite H7 in *; unfold inS, len in *; lia|by rewrite H6| |done].
  - by rewrite H4, H5, H12, H13; repeat constructor.
  - apply Forall_forall. intros ob Hob. specialize (H10 ob Hob).
    destruct (bucket_request_path s r _ _ Hr) as (_ & Hbne).
    eapply visible_printable; [done|done|exact Hbne| |exact H10]. by eapply Hk.
Qed.
End wire.

(** * Health *)

(** A reader of the health response. *)
Definition read_health (b : bytes) : option healthResponse :=
  l0 ← strip ["{"%byte] b; l1 ← strip (json_key "status") l0; '(status, l2) ← parse_string l1;
  l3 ← strip [","%byte] l2; l4 ← strip (json_key "node") l3; '(node, l5) ← parse_string l4;
  l6 ← strip ["}"%byte; x0a] l5;
  match l6 with [] => Some (mkHealth (string_of_bytes status) (string_of_bytes node)) | _ => None end.

Lemma read_health_text h : printable (he_Status h) = true -> printable (he_Node h) = true ->
  read_health (health_text h) = Some h.
Proof.
  intros Hs Hn. unfold read_health, health_text.
  change ("{"%byte :: ?l) with (["{"%byte] ++ l). rewrite strip_app. cbn [mbind option_bind].
  rewrite strip_app. cbn [mbind option_bind]. rewrite parse_json_string. cbn [mbind option_bind].
  change (","%byte :: ?l) with ([","%byte] ++ l). rewrite strip_app. cbn [mbind option_bind].
  rewrite strip_app. cbn [mbind option_bind]. rewrite parse_json_string. cbn [mbind option_bind].
  change (strip ["}"%byte; x0a] ["}"%byte; x0a]) with (Some (@nil byte)). cbn [mbind option_bind].
  rewrite !json_clean_id by done.
  rewrite !string_bytes_string. by destruct h.
Qed.

(** * At work *)

Lemma listing_on_the_wire_witness :
  exists reply w' l,
    ServeHTTP ex_no_parts ex_server ex_env ex_list (mkWorld ∅ (w_store ex_pics)) = (OK reply, w') /\
    unmarshal (body_text (rp_body reply)) = Some l /\ li_Name l = "pics"%string.
Proof.
  destruct (listing_on_the_wire ex_no_parts ex_server ex_env (LAWS := ex_laws) ex_params ex_list "pics"
    (mkWorld ∅ (w_store ex_pics))
    (ex_bucket_list "pics" ltac:(discriminate) eq_refl) ex_pics_bucket cache_ok_empty)
    as (reply & w' & l & H1 & _ & H2 & H3 & _).
  - left. intros E. apply (f_equal size) in E. revert E. vm_compute. discriminate.
  - intros ks. reflexivity.
  - repeat constructor.
  - intros k ob [(key & Hid & [x Hx]) _].
    assert (Forall (fun k => k_ObjectID k = objectIDOf "pics" "cat") (map fst (map_to_list (shards (w_store ex_pics)))))
      as Hall by (apply (bool_decide_unpack _); vm_compute; exact Logic.I).
    rewrite Forall_forall in Hall. assert (k = "cat"%string) as ->; [|reflexivity].
    apply (objectIDOf_inj "pics"). rewrite <- Hid. apply Hall, list_elem_of_fmap.
    exists (key, x). split; [reflexivity|]. by apply elem_of_map_to_list.
  - exists reply, w', l. split; [exact H1|]. split; [exact H2|exact H3].
Defined.

(** Keys with a character XML cannot carry (\001 and \002 here) are listed
    under names that are not theirs: both as "c" and U+FFFD. *)
Definition ex_control : World (RS := XorRS) MemStore :=
  let put k w := (ServeHTTP ex_no_parts ex_server ex_env (ex_request "PUT" ["pics"; k]%string ∅ data1) w).2 in
  put (String "c" (String "001" "")) (put (String "c" (String "002" "")) ex_world).

Example control_keys_collide :
  exists reply l, (ServeHTTP ex_no_parts ex_server ex_env ex_list ex_control).1 = OK reply /\
    unmarshal (A := ListObjectsV2Result) (body_text (rp_body reply)) = Some l /\
    map ob_Key (li_Contents l) = replicate 2 (string_of_bytes ("c"%byte :: replacement)).
Proof. eexists _, _. split; [vm_compute; reflexivity|]. split; vm_compute; reflexivity. Qed.

(** A body of a complete call, read by the reader of Xml. *)
Example ex_complete_body :
  unmarshal (A := CompleteMultipartUpload) (marshal (mkComplete [mkPart 1 "x&y"; mkPart 2 "<"]))
  = Some (mkComplete [mkPart 1 "x&y"; mkPart 2 "<"]).
Proof. vm_compute. reflexivity. Qed.
