(* ===== verification/MapApi.v ===== *)
(** The HTTP server over the map of [ObjectMap]: the handlers of [Api], read
    with their calls of the object store answered by the abstract map. The
    server over a MemStore sends the replies of this server, to any sequence of
    requests and through any damage of shards that leaves each stripe [k]
    valid ones. *)
From stdpp Require Import relations.
From S2P Require Import Prelude Binary Sha256 EC XorCodec Header ShardStore MemStore ObjectStore ObjectWrite ObjectRead ObjectSpec Contract FileNames ObjectMap Http S3Types Api ApiLogic ApiServe ApiContract ApiExamples ApiRefine ApiList.

(** * The handlers over the map *)

(** The state of a request: the map, and the response as in [Conn]. *)
Record MapConn := mkMapConn {
  mc_map : object_map;
  mc_rw : ResponseWriter document;
  mc_status : Z;
}.

(** A call of the map. *)
Definition map_call {A} (f : object_map -> result A * object_map) : M MapConn (error + A) := fun c =>
  let '(r, sp) := f (mc_map c) in
  let c' := mkMapConn sp (mc_rw c) (mc_status c) in
  match r with
  | OK a => (OK (inr a), c')
  | Err err => (OK (inl err), c')
  | Panicked msg => (Panicked msg, c')
  end.

Definition map_resp (f : ResponseWriter document -> ResponseWriter document) (st : Z -> Z) : M MapConn unit := fun c =>
  (OK tt, mkMapConn (mc_map c) (f (mc_rw c)) (st (mc_status c))).

Section ops.
Context {RS : ReedSolomon} {e : rs_enc}.

(** Requests beyond the bounds of the map panic in this reading: a put of
    2^32 stripes or more, an empty id, a loop bound that is too small. *)
Definition map_put (o : ObjectStore) (id : string) (r : Reader) (size : Z) (sp : object_map)
    : result unit * object_map :=
  if (- 2 ^ 63 <=? size) && (size <? 2 ^ 63) && (size <=? stripeSize o * (2 ^ 32 - 1))
  then spec_put o id r size sp else (Panicked "too many stripes", sp).

Definition map_get (o : ObjectStore) (id : string) (sp : object_map) : result (reader * Z) * object_map :=
  (if bool_decide (id = ""%string) then Panicked "empty id" else spec_open o (e := e) id sp, sp).

Definition map_delete (id : string) (sp : object_map) : result unit * object_map :=
  if bool_decide (id = ""%string) then (Panicked "empty id", sp) else (OK tt, spec_delete id sp).

(** One key for each object that has stripes. *)
Definition map_keys (sp : object_map) : list ShardKey :=
  map (fun x => mkKey x.1 0 0) (filter (fun x => x.2 <> []) (map_to_list (o_stripes sp))).

(** ObjectShards is called for all objects only. *)
Definition map_shards (id : string) (sp : object_map) : result (list ShardKey) * object_map :=
  (if bool_decide (id = ""%string) then
     match map_keys sp with
     | [] => match o_markers sp !! ""%string with Some _ => OK [] | None => Err ErrObjectNotFound end
     | keys => OK keys
     end
   else Panicked "not a listing", sp).

Definition map_read (fuel : nat) (rd : reader) (sp : object_map) : result (bytes * option error) :=
  match rd with
  | emptyReader => if (0 <? fuel)%nat then OK ([], None) else Panicked "fuel"
  | stripeReader r =>
      let stripes := stored sp (r_objectID r) in
      if bool_decide (stripes <> []) && bool_decide (r_totalStripes r = len stripes)
         && (length (concat stripes) <? fuel)%nat
      then OK (concat stripes, None) else Panicked "fuel"
  end.

#[local] Instance Map_ops : HandlerOps (M MapConn) := {
  store_PutObject o id r size := map_call (map_put o id r size);
  store_GetObject o id := map_call (map_get o id);
  store_DeleteObject o id := map_call (map_delete id);
  store_ObjectShards o id := map_call (map_shards id);
  reader_ReadAll fuel sizes rd := fun c => (map_read fuel rd (mc_map c), c);
  resp_Set key value := map_resp (rw_Set key value) (fun st => st);
  resp_WriteHeader code := map_resp (rw_WriteHeader code) (fun _ => code);
  resp_Write d := map_resp (rw_Write d) (fun st => st);
}.

(** ServeHTTP, over the map. *)
Definition ServeMap (Unmarshal : bytes -> option CompleteMultipartUpload) (s : Server) (env : Env) (r : Request)
    (sp : object_map) : result Reply * object_map :=
  let id := request_id env r in
  match auth (H := M MapConn) s (mux Unmarshal s env) id r (mkMapConn sp (rw_Set requestIDHeader id rw_new) 200) with
  | (OK _, c) =>
      let '(status, hs, body) := rw_finish (mc_rw c) in
      (OK (mkReply status hs body (mkLog id (rq_Method r) (URL_Path r) (mc_status c))), mc_map c)
  | (Err err, c) => (Err err, mc_map c)
  | (Panicked msg, c) => (Panicked msg, mc_map c)
  end.
End ops.

(** A handler's calls, as calls of the map. *)
Ltac on_map := cbn [store_PutObject store_GetObject store_DeleteObject store_ObjectShards reader_ReadAll
  resp_Set resp_WriteHeader resp_Write Map_ops].

(** * The handlers over a MemStore do the same *)

Lemma bind_panicked {St A B} (m : M St A) (f : A -> M St B) st msg st' :
  m st = (Panicked msg, st') -> (m ≫= f) st = (Panicked msg, st').
Proof. unfold mbind, M_bind. by intros ->. Qed.

Section sim.
Context {RS : ReedSolomon} (Unmarshal : bytes -> option CompleteMultipartUpload) (s : Server) (env : Env).
Context {e : rs_enc} {parity : list bytes -> list bytes}.
Context {LAWS : RSLaws RS (toECParams (params (objectStore s))) e parity}.
Context (Hp : params_ok (toECParams (params (objectStore s)))) (Hss : 0 < stripeSize (objectStore s)).
Context (Hsizes : forall i, (0 < e_sizes env i)%nat).

Abbreviation o := (objectStore s).
Abbreviation MapH := (M MapConn).
#[local] Instance ops : HandlerOps MapH := Map_ops (e := e).

(** The store holds the map, and the responses are the same. *)
Definition conn_holds (c1 : MapConn) (c2 : Conn MemStore) : Prop :=
  (cache_ok (w_cache (c_world c2)) /\ represents o (parity:=parity) (mc_map c1) (w_store (c_world c2))) /\
  c_rw c2 = mc_rw c1 /\ c_status c2 = mc_status c1.

(** Where the reading over the map does not panic, the other does the same. *)
Definition agrees {A} (P : A -> Prop) (m1 : MapH A) (m2 : M (Conn MemStore) A) : Prop :=
  forall c1 c2, conn_holds c1 c2 ->
  match m1 c1 with
  | (Panicked _, _) => True
  | (x, c1') => (m2 c2).1 = x /\ conn_holds c1' (m2 c2).2 /\ match x with OK a => P a | _ => True end
  end.

Abbreviation agree := (agrees (fun _ => True)).

Lemma alike_ret {A} (a : A) : agree (mret a) (mret a).
Proof. by intros c1 c2 H. Qed.

Lemma agrees_bind {A B} (P : A -> Prop) (Q : B -> Prop) (m1 : MapH A) m2 (f1 : A -> MapH B) f2 :
  agrees P m1 m2 -> (forall a, P a -> agrees Q (f1 a) (f2 a)) -> agrees Q (a ← m1; f1 a) (a ← m2; f2 a).
Proof.
  intros Hm Hf c1 c2 H. specialize (Hm c1 c2 H). unfold mbind, M_bind.
  destruct (m1 c1) as [[a|err|msg] c1'], (m2 c2) as [x2 c2']; cbn [fst snd] in *; [| |done].
  - destruct Hm as (-> & H' & Ha). by apply Hf.
  - by destruct Hm as (-> & H' & _).
Qed.

Lemma alike_seq {A B} (m1 : MapH A) m2 (f1 : A -> MapH B) f2 :
  agree m1 m2 -> (forall a, agree (f1 a) (f2 a)) -> agree (a ← m1; f1 a) (a ← m2; f2 a).
Proof. intros Hm Hf. by eapply agrees_bind. Qed.

Lemma alike_if {A} (b : bool) (m1 n1 : MapH A) m2 n2 :
  agree m1 m2 -> agree n1 n2 -> agree (if b then m1 else n1) (if b then m2 else n2).
Proof. by destruct b. Qed.

Lemma agrees_weaken {A} (P Q : A -> Prop) (m1 : MapH A) m2 :
  (forall a, P a -> Q a) -> agrees P m1 m2 -> agrees Q m1 m2.
Proof.
  intros HPQ Hm c1 c2 H. specialize (Hm c1 c2 H). destruct (m1 c1) as [[a|err|msg] c1']; [|done..].
  destruct Hm as (H1 & H2 & H3). auto.
Qed.

(** A call of the map, and the call of the store it stands for. *)
Definition call_agrees {A} (P : A -> Prop) (f : object_map -> result A * object_map) (m : M (World MemStore) A) : Prop :=
  forall sp c st, cache_ok c -> represents o (parity:=parity) sp st ->
  match f sp with
  | (Panicked _, _) => True
  | (x, sp') => exists c' st', m (mkWorld c st) = (x, mkWorld c' st') /\ cache_ok c' /\
                  represents o (parity:=parity) sp' st' /\ match x with OK a => P a | _ => True end
  end.

Lemma agrees_call {A} (P : A -> Prop) f (m : M (World MemStore) A) : call_agrees P f m ->
  agrees (fun x => match x with inr a => P a | inl _ => True end) (map_call f) (call m).
Proof.
  intros Hf [sp rw st] [[c m0] rw2 st2] ((Hc & R) & Hrw & Hst). cbn [c_world mc_map c_rw mc_rw c_status mc_status] in *.
  specialize (Hf sp c m0 Hc R). unfold map_call, call. cbn [c_world mc_map].
  destruct (f sp) as [[a|err|msg] sp']; [| |done]; destruct Hf as (c' & st' & -> & Hc' & R' & Ha); subst; done.
Qed.

Lemma alike_call {A} (P : A -> Prop) f (m : M (World MemStore) A) : call_agrees P f m -> agree (map_call f) (call m).
Proof. intros Hf. eapply agrees_weaken; [done|by apply (agrees_call P)]. Qed.

(** ** The calls *)

Lemma put_agrees id r size : call_agrees (fun _ => True) (map_put o id r size) (PutObject o id r size).
Proof.
  intros sp c m Hc R. unfold map_put. destruct (_ && _) eqn:E; [|done].
  apply andb_prop in E as [[E1 E2]%andb_prop E3]. rewrite Z.leb_le in E1, E3. rewrite Z.ltb_lt in E2.
  assert (object_call_ok o (PutCall id r size)) as Hok by (split; [unfold inS; lia|done]).
  destruct (answers_put o Hp Hss sp id r size (mkWorld c m) Hok (conj Hc R)) as [H1 [H2 H3]].
  cbn [do_object spec_call] in *. destruct (spec_put o id r size sp) as [x sp'].
  destruct (PutObject o id r size (mkWorld c m)) as [x2 [c' m']]. cbn in *. injection H1 as ->.
  assert (forall P : Prop, P -> match x with Panicked _ => True | _ => P end) as Hx by (by destruct x).
  apply Hx. exists c', m'. by destruct x.
Qed.

(** The readers GetObject hands out. *)
Definition opened (rd : reader) : Prop :=
  match rd with
  | emptyReader => True
  | stripeReader r => exists id T, id <> ""%string /\ r = reader_at (e:=e) o id T 0 [] 0
  end.

Lemma get_agrees id : call_agrees (fun x => opened x.1) (map_get (e:=e) o id) (GetObject o id).
Proof.
  intros sp c m Hc R. unfold map_get. case_bool_decide as Hid; [done|].
  destruct (get_held o Hp Hss sp id c m R Hid Hc) as (c' & Hc' & Hg). rewrite Hg. unfold spec_open.
  destruct (stored sp id) as [|x l].
  - destruct (o_markers sp !! id); by exists c', m.
  - exists c', m. split_and!; [done..|]. cbn. eauto.
Qed.

Lemma delete_agrees id : call_agrees (fun _ => True) (map_delete id) (DeleteObject o id).
Proof.
  intros sp c m Hc R. unfold map_delete. case_bool_decide as Hid; [done|].
  destruct (answers_delete o Hss sp id (mkWorld c m) Hid (conj Hc R)) as [H1 [H2 H3]].
  cbn [do_object] in *. destruct (DeleteObject o id (mkWorld c m)) as [x [c' m']]. cbn in *.
  injection H1 as ->. by exists c', m'.
Qed.

Lemma agrees_read rd : opened rd ->
  agree (reader_ReadAll (HandlerOps := ops) (e_fuel env) (e_sizes env) rd) (read_all (e_fuel env) (e_sizes env) rd).
Proof.
  intros Hrd [sp rw st] [[c m] rw2 st2] H. pose proof H as ((Hc & R) & _). cbn [c_world mc_map w_store] in *.
  unfold ops. on_map. cbn [mc_map]. unfold read_all, map_read. cbn [c_world w_store fst snd].
  destruct rd as [|r].
  - destruct (Nat.ltb_spec 0 (e_fuel env)) as [Hf|]; [|done]. by destruct (e_fuel env); [lia|].
  - destruct Hrd as (id & T & Hid & ->). cbn [r_objectID r_totalStripes reader_at].
    destruct (_ && _) eqn:E; [|done]. apply andb_prop in E as [[E1 E2]%andb_prop E3].
    apply bool_decide_eq_true in E1, E2. apply Nat.ltb_lt in E3. subst T.
    destruct (stripes_held o Hp Hss sp id c m R Hid Hc E1) as (_ & _ & _ & Hread). by rewrite Hread.
Qed.

(** A call of the response writer. *)
Lemma alike_resp f st :
  agree (map_resp f st) (fun c => (OK tt, mkConn (c_world c) (f (c_rw c)) (st (c_status c)))).
Proof. intros c1 c2 (H1 & H2 & H3). cbn. split; [done|]. split; [|done]. split; [done|]. cbn. by rewrite H2, H3. Qed.

Lemma alike_Set key value : agree (resp_Set key value) (Set_ key value).
Proof. apply alike_resp. Qed.

Lemma alike_WriteHeader code : agree (resp_WriteHeader code) (WriteHeader code).
Proof. apply alike_resp. Qed.

Lemma alike_Write d : agree (resp_Write d) (Write d).
Proof. apply alike_resp. Qed.

Lemma alike_put id r size : agree (store_PutObject o id r size) (call (PutObject o id r size)).
Proof. eapply alike_call, put_agrees. Qed.

Lemma alike_get id : agree (store_GetObject o id) (call (GetObject o id)).
Proof. eapply alike_call, get_agrees. Qed.

Lemma alike_delete id : agree (store_DeleteObject o id) (call (DeleteObject o id)).
Proof. eapply alike_call, delete_agrees. Qed.

(** A get of which the reader is used. *)
Lemma alike_get_reader {B} id (f1 : error + (reader * Z) -> MapH B) (f2 : error + (reader * Z) -> M (Conn MemStore) B) :
  (forall err, agree (f1 (inl err)) (f2 (inl err))) ->
  (forall rd size, opened rd -> agree (f1 (inr (rd, size))) (f2 (inr (rd, size)))) ->
  agree (x ← store_GetObject o id; f1 x) (x ← call (GetObject o id); f2 x).
Proof.
  intros Herr Hok. eapply agrees_bind; [apply agrees_call, get_agrees|]. intros [err|[rd size]] Hx; [done|].
  by apply Hok.
Qed.

Lemma alike_copy_body rd : opened rd -> agree (copy_body env rd) (copy_body env rd).
Proof.
  intros Hrd. unfold copy_body. apply alike_seq; [by apply agrees_read|].
  intros [[|b data] err]; [apply alike_ret|apply alike_Write].
Qed.

Lemma alike_read_part rd : opened rd -> agree (read_part env rd) (read_part env rd).
Proof.
  intros Hrd. unfold read_part. apply alike_seq; [by apply agrees_read|]. intros [data err]. apply alike_ret.
Qed.

#[local] Hint Resolve alike_ret alike_put alike_get alike_delete alike_Set alike_WriteHeader alike_Write
  alike_copy_body alike_read_part : core.

(** Follow the text of a handler in both readings. *)
Ltac follow := repeat first
  [ progress intros
  | solve [eauto 2]
  | match goal with
    | |- agrees _ (if _ then _ else _) _ => apply alike_if
    | |- agrees _ (match ?x with _ => _ end) _ => destruct x eqn:?
    end
  | apply alike_seq ].

Lemma alike_writeXMLError reqID status code msg r :
  agree (writeXMLError s reqID status code msg r) (writeXMLError s reqID status code msg r).
Proof. unfold writeXMLError. follow. Qed.

Lemma alike_writeXML status d : agree (writeXML status d) (writeXML status d).
Proof. unfold writeXML. follow. Qed.
#[local] Hint Resolve alike_writeXMLError alike_writeXML : core.

Lemma alike_check_bucket reqID b r k1 k2 : agree k1 k2 ->
  agree (check_bucket s reqID b r k1) (check_bucket s reqID b r k2).
Proof. intros Hk. unfold check_bucket. follow. Qed.

Lemma alike_list_loop bucket prefix keys : forall om,
  agree (list_loop s env bucket prefix keys om) (list_loop s env bucket prefix keys om).
Proof. induction keys as [|k keys IH]; intros om; cbn [list_loop]; follow. Qed.

Lemma alike_read_parts oid uid parts : forall data,
  agree (read_parts s env oid uid parts data) (read_parts s env oid uid parts data).
Proof.
  induction parts as [|part parts IH]; intros data; cbn [read_parts]; [auto|].
  apply alike_get_reader; [auto|]. intros rd size Hrd. apply alike_seq; auto.
Qed.

Lemma alike_delete_parts oid uid parts : agree (delete_parts s oid uid parts) (delete_parts s oid uid parts).
Proof. induction parts as [|part parts IH]; cbn [delete_parts]; follow. Qed.
#[local] Hint Resolve alike_check_bucket alike_list_loop alike_read_parts alike_delete_parts : core.

(** ** The listing *)

Lemma elem_of_map_keys sp id : id ∈ map k_ObjectID (map_keys sp) <-> stored sp id <> [].
Proof.
  unfold map_keys. rewrite map_map. cbn [k_ObjectID].
  change (map (fun x : string * list bytes => x.1)) with (fmap (M := list) (@fst string (list bytes))).
  rewrite list_elem_of_fmap. unfold stored. split.
  - intros ([id' l] & -> & [Hl H%elem_of_map_to_list]%list_elem_of_filter). cbn in *. by rewrite H.
  - intros H. destruct (o_stripes sp !! id) as [l|] eqn:E; [|done]. exists (id, l). split; [done|].
    apply list_elem_of_filter. split; [exact H|]. by apply elem_of_map_to_list.
Qed.

(** The objects that have shards in the store are those that have stripes. *)
Lemma listed_ids sp m keys : represents o (parity:=parity) sp m ->
  (forall k, k ∈ keys <-> is_Some (shards m !! k)) ->
  forall id, id ∈ map k_ObjectID keys <-> stored sp id <> [].
Proof.
  intros R Hkeys id. split.
  - intros (k & -> & Hk%Hkeys)%list_elem_of_fmap. destruct R as (_ & Hin & _). apply Hin in Hk as [_ Hk].
    intros E. rewrite E in Hk. unfold len in Hk. cbn in Hk. lia.
  - intros Hne. destruct (stripe_has_shard o Hp sp m id 0 R) as (j & _ & Hj).
    { destruct (stored sp id); [done|]. eauto. }
    apply list_elem_of_fmap. exists (mkKey id (Z.of_nat 0) j). split; [done|]. by apply Hkeys.
Qed.

(** ObjectShards of everything, in the store and in the map. *)
Lemma shards_agree sp m : represents o (parity:=parity) sp m ->
  (map_shards "" sp).1 = ObjectShards o m "" \/
  exists keys1 keys2, (map_shards "" sp).1 = OK keys1 /\ ObjectShards o m "" = OK keys2 /\
    forall id, id ∈ map k_ObjectID keys1 <-> id ∈ map k_ObjectID keys2.
Proof.
  intros R. destruct (ListObjectShards_all m) as (keys & Hl & Hkeys & _).
  pose proof (listed_ids sp m keys R Hkeys) as Hids. pose proof (elem_of_map_keys sp) as Hmap.
  unfold ObjectShards. cbn [ss_ListObjectShards MemStore_ShardStore]. rewrite Hl. cbn [mbind result_bind].
  unfold map_shards. rewrite bool_decide_eq_true_2 by done. cbn [fst].
  destruct (map_keys sp) as [|k1 keys1], keys as [|k2 keys2].
  - left. cbn [ss_ReadMarker MemStore_ShardStore]. unfold ReadMarker. rewrite (proj1 R).
    by destruct (o_markers sp !! ""%string).
  - exfalso. assert (k_ObjectID k2 ∈ map k_ObjectID []) as H by (apply Hmap, Hids; left). by apply not_elem_of_nil in H.
  - exfalso. assert (k_ObjectID k1 ∈ map k_ObjectID []) as H by (apply Hids, Hmap; left). by apply not_elem_of_nil in H.
  - right. eexists _, _. split; [done|]. split; [done|]. intros id. by rewrite Hmap, Hids.
Qed.

(** The loop over the keys does not depend on their order and repetition. *)
Lemma list_loop_ids bucket prefix keys1 keys2 c1 c2 : conn_holds c1 c2 ->
  (forall id, id ∈ map k_ObjectID keys1 <-> id ∈ map k_ObjectID keys2) ->
  match list_loop (H := MapH) s env bucket prefix keys1 ∅ c1 with
  | (Panicked _, _) => True
  | (x, c1') => exists c2', list_loop (H := M (Conn MemStore)) s env bucket prefix keys2 ∅ c2 = (x, c2') /\ conn_holds c1' c2'
  end.
Proof.
  intros H Hids. pose proof (alike_list_loop bucket prefix keys1 ∅ c1 c2 H) as Ha.
  destruct c2 as [[c m] rw st]. pose proof H as ((Hc & _) & _). cbn [c_world w_cache] in Hc.
  destruct (list_loop_spec s env Hp m bucket prefix keys1 ∅ c rw st Hc) as (om1 & c3 & Hc3 & E1 & H1).
  destruct (list_loop_spec s env Hp m bucket prefix keys2 ∅ c rw st Hc) as (om2 & c4 & Hc4 & E2 & H2).
  assert (om1 = om2) as ->.
  { apply map_eq. intros k. rewrite H1, H2. unfold listed. rewrite lookup_empty.
    by rewrite (decide_ext _ _ _ _ (Hids (objectIDOf bucket k))). }
  rewrite E1 in Ha. cbn [fst snd] in Ha.
  destruct (list_loop (H := MapH) s env bucket prefix keys1 ∅ c1) as [[x|err|msg] c1']; [| |done];
    destruct Ha as (Hx & ((_ & R) & Hrw) & _); simplify_eq.
  eexists. split; [exact E2|]. by split.
Qed.

(** Asking for all shards, in both readings. *)
Lemma map_shards_bind {B} (f : error + list ShardKey -> MapH B) (c : MapConn) :
  (x ← store_ObjectShards o ""; f x) c
  = match (map_shards "" (mc_map c)).1 with OK keys => f (inr keys) c | Err err => f (inl err) c
    | Panicked msg => (Panicked msg, c) end.
Proof.
  destruct c as [sp rw st]. unfold mbind, M_bind. cbn [store_ObjectShards ops Map_ops]. unfold map_call. cbn [mc_map].
  assert ((map_shards "" sp).2 = sp) as Hsp by done.
  destruct (map_shards "" sp) as [x sp']. cbn [fst snd] in *. subst sp'. by destruct x.
Qed.

Lemma store_shards_bind {B} (f : error + list ShardKey -> M (Conn MemStore) B) (c : Conn MemStore) :
  (x ← store_ObjectShards o ""; f x) c
  = match ObjectShards o (w_store (c_world c)) "" with OK keys => f (inr keys) c | Err err => f (inl err) c
    | Panicked msg => (Panicked msg, c) end.
Proof.
  destruct c as [w rw st]. unfold mbind, M_bind. cbn [store_ObjectShards Conn_ops]. unfold call. cbn [c_world].
  by destruct (ObjectShards o (w_store w) "").
Qed.

(** The part of handleListObjectsV2 that asks for the objects. *)
Lemma alike_listing bucket prefix (f1 : error -> MapH unit) (f2 : error -> M (Conn MemStore) unit) k1 k2 :
  (forall err, agree (f1 err) (f2 err)) -> (forall om, agree (k1 om) (k2 om)) ->
  agree (x ← store_ObjectShards o ""; match x with inl err => f1 err
           | inr keys => om ← list_loop s env bucket prefix keys ∅; k1 om end)
        (x ← store_ObjectShards o ""; match x with inl err => f2 err
           | inr keys => om ← list_loop s env bucket prefix keys ∅; k2 om end).
Proof.
  intros Hf Hk c1 c2 H. pose proof H as ((_ & R) & _). rewrite map_shards_bind, store_shards_bind.
  destruct (shards_agree _ _ R) as [E|(keys1 & keys2 & E & E2 & Hids)]; rewrite E.
  - destruct (ObjectShards o (w_store (c_world c2)) "") as [keys|err|msg]; [|by apply Hf|done].
    by apply (alike_seq (list_loop s env bucket prefix keys ∅) (list_loop s env bucket prefix keys ∅) k1 k2); [auto|..].
  - rewrite E2. pose proof (list_loop_ids bucket prefix keys1 keys2 _ _ H Hids) as Hl.
    destruct (list_loop (H := MapH) s env bucket prefix keys1 ∅ c1) as [[om|err|msg] c1'] eqn:E1.
    + destruct Hl as (c2' & El & H'). rewrite (M_bind_ok _ _ _ _ _ E1), (M_bind_ok _ _ _ _ _ El). by apply Hk.
    + destruct Hl as (c2' & El & H'). rewrite (M_bind_err _ _ _ _ _ E1), (M_bind_err _ _ _ _ _ El). done.
    + by rewrite (bind_panicked _ _ _ _ _ E1).
Qed.

(** ** The handlers *)

Lemma alike_handleListObjectsV2 reqID r : agree (handleListObjectsV2 s env reqID r) (handleListObjectsV2 s env reqID r).
Proof.
  unfold handleListObjectsV2. destruct (parsePathValues (URL_Path r)) as [bucket object]. apply alike_if; [auto|].
  apply alike_check_bucket. cbv zeta. apply alike_listing; auto.
Qed.

Lemma alike_handleGetObject reqID r : agree (handleGetObject s env reqID r) (handleGetObject s env reqID r).
Proof.
  unfold handleGetObject. destruct (parsePathValues (URL_Path r)) as [bucket object]. apply alike_if; [auto|].
  apply alike_check_bucket. apply alike_get_reader; [follow|]. intros rd size Hrd. follow.
Qed.

Lemma alike_completeMultipartUpload reqID bucket object uid r :
  agree (completeMultipartUpload Unmarshal s env reqID bucket object uid r)
        (completeMultipartUpload Unmarshal s env reqID bucket object uid r).
Proof. unfold completeMultipartUpload, completeUpload. follow. Qed.
#[local] Hint Resolve alike_handleListObjectsV2 alike_handleGetObject alike_completeMultipartUpload : core.

Lemma alike_mux reqID r : agree (mux Unmarshal s env reqID r) (mux Unmarshal s env reqID r).
Proof.
  unfold mux, methodNotAllowed, http_Error, handleHealth, writeJSON, handleCreateBucket, handleDeleteBucket,
    handleHeadBucket, handlePutObject, handleHeadObject, handleDeleteObject, handleMultipartOperations,
    createMultipartUpload, uploadPart, abortMultipartUpload.
  destruct (parsePathValues (URL_Path r)) as [bucket object]. follow.
Qed.

Lemma alike_auth reqID r : agree (auth s (mux Unmarshal s env) reqID r) (auth s (mux Unmarshal s env) reqID r).
Proof. unfold auth. pose proof (alike_mux reqID r). follow. Qed.

(** A request that stays within the bounds of the map gets its reply. *)
Lemma ServeHTTP_map r sp sp' c m reply : cache_ok c -> represents o (parity:=parity) sp m ->
  ServeMap (e := e) Unmarshal s env r sp = (OK reply, sp') ->
  exists c' m', ServeHTTP Unmarshal s env r (mkWorld c m) = (OK reply, mkWorld c' m') /\
    cache_ok c' /\ represents o (parity:=parity) sp' m'.
Proof.
  intros Hc R. unfold ServeMap, ServeHTTP. fold (request_id env r). set (id := request_id env r).
  set (rw := rw_Set requestIDHeader id rw_new : ResponseWriter document).
  pose proof (alike_auth id r (mkMapConn sp rw 200) (mkConn (mkWorld c m) rw 200)) as Ha.
  specialize (Ha (conj (conj Hc R) (conj eq_refl eq_refl))). unfold ops in Ha.
  destruct (auth (H := MapH) s (mux Unmarshal s env) id r (mkMapConn sp rw 200)) as [[[]|err|msg] c1'] eqn:E1;
    [|done..].
  destruct (auth (H := M (Conn MemStore)) s (mux Unmarshal s env) id r _) as [x2 [[c' m'] rw' st']].
  cbn [fst snd] in Ha. destruct Ha as (-> & ((Hc' & R') & Hrw & Hst) & _). cbn [snd c_rw c_status c_world w_cache w_store] in *. subst rw' st'.
  destruct (rw_finish (mc_rw c1')) as [[status hs] body]. intros [= <- <-]. by exists c', m'.
Qed.
End sim.

(** * Requests within bounds *)

(** A size PutObject takes: an int64, and fewer than 2^32 stripes. *)
Definition fits (o : ObjectStore) (size : Z) : Prop := inS 64 size /\ size <= stripeSize o * (2 ^ 32 - 1).

(** The data of the parts of an upload. *)
Definition parts_data (sp : object_map) (oid uid : string) (parts : list CompleteMultipartPart) : bytes :=
  concat (map (fun part => concat (stored sp (partMarkerID oid uid (pa_PartNumber part)))) parts).

(** The request stays within the bounds of the map: its buffers are not empty,
    the bound on its reading loops is beyond the largest object, and what it
    puts fits. *)
Record in_bounds (Unmarshal : bytes -> option CompleteMultipartUpload) (s : Server) (env : Env) (r : Request)
    (sp : object_map) : Prop := {
  ib_sizes i : (0 < e_sizes env i)%nat;
  ib_fuel id : (length (concat (stored sp id)) < e_fuel env)%nat;
  ib_length : fits (objectStore s) (rq_ContentLength r);
  ib_parts c bucket object : Unmarshal (pending (rq_Body r)) = Some c -> parsePathValues (URL_Path r) = (bucket, object) ->
    fits (objectStore s) (len (parts_data sp (objectIDOf bucket object) (query_Get r "uploadId") (cu_Parts c)));
}.

Section bounds.
Context {RS : ReedSolomon} (Unmarshal : bytes -> option CompleteMultipartUpload) (s : Server) (env : Env).
Context {e : rs_enc} (r : Request) (sp : object_map) (Hb : in_bounds Unmarshal s env r sp).
Context (Hss : 0 < stripeSize (objectStore s)).

Abbreviation o := (objectStore s).
Abbreviation MapH := (M MapConn).
#[local] Instance bounds_ops : HandlerOps MapH := Map_ops (e := e).

(** A computation that returns, on the map [sp]. *)
Definition returns {A} (m : MapH A) : Prop := forall c, mc_map c = sp -> exists a c', m c = (OK a, c').

(** It returns an [a] of [P] and leaves the map as it was. *)
Definition quiet {A} (P : A -> Prop) (m : MapH A) : Prop :=
  forall c, mc_map c = sp -> exists a c', m c = (OK a, c') /\ mc_map c' = sp /\ P a.

(** It returns on any map. *)
Definition always {A} (m : MapH A) : Prop := forall c, exists a c', m c = (OK a, c').

Abbreviation any := (fun _ => True).

Lemma always_returns {A} (m : MapH A) : always m -> returns m.
Proof. intros Hm c _. apply Hm. Qed.

Lemma quiet_returns {A} P (m : MapH A) : quiet P m -> returns m.
Proof. intros Hm c Hc. destruct (Hm c Hc) as (a & c' & E & _). eauto. Qed.

Lemma returns_bind {A B} P (m : MapH A) (f : A -> MapH B) :
  quiet P m -> (forall a, P a -> returns (f a)) -> returns (a ← m; f a).
Proof.
  intros Hm Hf c Hc. destruct (Hm c Hc) as (a & c' & E & Hc' & Ha). rewrite (M_bind_ok _ _ _ _ _ E). by apply Hf.
Qed.

Lemma quiet_bind {A B} P Q (m : MapH A) (f : A -> MapH B) :
  quiet P m -> (forall a, P a -> quiet Q (f a)) -> quiet Q (a ← m; f a).
Proof.
  intros Hm Hf c Hc. destruct (Hm c Hc) as (a & c' & E & Hc' & Ha). rewrite (M_bind_ok _ _ _ _ _ E). by apply Hf.
Qed.

Lemma always_bind {A B} (m : MapH A) (f : A -> MapH B) :
  always m -> (forall a, always (f a)) -> always (a ← m; f a).
Proof. intros Hm Hf c. destruct (Hm c) as (a & c' & E). rewrite (M_bind_ok _ _ _ _ _ E). apply Hf. Qed.

Lemma returns_then {A B} (m : MapH A) (f : A -> MapH B) :
  returns m -> (forall a, always (f a)) -> returns (a ← m; f a).
Proof. intros Hm Hf c Hc. destruct (Hm c Hc) as (a & c' & E). rewrite (M_bind_ok _ _ _ _ _ E). apply Hf. Qed.

Lemma always_if {A} (b : bool) (m n : MapH A) : always m -> always n -> always (if b then m else n).
Proof. by destruct b. Qed.

Lemma returns_if {A} (b : bool) (m n : MapH A) : returns m -> returns n -> returns (if b then m else n).
Proof. by destruct b. Qed.

Lemma quiet_if {A} P (b : bool) (m n : MapH A) : quiet P m -> quiet P n -> quiet P (if b then m else n).
Proof. by destruct b. Qed.

(** ** The calls *)

Lemma always_ret {A} (a : A) : always (mret a).
Proof. intros c. by eexists _, _. Qed.

Lemma quiet_ret {A} (P : A -> Prop) a : P a -> quiet P (mret a).
Proof. intros Ha c Hc. by eexists _, _. Qed.

Lemma always_resp f st : always (map_resp f st).
Proof. intros c. by eexists _, _. Qed.

Lemma quiet_resp f st : quiet any (map_resp f st).
Proof. intros c Hc. by eexists _, _. Qed.

Lemma always_put id body size : fits o size -> always (store_PutObject o id body size).
Proof.
  intros [Hi Hs] c. cbn [store_PutObject bounds_ops Map_ops]. unfold map_call, map_put. unfold inS in Hi.
  rewrite (proj2 (Z.leb_le _ _)), (proj2 (Z.ltb_lt _ _)), (proj2 (Z.leb_le _ _)) by lia. cbn [andb].
  destruct (spec_put o id body size (mc_map c)) as [x sp'] eqn:E.
  destruct x as [u|err|msg]; [by eexists _, _..|]. exfalso. revert E. unfold spec_put, put_result.
  repeat case_match; by intros [= ].
Qed.

Lemma fits_0 : fits o 0.
Proof. split; [unfold inS; lia|lia]. Qed.

Lemma always_delete id : id <> ""%string -> always (store_DeleteObject o id).
Proof.
  intros Hid c. cbn [store_DeleteObject bounds_ops Map_ops]. unfold map_call, map_delete.
  rewrite bool_decide_eq_false_2 by done. by eexists _, _.
Qed.

(** What a get of [id] may hand out. *)
Definition opens_id (id : string) (x : error + (reader * Z)) : Prop :=
  match x with
  | inl _ => True
  | inr (rd, _) => (rd = emptyReader /\ stored sp id = []) \/
      (exists r0, rd = stripeReader r0 /\ r_objectID r0 = id /\ r_totalStripes r0 = len (stored sp id) /\ stored sp id <> [])
  end.

Lemma quiet_get id : id <> ""%string -> quiet (opens_id id) (store_GetObject o id).
Proof.
  intros Hid [sp0 rw st] Hc. cbn [mc_map] in Hc. subst sp0.
  cbn [store_GetObject bounds_ops Map_ops]. unfold map_call, map_get. cbn [mc_map].
  rewrite bool_decide_eq_false_2 by done. unfold spec_open.
  destruct (stored sp id) as [|x l] eqn:E.
  - destruct (o_markers sp !! id); eexists _, _; (split; [reflexivity|]; split; [done|]); [by left|done].
  - eexists _, _. split; [reflexivity|]. split; [done|]. right. eexists. cbn. rewrite E. done.
Qed.

Lemma quiet_read id rd size : opens_id id (inr (rd, size)) ->
  quiet (fun x => x.1 = concat (stored sp id)) (reader_ReadAll (e_fuel env) (e_sizes env) rd).
Proof.
  intros Hrd [sp0 rw st] Hc. cbn [mc_map] in Hc. subst sp0. cbn [reader_ReadAll bounds_ops Map_ops].
  unfold map_read. cbn [mc_map]. pose proof (ib_fuel _ _ _ _ _ Hb id) as Hf.
  destruct Hrd as [[-> Hid]|(r0 & -> & <- & HT & Hne)].
  - rewrite (proj2 (Nat.ltb_lt _ _)) by lia. rewrite Hid. by eexists _, _.
  - rewrite !bool_decide_eq_true_2 by done. rewrite (proj2 (Nat.ltb_lt _ _)) by lia. by eexists _, _.
Qed.

Lemma quiet_shards : quiet any (store_ObjectShards o "").
Proof.
  intros [sp0 rw st] Hc. cbn [mc_map] in Hc. subst sp0. cbn [store_ObjectShards bounds_ops Map_ops].
  unfold map_call, map_shards. cbn [mc_map]. rewrite bool_decide_eq_true_2 by done.
  destruct (map_keys sp); [destruct (o_markers sp !! ""%string)|]; by eexists _, _.
Qed.

Lemma quiet_any {A} P (m : MapH A) : quiet P m -> quiet any m.
Proof. intros Hm c Hc. destruct (Hm c Hc) as (a & c' & ? & ? & _). eauto. Qed.

(** ** The handlers *)

Lemma always_Set key value : always (resp_Set key value).
Proof. apply always_resp. Qed.

Lemma always_WriteHeader code : always (resp_WriteHeader code).
Proof. apply always_resp. Qed.

Lemma always_Write d : always (resp_Write d).
Proof. apply always_resp. Qed.

Lemma quiet_Set key value : quiet any (resp_Set key value).
Proof. apply quiet_resp. Qed.

Lemma quiet_WriteHeader code : quiet any (resp_WriteHeader code).
Proof. apply quiet_resp. Qed.

#[local] Hint Resolve always_ret always_Set always_WriteHeader always_Write always_put always_delete
  always_returns fits_0 ib_length : core.

(** Along a text that does not read. *)
Ltac go_always := repeat first
  [ progress intros
  | solve [eauto 3]
  | match goal with
    | |- always (match ?x with _ => _ end) => destruct x eqn:?
    end
  | apply always_bind ].

Lemma always_writeXMLError reqID status code msg : always (writeXMLError s reqID status code msg r).
Proof. unfold writeXMLError. go_always. Qed.

Lemma always_writeXML status d : always (writeXML status d).
Proof. unfold writeXML. go_always. Qed.

Lemma always_http_Error status text : always (http_Error status text).
Proof. unfold http_Error. go_always. Qed.
#[local] Hint Resolve always_writeXMLError always_writeXML always_http_Error : core.

Lemma always_delete_parts oid uid parts : always (delete_parts s oid uid parts).
Proof. induction parts as [|part parts IH]; cbn [delete_parts]; go_always; by apply always_delete. Qed.

Lemma always_abort b k uid : always (abortMultipartUpload s b k uid).
Proof. unfold abortMultipartUpload. apply always_bind; [by apply always_delete|]. go_always. Qed.
#[local] Hint Resolve always_delete_parts always_abort : core.

(** A get of which only the outcome is used. *)
Lemma returns_get {B} id (f : error + (reader * Z) -> MapH B) : id <> ""%string ->
  (forall x, opens_id id x -> returns (f x)) -> returns (x ← store_GetObject o id; f x).
Proof. intros Hid Hf. eapply returns_bind; [by apply quiet_get|exact Hf]. Qed.

Lemma returns_check_bucket reqID b k : returns k -> returns (check_bucket s reqID b r k).
Proof.
  intros Hk. unfold check_bucket. apply returns_get; [done|]. intros [err|x] _; [|done].
  apply always_returns. go_always.
Qed.

Lemma returns_copy_body id rd size : opens_id id (inr (rd, size)) -> returns (copy_body env rd).
Proof.
  intros Hrd. unfold copy_body. eapply returns_bind; [by eapply quiet_read|]. intros [[|b data] err] _; eauto.
Qed.

Lemma HasPrefix_nonempty id b : HasPrefix id (b +:+ "/") = true -> id <> ""%string.
Proof. intros [x ->]%HasPrefix_iff. rewrite <- objectIDOf_prefix. apply objectIDOf_nonempty. Qed.

Lemma quiet_list_loop b prefix keys : forall om, quiet any (list_loop s env b prefix keys om).
Proof.
  induction keys as [|key keys IH]; intros om; cbn [list_loop]; [by apply quiet_ret|].
  destruct (HasPrefix (k_ObjectID key) (b +:+ "/")) eqn:Hp; [|apply IH]. cbn [negb].
  repeat (apply quiet_if; [apply IH|]). eapply quiet_bind; [by eapply quiet_get, HasPrefix_nonempty|].
  intros [err|[rd size]] _; apply IH.
Qed.

Lemma quiet_read_parts oid uid parts : forall data,
  quiet (fun x => match x with Some d => d = data ++ parts_data sp oid uid parts | None => True end)
    (read_parts s env oid uid parts data).
Proof.
  induction parts as [|part parts IH]; intros data; cbn [read_parts].
  { apply quiet_ret. unfold parts_data. cbn. by rewrite app_nil_r. }
  eapply quiet_bind; [by apply quiet_get|]. intros [err|[rd size]] Hx; [by apply quiet_ret|].
  eapply (quiet_bind (fun d => d = concat (stored sp (partMarkerID oid uid (pa_PartNumber part))))).
  - unfold read_part. eapply quiet_bind; [by eapply quiet_read|]. intros [d err] E. by apply quiet_ret.
  - intros d ->. pose proof (IH (data ++ concat (stored sp (partMarkerID oid uid (pa_PartNumber part))))) as H.
    unfold parts_data in *. cbn [map concat]. by rewrite app_assoc.
Qed.

#[local] Hint Resolve objectIDOf_nonempty : core.

(** Along the text of a handler. *)
Ltac go_returns := repeat first
  [ progress intros
  | solve [eauto 3]
  | match goal with
    | |- returns (match ?x with _ => _ end) => destruct x eqn:?
    end
  | apply returns_check_bucket
  | apply returns_get; [solve [done | auto]|]
  | apply always_returns; solve [go_always] ].

Section request.
Context (bucket object : string) (Hpath : parsePathValues (URL_Path r) = (bucket, object)).

Lemma returns_list reqID : returns (handleListObjectsV2 s env reqID r).
Proof.
  unfold handleListObjectsV2. rewrite Hpath. apply returns_if; [auto|]. apply returns_check_bucket. cbv zeta.
  eapply returns_bind; [apply quiet_shards|]. intros [err|keys] _; [auto|].
  eapply returns_bind; [apply quiet_list_loop|]. auto.
Qed.

Lemma returns_get_object reqID : returns (handleGetObject s env reqID r).
Proof.
  unfold handleGetObject. rewrite Hpath. apply returns_if; [auto|]. apply returns_check_bucket.
  apply returns_get; [apply objectIDOf_nonempty|]. intros [err|[rd size]] Hx; [apply always_returns; go_always|].
  eapply returns_bind.
  { apply quiet_if; [eapply quiet_bind; [apply quiet_Set|intros _ _]|]; apply quiet_WriteHeader. }
  intros _ _. do 3 (eapply returns_bind; [apply quiet_Set|intros _ _]). by eapply returns_copy_body.
Qed.

Lemma returns_complete reqID uid : uid = query_Get r "uploadId" ->
  returns (completeMultipartUpload Unmarshal s env reqID bucket object uid r).
Proof.
  intros ->. unfold completeMultipartUpload, read_request_body. case_bool_decide; [|auto].
  destruct (Unmarshal (pending (rq_Body r))) as [c|] eqn:E; [|auto].
  destruct (ib_parts _ _ _ _ _ Hb c bucket object E Hpath) as [Hi Hs].
  unfold completeUpload. cbv zeta. eapply returns_bind; [apply quiet_read_parts|].
  intros [data|] Hx; [|auto]. cbn [app] in Hx. subst data. apply always_returns.
  rewrite wrapS64_id by exact Hi. apply always_bind; [by apply always_put|]. intros [err|u]; [auto|].
  apply always_bind; [auto|]. intros _. apply always_bind; [by apply always_delete|]. auto.
Qed.

#[local] Hint Resolve returns_list returns_get_object returns_complete : core.

Lemma always_put_object id : always (store_PutObject o id (rq_Body r) (rq_ContentLength r)).
Proof. apply always_put. eapply ib_length, Hb. Qed.
#[local] Hint Resolve always_put_object : core.

Lemma returns_multipart reqID : returns (handleMultipartOperations Unmarshal s env reqID r).
Proof.
  unfold handleMultipartOperations, createMultipartUpload, uploadPart. rewrite Hpath. cbv zeta.
  go_returns.
Qed.

Lemma returns_mux reqID : returns (mux Unmarshal s env reqID r).
Proof.
  pose proof (returns_multipart reqID).
  unfold mux, methodNotAllowed, handleHealth, writeJSON, handleCreateBucket, handleDeleteBucket,
    handleHeadBucket, handlePutObject, handleHeadObject, handleDeleteObject.
  rewrite Hpath. go_returns.
Qed.
End request.

Lemma ServeMap_returns : exists reply sp', ServeMap (e := e) Unmarshal s env r sp = (OK reply, sp').
Proof.
  destruct (parsePathValues (URL_Path r)) as [bucket object] eqn:Hpath.
  assert (returns (auth s (mux Unmarshal s env) (request_id env r) r)) as H.
  { pose proof (returns_mux bucket object Hpath (request_id env r)). unfold auth. go_returns. }
  unfold ServeMap. destruct (H (mkMapConn sp (rw_Set requestIDHeader (request_id env r) rw_new) 200) eq_refl)
    as ([] & c' & E). unfold bounds_ops in E. rewrite E.
  destruct (rw_finish (mc_rw c')) as [[status hs] body]. by eexists _, _.
Qed.
End bounds.

(** * The server is the map *)

Section server.
Context {RS : ReedSolomon} (Unmarshal : bytes -> option CompleteMultipartUpload) (s : Server).
Context {e : rs_enc} {parity : list bytes -> list bytes}.
Context {LAWS : RSLaws RS (toECParams (params (objectStore s))) e parity}.
Context (Hp : params_ok (toECParams (params (objectStore s)))) (Hss : 0 < stripeSize (objectStore s)).

Abbreviation o := (objectStore s).

(** The life of a server: requests, and damage that leaves each stripe of each
    object [k] valid shards. *)
Inductive http_life : object_map * World MemStore -> object_map * World MemStore -> Prop :=
  | http_request env r sp w : in_bounds Unmarshal s env r sp ->
      http_life (sp, w) ((ServeMap (e := e) Unmarshal s env r sp).2, (ServeHTTP Unmarshal s env r w).2)
  | http_damage sp w m' : (forall id, degraded (w_store w) m' id) ->
      (forall id (i : nat), is_Some (stored sp id !! i) ->
         ec_DataShards (params o) <= good_count m' id (Z.of_nat i) 0 (total o)) ->
      http_life (sp, w) (sp, mkWorld (w_cache w) m').

Definition server_holds (x : object_map * World MemStore) : Prop :=
  cache_ok (w_cache x.2) /\ represents o (parity:=parity) x.1 (w_store x.2).

Lemma request_holds env r sp w : in_bounds Unmarshal s env r sp -> server_holds (sp, w) ->
  exists reply, (ServeMap (e := e) Unmarshal s env r sp).1 = OK reply /\
    (ServeHTTP Unmarshal s env r w).1 = OK reply /\
    server_holds ((ServeMap (e := e) Unmarshal s env r sp).2, (ServeHTTP Unmarshal s env r w).2).
Proof.
  intros Hb [Hc R]. destruct w as [c m]. destruct (ServeMap_returns (e := e) Unmarshal s env r sp Hb Hss) as (reply & sp' & E).
  destruct (ServeHTTP_map Unmarshal s env Hp Hss (ib_sizes _ _ _ _ _ Hb) r sp sp' c m reply Hc R E)
    as (c' & m' & E2 & Hc' & R').
  rewrite E, E2. by exists reply.
Qed.

Lemma http_life_holds x y : rtc http_life x y -> server_holds x -> server_holds y.
Proof.
  induction 1 as [|x y z Hxy _ IH]; [done|]. intros Hx. apply IH. destruct Hxy as [env r sp w Hb|sp w m' Hd Hg].
  - by destruct (request_holds env r sp w Hb Hx) as (_ & _ & _ & ?).
  - destruct Hx as [Hc R]. split; [done|]. by apply (represents_damage o sp (w_store w)).
Qed.

(** The HTTP server is the map. From an empty MemStore, through any
    requests within bounds and any loss or corruption of shards that leaves
    each stripe [k] valid ones, the server sends to every request the reply of
    the same handlers reading and writing the abstract map: the same status,
    headers, body and log line. *)
Theorem http_server_is_map sp w env r :
  rtc http_life (no_objects, mkWorld ∅ NewMemStore) (sp, w) -> in_bounds Unmarshal s env r sp ->
  exists reply, (ServeMap (e := e) Unmarshal s env r sp).1 = OK reply /\
    (ServeHTTP Unmarshal s env r w).1 = OK reply.
Proof.
  intros Hl Hb. apply http_life_holds in Hl.
  - destruct (request_holds env r sp w Hb Hl) as (reply & H1 & H2 & _). eauto.
  - split; [apply cache_ok_empty|apply (represents_empty o), Hss].
Qed.
End server.

(** * At work, on the XOR engine *)

Lemma stored_bound sp n : (0 < n)%nat -> Forall (fun x => length (concat x.2) < n)%nat (map_to_list (o_stripes sp)) ->
  forall id, (length (concat (stored sp id)) < n)%nat.
Proof.
  intros Hn HF id. unfold stored. destruct (o_stripes sp !! id) as [l|] eqn:E; [|exact Hn].
  apply elem_of_map_to_list in E. rewrite Forall_forall in HF. exact (HF _ E).
Qed.

Lemma ex_in_bounds meth segs body sp : len body <= 20 ->
  Forall (fun x => length (concat x.2) < 20)%nat (map_to_list (o_stripes sp)) ->
  in_bounds ex_no_parts ex_server ex_env (ex_request meth segs ∅ body) sp.
Proof.
  intros Hb HF. assert (0 <= len body) by (unfold len; lia). constructor.
  - intros i. cbn. lia.
  - apply (stored_bound sp 20); [lia|exact HF].
  - unfold fits, inS. change (rq_ContentLength _) with (len body). change (stripeSize _) with 4. lia.
  - intros c bucket object [= <-] _. unfold fits, inS, parts_data, len. change (stripeSize _) with 4. cbn [map cu_Parts concat length]. lia.
Qed.

Definition ex_create : Request := ex_request "PUT" ["docs"]%string ∅ [].
Definition ex_put_cat : Request := ex_request "PUT" ["docs"; "cat"]%string ∅ data1.
Definition ex_get_cat : Request := ex_request "GET" ["docs"; "cat"]%string ∅ [].

(** The map after the first request, and after the second. *)
Definition ex_serve (r : Request) (sp : object_map) : result Reply * object_map :=
  ServeMap (RS := XorRS) (e := 2%nat) ex_no_parts ex_server ex_env r sp.
Definition ex_map1 : object_map := (ex_serve ex_create no_objects).2.
Definition ex_map2 : object_map := (ex_serve ex_put_cat ex_map1).2.

Lemma ex_in_bounds0 : in_bounds ex_no_parts ex_server ex_env ex_create no_objects.
Proof. apply ex_in_bounds; [vm_compute; done|]. apply (bool_decide_unpack _). vm_compute. exact Logic.I. Qed.

Lemma ex_in_bounds1 : in_bounds ex_no_parts ex_server ex_env ex_put_cat ex_map1.
Proof. apply ex_in_bounds; [vm_compute; done|]. apply (bool_decide_unpack _). vm_compute. exact Logic.I. Qed.

Lemma ex_in_bounds2 : in_bounds ex_no_parts ex_server ex_env ex_get_cat ex_map2.
Proof. apply ex_in_bounds; [vm_compute; done|]. apply (bool_decide_unpack _). vm_compute. exact Logic.I. Qed.

Lemma ex_map2_stripes id (i : nat) : is_Some (stored ex_map2 id !! i) ->
  id = "docs/cat"%string /\ (i = 0%nat \/ i = 1%nat).
Proof.
  unfold stored. intros [x Hx]. destruct (o_stripes ex_map2 !! id) as [l|] eqn:E; [|done].
  apply elem_of_map_to_list, list_elem_of_In in E.
  assert (map_to_list (o_stripes ex_map2)
    = [("__bucket__/docs"%string, []); ("docs/cat"%string, [bytes_of_string "shar"; bytes_of_string "ds"])]) as El
    by (vm_compute; reflexivity).
  rewrite El in E. destruct E as [[= <- <-]|[[= <- <-]|[]]]; cbn in Hx; [discriminate Hx|].
  split; [done|]. destruct i as [|[|i]]; [by left|by right|discriminate Hx].
Qed.

Lemma ex_get_reply reply : (ex_serve ex_get_cat ex_map2).1 = OK reply ->
  rp_status reply = 200 /\ rp_body reply = [Raw data1].
Proof.
  intros E. assert (match (ex_serve ex_get_cat ex_map2).1 with
    | OK reply => rp_status reply = 200 /\ rp_body reply = [Raw data1] | _ => False end) as H
    by (vm_compute; split; reflexivity).
  by rewrite E in H.
Qed.

(** A bucket, an object, a shard of it lost, and a get. *)
Lemma http_server_is_map_witness :
  let serve r w := (ServeHTTP ex_no_parts ex_server ex_env r w).2 in
  let w2 := serve ex_put_cat (serve ex_create (mkWorld (RS := XorRS) ∅ NewMemStore)) in
  let w3 := mkWorld (w_cache w2) (lose_shard (w_store w2) (mkKey "docs/cat" 1 0)) in
  exists reply, (ServeHTTP ex_no_parts ex_server ex_env ex_get_cat w3).1 = OK reply /\
    rp_status reply = 200 /\ rp_body reply = [Raw data1].
Proof.
  intros serve w2 w3.
  destruct (http_server_is_map (LAWS := ex_laws) ex_no_parts ex_server ex_params eq_refl ex_map2 w3 ex_env ex_get_cat)
    as (reply & E1 & E2); [|exact ex_in_bounds2|].
  - eapply rtc_l; [apply (http_request _ _ ex_env ex_create), ex_in_bounds0|].
    apply rtc_l with (ex_map2, w2); [apply (http_request _ _ ex_env ex_put_cat), ex_in_bounds1|].
    apply rtc_once, http_damage; [intros id; apply lose_shard_degraded|].
    intros id i [-> [-> | ->]]%ex_map2_stripes; vm_compute; discriminate.
  - exists reply. split; [exact E2|]. exact (ex_get_reply reply E1).
Defined.
