(* ===== verification/DiskMapApi.v ===== *)
(** The HTTP server on disk is the map: over a FileStore whose system calls do
    not fail, while shard files are lost or rot between the requests, the
    server sends the replies of the handlers over the abstract map. *)
From stdpp Require Import relations.
From S2P Require Import Prelude Binary Sha256 EC XorCodec Header ShardStore MemStore ObjectStore ObjectWrite ObjectRead ObjectSpec Contract ObjectSim FileNames FileStore FileRefine FileContract ObjectMap DiskMap Http S3Types Api ApiExamples ApiRefine MapApi.

#[local] Existing Instance no_faults.

Section server.
Context {RS : ReedSolomon} (Unmarshal : bytes -> option CompleteMultipartUpload) (s : Server).
Context {e : rs_enc} {parity : list bytes -> list bytes}.
Context {LAWS : RSLaws RS (toECParams (params (objectStore s))) e parity}.
Context (Hp : params_ok (toECParams (params (objectStore s)))) (Hss : 0 < stripeSize (objectStore s) < 2 ^ 63).
Context (I : string -> Prop) (HI : ids_ok I).

Abbreviation o := (objectStore s).

(** The life of a server on disk: requests within bounds, for ids in use, and
    damage that leaves each stripe of each object [k] valid shards. *)
Inductive disk_http_life : object_map * World Disk -> object_map * World Disk -> Prop :=
  | disk_request env r sp w : in_bounds Unmarshal s env r sp -> Forall I (request_ids Unmarshal env r) ->
      disk_http_life (sp, w) ((ServeMap (e := e) Unmarshal s env r sp).2, (ServeHTTP Unmarshal s env r w).2)
  | disk_wear sp w d' : disk_damage I (w_store w) d' ->
      (forall id (i : nat), is_Some (stored sp id !! i) ->
         ec_DataShards (params o) <= good_count d' id (Z.of_nat i) 0 (total o)) ->
      disk_http_life (sp, w) (sp, mkWorld (w_cache w) d').

Lemma disk_request_holds env r sp w :
  in_bounds Unmarshal s env r sp -> Forall I (request_ids Unmarshal env r) -> disk_holds o (parity:=parity) I (sp, w) ->
  exists reply, (ServeMap (e := e) Unmarshal s env r sp).1 = OK reply /\
    (ServeHTTP Unmarshal s env r w).1 = OK reply /\
    disk_holds o (parity:=parity) I ((ServeMap (e := e) Unmarshal s env r sp).2, (ServeHTTP Unmarshal s env r w).2).
Proof.
  intros Hb Hids (Hc & m & R & Hm). pose proof (FileStore_sim I (proj1 HI) (proj2 HI)) as SIM.
  destruct (parsePathValues (URL_Path r)) as [bucket object] eqn:Hpath.
  destruct (ServeHTTP_sim (SIM := SIM) Unmarshal s env Hp Hss r bucket object Hpath Hids
    (proj1 (ib_length _ _ _ _ _ Hb)) w (mkWorld (w_cache w) m) (conj (conj eq_refl R) Hc)) as [E [[E2 E3] _]].
  destruct (request_holds Unmarshal s Hp (proj1 Hss) env r sp (mkWorld (w_cache w) m) Hb (conj Hc Hm))
    as (reply & E4 & E5 & [Hc' Hm']).
  exists reply. split; [done|]. split; [by rewrite E|]. split; [by cbn in *; rewrite E2|]. by eexists.
Qed.

Lemma disk_http_life_holds x y : rtc disk_http_life x y ->
  disk_holds o (parity:=parity) I x -> disk_holds o (parity:=parity) I y.
Proof.
  induction 1 as [|x y z Hxy _ IH]; [done|]. intros H. apply IH. destruct Hxy as [env r sp w Hb Hids|sp w d' Hd Hg].
  - by destruct (disk_request_holds env r sp w Hb Hids H) as (_ & _ & _ & ?).
  - by apply (disk_holds_step o Hp Hss I HI (sp, w)); [apply disk_decay|].
Qed.

End server.

(** * At work, on the XOR engine *)

