(* ===== verification/ApiThreads.v ===== *)
(** The HTTP server as it runs: every request in a goroutine of its own, on one
    MemStore. The handlers of Api, read as programs of store calls; requests
    without conflicts come to what one after the other comes to; and two races
    between requests that do conflict. *)
From S2P Require Import Prelude Binary Sha256 EC XorCodec Header ShardStore MemStore ObjectStore Contract FileNames Http S3Types Api ApiLogic ApiServe ApiContract ApiExamples ApiRefine Threads Pool Interleave.

(** * Handlers as programs *)

Section programs.
Context {RS : ReedSolomon}.

(** The response of a request in the middle of its handler: nobody else sees
    it. *)
Record Resp := mkResp { rs_rw : ResponseWriter document; rs_status : Z }.

Definition HP (A : Type) : Type := Resp -> prog (A * Resp).

#[export] Instance HP_ret : MRet HP := fun A a rs => mret (a, rs).
#[export] Instance HP_bind : MBind HP := fun A B f m rs => x ← m rs; f x.1 x.2.

(** ObjectStore.ObjectShards as a program. *)
Definition ObjectShardsP (o : ObjectStore) (objectID : string) : prog (list ShardKey) :=
  keys ← run_op (ListObjectShardsOp objectID);
  match keys with
  | [] => _ ← run_op (ReadMarkerOp objectID); mret []
  | _ => mret keys
  end.

Definition callP {A} (p : prog A) : HP (error + A)%type := fun rs => x ← catch p; mret (x, rs).
Definition readP {A} (p : prog A) : HP A := fun rs => x ← p; mret (x, rs).
Definition respond (f : Resp -> Resp) : HP unit := fun rs => mret (tt, f rs).

#[export] Instance HP_ops : HandlerOps HP := {
  store_PutObject o id r size := callP (PutObjectP o id r size);
  store_GetObject o id := callP (GetObjectP o id);
  store_DeleteObject o id := callP (DeleteObjectP o id);
  store_ObjectShards o id := callP (ObjectShardsP o id);
  reader_ReadAll fuel sizes rd := readP (ReadAllP fuel sizes 0 rd);
  resp_Set key value := respond (fun rs => mkResp (rw_Set key value (rs_rw rs)) (rs_status rs));
  resp_WriteHeader code := respond (fun rs => mkResp (rw_WriteHeader code (rs_rw rs)) code);
  resp_Write d := respond (fun rs => mkResp (rw_Write d (rs_rw rs)) (rs_status rs));
}.

(** ServeHTTP as a program. *)
Definition ServeHTTPP (Unmarshal : bytes -> option CompleteMultipartUpload) (s : Server) (env : Env)
    (r : Request) : prog Reply :=
  let id := request_id env r in
  let rw := rw_Set requestIDHeader id rw_new in
  x ← auth (H := HP) s (mux Unmarshal s env) id r (mkResp rw 200);
  let '(status, hs, body) := rw_finish (rs_rw x.2) in
  mret (mkReply status hs body (mkLog id (rq_Method r) (URL_Path r) (rs_status x.2))).

(** All requests at once. *)
Definition start_http Unmarshal (s : Server) (reqs : list (Env * Request)) : list (prog Reply) :=
  map (fun q => ServeHTTPP Unmarshal s q.1 q.2) reqs.
End programs.

(** A handler's calls, as programs. *)
Ltac on_programs := cbn [store_PutObject store_GetObject store_DeleteObject store_ObjectShards reader_ReadAll
  resp_Set resp_WriteHeader resp_Write HP_ops].

(** * Run alone, the programs are the handlers *)

Section alone.
Context {RS : ReedSolomon} {S : Type} {SS : ShardStore S}.

(** The outcome of a handler, and of its program. *)
Definition outcome {A} (x : result A * Conn S) : result (A * Resp) * World S :=
  (match x.1 with
   | OK a => OK (a, mkResp (c_rw x.2) (c_status x.2))
   | Err e => Err e
   | Panicked msg => Panicked msg
   end, c_world x.2).

Definition means {A} (m : M (Conn S) A) (p : HP A) : Prop :=
  forall w rw st, run_prog (p (mkResp rw st)) w = outcome (m (mkConn w rw st)).

Lemma means_ret {A} (a : A) : means (mret a) (mret a).
Proof. done. Qed.

Lemma means_bind {A B} (m : M (Conn S) A) p (f : A -> M (Conn S) B) g :
  means m p -> (forall a, means (f a) (g a)) -> means (a ← m; f a) (a ← p; g a).
Proof.
  intros Hm Hf w rw st. unfold mbind at 2, M_bind. unfold mbind, HP_bind. rewrite run_bind.
  unfold mbind, M_bind. rewrite Hm. unfold outcome.
  destruct (m (mkConn w rw st)) as [[a|e|msg] [w' rw' st']]; [|done..]. apply Hf.
Qed.

Lemma means_call {A} (m : M (World S) A) p : (forall w, run_prog p w = m w) -> means (call m) (callP p).
Proof.
  intros Hp w rw st. unfold callP, call, catch. rewrite run_bind. unfold mbind, M_bind.
  rewrite run_map, Hp. cbn [c_world]. by destruct (m w) as [[a|e|msg] w'].
Qed.

Lemma means_put o id r size : means (call (PutObject o id r size)) (callP (PutObjectP o id r size)).
Proof. apply means_call. intros. apply run_PutObject. Qed.

Lemma means_get o id : means (call (GetObject o id)) (callP (GetObjectP o id)).
Proof. apply means_call. intros. apply run_GetObject. Qed.

Lemma means_delete o id : means (call (DeleteObject o id)) (callP (DeleteObjectP o id)).
Proof. apply means_call. intros. apply run_DeleteObject. Qed.

Lemma means_shards o id :
  means (call (fun w => (ObjectShards o (w_store w) id, w))) (callP (ObjectShardsP o id)).
Proof.
  apply means_call. intros w. unfold ObjectShardsP, ObjectShards. rewrite run_bind. unfold mbind at 1, M_bind at 1.
  rewrite run_run_op. cbn [do_op]. destruct (ss_ListObjectShards (w_store w) id) as [[|k keys]| |]; [|done..].
  rewrite run_bind. unfold mbind at 1, M_bind at 1. rewrite run_run_op. cbn [do_op].
  by destruct (ss_ReadMarker (w_store w) id).
Qed.

Lemma means_read_all fuel sizes rd : means (read_all fuel sizes rd) (readP (ReadAllP fuel sizes 0 rd)).
Proof.
  intros w rw st. unfold readP, read_all. rewrite run_bind. unfold mbind, M_bind. rewrite run_ReadAll.
  cbn [c_world]. by destruct (ReadAll _ _ _ _ _).
Qed.

Lemma means_Set key value :
  means (Set_ key value) (respond (fun rs => mkResp (rw_Set key value (rs_rw rs)) (rs_status rs))).
Proof. done. Qed.

Lemma means_WriteHeader code :
  means (WriteHeader code) (respond (fun rs => mkResp (rw_WriteHeader code (rs_rw rs)) code)).
Proof. done. Qed.

Lemma means_Write d : means (Write d) (respond (fun rs => mkResp (rw_Write d (rs_rw rs)) (rs_status rs))).
Proof. done. Qed.

#[local] Hint Resolve means_ret means_put means_get means_delete means_shards means_read_all means_Set
  means_WriteHeader means_Write : core.

(** Along the text of a handler, in both readings. *)
Ltac both := repeat first
  [ progress intros
  | solve [on_conn; on_programs; eauto 2]
  | match goal with
    | |- means (match ?x with _ => _ end) _ => destruct x
    end
  | apply means_bind ].

Context (Unmarshal : bytes -> option CompleteMultipartUpload) (s : Server) (env : Env).

Lemma means_list_loop bucket prefix keys : forall om,
  means (list_loop s env bucket prefix keys om) (list_loop s env bucket prefix keys om).
Proof. induction keys as [|k keys IH]; intros om; cbn [list_loop]; both. Qed.

Lemma means_read_parts oid uid parts : forall data,
  means (read_parts s env oid uid parts data) (read_parts s env oid uid parts data).
Proof. unfold read_parts. induction parts as [|part parts IH]; intros data; unfold read_part; both. Qed.

Lemma means_delete_parts oid uid parts : means (delete_parts s oid uid parts) (delete_parts s oid uid parts).
Proof. induction parts as [|part parts IH]; cbn [delete_parts]; both. Qed.
#[local] Hint Resolve means_list_loop means_read_parts means_delete_parts : core.

Lemma means_mux reqID r : means (mux Unmarshal s env reqID r) (mux Unmarshal s env reqID r).
Proof.
  unfold mux, methodNotAllowed, http_Error, handleHealth, writeJSON.
  unfold handleCreateBucket, handleDeleteBucket, handleListObjectsV2, handleHeadBucket, handlePutObject,
    handleGetObject, handleHeadObject, handleDeleteObject, handleMultipartOperations,
    createMultipartUpload, uploadPart, completeMultipartUpload, completeUpload, abortMultipartUpload,
    check_bucket, writeXML, writeXMLError, copy_body.
  destruct (parsePathValues (URL_Path r)) as [bucket object]. both.
Qed.

Lemma means_auth reqID r :
  means (auth s (mux Unmarshal s env) reqID r) (auth s (mux Unmarshal s env) reqID r).
Proof. unfold auth, writeXMLError. pose proof (means_mux reqID r). both. Qed.

(** The program of a request, run alone, is the request. *)
Lemma run_ServeHTTP r w : run_prog (ServeHTTPP Unmarshal s env r) w = ServeHTTP Unmarshal s env r w.
Proof.
  unfold ServeHTTPP, ServeHTTP. fold (request_id env r). rewrite run_bind. unfold mbind at 1, M_bind at 1.
  rewrite means_auth. unfold outcome.
  destruct (auth (H := M (Conn S)) _ _ _ _ _) as [[[]|e|msg] c]; [|done..]. cbn.
  by destruct (rw_finish (c_rw c)) as [[status hs] body].
Qed.

End alone.

(** * What a request touches *)

(** The footprint of [covers]. *)
Definition http_footprint (Unmarshal : bytes -> option CompleteMultipartUpload) (env : Env) (r : Request) : footprint :=
  let '(bucket, object) := parsePathValues (URL_Path r) in
  let oid := objectIDOf bucket object in
  let uid := query_Get r "uploadId" in
  let meth m := bool_decide (rq_Method r = m) in
  match rq_segments r with
  | [_] =>
      if meth "PUT"%string || meth "DELETE"%string then mkFp false [] [bucketMarkerID bucket]
      else mkFp (meth "GET"%string) [bucketMarkerID bucket] []
  | [_; _] =>
      if meth "PUT"%string || meth "DELETE"%string then mkFp false [bucketMarkerID bucket] [oid]
      else if meth "POST"%string then
        mkFp false []
          (uploadMarkerID oid uid :: uploadMarkerID oid (generateUploadID env) ::
           if bool_decide (query_Get r "action" = "complete"%string) then
             oid ::
             match Unmarshal (pending (rq_Body r)) with
             | Some c => map (fun part => partMarkerID oid uid (pa_PartNumber part)) (cu_Parts c)
             | None => []
             end
           else [])
      else mkFp false [bucketMarkerID bucket; oid] []
  | _ => mkFp false [] []
  end.

(** What may be written is an object, and what may be read can be listed. *)
Definition may_write (f : footprint) (id : string) : Prop := id <> ""%string /\ writes f id.

Lemma footprint_covers Unmarshal env r :
  let f := http_footprint Unmarshal env r in covers (may_write f) (opens f) (fp_all f = true) Unmarshal env r.
Proof.
  unfold covers, http_footprint, may_write. destruct (parsePathValues (URL_Path r)) as [bucket object].
  pose proof (objectIDOf_nonempty bucket object). assert (forall b, bucketMarkerID b <> ""%string) by done.
  destruct (rq_segments r) as [|b [|k [|]]]; [done|split_and!..|done].
  - intros [-> | ->]; (split; [done|left]).
  - by intros ->.
  - intros ->. apply opens_reads; [done|right; left; left].
  - intros Hm. apply opens_reads; [done|]. rewrite (bool_decide_eq_false_2 _ Hm).
    destruct (_ || _); right; left; left.
  - intros [-> | ->]; (split; [done|left]).
  - intros [-> | ->]; (apply opens_reads; [done|right; left; right; left]).
  - intros ->. split; [split; [done|left]|]. split; [split; [done|right; left]|]. intros ->.
    split; [split; [done|do 2 right; left]|]. intros c ->. apply Forall_forall. intros part Hp.
    split; [done|]. do 3 right. apply list_elem_of_fmap. eauto.
Qed.

Section local.
Context {RS : ReedSolomon} (f : footprint).

(** A handler within a footprint. *)
Definition stays {A} (Q : A -> Prop) (p : HP A) : Prop := forall rs, local f (fun x => Q x.1) (p rs).

Lemma stays_call {A} Q (p : prog A) : local f Q p ->
  stays (fun x => match x with inl _ => True | inr a => Q a end) (callP p).
Proof.
  intros Hp rs. unfold callP. eapply obeys_bind; [exact (obeys_catch (within f) True Q p Hp)|]. by intros [e|a].
Qed.

Lemma stays_call_any {A} (p : prog A) : local f anything p -> stays anything (callP p).
Proof. intros Hp rs. eapply obeys_weaken; [by apply (stays_call anything)|done]. Qed.

Lemma ObjectShardsP_local o : fp_all f = true -> local f anything (ObjectShardsP o "").
Proof.
  intros Hall. unfold ObjectShardsP. eapply obeys_bind; [by apply local_run|].
  intros [|k keys] _; [|done]. eapply obeys_bind; [apply local_run|done]. by left.
Qed.

#[refine] Instance local_logic (o : ObjectStore) : HandlerLogic HP o := {
  hl_ok A Q p := stays Q p;
  hl_W id := may_write f id; hl_R id := opens f id; hl_all := fp_all f = true;
  hl_reader id rd := reader_of id rd;
}.
Proof.
  all: on_programs; try done.
  - intros A Q a Ha rs. exact Ha.
  - intros A B Q Q' p k Hp Hk rs. eapply obeys_bind; [apply Hp|]. intros [a rs'] Ha. by apply Hk.
  - intros id [Hid Hw]. by apply opens_reads, writes_reads.
  - intros id Hall. split; [by left|done].
  - intros id r size [Hid Hw]. by apply stays_call_any, PutObjectP_local.
  - intros id Ho rs. eapply obeys_weaken; [by apply stays_call, GetObjectP_local|]. by intros [[err|[rd size]] rs'].
  - intros id [Hid Hw]. by apply stays_call_any, DeleteObjectP_local.
  - intros Hall. by apply stays_call_any, ObjectShardsP_local.
  - intros id fuel sizes rd [Hr _] Hrd rs. unfold readP. eapply obeys_bind; [by eapply ReadAllP_local|done].
Defined.
End local.

Section serve.
Context {RS : ReedSolomon} (Unmarshal : bytes -> option CompleteMultipartUpload) (s : Server).

Lemma http_local env r : task_ok (ServeHTTPP Unmarshal s env r, http_footprint Unmarshal env r).
Proof.
  unfold task_ok, ServeHTTPP. cbn [fst snd]. set (f := http_footprint Unmarshal env r).
  eapply obeys_bind.
  - apply (logic_auth Unmarshal s env (L := local_logic f (objectStore s)) (request_id env r) r), footprint_covers.
  - intros [u rs] _. by destruct (rw_finish _) as [[status hs] body].
Qed.

Definition http_tasks (reqs : list (Env * Request)) : list (prog Reply * footprint) :=
  map (fun q => (ServeHTTPP Unmarshal s q.1 q.2, http_footprint Unmarshal q.1 q.2)) reqs.

Lemma http_tasks_ok reqs : Forall task_ok (http_tasks reqs).
Proof. apply Forall_fmap, Forall_true. intros [env r]. apply http_local. Qed.

Lemma run_all_serve_all reqs : forall w,
  run_all (map fst (http_tasks reqs)) w = serve_all Unmarshal s reqs w.
Proof.
  induction reqs as [|[env r] reqs IH]; intros w; [done|]. cbn. rewrite run_ServeHTTP.
  destruct (ServeHTTP Unmarshal s env r w) as [x w1]. fold http_tasks. rewrite <- IH. done.
Qed.

(** C10. Requests of the server that do not conflict might as well come one
    after the other. Every request runs in its own goroutine and their store
    calls interleave in any way; if no request changes an object that another
    one looks at, then each that is answered gets the reply it would have got
    alone, and once all are answered, the replies and the contents of the
    store are those of serving the requests in turn. *)
Theorem concurrent_http_serializes reqs w ps w' :
  no_conflicts (map (fun q => http_footprint Unmarshal q.1 q.2) reqs) -> cache_ok (w_cache w) ->
  rtc pool_step (start_http Unmarshal s reqs, w) (ps, w') ->
  (forall t env r x, reqs !! t = Some (env, r) -> ps !! t = Some (Done x) ->
    x = (ServeHTTP Unmarshal s env r w).1) /\
  (Forall answered ps ->
    ps = map Done (serve_all Unmarshal s reqs w).1 /\
    w_store w' = w_store (serve_all Unmarshal s reqs w).2).
Proof.
  intros Hn Hc Hsteps.
  assert (start_http Unmarshal s reqs = map fst (http_tasks reqs)) as E by (unfold http_tasks; by rewrite map_map).
  assert (no_conflicts (map snd (http_tasks reqs))) as Hn' by (unfold http_tasks; by rewrite map_map).
  rewrite E in Hsteps. split.
  - intros t env r x Hq Hx. destruct (tasks_isolated _ _ _ _ Hn' (http_tasks_ok reqs) Hc Hsteps) as [Ha _].
    destruct (Ha t (ServeHTTPP Unmarshal s env r, http_footprint Unmarshal env r) x) as [-> _]; [|done|].
    + unfold http_tasks. change (map ?g reqs) with (g <$> reqs). by rewrite list_lookup_fmap, Hq.
    + cbn [fst]. by rewrite run_ServeHTTP.
  - intros Hdone. rewrite <- run_all_serve_all.
    exact (tasks_serialize _ _ _ _ Hn' (http_tasks_ok reqs) Hc Hsteps Hdone).
Qed.
End serve.

(** * At work *)

Definition ex_put_request (key data : string) : Env * Request :=
  (ex_env, ex_request "PUT" ["pics"; key]%string ∅ (bytes_of_string data)).
Definition ex_get_request (key : string) : Env * Request :=
  (ex_env, ex_request "GET" ["pics"; key]%string ∅ []).

(** The process after one request. *)
Definition after (q : Env * Request) (w : World MemStore) : World MemStore :=
  (ServeHTTP ex_no_parts ex_server q.1 q.2 w).2.

Abbreviation ex_start reqs w := (start_http ex_no_parts ex_server reqs, w).

Definition status_of (p : prog Reply) : option Z :=
  match p with Done (OK reply) => Some (rp_status reply) | _ => None end.

Definition reply_of (p : prog Reply) : option (Z * list document) :=
  match p with Done (OK reply) => Some (rp_status reply, rp_body reply) | _ => None end.

(** Two puts and a get of three keys, a call each in turn. *)
Lemma concurrent_http_serializes_witness :
  let w := mkWorld ∅ (w_store (after (ex_put_request "ant" "old") ex_world)) in
  let reqs := [ex_put_request "bee" "shards"; ex_put_request "cat" "other"; ex_get_request "ant"] in
  let c := run_schedule (concat (replicate 20 [0; 1; 2]%nat)) (ex_start reqs w) in
  map status_of c.1 = [Some 200; Some 200; Some 200] /\
  c.1 = map Done (serve_all ex_no_parts ex_server reqs w).1 /\
  w_store c.2 = w_store (serve_all ex_no_parts ex_server reqs w).2.
Proof.
  intros w reqs c.
  assert (map status_of c.1 = [Some 200; Some 200; Some 200]) as Hst by (vm_compute; reflexivity).
  split; [exact Hst|].
  refine (proj2 (concurrent_http_serializes ex_no_parts ex_server reqs w c.1 c.2 _ _ _) _).
  - apply (bool_decide_unpack _). vm_compute. exact Logic.I.
  - apply cache_ok_empty.
  - apply schedule_reaches. reflexivity.
  - destruct c.1 as [|p1 [|p2 [|p3 [|]]]]; try discriminate.
    repeat constructor; [destruct p1 as [[]|]|destruct p2 as [[]|]|destruct p3 as [[]|]];
      try discriminate; eexists; reflexivity.
Defined.

(** C35. Races between requests that do conflict. Two creates of one bucket can
    both find that it does not exist and both answer 200, where one after the
    other the second answers 409. A GET that a DELETE of the object overtakes
    answers 200 with the first stripes of the object only, because the status
    is sent before the stripes are read and the error of the copy is dropped.
    A GET that overlaps a single PUT can deliver stripes of the old and the new
    object. And two overlapping PUTs of one key can both answer 200 and leave
    an object that is neither, which a later GET serves. *)
Theorem http_requests_race :
  (let create := (ex_env, ex_request "PUT" ["new-bucket"]%string ∅ []) in
   exists ps w, rtc pool_step (ex_start [create; create] ex_world) (ps, w) /\
     map status_of ps = [Some 200; Some 200] /\
     map (fun r => status_of (Done r)) (serve_all ex_no_parts ex_server [create; create] ex_world).1
     = [Some 200; Some 409]) /\
  (let w0 := after (ex_put_request "cat" "AAAABBBB") ex_world in
   let delete := (ex_env, ex_request "DELETE" ["pics"; "cat"]%string ∅ []) in
   exists ps w, rtc pool_step (ex_start [ex_get_request "cat"; delete] w0) (ps, w) /\
     map reply_of ps = [Some (200, [Raw (bytes_of_string "AAAA")]); Some (204, [])]) /\
  (let w0 := after (ex_put_request "cat" "AAAABBBB") ex_world in
   exists ps w, rtc pool_step (ex_start [ex_put_request "cat" "ccccdddd"; ex_get_request "cat"] w0) (ps, w) /\
     map reply_of ps = [Some (200, []); Some (200, [Raw (bytes_of_string "AAAAdddd")])]) /\
  exists ps w, rtc pool_step (ex_start [ex_put_request "cat" "ABCD"; ex_put_request "cat" "wxyz"] ex_world) (ps, w) /\
    map status_of ps = [Some 200; Some 200] /\
    exists reply w', ServeHTTP ex_no_parts ex_server ex_env (ex_get_request "cat").2 w = (OK reply, w') /\
      rp_status reply = 200 /\ rp_body reply = [Raw (bytes_of_string "wxCD")].
Proof.
  split; [|split; [|split]].
  - eexists _, _. split; [apply (schedule_reaches (concat (replicate 8 [0; 1]%nat))); reflexivity|].
    split; vm_compute; reflexivity.
  - eexists _, _.
    split; [apply (schedule_reaches (replicate 7 0%nat ++ replicate 20 1%nat ++ replicate 20 0%nat)); reflexivity|].
    vm_compute. reflexivity.
  - eexists _, _.
    split; [apply (schedule_reaches (replicate 8 1%nat ++ replicate 10 0%nat ++ replicate 8 1%nat)); reflexivity|].
    vm_compute. reflexivity.
  - eexists _, _.
    split; [apply (schedule_reaches ([0; 0; 1; 1] ++ [0; 1; 0; 1; 1; 0; 0; 1; 0; 1])%nat); reflexivity|].
    split; [vm_compute; reflexivity|]. eexists _, _. split; [vm_compute; reflexivity|]. split; vm_compute; reflexivity.
Qed.
