(* ===== verification/ThreadSafe.v ===== *)
(** No interleaving of requests panics. TypeSafe is about requests one after the
    other, between which the shards of a stripe belong together; here requests
    run at once and may mix the stripes of an object, and all that is left is
    that every header belongs under its key and to the scheme of the server.
    That is enough. What the programs need of a store is the class
    [TypedStore]; MemStore is an instance here, FileStore with failing system
    calls in FaultServer. *)
From stdpp Require Import relations.
From S2P Require Import Prelude Binary Sha256 EC XorCodec Header ShardStore MemStore ObjectStore ObjectWrite ObjectRead ObjectSpec Contract FileNames Http S3Types Api ApiLogic ApiServe ApiContract ApiExamples TypeSafe Threads Pool Interleave ApiThreads.

(** * Calls over a typed store *)

Section interface.
Context {RS : ReedSolomon} (o : ObjectStore).

(** The length field that loadStripe allocates by. *)
Definition header_sized (h : ShardHeader) : Prop := 0 < h_StripeLen h <= stripeSize o.

(** A store that takes typed headers, hands out sized ones and never panics. *)
Class TypedStore (S : Type) {SS : ShardStore S} := {
  ts_ok : S -> Prop;
  ts_put key h data s : header_typed o key h -> inS 64 (h_DataLen h) -> ts_ok s ->
    (forall msg, (ss_PutShard key h data s).1 <> Panicked msg) /\ ts_ok (ss_PutShard key h data s).2;
  ts_get key s data h : ts_ok s -> ss_GetShard s key = (data, h, None) -> header_sized h;
  ts_verify key s h : ts_ok s -> ss_VerifyShard s key = (h, None) -> header_sized h;
  ts_delete key s : ts_ok s ->
    (forall msg, (ss_DeleteShard key s).1 <> Panicked msg) /\ ts_ok (ss_DeleteShard key s).2;
  ts_list id s msg : ts_ok s -> ss_ListObjectShards s id <> Panicked msg;
  ts_write_marker id meta s : ts_ok s ->
    (forall msg, (ss_WriteMarker id meta s).1 <> Panicked msg) /\ ts_ok (ss_WriteMarker id meta s).2;
  ts_read_marker id s msg : ts_ok s -> ss_ReadMarker s id <> Panicked msg;
  ts_remove_marker id s : ts_ok s ->
    (forall msg, (ss_RemoveMarker id s).1 <> Panicked msg) /\ ts_ok (ss_RemoveMarker id s).2;
}.

Definition world_typed {S} {SS : ShardStore S} {TS : TypedStore S} (w : World S) : Prop :=
  cache_ok (w_cache w) /\ ts_ok (w_store w).
End interface.

Section typed.
Context {RS : ReedSolomon} (o : ObjectStore) {e : rs_enc} {parity : list bytes -> list bytes}.
Context {LAWS : RSLaws RS (toECParams (params o)) e parity}.
Context (Hp : params_ok (toECParams (params o))) (Hss : 0 < stripeSize o < 2 ^ 63).
Context (Hrec : forall shards msg, rs_Reconstruct e shards <> Panicked msg).

Abbreviation E := (mkEncoder e (toECParams (params o))).

Definition typed_call {X} (c : op X) : Prop :=
  match c with
  | PutShardOp key h _ => header_typed o key h /\ inS 64 (h_DataLen h)
  | EncoderForOp p => p = toECParams (params o)
  | _ => True
  end.

(** A header is returned only if it is good, an error is no panic, and there is
    one encoder. *)
Definition typed_response {X} (c : op X) : X -> Prop :=
  match c in op X return X -> Prop with
  | PutShardOp _ _ _ | DeleteShardOp _ | WriteMarkerOp _ _ | RemoveMarkerOp _ => fun x =>
      forall msg, x <> Panicked msg
  | ListObjectShardsOp _ => fun x => forall msg, x <> Panicked msg
  | ReadMarkerOp _ => fun x => forall msg, x <> Panicked msg
  | GetShardOp _ => fun '(_, h, err) => err = None -> header_sized o h
  | VerifyShardOp _ => fun '(h, err) => err = None -> header_sized o h
  | EncoderForOp _ => fun x => x = OK E
  end.

Definition typing (err : Prop) : discipline :=
  mkDiscipline RS (@typed_call) (@typed_response) err False.

Lemma do_op_typed {S} {SS : ShardStore S} {TS : TypedStore o S} {X} (c : op X) (w : World S) :
  typed_call c -> world_typed o w ->
  typed_response c (do_op c w).1 /\ world_typed o (do_op c w).2.
Proof.
  destruct w as [ca m]. intros Hc [H1 H2]. cbn [w_cache w_store] in *. unfold world_typed.
  destruct c as [key h data|key|key|key|id|id meta|id|id|p]; cbn [do_op typed_call typed_response] in *;
    unfold on_store; cbn [w_store w_cache].
  - pose proof (ts_put o key h data m (proj1 Hc) (proj2 Hc) H2) as [Hn Ht]. by destruct (ss_PutShard _ _ _ _).
  - split; [|done]. cbn [fst]. destruct (ss_GetShard m key) as [[data h] err] eqn:Eg. intros ->. by eapply ts_get.
  - split; [|done]. cbn [fst]. destruct (ss_VerifyShard m key) as [h err] eqn:Eg. intros ->. by eapply ts_verify.
  - pose proof (ts_delete o key m H2) as [Hn Ht]. by destruct (ss_DeleteShard _ _).
  - split; [|done]. intros msg. by apply (ts_list o).
  - pose proof (ts_write_marker o id meta m H2) as [Hn Ht]. by destruct (ss_WriteMarker _ _ _).
  - split; [|done]. intros msg. by apply (ts_read_marker o).
  - pose proof (ts_remove_marker o id m H2) as [Hn Ht]. by destruct (ss_RemoveMarker _ _).
  - subst p. unfold on_cache. cbn [w_cache w_store].
    destruct (EncoderFor_ok _ ca e H1 Hp (law_new (p:=toECParams (params o)))) as (c' & -> & Hc'). by split.
Qed.

(** * The operations of object.go *)

Abbreviation fine := (obeys (typing True) anything).

Lemma typed_run {A} (c : op (result A)) : typed_call c ->
  (forall x, typed_response c x -> forall msg, x <> Panicked msg) -> fine (run_op c).
Proof. intros Hc Hx. apply obeys_run; [exact Hc|]. intros [a|err|msg] H; [done|done|by apply (Hx _ H msg)]. Qed.

Lemma typed_encoder err : obeys (typing err) (fun x => x = E) (run_op (EncoderForOp (toECParams (params o)))).
Proof. apply obeys_run; [done|]. by intros x ->. Qed.

Lemma typed_put_shards id st sl shards : inU 32 st -> 0 < sl <= stripeSize o ->
  Forall (fun s => inS 64 (slice_len s)) shards -> forall i,
  0 <= i -> i + len shards <= ec_ShardCount (params o) -> fine (put_shardsP o id st sl i shards).
Proof.
  intros Hst Hsl Hls. pose proof (total_spec o Hp) as (Hk & Hkt & Ht & Hm).
  induction Hls as [|s shards Hs _ IH]; intros i Hi Hn; [done|]. cbn [put_shardsP].
  unfold len in Hn. cbn [length] in Hn.
  eapply obeys_bind; [apply obeys_wrap, typed_run; [split; [|exact Hs]|by intros x]
                     |intros _ _; apply IH; [lia|unfold len; lia]].
  assert (u32 i = i) as Hu by (apply wrapU_id; unfold inU; lia).
  destruct Hp as (? & ? & ?). cbn [DataShards ParityShards toECParams] in *.
  unfold header_typed, shard_header. cbn. rewrite Hu, !wrapU_id by (unfold inU; lia).
  split_and!; (done || lia).
Qed.

Lemma typed_putStripe id st stripe : inU 32 st -> 0 < len stripe <= stripeSize o ->
  fine (putStripeP o E id st stripe).
Proof.
  intros Hst Hl. unfold putStripeP. pose proof (total_spec o Hp) as (Hk & Hkt & Ht & Hm).
  rewrite (Encode_codeword Hp) by (intros ->; change (len []) with 0 in Hl; lia). cbn.
  apply typed_put_shards; [done|done| |lia|].
  - apply Forall_fmap, (Forall_impl _ _ _ (proj2 (codeword_shaped Hp stripe))). intros b Hb. cbn. rewrite Hb.
    unfold per_shard, inS, len in *. cbn in Hk |- *.
    assert ((length stripe + Z.to_nat (ec_DataShards (params o)) - 1) / Z.to_nat (ec_DataShards (params o))
      <= length stripe)%nat; [|lia].
    apply Nat.Div0.div_le_upper_bound. nia.
  - unfold len. rewrite length_map, (length_C o Hp (parity:=parity) stripe). lia.
Qed.

Lemma typed_put_loop id fuel : forall r st rem, inU 32 st -> fine (put_loopP fuel o E id r st rem).
Proof.
  induction fuel as [|fuel IH]; intros r st rem Hst; cbn [put_loopP]; destruct (Z.leb_spec rem 0); try done.
  set (n := if rem <? stripeSize o then rem else stripeSize o).
  assert (0 < n <= stripeSize o) by (unfold n; destruct (Z.ltb_spec rem (stripeSize o)); lia).
  destruct (ReadFull (Z.to_nat n) r) as [[chunk|err|msg] r'] eqn:ER; [|done|by apply no_panic_ReadFull in ER].
  apply ReadFull_ok in ER as (_ & Hlc & _).
  eapply obeys_bind; [apply typed_putStripe; [done|unfold len; lia]|].
  intros _ _. apply IH, wrapU_range. lia.
Qed.

Lemma typed_PutObject id r size : fine (PutObjectP o id r size).
Proof.
  unfold PutObjectP. case_bool_decide; [done|]. destruct (size <? 0); [done|].
  eapply obeys_bind; [apply typed_encoder|]. intros enc ->.
  eapply obeys_bind; [by apply typed_put_loop|]. intros n _. by apply typed_run.
Qed.

Lemma typed_first_valid_len id st idxs : fine (first_valid_lenP id st idxs).
Proof.
  induction idxs as [|i idxs IH]; [done|]. split; [done|]. intros [h [err|]] _; [|done].
  by destruct (errors_Is err ErrCorruptShard || errors_Is err ErrShardNotFound).
Qed.

Lemma typed_encoderP err : obeys (typing err) (fun x => x = E) (encoderP o).
Proof. split; [done|]. by intros x ->. Qed.

Lemma typed_GetObject id :
  obeys (typing True) (fun x => reader_typed (e:=e) o x.1) (GetObjectP o id).
Proof.
  unfold GetObjectP. eapply obeys_bind; [by apply typed_run|]. intros [|k keys] _.
  - eapply obeys_map; [by apply (typed_run (ReadMarkerOp id))|]. by intros [].
  - eapply obeys_bind; [apply typed_first_valid_len|]. intros n _.
    eapply obeys_bind; [apply typed_encoderP|]. intros enc ->. by repeat eexists.
Qed.

(** The state of loadStripe: its length is that of some header. *)
Definition loading_typed (l : loading) : Prop := 0 < l_valid l -> 0 < l_stripeLen l <= stripeSize o.

Lemma typed_load_shards id st idxs : forall l, 0 <= l_valid l -> loading_typed l ->
  obeys (typing True) loading_typed (load_shardsP id st idxs l).
Proof.
  induction idxs as [|i idxs IH]; intros l Hv Hl; [done|]. split; [done|].
  intros [[data h] [err|]] Hx.
  - destruct (errors_Is err ErrCorruptShard || errors_Is err ErrShardNotFound); [|done]. by apply IH.
  - apply IH; cbn; [lia|]. intros _. cbn in Hx. exact (Hx eq_refl).
Qed.

Lemma typed_join_stripe id T idx buf off l : loading_typed l ->
  match join_stripe (reader_at (e:=e) o id T idx buf off) l with
  | OK r => exists buf', r = reader_at (e:=e) o id T idx buf' 0
  | Err _ => True
  | Panicked _ => False
  end.
Proof.
  intros Hl. pose proof (total_spec o Hp) as (Hk & _). unfold join_stripe. cbn [r_params r_enc reader_at].
  destruct (Z.ltb_spec (l_valid l) (ec_DataShards (params o))); [done|].
  assert (forall msg, (if l_lost l >? 0 then wrap_err "storage: stripe %d" (Reconstruct E (l_shards l))
    else OK (l_shards l)) <> Panicked msg) as Hr.
  { intros msg. destruct (l_lost l >? 0); [|done]. unfold Reconstruct. destruct (allEmpty _); [done|].
    pose proof (Hrec (l_shards l)) as Hn. cbn [enc]. destruct (rs_Reconstruct e (l_shards l)) as [x|err|msg']; [done..|].
    by destruct (Hn msg'). }
  destruct (if l_lost l >? 0 then _ else _) as [shards|err|msg]; [|done|by apply (Hr msg)].
  cbn [mbind result_bind]. unfold make_slice. cbn in Hk.
  destruct (Z.ltb_spec (l_stripeLen l) 0); [unfold loading_typed in Hl; lia|]. cbn [mbind result_bind].
  destruct (Join _ _ _ _) as [out' [err|]]; [done|]. by eexists.
Qed.

Lemma typed_loadStripe id T idx buf off :
  obeys (typing True) (fun r => exists buf', r = reader_at (e:=e) o id T idx buf' 0)
    (loadStripeP (reader_at (e:=e) o id T idx buf off)).
Proof.
  unfold loadStripeP. pose proof (total_spec o Hp) as (Hk & Hkt & Ht & _). cbn [r_params reader_at].
  unfold make_slice. destruct (Z.ltb_spec (ec_ShardCount (params o)) 0); [lia|].
  eapply obeys_bind with (Q := anything); [done|]. intros sh _.
  eapply obeys_bind; [apply typed_load_shards; [done|by intros ?]|]. intros l Hl.
  pose proof (typed_join_stripe id T idx buf off l Hl) as Hj. cbn.
  by destruct (join_stripe _ l).
Qed.

Lemma typed_Read n id T idx buf off :
  obeys (typing False) (fun x => reader_typed (e:=e) o (stripeReader x.2)) (ReadP n (reader_at (e:=e) o id T idx buf off)).
Proof.
  assert (forall T idx buf off, reader_typed (e:=e) o (stripeReader (reader_at (e:=e) o id T idx buf off))) as Hself
    by (intros; by repeat eexists).
  assert (forall buf off, reader_typed (e:=e) o (stripeReader (copy_out n (reader_at (e:=e) o id T idx buf off)).2)) as Hcopy.
  { intros buf' off'. unfold copy_out. cbn. case_match; apply Hself. }
  unfold ReadP. cbn [r_stripeIdx r_totalStripes r_off r_buf reader_at].
  destruct (_ >=? _); [apply Hself|]. destruct (_ =? _)%nat; [|apply Hcopy].
  eapply obeys_bind; [exact (obeys_catch _ False _ _ (typed_loadStripe id T idx buf off))|].
  intros [err|r1] Hr1; [apply Hself|]. destruct Hr1 as [buf' ->].
  destruct (_ =? 0); [apply Hself|apply Hcopy].
Qed.

Lemma typed_ReadAll fuel sizes : forall i rd, reader_typed (e:=e) o rd ->
  obeys (typing False) anything (ReadAllP fuel sizes i rd).
Proof.
  induction fuel as [|fuel IH]; intros i rd Hrd; [done|]. cbn [ReadAllP].
  eapply obeys_bind with (Q := fun x => reader_typed (e:=e) o x.2).
  - destruct rd as [|r]; [done|]. cbn [reader_ReadP]. destruct Hrd as (id & T & idx & buf & off & ->).
    eapply obeys_bind; [apply typed_Read|]. intros [[p err] r1] Hr1. exact Hr1.
  - intros [[p [err|]] r'] Hr'; [done|]. eapply obeys_bind; [by apply IH|]. by intros [rest err].
Qed.

Lemma typed_delete_shards keys : fine (delete_shardsP keys).
Proof. induction keys as [|k keys IH]; [done|]. eapply obeys_bind; [by apply typed_run|auto]. Qed.

Lemma typed_DeleteObject id : fine (DeleteObjectP o id).
Proof.
  unfold DeleteObjectP. eapply obeys_bind; [by apply typed_run|]. intros keys _.
  eapply obeys_bind; [apply typed_delete_shards|]. intros _ _. by apply typed_run.
Qed.

Lemma typed_ObjectShards id : fine (ObjectShardsP o id).
Proof.
  unfold ObjectShardsP. eapply obeys_bind; [by apply typed_run|]. intros [|k keys] _; [|done].
  eapply obeys_bind; [by apply typed_run|done].
Qed.

(** * The handlers *)

(** A handler ends in no error and no panic: errors of the store are values. *)
Definition sound {A} (Q : A -> Prop) (p : HP A) : Prop := forall rs, obeys (typing False) (fun x => Q x.1) (p rs).

Lemma sound_call {A} (Q : A -> Prop) (p : prog A) : obeys (typing True) Q p ->
  sound (fun x => match x with inl _ => True | inr a => Q a end) (callP p).
Proof.
  intros Hq rs. unfold callP. eapply obeys_bind; [exact (obeys_catch _ False Q p Hq)|]. by intros [err|a].
Qed.

Lemma sound_call_any {A} (p : prog A) : fine p -> sound anything (callP p).
Proof. intros Hq rs. eapply obeys_weaken; [by apply (sound_call anything)|done]. Qed.

#[refine] Instance typed_logic : HandlerLogic HP o := {
  hl_ok A Q p := sound Q p;
  hl_W _ := True; hl_R _ := True; hl_all := True;
  hl_reader _ rd := reader_typed (e:=e) o rd;
}.
Proof.
  all: on_programs; try done.
  - intros A Q a Ha rs. exact Ha.
  - intros A B Q Q' p k Hq Hk rs. eapply obeys_bind; [apply Hq|]. intros [a rs'] Ha. by apply Hk.
  - intros. apply sound_call_any, typed_PutObject.
  - intros id _ rs. eapply obeys_weaken; [apply sound_call, typed_GetObject|]. by intros [[err|[rd size]] rs'].
  - intros. apply sound_call_any, typed_DeleteObject.
  - intros. apply sound_call_any, typed_ObjectShards.
  - intros id fuel sizes rd _ Hrd rs. unfold readP. eapply obeys_bind; [by apply typed_ReadAll|done].
Defined.

(** ** Programs over a typed store *)

Context {S : Type} {SS : ShardStore S} {TS : TypedStore o S}.

Lemma pstep_typed {A} (p p' : prog A) (w w' : World S) :
  obeys (typing False) anything p -> world_typed o w -> pstep p w = Some (p', w') ->
  obeys (typing False) anything p' /\ world_typed o w'.
Proof.
  intros Hq Hw Hs. destruct p as [r|X c k]; [done|]. destruct Hq as [Hc Hk].
  destruct (do_op_typed c w Hc Hw) as [H1 H2]. cbn [pstep] in Hs. destruct (do_op c w) as [x w1].
  cbn in *. simplify_eq. split; [by apply Hk|done].
Qed.

Lemma run_typed {A} (p : prog A) : obeys (typing False) anything p -> forall w : World S, world_typed o w ->
  exists a w', run_prog p w = (OK a, w') /\ world_typed o w'.
Proof.
  induction p as [[a|err|msg]|X c k IH]; intros Hq w Hw; [by exists a, w|done|done|].
  destruct Hq as [Hc Hk]. destruct (do_op_typed c w Hc Hw) as [H1 H2]. cbn [run_prog].
  destruct (do_op c w) as [x w1]. by apply IH; [apply Hk|].
Qed.
End typed.

(** ** Requests *)

Section requests.
Context {RS : ReedSolomon} (s : Server) {e : rs_enc} {parity : list bytes -> list bytes}.
Context {LAWS : RSLaws RS (toECParams (params (objectStore s))) e parity}.
Context (Hp : params_ok (toECParams (params (objectStore s)))) (Hss : 0 < stripeSize (objectStore s) < 2 ^ 63).
Context (Hrec : forall shards msg, rs_Reconstruct e shards <> Panicked msg).

Lemma typed_request Unmarshal env r :
  obeys (typing (objectStore s) (e:=e) False) anything (ServeHTTPP Unmarshal s env r).
Proof.
  unfold ServeHTTPP. eapply obeys_bind.
  - apply (logic_auth Unmarshal s env (L := typed_logic (objectStore s) Hp Hss Hrec) (request_id env r) r), covers_True.
  - intros [u rs] _. by destruct (rw_finish _) as [[status hs] body].
Qed.
End requests.

(** ** MemStore *)

Section MemStore.
Context {RS : ReedSolomon} (o : ObjectStore).

Definition store_typed (m : MemStore) : Prop :=
  forall key s, shards m !! key = Some s -> header_typed o key (ms_h s).

Lemma typed_sized key h : header_typed o key h -> header_sized o h.
Proof. by intros (_ & _ & _ & _ & _ & _ & _ & H). Qed.

#[export, refine] Instance MemStore_typed : TypedStore o MemStore := { ts_ok := store_typed }.
Proof.
  - intros key h data m Hh _ Hm. cbn. unfold PutShard. destruct (bool_decide _); [done|]. destruct (negb _); [done|].
    split; [done|]. intros key' s. cbn.
    destruct (decide (key = key')) as [<-|Hne]; [|by rewrite lookup_insert_ne by done; apply Hm].
    rewrite lookup_insert_eq. intros [= <-]. exact Hh.
  - intros key m data h Hm. cbn. unfold GetShard. destruct (shards m !! key) as [s|] eqn:Es; [|done].
    destruct (bool_decide _); [done|]. intros [= _ <-]. by eapply typed_sized, Hm.
  - intros key m h Hm. cbn. unfold VerifyShard. destruct (shards m !! key) as [s|] eqn:Es; [|done].
    destruct (bool_decide _); [done|]. intros [= <-]. by eapply typed_sized, Hm.
  - intros key m Hm. cbn. unfold DeleteShard. destruct (shards m !! key); [|done].
    split; [done|]. intros key' s. cbn.
    destruct (decide (key = key')) as [<-|Hne]; [by rewrite lookup_delete_eq|].
    rewrite lookup_delete_ne by done. apply Hm.
  - done.
  - done.
  - intros id m msg Hm. cbn. unfold ReadMarker. by destruct (markers m !! id).
  - done.
Defined.

Lemma damage_typed m m' : damage m m' -> store_typed m -> store_typed m'.
Proof.
  intros Hd Hm key s Hs. destruct (proj2 (damage_shard m m' key Hd) s Hs) as (s0 & Hs0 & <-). by apply Hm.
Qed.
End MemStore.

(** * The server under load *)

Section server.
Context {RS : ReedSolomon} (Unmarshal : bytes -> option CompleteMultipartUpload) (s : Server).

(** A request arrives, one of those in flight makes its next call, or the
    payload of a shard is damaged, at any time. *)
Inductive live_step : pool MemStore Reply -> pool MemStore Reply -> Prop :=
  | live_arrive env r ps w : live_step (ps, w) (ps ++ [ServeHTTPP Unmarshal s env r], w)
  | live_call c c' : pool_step c c' -> live_step c c'
  | live_damage ps w m' : damage (w_store w) m' -> live_step (ps, w) (ps, mkWorld (w_cache w) m').

Context {e : rs_enc} {parity : list bytes -> list bytes}.
Context {LAWS : RSLaws RS (toECParams (params (objectStore s))) e parity}.
Context (Hp : params_ok (toECParams (params (objectStore s)))) (Hss : 0 < stripeSize (objectStore s) < 2 ^ 63).
Context (Hrec : forall shards msg, rs_Reconstruct e shards <> Panicked msg).

Abbreviation typed_prog := (obeys (typing (objectStore s) (e:=e) False) anything).

Definition live_inv (c : pool MemStore Reply) : Prop :=
  Forall typed_prog c.1 /\ world_typed (objectStore s) c.2.

Lemma live_inv_step c c' : live_step c c' -> live_inv c -> live_inv c'.
Proof.
  intros [env r ps w|c1 c2 Hs|ps w m' Hd] [Hps Hw]; cbn [fst snd] in *.
  - split; [|done]. cbn. apply Forall_app. split; [done|]. by apply Forall_singleton, (typed_request s Hp Hss Hrec).
  - destruct Hs as [t ps p w p' w' Ht Hs]. cbn [fst snd] in *.
    destruct (pstep_typed (objectStore s) Hp p p' w w' (Forall_lookup_1 _ _ _ _ Hps Ht) Hw Hs) as [H1 H2].
    split; [by apply Forall_insert|done].
  - split; [done|]. destruct Hw as [Hc Hw]. split; [done|]. by eapply damage_typed.
Qed.

(** C11. No interleaving of requests panics. Whatever requests arrive, conflicting
    or not, valid or not, however their store calls interleave, and whatever
    payloads are lost or rot in between: every header in the store belongs
    under its key and to the scheme of the server, every request that has
    finished has its reply, and every request still in flight would get one if
    it ran on alone, from any point. The stripes of an object that concurrent
    puts write may be mixed; reading them ends in an error or in bytes, but not
    in a panic. *)
Theorem concurrent_server_type_safe ps w :
  rtc live_step ([], mkWorld ∅ NewMemStore) (ps, w) ->
  store_typed (objectStore s) (w_store w) /\
  Forall (fun p => exists reply w', run_prog p w = (OK reply, w')) ps.
Proof.
  intros Hr. assert (live_inv (ps, w)) as [Hps Hw].
  { assert (live_inv ([], mkWorld ∅ NewMemStore)) as H0.
    { split; [constructor|]. split; [apply cache_ok_empty|]. intros key x. cbn. by rewrite lookup_empty. }
    revert H0. induction Hr; eauto using live_inv_step. }
  split; [apply Hw|]. eapply Forall_impl; [exact Hps|]. intros p Hq.
  destruct (run_typed (objectStore s) Hp p Hq w Hw) as (reply & w' & H & _). eauto.
Qed.
End server.

(** * At work *)

Lemma live_arrive_all Unmarshal s reqs : forall ps w,
  rtc (live_step (RS := XorRS) Unmarshal s) (ps, w) (ps ++ start_http Unmarshal s reqs, w).
Proof.
  induction reqs as [|[env r] reqs IH]; intros ps w; [by rewrite app_nil_r|].
  eapply rtc_l; [apply (live_arrive _ _ env r)|]. specialize (IH (ps ++ [ServeHTTPP Unmarshal s env r]) w).
  by rewrite <- (assoc_L (++)) in IH.
Qed.

Lemma live_calls Unmarshal s ts (c : pool (RS := XorRS) MemStore Reply) :
  rtc (live_step Unmarshal s) c (run_schedule ts c).
Proof. eapply (rtc_subrel pool_step); [intros c1 c2; apply live_call|apply run_schedule_steps]. Qed.

(** Requests arrive, run for a while, a shard is damaged, and they run on. *)
Lemma live_run Unmarshal s reqs ts ts' key w (c1 : pool (RS := XorRS) MemStore Reply) c2 :
  c1 = run_schedule ts (start_http Unmarshal s reqs, w) ->
  c2 = run_schedule ts' (c1.1, mkWorld (w_cache c1.2) (lose_shard (w_store c1.2) key)) ->
  rtc (live_step Unmarshal s) ([], w) (c2.1, c2.2).
Proof.
  intros -> ->. rewrite <- surjective_pairing. etrans; [apply (live_arrive_all Unmarshal s reqs [])|].
  etrans; [apply (live_calls _ _ ts)|]. etrans; [|apply live_calls].
  change ([] ++ start_http Unmarshal s reqs) with (start_http Unmarshal s reqs).
  destruct (run_schedule ts _) as [ps w1]. eapply rtc_l; [|apply rtc_refl]. apply live_damage, damage_lose.
Qed.

(** Two puts of different sizes to one key and a get, on a mix of shards of
    which one is lost. *)
Lemma concurrent_server_type_safe_witness :
  let reqs := [(ex_env, ex_request "PUT" ["pics"]%string ∅ []); ex_put_request "cat" "ABCD";
    ex_put_request "cat" "x"; ex_get_request "cat"] in
  let c1 := run_schedule (replicate 6 0 ++ [1; 1; 2; 2; 1; 2; 2; 1; 1; 1; 2; 2; 2; 1])%nat
    (start_http ex_no_parts ex_server reqs, mkWorld ∅ NewMemStore) in
  let c2 := run_schedule (replicate 12 3%nat)
    (c1.1, mkWorld (w_cache c1.2) (lose_shard (w_store c1.2) (mkKey "pics/cat" 0 0))) in
  map status_of c2.1 = [Some 200; Some 200; Some 200; Some 200] /\
  store_typed ex_store (w_store c2.2).
Proof.
  intros reqs c1 c2. split; [vm_compute; reflexivity|].
  assert (forall shards msg, rs_Reconstruct (ReedSolomon := XorRS) 2%nat shards <> Panicked msg) as Hrec.
  { intros shards msg. cbn. by case_match. }
  refine (proj1 (concurrent_server_type_safe ex_no_parts ex_server (LAWS := ex_laws) ex_params (conj eq_refl eq_refl) Hrec c2.1 c2.2 _)).
  exact (live_run ex_no_parts ex_server reqs _ _ _ _ c1 c2 eq_refl eq_refl).
Defined.
