(* ===== verification/FaultServer.v ===== *)
(** The server on a disk that fails: requests served over FileStore while
    system calls fail, the process is killed and restarted and files are lost
    or damaged. Whatever happens, no request panics. *)
From stdpp Require Import relations.
From S2P Require Import Prelude Binary Sha256 EC XorCodec Header ShardStore MemStore ObjectStore ObjectWrite ObjectRead ObjectSpec Contract FileNames FileStore FileRefine FileContract FileFaults Http S3Types Api ApiLogic ApiExamples TypeSafe Threads Pool ApiThreads ThreadSafe.

(** * What a call leaves in a file *)

Section triples.
Context {ENV : Environment} (dir name : string).

(** Started on a content of the file in [P], the computation leaves one in [Q]
    when it succeeds and one in [R] when it does not. *)
Definition leaves {A} (P : option bytes -> Prop) (m : M Disk A) (Q R : option bytes -> Prop) : Prop :=
  forall d, P (file d dir name) ->
    match m d with
    | (OK _, d') => Q (file d' dir name)
    | (_, d') => R (file d' dir name)
    end.

Lemma leaves_bind {A B} P Q Q' R (m : M Disk A) (f : A -> M Disk B) :
  leaves P m Q R -> (forall a, leaves Q (f a) Q' R) -> leaves P (m ≫= f) Q' R.
Proof.
  intros Hm Hf d Hd. specialize (Hm d Hd). unfold mbind, M_bind.
  destruct (m d) as [[a|e|q] d1]; [by apply Hf|done..].
Qed.

Lemma leaves_wrapM {A} P Q R msg (m : M Disk A) : leaves P m Q R -> leaves P (wrapM msg m) Q R.
Proof. intros Hm d Hd. specialize (Hm d Hd). unfold wrapM. by destruct (m d) as [[a|e|q] d1]. Qed.

Lemma leaves_weaken {A} P Q Q' R R' (m : M Disk A) : leaves P m Q R ->
  (forall f, Q f -> Q' f) -> (forall f, R f -> R' f) -> leaves P m Q' R'.
Proof. intros Hm HQ HR d Hd. specialize (Hm d Hd). destruct (m d) as [[a|e|q] d1]; auto. Qed.

(** A computation that leaves the file alone. *)
Lemma leaves_alone {A} P R (m : M Disk A) : (forall d, file (m d).2 dir name = file d dir name) ->
  (forall f, P f -> R f) -> leaves P m P R.
Proof.
  intros Hm HR d Hd. specialize (Hm d). destruct (m d) as [[a|e|q] d1]; cbn in Hm; rewrite Hm; auto.
Qed.

Lemma leaves_sys c P R : (forall f, P f -> R f) -> leaves P (sys c) P R.
Proof. intros H. apply leaves_alone; [|done]. intros d. unfold sys. by destruct (env d c). Qed.

Lemma leaves_mkdir P R : (forall f, P f -> R f) -> leaves P (os_MkdirAll dir) P R.
Proof.
  intros H. eapply leaves_bind; [by apply leaves_sys|]. intros _. apply leaves_alone; [|done].
  intros d. cbn. destruct (dirs d !! dir) eqn:E; [done|].
  unfold file. cbn. rewrite lookup_insert_eq, E. apply lookup_empty.
Qed.

Lemma leaves_create P R : (forall f, P f -> R f) -> leaves P (os_Create dir name) (eq (Some [])) R.
Proof.
  intros H. eapply leaves_bind; [by apply leaves_sys|]. intros _ d Hd. cbn.
  destruct (dirs d !! dir) as [fs|] eqn:E; [|by apply H]. rewrite file_set, decide_True by done. by rewrite E.
Qed.

Lemma leaves_lift {A B} P Q R (r : result A) (f : A -> M Disk B) : (forall x, P x -> R x) ->
  (forall a, r = OK a -> leaves P (f a) Q R) -> leaves P (lift r ≫= f) Q R.
Proof. intros HR Hf d Hd. destruct r as [a|err|msg]; [by apply (Hf a)|by apply HR..]. Qed.

(** A failing write leaves a part of its bytes. *)
Lemma leaves_write c data : leaves (eq (Some c)) (fh_Write dir name data) (eq (Some (c ++ data)))
  (fun f => exists n, f = Some (c ++ take n data)).
Proof.
  intros d Hd. unfold fh_Write. rewrite <- Hd.
  assert (forall x, file (set_file dir name x d) dir name = Some x) as Hset.
  { intros x. rewrite file_set, decide_True by done. unfold file in Hd. by destruct (dirs d !! dir). }
  destruct (env _ _) as [f|]; rewrite Hset; [by eexists|done].
Qed.
End triples.

(** A shard file is as it was or starts a whole one, however PutShard ends. *)
Lemma PutShard_leaves {ENV : Environment} key h data d c :
  file (PutShard key h data d).2 (objectDir (k_ObjectID key)) (shardFileName key) = Some c ->
  file d (objectDir (k_ObjectID key)) (shardFileName key) = Some c \/
  exists b, encodeShardHeader (with_checksum h (Sum256 data)) = OK b /\ len data = h_DataLen h /\ c `prefix_of` b ++ data.
Proof.
  set (dir := objectDir _). set (name := shardFileName _).
  pose (torn f := f = file d dir name \/ exists b c, encodeShardHeader (with_checksum h (Sum256 data)) = OK b /\
    len data = h_DataLen h /\ f = Some c /\ c `prefix_of` b ++ data).
  assert (leaves dir name (eq (file d dir name)) (PutShard key h data) torn torn) as H.
  2: { specialize (H d eq_refl). intros Hf.
       assert (torn (Some c)) as [Ht|(b & c' & Hb & Hl & [= <-] & Hc)];
         [rewrite <- Hf; by destruct (PutShard key h data d) as [[a|e|q] d']|by left|right; by exists b]. }
  assert (forall f, file d dir name = f -> torn f) as H0 by (intros f <-; by left).
  eapply leaves_bind; [by apply leaves_sys|]. intros _.
  destruct (bool_decide _); [intros d0 Hd0; exact (H0 _ Hd0)|].
  destruct (Z.eqb_spec (len data) (h_DataLen h)) as [Hl|]; [|intros d0 Hd0; exact (H0 _ Hd0)]. cbn [negb]. cbv zeta.
  eapply leaves_bind; [by apply leaves_wrapM, leaves_mkdir|]. intros _.
  apply leaves_lift; [done|]. intros b Hb.
  assert (forall c, c `prefix_of` b ++ data -> torn (Some c)) as Hpre by (intros c' Hc; right; by exists b, c').
  eapply leaves_bind; [by apply leaves_wrapM, leaves_create|]. intros _.
  eapply leaves_bind; [eapply leaves_wrapM, leaves_weaken; [apply leaves_write|done|]|intros _].
  { intros f [n ->]. apply Hpre. cbn. apply prefix_app_r, prefix_take. }
  eapply leaves_bind; [eapply leaves_wrapM, leaves_weaken; [apply leaves_write|done|]|intros _].
  { intros f [n ->]. apply Hpre. cbn. apply prefix_app, prefix_take. }
  eapply leaves_wrapM, leaves_weaken; [apply (leaves_sys dir name _ _ torn)| |done].
  all: intros f <-; by apply Hpre.
Qed.

(** * A typed disk *)

Section disk.
Context {RS : ReedSolomon} (o : ObjectStore).
Context (Hp : params_ok (toECParams (params o))) (Hss : 0 < stripeSize o < 2 ^ 63).

(** Every header that decodes is one loadStripe can allocate by. *)
Definition content_typed (c : bytes) : Prop := forall h r,
  decodeShardHeader (NewReader c) = (OK h, r) -> header_sized o h.

Definition disk_typed (d : Disk) : Prop := forall dir name c,
  file d dir name = Some c -> HasSuffix (bytes_of_string name) shard_suffix = true -> content_typed c.

Lemma disk_typed_empty : disk_typed empty_disk.
Proof. intros dir name c. unfold file. cbn. by rewrite lookup_empty. Qed.

Lemma typed_same_but d d' dir name : same_but d d' dir name -> disk_typed d ->
  (forall c, file d' dir name = Some c -> HasSuffix (bytes_of_string name) shard_suffix = true -> content_typed c) ->
  disk_typed d'.
Proof.
  intros Hs Hd Hn dir' name' c Hf. destruct (decide ((dir', name') = (dir, name))) as [[= -> ->]|Hne]; [by apply Hn|].
  rewrite Hs in Hf by done. by eapply Hd.
Qed.

(** A file of a typed disk, read in whole or in part. *)
Lemma typed_open {ENV : Environment} d dir name rd h r : disk_typed d ->
  HasSuffix (bytes_of_string name) shard_suffix = true ->
  os_Open d dir name = OK rd -> decodeShardHeader rd = (OK h, r) -> header_sized o h.
Proof.
  intros Hd Hs. unfold os_Open. destruct (env d _); [done|]. destruct (file d dir name) as [c|] eqn:Hf; [|done].
  intros [= <-] H. apply (Hd _ _ _ Hf Hs h (mkReader (pending r ++ match env d (SysRead dir name) with
    Some f => drop (f_done f) c | None => [] end) EOF)).
  destruct (env d (SysRead dir name)) as [f|]; [|rewrite app_nil_r].
  - apply (decode_extends _ (drop (f_done f) c) _ EOF) in H as [H _]. by rewrite take_drop in H.
  - rewrite H. pose proof (decodeShardHeader_inv _ _ _ H) as (_ & _ & Hfin & _). cbn in Hfin. by destruct r; cbn in *; subst.
Qed.

Lemma header_typed_wf key h data : header_typed o key h -> inS 64 (h_DataLen h) ->
  header_wf (with_checksum h (Sum256 data)).
Proof.
  intros (_ & H1 & H2 & H3 & H4 & H5 & H6 & H7) Hl. pose proof (total_spec o Hp) as (_ & Hkt & Ht & _).
  destruct Hp as (? & ? & ?). cbn [DataShards ParityShards toECParams] in *.
  unfold header_wf. cbn. rewrite H1, H2, H5, H6, length_Sum256. unfold inU, inS in *. split_and!; (done || lia).
Qed.

(** The part of a shard file that PutShard wrote. *)
Lemma torn_typed key h data b c : header_typed o key h -> inS 64 (h_DataLen h) ->
  encodeShardHeader (with_checksum h (Sum256 data)) = OK b -> c `prefix_of` b ++ data -> content_typed c.
Proof.
  intros Hh Hl Hb [q Hq] h' r H. apply (decode_extends _ q _ EOF) in H as [H _]. rewrite <- Hq in H.
  rewrite (decode_encoded _ data EOF b (header_typed_wf key h data Hh Hl) Hb) in H. injection H as <- _.
  by apply (typed_sized o key).
Qed.

Lemma disk_typed_shrink d d' : (forall dir name c, file d' dir name = Some c -> file d dir name = Some c) ->
  disk_typed d -> disk_typed d'.
Proof. intros Hs Hd dir name c Hf. by apply (Hd dir name), Hs. Qed.
End disk.

(** ** No call of FileStore panics *)

Section calls.
Context {ENV : Environment}.

Lemma no_panic_sys c : no_panic (sys c).
Proof. intros d msg d'. unfold sys. by destruct (env d c). Qed.

Lemma no_panic_ends {A} (r : result A) : ends r -> no_panic (St := Disk) (fun d => (r, d)).
Proof. intros Hr d msg d' [= ->]. by destruct Hr as [[a Ha]|[e He]]. Qed.

Lemma no_panic_mkdir dir : no_panic (os_MkdirAll dir).
Proof. apply no_panic_bind; [apply no_panic_sys|]. by intros _ d msg d'. Qed.

Lemma no_panic_create dir name : no_panic (os_Create dir name).
Proof. apply no_panic_bind; [apply no_panic_sys|]. intros _ d msg d'. by destruct (dirs d !! dir). Qed.

Lemma no_panic_write dir name data : no_panic (fh_Write dir name data).
Proof. intros d msg d'. unfold fh_Write. by destruct (env d _). Qed.

Lemma no_panic_remove dir name : no_panic (os_Remove dir name).
Proof. apply no_panic_bind; [apply no_panic_sys|]. intros _ d msg d'. by destruct (file d dir name). Qed.

Lemma encode_ends h : ends (encodeShardHeader h).
Proof. unfold encodeShardHeader. repeat case_match; auto with ends. Qed.

#[local] Hint Resolve no_panic_sys no_panic_mkdir no_panic_create no_panic_write no_panic_remove : shard.

Lemma no_panic_PutShard key h data : no_panic (PutShard key h data).
Proof.
  unfold PutShard, fh_Sync. cbv zeta. repeat (apply no_panic_bind; [auto with shard|intros _]).
  repeat (apply no_panic_if; [auto with shard|]).
  apply no_panic_bind; [auto with shard|intros _].
  apply no_panic_bind; [apply no_panic_ends, encode_ends|auto 10 with shard].
Qed.

Lemma no_panic_WriteMarker id meta : no_panic (WriteMarker id meta).
Proof.
  unfold WriteMarker, os_WriteFile, fh_Sync. cbv zeta.
  apply no_panic_bind; [apply no_panic_ends, ends_ok|intros b].
  do 2 (apply no_panic_bind; [auto with shard|intros _]).
  apply no_panic_bind; [apply no_panic_wrapM|auto with shard].
  intros d msg d'. destruct (open_ends d (objectDir id) markerFileName) as [[x ->]|[err ->]]; done.
Qed.

Lemma no_panic_DeleteShard key : no_panic (DeleteShard key).
Proof.
  intros d msg d'. unfold DeleteShard, map_err. pose proof (no_panic_remove (objectDir (k_ObjectID key)) (shardFileName key) d) as H.
  destruct (os_Remove _ _ d) as [[[]|e|q] d1]; [done|done|]. by destruct (H q d1).
Qed.

Lemma no_panic_RemoveMarker id : no_panic (RemoveMarker id).
Proof.
  intros d msg d'. unfold RemoveMarker. pose proof (no_panic_remove (objectDir id) markerFileName d) as H.
  destruct (os_Remove _ _ d) as [[[]|e|q] d1]; [done|by case_match|]. by destruct (H q d1).
Qed.

Lemma ReadMarker_ends d id : ends (ReadMarker d id).
Proof.
  unfold ReadMarker, os_ReadFile. pose proof (open_ends d (objectDir id) markerFileName) as [[rd ->]|[err ->]];
    cbn [mbind result_bind]; [|apply ends_err].
  case_bool_decide; [|apply ends_err]. unfold decodeObjectMeta.
  destruct (readObjectMeta _) as [[m|err|msg] r] eqn:E; [apply ends_ok|apply ends_err|].
  by apply no_panic_readObjectMeta in E.
Qed.

Lemma remove_shrinks dir name d dir' name' c :
  file (os_Remove dir name d).2 dir' name' = Some c -> file d dir' name' = Some c.
Proof.
  unfold os_Remove, mbind, M_bind, sys. destruct (env d _); [done|]. destruct (file d dir name) eqn:E; [|done].
  unfold file. cbn. destruct (decide (dir' = dir)) as [->|]; [|by rewrite lookup_alter_ne].
  rewrite lookup_alter_eq. destruct (dirs d !! dir) as [fs|]; [|done]. cbn. by intros [_ H]%lookup_delete_Some.
Qed.

Lemma DeleteShard_disk key d : (DeleteShard key d).2 = (os_Remove (objectDir (k_ObjectID key)) (shardFileName key) d).2.
Proof. unfold DeleteShard, map_err. by destruct (os_Remove _ _ d) as [[[]|e|q] d']. Qed.

Lemma RemoveMarker_disk id d : (RemoveMarker id d).2 = (os_Remove (objectDir id) markerFileName d).2.
Proof. unfold RemoveMarker. destruct (os_Remove _ _ d) as [[[]|e|q] d']; [done| |done]. by case_match. Qed.
End calls.

(** ** FileStore over a failing disk is a typed store *)

Section typed.
Context {RS : ReedSolomon} (o : ObjectStore) {ENV : Environment}.
Context (Hp : params_ok (toECParams (params o))) (Hss : 0 < stripeSize o < 2 ^ 63).

Lemma ends_no_panic {A} (r : result A) msg : ends r -> r <> Panicked msg.
Proof. by intros [[a ->]|[err ->]]. Qed.

Lemma no_panic_fst {A} (m : M Disk A) d msg : no_panic m -> (m d).1 <> Panicked msg.
Proof. intros H. destruct (m d) as [r d'] eqn:E. intros [= ->]. by apply H in E. Qed.

#[refine] Instance FileStore_typed : TypedStore o Disk := { ts_ok := disk_typed o }.
Proof.
  all: cbn.
  - intros key h data d Hh Hl Hd. split; [intros msg; by apply no_panic_fst, no_panic_PutShard|].
    apply (typed_same_but o d _ (objectDir (k_ObjectID key)) (shardFileName key) (only_PutShard key h data d) Hd).
    intros c Hf Hs. apply PutShard_leaves in Hf as [Hf|(b & Hb & _ & Hc)]; [by eapply Hd|].
    by eapply torn_typed.
  - intros key d data h Hd. unfold GetShard.
    destruct (os_Open d _ _) as [rd|err|msg] eqn:Eo; cbn [FileStore.outcome]; [|done..].
    destruct (decodeShardHeader rd) as [[h'|err|msg] r] eqn:Ed; cbn [FileStore.outcome]; [|done..].
    pose proof (typed_open o d _ _ _ _ _ Hd (shardFileName_suffix key) Eo Ed) as Hh.
    destruct (FileStore.outcome _); [done|]. destruct (negb _); [done|]. destruct (bool_decide _); [done|]. by intros [= _ <-].
  - intros key d h Hd. unfold VerifyShard.
    destruct (os_Open d _ _) as [rd|err|msg] eqn:Eo; cbn [FileStore.outcome]; [|done..].
    destruct (decodeShardHeader rd) as [[h'|err|msg] r] eqn:Ed; cbn [FileStore.outcome]; [|done..].
    pose proof (typed_open o d _ _ _ _ _ Hd (shardFileName_suffix key) Eo Ed) as Hh.
    destruct (FileStore.outcome _); [done|]. destruct (bool_decide _); [done|]. by intros [= <-].
  - intros key d Hd. split; [intros msg; by apply no_panic_fst, no_panic_DeleteShard|].
    rewrite DeleteShard_disk. eapply disk_typed_shrink; [|done]. intros dir name c. apply remove_shrinks.
  - intros id d msg _. apply ends_no_panic, ListObjectShards_ends.
  - intros id meta d Hd. split; [intros msg; by apply no_panic_fst, no_panic_WriteMarker|].
    by apply (typed_same_but o d _ (objectDir id) markerFileName (only_WriteMarker id meta d) Hd).
  - intros id d msg _. apply ends_no_panic, ReadMarker_ends.
  - intros id d Hd. split; [intros msg; by apply no_panic_fst, no_panic_RemoveMarker|].
    rewrite RemoveMarker_disk. eapply disk_typed_shrink; [|done]. intros dir name c. apply remove_shrinks.
Defined.
End typed.

(** * The server on a failing disk *)

Section server.
Context {RS : ReedSolomon} (Unmarshal : bytes -> option CompleteMultipartUpload) (s : Server).

(** What decay may do to the files of a disk: lose them, move them, cut them,
    change any bytes, as long as no file gets a header that decodes and that
    no file had. *)
Definition decays (d d' : Disk) : Prop := forall dir name c h r,
  file d' dir name = Some c -> HasSuffix (bytes_of_string name) shard_suffix = true ->
  decodeShardHeader (NewReader c) = (OK h, r) ->
  exists dir0 name0 c0 r0, file d dir0 name0 = Some c0 /\ HasSuffix (bytes_of_string name0) shard_suffix = true /\
    decodeShardHeader (NewReader c0) = (OK h, r0).

(** A server, idle or with a request in flight, and the world around it. Every
    call of the store meets an environment of its own; the process may be
    killed at any time, which leaves the disk and empties the cache. *)
Abbreviation node := (option (prog Reply) * World Disk)%type.

Inductive node_step : node -> node -> Prop :=
  | node_arrive env r w : node_step (None, w) (Some (ServeHTTPP Unmarshal s env r), w)
  | node_call (ENV : Environment) p w p' w' :
      pstep p w = Some (p', w') -> node_step (Some p, w) (Some p', w')
  | node_reply x w : node_step (Some (Done x), w) (None, w)
  | node_restart q w : node_step (q, w) (None, mkWorld ∅ (w_store w))
  | node_decay q w d : decays (w_store w) d -> node_step (q, w) (q, mkWorld (w_cache w) d).

(** A request that arrives at an idle server and is served in one environment. *)
Lemma node_serves (ENV : Environment) env r w :
  rtc node_step (None, w) (None, (ServeHTTP Unmarshal s env r w).2).
Proof.
  rewrite <- run_ServeHTTP. eapply rtc_l; [apply (node_arrive env r)|].
  generalize (ServeHTTPP Unmarshal s env r) as p. intros p. revert w.
  induction p as [x|X c k IH]; intros w; [apply rtc_once, node_reply|]. cbn [run_prog].
  destruct (do_op c w) as [x w'] eqn:E. eapply rtc_l; [|apply IH].
  apply (node_call ENV). cbn [pstep]. by rewrite E.
Qed.

Context {e : rs_enc} {parity : list bytes -> list bytes}.
Context {LAWS : RSLaws RS (toECParams (params (objectStore s))) e parity}.
Context (Hp : params_ok (toECParams (params (objectStore s)))) (Hss : 0 < stripeSize (objectStore s) < 2 ^ 63).
Context (Hrec : forall shards msg, rs_Reconstruct e shards <> Panicked msg).

Abbreviation o := (objectStore s).
Abbreviation typed_prog := (obeys (typing o (e:=e) False) anything).

Definition disk_world_typed (w : World Disk) : Prop := cache_ok (w_cache w) /\ disk_typed o (w_store w).

Definition node_inv (c : node) : Prop :=
  match c.1 with Some p => typed_prog p | None => True end /\ disk_world_typed c.2.

Lemma decays_typed d d' : decays d d' -> disk_typed o d -> disk_typed o d'.
Proof.
  intros Hd Ht dir name c Hf Hs h r Hdec.
  destruct (Hd dir name c h r Hf Hs Hdec) as (dir0 & name0 & c0 & r0 & Hf0 & Hs0 & Hdec0). by eapply Ht.
Qed.

Lemma node_inv_step c c' : node_step c c' -> node_inv c -> node_inv c'.
Proof.
  intros [env r w|ENV p w p' w' Hs|x w|q w|q w d Hd] [Hq [Hc Hw]]; cbn [fst snd] in *.
  - split; [|done]. by apply (typed_request s Hp Hss Hrec).
  - by apply (pstep_typed o Hp (TS := FileStore_typed o Hp Hss) p p' w w' Hq (conj Hc Hw)).
  - done.
  - split; [done|]. split; [apply cache_ok_empty|done].
  - split; [done|]. split; [done|]. by eapply decays_typed.
Qed.

(** C12. No failure of the disk makes the server panic. On a FileStore that
    starts empty, through any sequence of requests, valid or not, with any
    system calls failing in any of their store calls, with the process killed
    and restarted at any point, and with files lost, cut or damaged in between
    (as long as no file gets a header that decodes and was not there before):
    every header on the disk keeps a stripe length between 1 and the stripe
    size, the request in flight gets its reply, and so does the next one,
    whatever system calls fail from there on. *)
Theorem faulty_server_type_safe q w :
  rtc node_step (None, mkWorld ∅ empty_disk) (q, w) ->
  disk_typed o (w_store w) /\
  forall ENV : Environment,
    (forall p, q = Some p -> exists reply w', run_prog p w = (OK reply, w')) /\
    (forall env r, exists reply w', ServeHTTP Unmarshal s env r w = (OK reply, w')).
Proof.
  intros Hr. assert (node_inv (q, w)) as [Hq Hw].
  { assert (node_inv (None, mkWorld ∅ empty_disk)) as H0.
    { split; [done|]. split; [apply cache_ok_empty|apply disk_typed_empty]. }
    revert H0. induction Hr; eauto using node_inv_step. }
  cbn [fst snd] in *. split; [apply Hw|]. intros ENV.
  pose proof (fun (p : prog Reply) Hp' => run_typed o Hp (TS := FileStore_typed o Hp Hss) p Hp' w Hw) as Hrun. split.
  - intros p ->. destruct (Hrun p Hq) as (reply & w' & H & _). by exists reply, w'.
  - intros env r. destruct (Hrun _ (typed_request s Hp Hss Hrec Unmarshal env r)) as (reply & w' & H & _).
    rewrite run_ServeHTTP in H. by exists reply, w'.
Qed.
End server.

(** * At work *)

Definition ex_serve (ENV : Environment) (meth : string) (segs : list string) (body : string) (w : World Disk) :=
  ServeHTTP (RS := XorRS) ex_no_parts ex_server ex_env (ex_request meth segs ∅ (bytes_of_string body)) w.

Lemma ex_serves ENV meth segs body w :
  rtc (node_step ex_no_parts ex_server) (None, w) (None, (ex_serve ENV meth segs body w).2).
Proof. unfold ex_serve. exact (node_serves ex_no_parts ex_server ENV ex_env _ w). Qed.

Definition ex_status (x : result Reply) : option Z :=
  match x with OK reply => Some (rp_status reply) | _ => None end.

(** A bucket is created, the disk fills up while an object is put, and the
    server is restarted on a disk that no file can be opened on. *)
Lemma faulty_server_type_safe_witness :
  let full := failing_writes (mkFault (IOError "no space left on device") 5) in
  let x1 := ex_serve no_faults "PUT" ["pics"]%string "" (mkWorld ∅ empty_disk) in
  let x2 := ex_serve full "PUT" ["pics"; "cat"]%string "ABCDEF" x1.2 in
  map ex_status [x1.1; x2.1] = [Some 200; Some 500] /\
  exists reply w', ex_serve failing_opens "GET" ["pics"; "cat"]%string "" (mkWorld ∅ (w_store x2.2)) = (OK reply, w').
Proof.
  intros full x1 x2. split; [vm_compute; reflexivity|].
  assert (forall shards msg, rs_Reconstruct (ReedSolomon := XorRS) 2%nat shards <> Panicked msg) as Hrec.
  { intros shards msg. cbn. by case_match. }
  refine (proj2 (proj2 (faulty_server_type_safe ex_no_parts ex_server (LAWS := ex_laws) ex_params
    (conj eq_refl eq_refl) Hrec None (mkWorld ∅ (w_store x2.2)) _) failing_opens) ex_env _).
  etrans; [apply (ex_serves no_faults)|]. etrans; [apply (ex_serves full)|].
  apply rtc_once, node_restart.
Defined.
