(* ===== verification/DiskApi.v ===== *)
(** What a client can rely on when the server's disk fails: an object whose
    PUT was answered with 200 is safe, over the wire and through later damage. *)
From S2P Require Import Prelude Binary Sha256 EC XorCodec Header ShardStore MemStore ObjectStore ObjectWrite ObjectRead ObjectSpec Contract ObjectSim FileNames FileStore FileRefine FileContract FileFaults Http S3Types Api ApiServe ApiContract ApiExamples ApiRefine TypeSafe FaultServer.

(** * Requests over any store *)

Section answers.
Context {RS : ReedSolomon} {S : Type} {SS : ShardStore S} (Unmarshal : bytes -> option CompleteMultipartUpload).
Context (s : Server) (env : Env).

Abbreviation o := (objectStore s).
Abbreviation Serve := (ServeHTTP Unmarshal s env).

Abbreviation start r w := (mkConn w (rw_Set requestIDHeader (request_id env r) rw_new) 200).

Lemma call_bind_panic {A B} (m : M (World S) A) (f : error + A -> M (Conn S) B) w rw st msg w' :
  m w = (Panicked msg, w') -> (call m ≫= f) (mkConn w rw st) = (Panicked msg, mkConn w' rw st).
Proof. intros H. unfold call, mbind, M_bind. cbn. by rewrite H. Qed.

(** A handler that ends in an error response, or panics. *)
Lemma refused r w w' status code msg :
  auth s (mux Unmarshal s env) (request_id env r) r (start r w)
    = writeXMLError s (request_id env r) status code msg r (start r w') ->
  exists reply, Serve r w = (OK reply, w') /\ rp_status reply = status.
Proof. intros H. eexists. split; [eapply Serve_run; [exact H|reflexivity]|reflexivity]. Qed.

Lemma panicked r w c msg :
  auth s (mux Unmarshal s env) (request_id env r) r (start r w) = (Panicked msg, c) ->
  Serve r w = (Panicked msg, c_world c).
Proof. intros H. unfold ServeHTTP. fold (request_id env r). by rewrite H. Qed.

Lemma route_put r b seg reqID : object_request s r "PUT" b seg ->
  auth s (mux Unmarshal s env) reqID r = handlePutObject (H := M (Conn S)) s reqID r.
Proof. intros Hr. by rewrite (route_object _ _ _ _ _ _ _ _ Hr). Qed.

Lemma route_get r b seg reqID : object_request s r "GET" b seg ->
  auth s (mux Unmarshal s env) reqID r = handleGetObject (H := M (Conn S)) s env reqID r.
Proof. intros Hr. by rewrite (route_object _ _ _ _ _ _ _ _ Hr). Qed.

(** Peel a handler up to its first call of the object store. *)
Ltac enter Hr :=
  destruct (object_request_path _ _ _ _ _ Hr) as (Hpath & Hbne & Hkne);
  first [rewrite (route_put _ _ _ _ Hr) | rewrite (route_get _ _ _ _ Hr)];
  unfold handlePutObject, handleGetObject;
  rewrite Hpath, (bool_decide_eq_false_2 _ Hbne), (bool_decide_eq_false_2 _ Hkne);
  cbn [orb]; unfold check_bucket; on_conn.

(** The bucket cannot be looked up. *)
Lemma bucket_refused r meth b seg w err w0 :
  object_request s r meth b seg -> meth = "PUT"%string \/ meth = "GET"%string ->
  GetObject o (bucketMarkerID b) w = (Err err, w0) ->
  exists reply, Serve r w = (OK reply, w0) /\ 400 <= rp_status reply.
Proof.
  intros Hr Hm Hg. destruct (errors_Is err ErrObjectNotFound) eqn:He.
  - edestruct (refused r w w0 404) as (reply & H1 & H2); [|exists reply; split; [exact H1|lia]].
    destruct Hm as [-> | ->]; enter Hr; rewrite (call_bind_Err _ _ _ _ _ _ _ Hg), He; reflexivity.
  - edestruct (refused r w w0 500) as (reply & H1 & H2); [|exists reply; split; [exact H1|lia]].
    destruct Hm as [-> | ->]; enter Hr; rewrite (call_bind_Err _ _ _ _ _ _ _ Hg), He; reflexivity.
Qed.

(** A PUT is answered with 200 only if PutObject returned nil. *)
Lemma put_answered_200 r b seg w reply w' :
  object_request s r "PUT" b seg -> Serve r w = (OK reply, w') -> rp_status reply = 200 ->
  exists x w0, GetObject o (bucketMarkerID b) w = (OK x, w0) /\
    PutObject o (objectIDOf b (object_of seg)) (rq_Body r) (rq_ContentLength r) w0 = (OK tt, w').
Proof.
  intros Hr H Hst.
  destruct (GetObject o (bucketMarkerID b) w) as [[x|err|msg] w0] eqn:Hg.
  - exists x, w0. split; [done|].
    destruct (Z.ltb_spec (rq_ContentLength r) 0) as [Hl|Hl].
    { edestruct (refused r w w0 411) as (reply' & H1 & H2).
      - enter Hr. rewrite (call_bind_OK _ _ _ _ _ _ _ Hg). destruct (Z.ltb_spec (rq_ContentLength r) 0); [reflexivity|lia].
      - rewrite H in H1. injection H1 as <- <-. lia. }
    destruct (PutObject _ _ _ _ w0) as [[[]|err|msg] w1] eqn:Hput.
    + destruct (Serve_put Unmarshal s env _ _ _ _ _ _ _ Hr Hg Hl Hput) as (reply' & H1 & _). rewrite H in H1. by injection H1 as <- <-.
    + edestruct (refused r w w1 500) as (reply' & H1 & H2).
      * enter Hr. rewrite (call_bind_OK _ _ _ _ _ _ _ Hg). destruct (Z.ltb_spec (rq_ContentLength r) 0); [lia|].
        rewrite (call_bind_Err _ _ _ _ _ _ _ Hput). reflexivity.
      * rewrite H in H1. injection H1 as <- <-. lia.
    + assert (Serve r w = (Panicked msg, w1)) as H1; [|by rewrite H in H1].
      eapply (panicked r w (mkConn w1 _ _)). enter Hr. rewrite (call_bind_OK _ _ _ _ _ _ _ Hg).
      destruct (Z.ltb_spec (rq_ContentLength r) 0); [lia|]. apply (call_bind_panic _ _ _ _ _ _ _ Hput).
  - destruct (bucket_refused r "PUT" b seg w err w0 Hr (or_introl eq_refl) Hg) as (reply' & H1 & H2).
    rewrite H in H1. injection H1 as <- <-. lia.
  - assert (Serve r w = (Panicked msg, w0)) as H1; [|by rewrite H in H1].
    eapply (panicked r w (mkConn w0 _ _)). enter Hr. apply (call_bind_panic _ _ _ _ _ _ _ Hg).
Qed.

(** The object cannot be opened. *)
Lemma get_refused r b seg w x w0 err w1 :
  object_request s r "GET" b seg -> GetObject o (bucketMarkerID b) w = (OK x, w0) ->
  GetObject o (objectIDOf b (object_of seg)) w0 = (Err err, w1) ->
  exists reply, Serve r w = (OK reply, w1) /\ 400 <= rp_status reply.
Proof.
  intros Hr Hb Hg. destruct (errors_Is err ErrObjectNotFound) eqn:He.
  - edestruct (refused r w w1 404) as (reply & H1 & H2); [|exists reply; split; [exact H1|lia]].
    enter Hr. rewrite (call_bind_OK _ _ _ _ _ _ _ Hb), (call_bind_Err _ _ _ _ _ _ _ Hg), He. reflexivity.
  - edestruct (refused r w w1 500) as (reply & H1 & H2); [|exists reply; split; [exact H1|lia]].
    enter Hr. rewrite (call_bind_OK _ _ _ _ _ _ _ Hb), (call_bind_Err _ _ _ _ _ _ _ Hg), He. reflexivity.
Qed.
End answers.

(** * GetObject *)

Section get.
Context {RS : ReedSolomon} {S : Type} {SS : ShardStore S} (o : ObjectStore).
Context {e : rs_enc} {parity : list bytes -> list bytes} {LAWS : RSLaws RS (toECParams (params o)) e parity}.
Context (Hp : params_ok (toECParams (params o))).

(** What it returns does not depend on the encoder cache. *)
Lemma GetObject_any_cache id c c' st : cache_ok c -> cache_ok c' ->
  (GetObject o id (mkWorld c st)).1 = (GetObject o id (mkWorld c' st)).1.
Proof.
  intros Hc Hc'. unfold GetObject. cbn [w_store]. destruct (ss_ListObjectShards st id) as [[|k keys]|err|msg]; [|..|done|done].
  - by destruct (ss_ReadMarker st id).
  - destruct (lastStripeLen _ _ _ _); [|done..].
    destruct (EncoderFor_ok _ c e Hc Hp (law_new (p:=toECParams (params o)))) as (c1 & He & _).
    destruct (EncoderFor_ok _ c' e Hc' Hp (law_new (p:=toECParams (params o)))) as (c2 & He' & _).
    unfold encoder, mbind, M_bind, on_cache. cbn [w_cache w_store]. by rewrite He, He'.
Qed.

Lemma GetObject_no_panic id (w : World S) : cache_ok (w_cache w) ->
  ends (ss_ListObjectShards (w_store w) id) -> ends (ss_ReadMarker (w_store w) id) ->
  forall msg, (GetObject o id w).1 <> Panicked msg.
Proof.
  intros Hc Hl Hm msg. unfold GetObject. destruct Hl as [[[|k keys] ->]|[err ->]]; [|..|done].
  - by destruct Hm as [[meta ->]|[err ->]].
  - unfold lastStripeLen. pose proof (first_valid_len_no_panic (w_store w) id (max_stripe (k :: keys))
      (seqZ 0 (ec_ShardCount (params o)))) as Hnp.
    destruct (first_valid_len _ _ _ _) as [lastLen|err|q]; [|done|by destruct (Hnp q)].
    destruct (EncoderFor_ok _ (w_cache w) e Hc Hp (law_new (p:=toECParams (params o)))) as (c' & He & _).
    unfold encoder, mbind, M_bind, on_cache. by rewrite He.
Qed.
End get.

(** * The server on a failing disk *)

Section disk.
Context {RS : ReedSolomon} (Unmarshal : bytes -> option CompleteMultipartUpload).
Context (s : Server) (env : Env).

Abbreviation o := (objectStore s).

Context {e : rs_enc} {parity : list bytes -> list bytes} {LAWS : RSLaws RS (toECParams (params o)) e parity}.
Context (Hp : params_ok (toECParams (params o))) (Hss : 0 < stripeSize o < 2 ^ 63).
Context (I : string -> Prop) (HI : ids_ok I).

(** A response to GET with all of [data] in it. *)
Definition delivers (r : Request) (data : bytes) (reply : Reply) : Prop :=
  rp_status reply = (if bool_decide (header_Get r "Range" = ""%string) then 200 else 206) /\
  rp_body reply = (if decide (data = []) then [] else [Raw data]).

Abbreviation GetOn ENV := (GetObject (SS := @FileStore_ShardStore ENV)).
Abbreviation ReadAllOn ENV := (ReadAll (SS := @FileStore_ShardStore ENV)).
Abbreviation ServeOn ENV := (ServeHTTP (SS := @FileStore_ShardStore ENV) Unmarshal s env).

(** GET of an object that GetObject and reading give back on a disk where no
    call fails. *)
Lemma get_through_faults (ENV : Environment) (Henv : honest ENV) r b seg c c1 d rd data w1 :
  object_request s r "GET" b seg -> cache_ok c -> cache_ok c1 ->
  GetOn no_faults o (objectIDOf b (object_of seg)) (mkWorld c1 d) = (OK (rd, len data), w1) ->
  ReadAllOn no_faults (e_fuel env) (e_sizes env) 0 rd d = OK (data, None) ->
  exists reply w', ServeOn ENV r (mkWorld c d) = (OK reply, w') /\
    w_store w' = d /\
    (400 <= rp_status reply \/ exists p, p `prefix_of` data /\ delivers r p reply) /\
    (ENV = no_faults -> forall x w0, GetOn ENV o (bucketMarkerID b) (mkWorld c d) = (OK x, w0) -> delivers r data reply).
Proof.
  intros Hr Hc Hc1 Hget Hread. set (id := objectIDOf _ _) in *.
  pose proof (GetObject_store (SS := @FileStore_ShardStore ENV) o (bucketMarkerID b) (mkWorld c d)) as Hst0.
  pose proof (GetObject_cache (SS := @FileStore_ShardStore ENV) o Hp (bucketMarkerID b) (mkWorld c d) Hc) as Hc0.
  destruct (GetOn ENV o (bucketMarkerID b) (mkWorld c d)) as [[x|err|msg] w0] eqn:Hb; cbn [snd w_store] in Hst0, Hc0.
  - assert ((GetOn no_faults o id w0).1 = OK (rd, len data)) as Hget0.
    { destruct w0 as [c0 d0]. cbn in Hst0, Hc0. subst d0.
      by rewrite (GetObject_any_cache o Hp id c0 c1 d Hc0 Hc1), Hget. }
    pose proof (GetObject_store (SS := @FileStore_ShardStore ENV) o id w0) as Hst1.
    destruct (GetObject_faulty Henv o id w0) as [E|(err & E)].
    + destruct (GetOn ENV o id w0) as [res w2] eqn:Hg. rewrite <- E in Hget0. cbn in Hget0, Hst1. subst res.
      rewrite <- Hst0 in Hread. rewrite <- Hst1 in Hread.
      destruct (ReadAll_faulty Henv (e_sizes env) (w_store w2) data _ _ _ Hread) as (p & err & Hr1 & Hpre & _).
      destruct (Serve_get Unmarshal s env r b seg _ x w0 w2 rd _ p err Hr Hb Hg Hr1) as (reply & Hs & H1 & H2).
      exists reply, w2. split; [done|]. split; [congruence|]. split; [right; by exists p|].
      intros HE _ _ _. rewrite HE, Hread in Hr1. by injection Hr1 as <- <-.
    + destruct (get_refused Unmarshal s env r b seg _ x w0 err _ Hr Hb E) as (reply & Hs & H1).
      exists reply, w0. split; [done|]. split; [done|]. split; [by left|].
      intros HE _ _ _. rewrite HE in E. by rewrite E in Hget0.
  - destruct (bucket_refused Unmarshal s env r "GET" b seg _ err w0 Hr (or_intror eq_refl) Hb) as (reply & Hs & H1).
    exists reply, w0. split; [done|]. split; [done|]. split; [by left|]. by intros _ x w1' [=].
  - exfalso. apply (GetObject_no_panic o Hp (bucketMarkerID b) (mkWorld c d) Hc) with msg;
      [apply ListObjectShards_ends|apply ReadMarker_ends|by rewrite Hb].
Qed.
End disk.

(** * At work *)

Definition ex_bucket_disk : Disk :=
  w_store (PutObject (RS := XorRS) (SS := @FileStore_ShardStore no_faults) ex_store (bucketMarkerID "pics") (NewReader []) 0
    (mkWorld ∅ empty_disk)).2.

Definition ex_disk_ids : list string := [bucketMarkerID "pics"; objectIDOf "pics" "cat"].

Lemma ex_disk_ids_ok : ids_ok (fun id => id ∈ ex_disk_ids).
Proof.
  apply ids_ok_list; [|apply (bool_decide_unpack _); vm_compute; exact Logic.I].
  repeat constructor; unfold id_ok; vm_compute; congruence.
Qed.

Lemma ex_bucket_disk_rel : exists m, disk_rel (fun id => id ∈ ex_disk_ids) ex_bucket_disk m /\
  no_stale m (objectIDOf "pics" "cat") (count_stripes ex_store data1).
Proof.
  destruct ex_disk_ids_ok as [Hok Hinj]. pose proof (FileStore_sim _ Hok Hinj) as SIM.
  destruct (PutObject_sim (LAWS := ex_laws) (SIM := SIM) ex_store ex_params ltac:(done) (bucketMarkerID "pics") (NewReader []) 0
    ltac:(set_solver) ltac:(done) (mkWorld ∅ empty_disk) (mkWorld ∅ NewMemStore) (conj eq_refl (disk_rel_empty _)) cache_ok_empty)
    as (_ & _ & R).
  eexists. split; [exact R|]. intros key _ [x Hx]. vm_compute in Hx. discriminate.
Qed.

