(* ===== verification/Main.v ===== *)
(** cmd/shardstore/main.go, internal/logging and internal/version: the
    subcommands, how a command line becomes a server, and the life of the
    server process until it exits. *)
From stdpp Require Import relations.
From S2P Require Import Prelude Binary Sha256 EC Header ShardStore ObjectStore FileNames FileStore Http S3Types Api ApiServe ApiContract Config.

(** * internal/version *)

(** The three variables the linker may set. *)
Record BuildInfo := mkBuild { Version : string; Commit : string; BuildTime : string }.

Definition default_build : BuildInfo := mkBuild "0.1.0" "dev" "unknown".

Definition version_String (b : BuildInfo) : string :=
  "shardstore v" +:+ Version b +:+ " (commit " +:+ Commit b +:+ ", built " +:+ BuildTime b +:+ ")".

(** * internal/logging *)

Inductive LogHandler := TextHandler (level : Z) | JSONHandler (level : Z).

Definition logging_New (level : Z) (json : bool) : LogHandler :=
  let h := TextHandler level in
  if json then JSONHandler level else h.

(** A context is a chain of values; its keys are compared by type and value,
    and ctxKey is a type of its own. *)
Inductive ctx_key := ctxKey | OtherKey (key : string).
#[global] Instance ctx_key_dec : EqDecision ctx_key.
Proof. solve_decision. Defined.

Inductive Context := Background | WithValue (parent : Context) (key : ctx_key) (val : string).

Fixpoint ctx_Value (ctx : Context) (key : ctx_key) : option string :=
  match ctx with
  | Background => None
  | WithValue parent k v => if decide (k = key) then Some v else ctx_Value parent key
  end.

Definition WithRequestID (ctx : Context) (id : string) : Context := WithValue ctx ctxKey id.

Definition RequestID (ctx : Context) : string :=
  match ctx_Value ctx ctxKey with Some v => v | None => "" end.

(** The middleware requestID puts the id into the context, and the access log
    and the handlers take it out again, whatever others added to the context:
    this is why Api.v passes it as an argument. *)
Lemma RequestID_WithRequestID ctx id kvs :
  Forall (fun kv => kv.1 <> ctxKey) kvs ->
  RequestID (fold_left (fun ctx kv => WithValue ctx kv.1 kv.2) kvs (WithRequestID ctx id)) = id.
Proof.
  intros H. assert (forall ctx, RequestID ctx = id ->
    RequestID (fold_left (fun ctx kv => WithValue ctx kv.1 kv.2) kvs ctx) = id) as Hgo; [|by apply Hgo].
  clear ctx. induction H as [|[k v] kvs Hk _ IH]; intros ctx Hc; [done|]. apply IH.
  unfold RequestID in *. cbn. by rewrite decide_False by done.
Qed.

(** * Subcommands *)

Inductive output := Stdout (line : string) | Usage | Stderr (line : string).

(** run: what it prints, and its error. [runServer] is the function of that
    name, as what it returns for its arguments. *)
Definition run (b : BuildInfo) (runServer : list string -> option error) (args : list string)
    : list output * option error :=
  match args with
  | [] => ([Usage], None)
  | arg :: rest =>
      if bool_decide (arg = "server"%string) then ([], runServer rest)
      else if bool_decide (arg = "version"%string) then ([Stdout (version_String b)], None)
      else if bool_decide (arg = "help"%string) || bool_decide (arg = "-h"%string)
              || bool_decide (arg = "--help"%string) then ([Usage], None)
      else ([Usage], Some (Errorf "unknown subcommand %q"))
  end.

(** main: the output, and the exit status. The error is printed with "%v". *)
Definition main (b : BuildInfo) (runServer : list string -> option error) (args : list string)
    : list output * Z :=
  match run b runServer args with
  | (out, Some _) => (out ++ [Stderr "shardstore: %v"], 1)
  | (out, None) => (out, 0)
  end.

(** * runServer, up to the listener *)

(** What the start-up changes: the directories os.MkdirAll has made, each as
    the elements of its path, in order, and the disk, which is what is below
    the objects directory. *)
Record Host := mkHost { host_dirs : list (list string); host_disk : Disk }.

(** http.Server, with its timeout in nanoseconds. *)
Record HttpServer := mkHttpServer { srv_Addr : string; srv_Handler : Server; srv_ReadHeaderTimeout : Z }.

Section setup.
Context {ENV : Environment} (Getenv : string -> string) (Hostname : result string).
(** The error of os.MkdirAll on a path, if it fails. *)
Context (MkdirAll : list string -> option error).

Definition mkdir_all (path : list string) : M Host unit := fun h =>
  match MkdirAll path with
  | Some err => (Err err, h)
  | None => (OK tt, mkHost (host_dirs h ++ [path]) (host_disk h))
  end.

(** storage.NewFileStore(root) makes the objects directory. *)
Definition new_file_store (root : string) : M Host unit := fun h =>
  match NewFileStore (host_disk h) with
  | (OK tt, d) => (OK tt, mkHost (host_dirs h ++ [[root; "objects"%string]]) d)
  | (Err err, d) => (Err err, mkHost (host_dirs h) d)
  | (Panicked msg, d) => (Panicked msg, mkHost (host_dirs h) d)
  end.

Definition setup (args : list string) : M Host (Config * LogHandler * HttpServer) :=
  cfg ← lift (Parse Getenv Hostname args);
  let logger := logging_New (LogLevel cfg) (LogJSON cfg) in
  wrapM "create data dir" (mkdir_all [DataDir cfg]);;
  wrapM "create shard store" (new_file_store (DataDir cfg));;
  let objectStore := server_store cfg in
  mret (cfg, logger,
    mkHttpServer (ListenAddr cfg) (mkServer (NodeID cfg) objectStore (PermissiveAuth cfg)) (10 * 10 ^ 9)).
End setup.

(** * runServer, from the listener on *)

(** http.ErrServerClosed *)
Definition ErrServerClosed : error := Errorf "http: Server closed".

(** The goroutine that runs ListenAndServe and sends its result. *)
Inductive listener := Listening | Sending (err : error) | Sent.

(** The main goroutine: in the select, in srv.Shutdown, or returned. *)
Inductive main_pc := Selecting | ShuttingDown | ReturnedWith (err : option error).

Record process := mkProcess {
  pc_main : main_pc;
  pc_listener : listener;
  errCh : option error;        (* capacity 1 *)
  signalled : bool;            (* SIGINT or SIGTERM came: ctx is done *)
  closed : bool;               (* srv.Shutdown was called *)
  drained : option (option error); (* what srv.Shutdown returned *)
}.

Definition started : process := mkProcess Selecting Listening None false false None.

(** The case of the select on errCh. *)
Definition listen_result (err : error) : option error :=
  if negb (errors_Is err ErrServerClosed) then Some (Wrapf "api server" err) else None.

(** What happens to the process: the first signal, and ListenAndServe failing
    by itself, with an error other than ErrServerClosed. *)
Inductive event_step (p : process) : process -> Prop :=
  | step_signal :
      signalled p = false ->
      event_step p (mkProcess (pc_main p) (pc_listener p) (errCh p) true (closed p) (drained p))
  | step_listen_fails err :
      pc_listener p = Listening -> errors_Is err ErrServerClosed = false ->
      event_step p (mkProcess (pc_main p) (Sending err) (errCh p) (signalled p) (closed p) (drained p)).

(** What it does itself. ListenAndServe returns ErrServerClosed after Shutdown;
    Shutdown returns nil when all connections are idle, or an error, at the
    latest that of its context after ten seconds. *)
Inductive own_step (p : process) : process -> Prop :=
  | step_listen_closed :
      pc_listener p = Listening -> closed p = true ->
      own_step p (mkProcess (pc_main p) (Sending ErrServerClosed) (errCh p) (signalled p) (closed p) (drained p))
  | step_send err :
      pc_listener p = Sending err -> errCh p = None ->
      own_step p (mkProcess (pc_main p) Sent (Some err) (signalled p) (closed p) (drained p))
  | step_select_err err :
      pc_main p = Selecting -> errCh p = Some err ->
      own_step p (mkProcess (ReturnedWith (listen_result err)) (pc_listener p) None
                    (signalled p) (closed p) (drained p))
  | step_select_signal :
      pc_main p = Selecting -> signalled p = true ->
      own_step p (mkProcess ShuttingDown (pc_listener p) (errCh p) (signalled p) true (drained p))
  | step_shutdown r :
      pc_main p = ShuttingDown ->
      own_step p (mkProcess (ReturnedWith r) (pc_listener p) (errCh p) (signalled p) (closed p) (Some r)).

Definition proc_step (p p' : process) : Prop := event_step p p' \/ own_step p p'.

Definition runs_to (p : process) : Prop := rtc proc_step started p.

(** * The life of the process *)

Definition main_inv (p : process) : Prop :=
  match pc_main p with
  | Selecting => closed p = false /\ drained p = None
  | ShuttingDown => closed p = true /\ signalled p = true /\ drained p = None
  | ReturnedWith r =>
      (drained p = None /\ exists err, r = Some (Wrapf "api server" err) /\ errors_Is err ErrServerClosed = false)
      \/ (signalled p = true /\ drained p = Some r)
  end.

(** The channel is empty until the listener has sent, and full after that
    until main receives; before Shutdown, ErrServerClosed is not in it. *)
Definition listener_inv (p : process) : Prop :=
  match pc_listener p with
  | Sent => pc_main p = Selecting -> is_Some (errCh p)
  | _ => errCh p = None
  end /\
  (closed p = false -> forall err,
    pc_listener p = Sending err \/ errCh p = Some err -> errors_Is err ErrServerClosed = false).

Lemma main_inv_step p p' : main_inv p -> listener_inv p -> proc_step p p' -> main_inv p'.
Proof.
  unfold main_inv, listener_inv. intros Hm [_ He] [Hs|Hs]; destruct p as [m l ch sg cl dr];
    destruct Hs; cbn in *; subst; cbn in *.
  - destruct m; [done| |destruct Hm as [?|[? ?]]; [by left|by right]]. by destruct Hm as (? & _ & ?).
  - done.
  - done.
  - done.
  - destruct Hm as [-> ->]. left. split; [done|]. specialize (He eq_refl err (or_intror eq_refl)).
    exists err. unfold listen_result. by rewrite He.
  - by destruct Hm as [_ ->].
  - right. by destruct Hm as (_ & ? & _).
Qed.

Lemma listener_inv_step p p' : main_inv p -> listener_inv p -> proc_step p p' -> listener_inv p'.
Proof.
  unfold main_inv, listener_inv. intros Hm [Hl He] [Hs|Hs]; destruct p as [m l ch sg cl dr];
    destruct Hs; cbn in *; subst; cbn in *.
  - by split.
  - split; [done|]. intros Hcl err' [[= <-]|?]; [done|eauto].
  - by split.
  - split; [by eexists|]. intros Hcl err' [?|[= <-]]; [done|]. eapply (He Hcl). by left.
  - split; [by destruct l|]. intros Hcl err' [?|?]; [|done]. eapply (He Hcl). by left.
  - split; [by destruct l|done].
  - split; [by destruct l|done].
Qed.

Lemma proc_inv p : runs_to p -> main_inv p /\ listener_inv p.
Proof.
  unfold runs_to. intros H. assert (main_inv started /\ listener_inv started) as H0.
  { unfold main_inv, listener_inv. cbn. split_and!; [done..|]. by intros _ err [|]. }
  revert H0. induction H as [|p p' p2 Hs _ IH]; [done|]. intros [Hm Hl]. apply IH.
  split; [by eapply main_inv_step|by eapply listener_inv_step].
Qed.

(** C26. How runServer ends, in every run of the process. It returns nil exactly
    when a signal came and Shutdown drained the server; the error of a failed
    Shutdown and, wrapped, the error of a failed listener are the only others.
    So the errCh case of the select never returns nil: its test against
    ErrServerClosed always succeeds. *)
Theorem runServer_returns p r :
  runs_to p -> pc_main p = ReturnedWith r ->
  (r = None <-> drained p = Some None) /\
  (forall x, drained p = Some x -> r = x /\ signalled p = true) /\
  (drained p = None -> exists err, r = Some (Wrapf "api server" err) /\ errors_Is err ErrServerClosed = false).
Proof.
  intros Hp Hr. destruct (proc_inv p Hp) as [Hm _]. unfold main_inv in Hm. rewrite Hr in Hm.
  destruct Hm as [(-> & err & -> & He)|[-> ->]].
  - split_and!; [done|done|eauto].
  - split_and!; [|by intros x [= <-]|done]. split; congruence.
Qed.

(** The steps left to do. *)
Definition steps_left (p : process) : nat :=
  (match pc_main p with Selecting => 2 | ShuttingDown => 1 | ReturnedWith _ => 0 end
   + match pc_listener p with Listening => 2 | Sending _ => 1 | Sent => 0 end
   + if signalled p then 0 else 1)%nat.

Lemma proc_step_less p p' : proc_step p p' -> (steps_left p' < steps_left p)%nat.
Proof.
  intros [Hs|Hs]; destruct Hs; unfold steps_left; cbn;
    repeat match goal with
    | H : pc_main p = _ |- _ => rewrite H
    | H : pc_listener p = _ |- _ => rewrite H
    | H : signalled p = _ |- _ => rewrite H
    end; lia.
Qed.

Lemma nsteps_less n p p' : nsteps proc_step n p p' -> (n + steps_left p' <= steps_left p)%nat.
Proof. induction 1 as [|n p p1 p' Hs _ IH]; [done|]. apply proc_step_less in Hs. lia. Qed.

Lemma steps_left_5 p : (steps_left p <= 5)%nat.
Proof. unfold steps_left. repeat case_match; lia. Qed.

(** C27. The process ends. No run of it takes more than five steps; and once a
    signal has come or the listener has failed, it takes steps of its own until
    runServer has returned: neither the goroutine that sends on errCh nor the
    select blocks for ever, whichever comes first. *)
Theorem runServer_ends p :
  (forall n p', nsteps proc_step n p p' -> (n <= 5)%nat) /\
  (runs_to p -> signalled p = true \/ pc_listener p <> Listening ->
   exists p' r, rtc own_step p p' /\ pc_main p' = ReturnedWith r).
Proof.
  split.
  { intros n p' Hn. pose proof (nsteps_less _ _ _ Hn). pose proof (steps_left_5 p). lia. }
  remember (steps_left p) as n eqn:Hn. revert p Hn. induction (lt_wf n) as [n _ IH]. intros p -> Hp He.
  assert (forall p', own_step p p' -> signalled p' = true \/ pc_listener p' <> Listening ->
    exists p2 r, rtc own_step p p2 /\ pc_main p2 = ReturnedWith r) as Hgo.
  { intros p' Hs He'. destruct (IH _ (proc_step_less _ _ (or_intror Hs)) p' eq_refl) as (p2 & r & H1 & H2); [|done|].
    - eapply rtc_r; [exact Hp|by right].
    - exists p2, r. split; [by eapply rtc_l|done]. }
  destruct (proc_inv p Hp) as [_ [Hl _]].
  destruct (pc_main p) as [| |r] eqn:Hm.
  - destruct (signalled p) eqn:Hsg; [eapply Hgo; [by apply step_select_signal|cbn; by left]|].
    destruct He as [|He]; [done|]. destruct (pc_listener p) as [|err|] eqn:El; [done| |].
    + eapply Hgo; [by eapply step_send|by right].
    + destruct (Hl eq_refl) as [err Herr]. eapply Hgo; [by eapply step_select_err|]. right. cbn. by rewrite El.
  - eapply Hgo; [by apply (step_shutdown p None)|cbn; tauto].
  - exists p, r. split; [apply rtc_refl|done].
Qed.

(** A server answers the health check, whatever its authentication. *)
Lemma health_reply {RS : ReedSolomon} {S} {SS : ShardStore S} Unmarshal env s r (w : World S) :
  rq_segments r = ["_internal"; "health"; "check"]%string -> rq_Method r = "GET"%string ->
  exists reply, ServeHTTP Unmarshal s env r w = (OK reply, w) /\ rp_status reply = 200 /\
    rp_body reply = [JSONHealth (mkHealth "ok" (nodeID s))].
Proof.
  intros Hseg Hmeth. unfold ServeHTTP.
  assert (URL_Path r = "/_internal/health/check"%string) as Hpath by (unfold URL_Path; by rewrite Hseg).
  rewrite auth_passes by (unfold passes_auth; by rewrite Hpath, orb_true_r).
  unfold mux. rewrite Hseg, Hmeth, (bool_decide_eq_true_2 _ eq_refl).
  unfold handleHealth, writeJSON, Set_, WriteHeader, Write. cbn. eexists. split_and!; reflexivity.
Qed.

(** C25. A command line starts the server its configuration describes, or none.
    The server has exactly the numbers of data and parity shards and the stripe
    size of the configuration Parse makes of the command line (a scheme
    ec.Params.Validate accepts, so the panic in ObjectStore.encoder cannot come
    from it), its address and authentication mode, the logger it asks for, and a
    health check that answers 200 with its node id whatever the credentials and
    the state; the data directory and the objects directory in it have been
    made, in this order, and what was stored there is kept. Otherwise the error
    is that of the first step that failed: a command line that is not accepted
    makes no directory, nor does a data directory that cannot be made; when the
    objects directory cannot be made the data directory stays. No command line
    makes the start-up panic. *)
Theorem server_as_configured {RS : ReedSolomon} {S} {SS : ShardStore S} {ENV : Environment}
    Getenv Hostname MkdirAll args h :
  match setup Getenv Hostname MkdirAll args h with
  | (OK (cfg, logger, srv), h') =>
      let s := srv_Handler srv in
      Parse Getenv Hostname args = OK cfg /\
      host_dirs h' = host_dirs h ++ [[DataDir cfg]; [DataDir cfg; "objects"]]%string /\
      host_disk h' = host_disk h /\
      params (objectStore s) = mkECParams (ECDataShards cfg) (ECParityShards cfg) /\
      Validate (toECParams (params (objectStore s))) = None /\
      0 < stripeSize (objectStore s) /\ stripeSize (objectStore s) = StripeSize cfg /\
      srv_Addr srv = ListenAddr cfg /\
      permissiveAuth s = PermissiveAuth cfg /\ nodeID s <> ""%string /\
      logger = (if LogJSON cfg then JSONHandler (LogLevel cfg) else TextHandler (LogLevel cfg)) /\
      forall Unmarshal env r (w : World S),
        rq_segments r = ["_internal"; "health"; "check"]%string -> rq_Method r = "GET"%string ->
        exists reply, ServeHTTP Unmarshal s env r w = (OK reply, w) /\ rp_status reply = 200 /\
          rp_body reply = [JSONHealth (mkHealth "ok" (NodeID cfg))]
  | (Err err, h') =>
      (Parse Getenv Hostname args = Err err /\ h' = h) \/
      exists cfg, Parse Getenv Hostname args = OK cfg /\ host_disk h' = host_disk h /\
        ((exists e, MkdirAll [DataDir cfg] = Some e /\ err = Wrapf "create data dir" e /\
            host_dirs h' = host_dirs h) \/
         (exists f, env (host_disk h) SysMkdirRoot = Some f /\ MkdirAll [DataDir cfg] = None /\
            err = Wrapf "create shard store" (Wrapf "storage: create root" (f_err f)) /\
            host_dirs h' = host_dirs h ++ [[DataDir cfg]]))
  | (Panicked msg, h') => False
  end.
Proof.
  unfold setup, lift. unfold mbind at 1, M_bind at 1.
  destruct (Parse Getenv Hostname args) as [cfg|err|msg] eqn:Hcfg;
    [|cbn; left; done|by destruct (Parse_no_panic _ _ _ _ Hcfg)].
  unfold wrapM, mkdir_all, mbind, M_bind. destruct (MkdirAll [DataDir cfg]) as [err|] eqn:Hdir.
  { cbn. right. exists cfg. split_and!; [done..|]. left. by exists err. }
  unfold new_file_store, NewFileStore, wrapM, sys. cbn [wrap_err host_disk host_dirs].
  destruct (env (host_disk h) SysMkdirRoot) as [f|] eqn:Hf; cbn [wrap_err host_disk host_dirs].
  { right. exists cfg. split_and!; [done..|]. right. by exists f. }
  destruct (Parse_accepts _ _ _ _ Hcfg) as (Hnode & _ & H1 & H2 & H3 & _).
  cbn [mret M_ret host_disk host_dirs srv_Handler]. rewrite <- (assoc_L (++)). split_and!; [done..|].
  intros Unmarshal env0 r w Hseg Hmeth. by apply health_reply.
Qed.

(** The exit status: 0 for the help texts, the version, and a server that
    returned nil. *)
Lemma main_status b runServer args :
  (main b runServer args).2 = 0 <->
  match args with
  | [] => True
  | arg :: rest =>
      arg ∈ ["version"; "help"; "-h"; "--help"]%string \/ (arg = "server"%string /\ runServer rest = None)
  end.
Proof.
  unfold main, run. destruct args as [|arg rest]; [done|]. rewrite !elem_of_cons, elem_of_nil.
  case_bool_decide as H1; [subst; destruct (runServer rest); cbn; intuition congruence|].
  do 4 (case_bool_decide; cbn [orb fst snd]; [tauto|]). cbn. intuition congruence.
Qed.

(** * At work *)

Lemma runServer_returns_witness :
  let p := mkProcess (ReturnedWith None) Sent (Some ErrServerClosed) true true (Some None) in
  runs_to p /\ drained p = Some None.
Proof.
  intros p. assert (runs_to p) as Hp.
  { unfold runs_to, started. eapply rtc_l; [left; by apply step_signal|].
    eapply rtc_l; [right; by apply step_select_signal|]. eapply rtc_l; [right; by apply step_listen_closed|].
    eapply rtc_l; [right; by eapply step_send|]. eapply rtc_l; [right; by apply (step_shutdown _ None)|].
    apply rtc_refl. }
  split; [exact Hp|]. by apply (proj1 (runServer_returns p None Hp eq_refl)).
Defined.

(** A command line, and what it starts. *)
Example setup_example :
  setup (ENV := no_faults) (fun _ => ""%string) (OK "node-1"%string) (fun _ => None) ex_args (mkHost [] empty_disk)
  = (OK (mkConfig "node-1" ":9000" "data" 0 false 10 2 1024 true "info", TextHandler 0,
         mkHttpServer ":9000" (mkServer "node-1" (NewObjectStore (mkECParams 10 2) 1024) true) 10000000000),
     mkHost [["data"]; ["data"; "objects"]]%string empty_disk).
Proof. vm_compute. reflexivity. Qed.
